(** * Secure-storage trusted applications: chunked write/read and streaming cipher

    A shallow embedding of the two trusted applications (TAs) of the repository:

    - [Storage]: [code/cpu and time cal/secure_storage/ta/secure_storage_ta.c]
      (single-shot write, chunked write session, streaming read, delete);
      the [read_raw_object] of [code/1MB/ta.c] is the same function, text for text.
    - [Crypto]: [code/enc-1mb/secure_storage/ta/secure_storage_ta.c]
      (AES-CBC chunk encryption/decryption session).

    The TAs run on top of the GlobalPlatform TEE Internal Core API.  That API is
    not part of the repository; it is modelled here as an executable world with
    a persistent object store, handle tables, a clock, a random source and a
    script of environment faults, so that every error branch of the TA code can
    be reached.  A call of the API that the real TEE answers with a panic (the TA
    is killed) yields [None]. *)

From stdpp Require Import gmap list fin_maps countable.
From Stdlib Require Import ZArith Lia.
From Stdlib.Strings Require Import Byte.

Local Open Scope Z_scope.

(** ** Bytes as map keys *)

#[global] Instance byte_eq_dec : EqDecision byte.
Proof.
  intros a b. destruct (N.eq_dec (Byte.to_N a) (Byte.to_N b)) as [H|H].
  - left. apply (f_equal Byte.of_N) in H. rewrite !Byte.of_to_N in H. congruence.
  - right. congruence.
Defined.

#[global] Instance byte_countable : Countable byte :=
  inj_countable Byte.to_N Byte.of_N Byte.of_to_N.

(** ** Result codes, parameter types, data flags (tee_api_defines.h) *)

Definition TEE_Result := Z.

Definition TEE_SUCCESS : TEE_Result := 0x00000000.
Definition TEE_ERROR_CORRUPT_OBJECT : TEE_Result := 0xF0100001.
Definition TEE_ERROR_GENERIC : TEE_Result := 0xFFFF0000.
Definition TEE_ERROR_ACCESS_CONFLICT : TEE_Result := 0xFFFF0003.
Definition TEE_ERROR_BAD_PARAMETERS : TEE_Result := 0xFFFF0006.
Definition TEE_ERROR_BAD_STATE : TEE_Result := 0xFFFF0007.
Definition TEE_ERROR_ITEM_NOT_FOUND : TEE_Result := 0xFFFF0008.
Definition TEE_ERROR_NOT_SUPPORTED : TEE_Result := 0xFFFF000A.
Definition TEE_ERROR_OUT_OF_MEMORY : TEE_Result := 0xFFFF000C.
Definition TEE_ERROR_SHORT_BUFFER : TEE_Result := 0xFFFF0010.
Definition TEE_ERROR_OVERFLOW : TEE_Result := 0xFFFF300F.
Definition TEE_ERROR_STORAGE_NO_SPACE : TEE_Result := 0xFFFF3041.

Definition TEE_PARAM_TYPE_NONE : Z := 0.
Definition TEE_PARAM_TYPE_VALUE_INPUT : Z := 1.
Definition TEE_PARAM_TYPE_VALUE_OUTPUT : Z := 2.
Definition TEE_PARAM_TYPE_MEMREF_INPUT : Z := 5.
Definition TEE_PARAM_TYPE_MEMREF_OUTPUT : Z := 6.

Definition TEE_PARAM_TYPES (t0 t1 t2 t3 : Z) : Z :=
  Z.lor (Z.lor (Z.lor t0 (Z.shiftl t1 4)) (Z.shiftl t2 8)) (Z.shiftl t3 12).

Definition TEE_DATA_FLAG_ACCESS_READ : Z := 0x00000001.
Definition TEE_DATA_FLAG_ACCESS_WRITE : Z := 0x00000002.
Definition TEE_DATA_FLAG_ACCESS_WRITE_META : Z := 0x00000004.
Definition TEE_DATA_FLAG_SHARE_READ : Z := 0x00000010.
Definition TEE_DATA_FLAG_SHARE_WRITE : Z := 0x00000020.
Definition TEE_DATA_FLAG_OVERWRITE : Z := 0x00000400.

Definition TEE_STORAGE_PRIVATE : Z := 0x00000001.
Definition TEE_DATA_MAX_POSITION : Z := 0xFFFFFFFF.

(** Handles are pointers in C; here they are numbers, [0] being the null handle. *)
Definition TEE_HANDLE_NULL : N := 0%N.

(** [#define CHUNK_SIZE (16 * 1024)] in both TAs. *)
Definition CHUNK_SIZE : Z := 16 * 1024.

Definition has_flag (flags f : Z) : bool := negb (Z.land flags f =? 0).

(** Unsigned [bits]-bit arithmetic of C. *)
Definition wrap (bits x : Z) : Z := x mod 2 ^ bits.

(** ** Command parameters

    [TEE_Param] is a C union of a memory reference and a pair of values; the two
    views are kept side by side.  A command carries four of them. *)

Record TEE_Param := mkParam {
  memref_buffer : list byte;
  memref_size : Z;
  value_a : Z;
  value_b : Z
}.

Record TEE_Params := mkParams {
  prm0 : TEE_Param;
  prm1 : TEE_Param;
  prm2 : TEE_Param;
  prm3 : TEE_Param
}.

Definition no_param : TEE_Param := mkParam [] 0 0 0.
Definition memref_param (buf : list byte) : TEE_Param :=
  mkParam buf (Z.of_nat (length buf)) 0 0.
Definition value_param (a : Z) : TEE_Param := mkParam [] 0 a 0.

Definition set_memref (buf : list byte) (sz : Z) (p : TEE_Param) : TEE_Param :=
  mkParam buf sz (value_a p) (value_b p).
Definition set_value_a (a : Z) (p : TEE_Param) : TEE_Param :=
  mkParam (memref_buffer p) (memref_size p) a (value_b p).

Definition set_prm0 (p : TEE_Param) (ps : TEE_Params) : TEE_Params :=
  mkParams p (prm1 ps) (prm2 ps) (prm3 ps).
Definition set_prm1 (p : TEE_Param) (ps : TEE_Params) : TEE_Params :=
  mkParams (prm0 ps) p (prm2 ps) (prm3 ps).
Definition set_prm2 (p : TEE_Param) (ps : TEE_Params) : TEE_Params :=
  mkParams (prm0 ps) (prm1 ps) p (prm3 ps).
Definition set_prm3 (p : TEE_Param) (ps : TEE_Params) : TEE_Params :=
  mkParams (prm0 ps) (prm1 ps) (prm2 ps) p.

(** [TEE_MemMove(dst, src, n)] into a buffer of exactly [n] bytes. *)
Definition TEE_MemMove (src : list byte) (n : Z) : list byte :=
  take (Z.to_nat n) src.

(** [TEE_MemMove(dst + off, src, n)]: overwrite [n] bytes of [dst] at [off]. *)
Definition TEE_MemMove_at (dst : list byte) (off : Z) (src : list byte) (n : Z)
  : list byte :=
  take (Z.to_nat off) dst ++ take (Z.to_nat n) src
    ++ drop (Z.to_nat off + Z.to_nat n) dst.

(** ** Environment faults

    Each fallible call of the TEE API consumes the next entry of a fault script:
    [NoFault] lets the call run normally, [Fail e] makes it return the error
    [e] without effect, [Short n] makes a read deliver at most [n] bytes.  An
    exhausted script means a reliable environment. *)

Inductive fault :=
  | NoFault
  | Fail (e : TEE_Result)
  | Short (n : Z).

Definition injected (f : fault) : option TEE_Result :=
  match f with
  | Fail e => if e =? TEE_SUCCESS then None else Some e
  | _ => None
  end.

Record TEE_Time := mkTime { seconds : Z; millis : Z }.

(** ** The state-and-panic monad of a TA call *)

Definition M (W A : Type) : Type := W -> option (A * W).

Definition ret {W A} (a : A) : M W A := fun w => Some (a, w).
Definition bind {W A B} (m : M W A) (k : A -> M W B) : M W B :=
  fun w => match m w with
           | Some (a, w') => k a w'
           | None => None
           end.
Definition panic {W A} : M W A := fun _ => None.
Definition get {W} : M W W := fun w => Some (w, w).
Definition modify {W} (f : W -> W) : M W unit := fun w => Some (tt, f w).

Declare Scope tee_scope.
Delimit Scope tee_scope with tee.
Notation "'let*' x := m 'in' k" := (bind m (fun x => k))
  (at level 10, x name, m at level 100, k at level 200) : tee_scope.
Notation "'let*' ' p := m 'in' k" :=
  (bind m (fun x => match x with p => k end))
  (at level 10, p pattern, m at level 100, k at level 200) : tee_scope.
Notation "'run' m 'in' k" := (bind m (fun _ => k))
  (at level 10, m at level 100, k at level 200) : tee_scope.
Local Open Scope tee_scope.

(** A postcondition on the value a call returns, together with a relation
    between the world before and after, for every run that does not panic. *)
Definition triple {W A} (R : W -> W -> Prop) (m : M W A) (Q : A -> Prop) : Prop :=
  forall w a w', m w = Some (a, w') -> Q a /\ R w w'.

(** Two runs in lockstep: from related worlds both panic, or both return,
    with related values and related worlds. *)
Definition lockstep {W A} (R R' : W -> W -> Prop) (Q : A -> A -> Prop)
    (m1 m2 : M W A) : Prop :=
  forall w1 w2, R w1 w2 ->
    match m1 w1, m2 w2 with
    | Some (a1, w1'), Some (a2, w2') => Q a1 a2 /\ R' w1' w2'
    | None, None => True
    | _, _ => False
    end.

(** * The storage TA ([code/cpu and time cal/secure_storage/ta/secure_storage_ta.c]) *)

Module Storage.

(** ** The world: persistent object store and open handles *)

Record open_object := mkOpen {
  oo_id : list byte;      (* identifier of the object the handle is open on *)
  oo_flags : Z;           (* data flags the handle was opened with *)
  oo_pos : Z              (* data position of the handle *)
}.

Record tee_world := mkWorld {
  objects : gmap (list byte) (list byte);   (* identifier -> data stream *)
  handles : gmap N open_object;             (* open object handles *)
  faults : list fault;                      (* environment fault script *)
  clock : list TEE_Time                     (* readings of the system time *)
}.

Definition set_objects (o : gmap (list byte) (list byte)) (w : tee_world) :=
  mkWorld o (handles w) (faults w) (clock w).
Definition set_handles (h : gmap N open_object) (w : tee_world) :=
  mkWorld (objects w) h (faults w) (clock w).
Definition set_faults (f : list fault) (w : tee_world) :=
  mkWorld (objects w) (handles w) f (clock w).
Definition set_clock (c : list TEE_Time) (w : tee_world) :=
  mkWorld (objects w) (handles w) (faults w) c.

Abbreviation TEE := (M tee_world).

Definition next_fault : TEE fault :=
  fun w => Some (hd NoFault (faults w), set_faults (tl (faults w)) w).

(** [TEE_Malloc]: [true] stands for a non-null pointer. *)
Definition TEE_Malloc (size : Z) : TEE bool :=
  let* f := next_fault in
  ret (match injected f with Some _ => false | None => true end).

Definition TEE_Free : TEE unit := ret tt.

Definition TEE_GetSystemTime : TEE TEE_Time :=
  fun w => Some (hd (mkTime 0 0) (clock w), set_clock (tl (clock w)) w).

(** Sharing rules of persistent objects (Internal Core API, section 5.7.3):
    write-meta access is exclusive; read (write) access of any handle requires
    every handle on the object to share read (write). *)
Definition access_conflict (oflags nflags : Z) : bool :=
  has_flag oflags TEE_DATA_FLAG_ACCESS_WRITE_META
  || has_flag nflags TEE_DATA_FLAG_ACCESS_WRITE_META
  || ((has_flag oflags TEE_DATA_FLAG_ACCESS_READ
       || has_flag nflags TEE_DATA_FLAG_ACCESS_READ)
      && negb (has_flag nflags TEE_DATA_FLAG_SHARE_READ
               && has_flag oflags TEE_DATA_FLAG_SHARE_READ))
  || ((has_flag oflags TEE_DATA_FLAG_ACCESS_WRITE
       || has_flag nflags TEE_DATA_FLAG_ACCESS_WRITE)
      && negb (has_flag nflags TEE_DATA_FLAG_SHARE_WRITE
               && has_flag oflags TEE_DATA_FLAG_SHARE_WRITE)).

Definition conflicting (id : list byte) (nflags : Z) (hs : gmap N open_object)
  : bool :=
  existsb (fun e : N * open_object =>
             bool_decide (oo_id (snd e) = id)
             && access_conflict (oo_flags (snd e)) nflags)
          (map_to_list hs).

(** A handle that is neither null nor open. *)
Definition fresh_handle (hs : gmap N open_object) : N :=
  fresh ({[ TEE_HANDLE_NULL ]} ∪ dom hs).

(** [TEE_OpenPersistentObject(storageID, objectID, objectIDLen, flags, &object)].
    On failure the handle is set to [TEE_HANDLE_NULL]. *)
Definition TEE_OpenPersistentObject (storageID : Z) (id : list byte) (flags : Z)
  : TEE (TEE_Result * N) :=
  let* f := next_fault in
  match injected f with
  | Some e => ret (e, TEE_HANDLE_NULL)
  | None =>
    let* w := get in
    if negb (storageID =? TEE_STORAGE_PRIVATE) then
      ret (TEE_ERROR_ITEM_NOT_FOUND, TEE_HANDLE_NULL)
    else match objects w !! id with
    | None => ret (TEE_ERROR_ITEM_NOT_FOUND, TEE_HANDLE_NULL)
    | Some _ =>
      if conflicting id flags (handles w) then
        ret (TEE_ERROR_ACCESS_CONFLICT, TEE_HANDLE_NULL)
      else
        let h := fresh_handle (handles w) in
        run modify (set_handles (<[h := mkOpen id flags 0]> (handles w))) in
        ret (TEE_SUCCESS, h)
    end
  end.

(** [TEE_CreatePersistentObject(storageID, objectID, objectIDLen, flags,
    TEE_HANDLE_NULL, initialData, initialDataLen, &object)]: with
    [TEE_DATA_FLAG_OVERWRITE] an existing object is replaced by the initial
    data; without it, an existing object is an access conflict. *)
Definition TEE_CreatePersistentObject (storageID : Z) (id : list byte) (flags : Z)
    (initialData : list byte) : TEE (TEE_Result * N) :=
  let* f := next_fault in
  match injected f with
  | Some e => ret (e, TEE_HANDLE_NULL)
  | None =>
    let* w := get in
    if negb (storageID =? TEE_STORAGE_PRIVATE) then
      ret (TEE_ERROR_ITEM_NOT_FOUND, TEE_HANDLE_NULL)
    else if conflicting id flags (handles w) then
      ret (TEE_ERROR_ACCESS_CONFLICT, TEE_HANDLE_NULL)
    else if bool_decide (is_Some (objects w !! id))
            && negb (has_flag flags TEE_DATA_FLAG_OVERWRITE) then
      ret (TEE_ERROR_ACCESS_CONFLICT, TEE_HANDLE_NULL)
    else
      let h := fresh_handle (handles w) in
      run modify (fun w =>
            set_handles (<[h := mkOpen id flags 0]> (handles w))
              (set_objects (<[id := initialData]> (objects w)) w)) in
      ret (TEE_SUCCESS, h)
  end.

(** The data stream after writing [data] at position [pos]; a position beyond
    the end first extends the stream with zero bytes. *)
Definition write_at (pos : Z) (data old : list byte) : list byte :=
  resize (Z.to_nat pos) x00 old ++ data
    ++ drop (Z.to_nat pos + length data) old.

(** [TEE_WriteObjectData(object, buffer, size)]: panics on a handle that is not
    open (the null handle included) or lacks write access; a failing write
    changes nothing. *)
Definition TEE_WriteObjectData (object : N) (data : list byte) : TEE TEE_Result :=
  if (object =? TEE_HANDLE_NULL)%N then panic else
  let* w := get in
  match handles w !! object with
  | None => panic
  | Some oo =>
    if negb (has_flag (oo_flags oo) TEE_DATA_FLAG_ACCESS_WRITE) then panic else
    let* f := next_fault in
    match injected f with
    | Some e => ret e
    | None =>
      match objects w !! oo_id oo with
      | None => ret TEE_ERROR_CORRUPT_OBJECT
      | Some old =>
        if oo_pos oo + Z.of_nat (length data) >? TEE_DATA_MAX_POSITION then
          ret TEE_ERROR_OVERFLOW
        else
          run modify (fun w =>
                set_handles
                  (<[object := mkOpen (oo_id oo) (oo_flags oo)
                                 (oo_pos oo + Z.of_nat (length data))]>
                     (handles w))
                  (set_objects
                     (<[oo_id oo := write_at (oo_pos oo) data old]> (objects w))
                     w)) in
          ret TEE_SUCCESS
      end
    end
  end.

(** [TEE_CloseObject(object)]: nothing on the null handle, panic on a handle
    that is not open. *)
Definition TEE_CloseObject (object : N) : TEE unit :=
  if (object =? TEE_HANDLE_NULL)%N then ret tt else
  let* w := get in
  match handles w !! object with
  | None => panic
  | Some _ => modify (set_handles (delete object (handles w)))
  end.

(** [TEE_CloseAndDeletePersistentObject1(object)]: needs a handle opened with
    write-meta access; removes the object from the store and closes the
    handle. *)
Definition TEE_CloseAndDeletePersistentObject1 (object : N) : TEE TEE_Result :=
  if (object =? TEE_HANDLE_NULL)%N then ret TEE_SUCCESS else
  let* w := get in
  match handles w !! object with
  | None => panic
  | Some oo =>
    if negb (has_flag (oo_flags oo) TEE_DATA_FLAG_ACCESS_WRITE_META) then panic
    else
      run modify (fun w =>
            set_handles (delete object (handles w))
              (set_objects (delete (oo_id oo) (objects w)) w)) in
      ret TEE_SUCCESS
  end.

Record TEE_ObjectInfo := mkInfo { dataSize : Z; dataPosition : Z }.

(** [TEE_GetObjectInfo1(object, &info)]: panics on a handle that is not open. *)
Definition TEE_GetObjectInfo1 (object : N) : TEE (TEE_Result * TEE_ObjectInfo) :=
  if (object =? TEE_HANDLE_NULL)%N then panic else
  let* w := get in
  match handles w !! object with
  | None => panic
  | Some oo =>
    let* f := next_fault in
    match injected f with
    | Some e => ret (e, mkInfo 0 0)
    | None =>
      match objects w !! oo_id oo with
      | None => ret (TEE_ERROR_CORRUPT_OBJECT, mkInfo 0 0)
      | Some data =>
        ret (TEE_SUCCESS, mkInfo (Z.of_nat (length data)) (oo_pos oo))
      end
    end
  end.

(** [TEE_ReadObjectData(object, buffer, size, &count)]: sequential read from
    the data position; the bytes delivered are returned, [count] being their
    number.  Panics on a handle that is not open or lacks read access. *)
Definition TEE_ReadObjectData (object : N) (size : Z)
  : TEE (TEE_Result * list byte) :=
  if (object =? TEE_HANDLE_NULL)%N then panic else
  let* w := get in
  match handles w !! object with
  | None => panic
  | Some oo =>
    if negb (has_flag (oo_flags oo) TEE_DATA_FLAG_ACCESS_READ) then panic else
    let* f := next_fault in
    match injected f with
    | Some e => ret (e, [])
    | None =>
      match objects w !! oo_id oo with
      | None => ret (TEE_ERROR_CORRUPT_OBJECT, [])
      | Some data =>
        let limit := match f with Short n => Z.min size n | _ => size end in
        let got := take (Z.to_nat limit) (drop (Z.to_nat (oo_pos oo)) data) in
        run modify (set_handles
              (<[object := mkOpen (oo_id oo) (oo_flags oo)
                             (oo_pos oo + Z.of_nat (length got))]>
                 (handles w))) in
        ret (TEE_SUCCESS, got)
      end
    end
  end.

(** ** The TA *)

(** [struct write_session] *)
Record write_session := mkSess {
  object : N;
  in_progress : bool
}.

Definition set_object (h : N) (s : write_session) : write_session :=
  mkSess h (in_progress s).
Definition set_in_progress (b : bool) (s : write_session) : write_session :=
  mkSess (object s) b.

(** The parameter types each command expects ([exp_param_types]). *)
Definition delete_param_types : Z :=
  TEE_PARAM_TYPES TEE_PARAM_TYPE_MEMREF_INPUT TEE_PARAM_TYPE_NONE
                  TEE_PARAM_TYPE_NONE TEE_PARAM_TYPE_NONE.
Definition write_param_types : Z :=
  TEE_PARAM_TYPES TEE_PARAM_TYPE_MEMREF_INPUT TEE_PARAM_TYPE_MEMREF_INPUT
                  TEE_PARAM_TYPE_NONE TEE_PARAM_TYPE_NONE.
Definition write_chunk_param_types : Z :=
  TEE_PARAM_TYPES TEE_PARAM_TYPE_MEMREF_INPUT TEE_PARAM_TYPE_MEMREF_INPUT
                  TEE_PARAM_TYPE_VALUE_INPUT TEE_PARAM_TYPE_NONE.
Definition read_param_types : Z :=
  TEE_PARAM_TYPES TEE_PARAM_TYPE_MEMREF_INPUT TEE_PARAM_TYPE_MEMREF_OUTPUT
                  TEE_PARAM_TYPE_NONE TEE_PARAM_TYPE_NONE.

(** [delete_object] (lines 14-51) *)
Definition delete_object (param_types : Z) (params : TEE_Params) : TEE TEE_Result :=
  let exp_param_types := delete_param_types in
  if negb (param_types =? exp_param_types) then ret TEE_ERROR_BAD_PARAMETERS else
  let obj_id_sz := memref_size (prm0 params) in
  let* obj_id_ok := TEE_Malloc obj_id_sz in
  if negb obj_id_ok then ret TEE_ERROR_OUT_OF_MEMORY else
  let obj_id := TEE_MemMove (memref_buffer (prm0 params)) obj_id_sz in
  let* '(res, obj) :=
    TEE_OpenPersistentObject TEE_STORAGE_PRIVATE obj_id
      (Z.lor TEE_DATA_FLAG_ACCESS_READ TEE_DATA_FLAG_ACCESS_WRITE_META) in
  if negb (res =? TEE_SUCCESS) then
    run TEE_Free in ret res
  else
    run TEE_CloseAndDeletePersistentObject1 obj in
    run TEE_Free in
    ret res.

(** [create_raw_object] (lines 54-123): the single-shot write. *)
Definition create_raw_object (param_types : Z) (params : TEE_Params)
  : TEE TEE_Result :=
  let exp_param_types := write_param_types in
  if negb (param_types =? exp_param_types) then ret TEE_ERROR_BAD_PARAMETERS else
  let obj_id_sz := memref_size (prm0 params) in
  let* obj_id_ok := TEE_Malloc obj_id_sz in
  if negb obj_id_ok then ret TEE_ERROR_OUT_OF_MEMORY else
  let obj_id := TEE_MemMove (memref_buffer (prm0 params)) obj_id_sz in
  let data_sz := memref_size (prm1 params) in
  if data_sz >? CHUNK_SIZE then
    run TEE_Free in ret TEE_ERROR_OUT_OF_MEMORY
  else
  let* data_ok := TEE_Malloc data_sz in
  if negb data_ok then
    run TEE_Free in ret TEE_ERROR_OUT_OF_MEMORY
  else
  let data := TEE_MemMove (memref_buffer (prm1 params)) data_sz in
  let obj_data_flag :=
    Z.lor (Z.lor (Z.lor TEE_DATA_FLAG_ACCESS_READ TEE_DATA_FLAG_ACCESS_WRITE)
                 TEE_DATA_FLAG_ACCESS_WRITE_META)
          TEE_DATA_FLAG_OVERWRITE in
  let* '(res, obj) :=
    TEE_CreatePersistentObject TEE_STORAGE_PRIVATE obj_id obj_data_flag [] in
  if negb (res =? TEE_SUCCESS) then
    run TEE_Free in run TEE_Free in ret res
  else
  let* res := TEE_WriteObjectData obj data in
  run (if negb (res =? TEE_SUCCESS)
       then run TEE_CloseAndDeletePersistentObject1 obj in ret tt
       else TEE_CloseObject obj) in
  run TEE_Free in
  run TEE_Free in
  ret res.

(** The access flags of the chunked write (lines 167-169). *)
Definition write_chunk_flags : Z :=
  Z.lor (Z.lor TEE_DATA_FLAG_ACCESS_WRITE TEE_DATA_FLAG_ACCESS_WRITE_META)
        TEE_DATA_FLAG_OVERWRITE.

(** [write_raw_chunk], lines 191-201: "Write the chunk", reached from both
    branches of the [is_first] test. *)
Definition write_the_chunk (data : list byte) (sess : write_session)
  : TEE (TEE_Result * write_session) :=
  let* res := TEE_WriteObjectData (object sess) data in
  let* sess :=
    (if negb (res =? TEE_SUCCESS) then
       run TEE_CloseAndDeletePersistentObject1 (object sess) in
       ret (set_in_progress false sess)
     else ret sess) in
  run TEE_Free in
  run TEE_Free in
  ret (res, sess).

(** [write_raw_chunk] (lines 126-202) *)
Definition write_raw_chunk (param_types : Z) (params : TEE_Params)
    (sess : write_session) : TEE (TEE_Result * write_session) :=
  let exp_param_types := write_chunk_param_types in
  if negb (param_types =? exp_param_types) then
    ret (TEE_ERROR_BAD_PARAMETERS, sess)
  else
  let obj_id_sz := memref_size (prm0 params) in
  let data_sz := memref_size (prm1 params) in
  let is_first := value_a (prm2 params) in
  if data_sz >? CHUNK_SIZE then ret (TEE_ERROR_BAD_PARAMETERS, sess) else
  let* obj_id_ok := TEE_Malloc obj_id_sz in
  if negb obj_id_ok then ret (TEE_ERROR_OUT_OF_MEMORY, sess) else
  let obj_id := TEE_MemMove (memref_buffer (prm0 params)) obj_id_sz in
  let* data_ok := TEE_Malloc data_sz in
  if negb data_ok then
    run TEE_Free in ret (TEE_ERROR_OUT_OF_MEMORY, sess)
  else
  let data := TEE_MemMove (memref_buffer (prm1 params)) data_sz in
  if negb (is_first =? 0) then
    let* '(res, obj) :=
      TEE_CreatePersistentObject TEE_STORAGE_PRIVATE obj_id write_chunk_flags [] in
    let sess := set_object obj sess in
    if negb (res =? TEE_SUCCESS) then
      run TEE_Free in run TEE_Free in ret (res, sess)
    else
      write_the_chunk data (set_in_progress true sess)
  else if negb (in_progress sess) then
    run TEE_Free in run TEE_Free in ret (TEE_ERROR_BAD_STATE, sess)
  else
    write_the_chunk data sess.

(** [write_raw_final] (lines 205-216) *)
Definition write_raw_final (sess : write_session)
  : TEE (TEE_Result * write_session) :=
  if negb (in_progress sess) then ret (TEE_ERROR_BAD_STATE, sess) else
  run TEE_CloseObject (object sess) in
  ret (TEE_SUCCESS, set_in_progress false sess).

(** The [while] loop of [read_raw_object] (lines 283-305); [chunk_size_for]
    is the value given to [chunk_size] at lines 284-285.  It yields the
    result code, the output buffer and [total_read]; a result other than
    [TEE_SUCCESS] is a [goto exit].  Every iteration that continues has read
    at least one byte, so [dataSize] iterations are enough: [fuel] running out
    ([None]) does not happen from [read_raw_object]. *)
Definition chunk_size_for (dataSize total_read : Z) : Z :=
  if dataSize - total_read >? CHUNK_SIZE then CHUNK_SIZE
  else dataSize - total_read.

Fixpoint read_loop (fuel : nat) (obj : N) (dataSize : Z) (buffer : list byte)
    (total_read : Z) : TEE (TEE_Result * list byte * Z) :=
  if total_read <? dataSize then
    match fuel with
    | O => panic
    | S fuel =>
      let chunk_size := chunk_size_for dataSize total_read in
      let* '(res, chunk_buffer) := TEE_ReadObjectData obj chunk_size in
      let read_bytes := Z.of_nat (length chunk_buffer) in
      if negb (res =? TEE_SUCCESS) then ret (res, buffer, total_read)
      else if negb (read_bytes =? chunk_size) then
        ret (TEE_ERROR_GENERIC, buffer, total_read)
      else
        read_loop fuel obj dataSize
          (TEE_MemMove_at buffer total_read chunk_buffer read_bytes)
          (total_read + read_bytes)
    end
  else ret (TEE_SUCCESS, buffer, total_read).

(** The [exit:] label of [read_raw_object] (lines 314-318). *)
Definition read_exit (obj : N) (res : TEE_Result) (params : TEE_Params)
  : TEE (TEE_Result * TEE_Params) :=
  run TEE_CloseObject obj in
  run TEE_Free in
  run TEE_Free in
  ret (res, params).

(** [read_raw_object] (lines 218-319; the same text as [code/1MB/ta.c],
    lines 15-116) *)
Definition read_raw_object (param_types : Z) (params : TEE_Params)
  : TEE (TEE_Result * TEE_Params) :=
  let exp_param_types := read_param_types in
  if negb (param_types =? exp_param_types) then
    ret (TEE_ERROR_BAD_PARAMETERS, params)
  else
  let obj_id_sz := memref_size (prm0 params) in
  let* obj_id_ok := TEE_Malloc obj_id_sz in
  if negb obj_id_ok then ret (TEE_ERROR_OUT_OF_MEMORY, params) else
  let obj_id := TEE_MemMove (memref_buffer (prm0 params)) obj_id_sz in
  let data_sz := memref_size (prm1 params) in
  let* chunk_ok := TEE_Malloc CHUNK_SIZE in
  if negb chunk_ok then
    run TEE_Free in ret (TEE_ERROR_OUT_OF_MEMORY, params)
  else
  let* '(res, obj) :=
    TEE_OpenPersistentObject TEE_STORAGE_PRIVATE obj_id
      (Z.lor TEE_DATA_FLAG_ACCESS_READ TEE_DATA_FLAG_SHARE_READ) in
  if negb (res =? TEE_SUCCESS) then
    run TEE_Free in run TEE_Free in ret (res, params)
  else
  let* '(res, object_info) := TEE_GetObjectInfo1 obj in
  if negb (res =? TEE_SUCCESS) then read_exit obj res params else
  if dataSize object_info >? data_sz then
    read_exit obj TEE_ERROR_SHORT_BUFFER
      (set_prm1 (set_memref (memref_buffer (prm1 params)) (dataSize object_info)
                            (prm1 params)) params)
  else
  let* start_time := TEE_GetSystemTime in
  let* '(res, buffer, total_read) :=
    read_loop (Z.to_nat (dataSize object_info)) obj (dataSize object_info)
              (memref_buffer (prm1 params)) 0 in
  let params :=
    set_prm1 (set_memref buffer (memref_size (prm1 params)) (prm1 params))
             params in
  if negb (res =? TEE_SUCCESS) then read_exit obj res params else
  let* end_time := TEE_GetSystemTime in
  let elapsed_ms :=
    wrap 32 ((seconds end_time - seconds start_time) * 1000
             + (millis end_time - millis start_time)) in
  read_exit obj res
    (set_prm1 (set_memref buffer total_read (prm1 params)) params).

(** [TA_OpenSessionEntryPoint] (lines 330-343): the session memory comes
    zero-filled from [TEE_Malloc(size, 0)]. *)
Definition TA_OpenSessionEntryPoint : TEE (TEE_Result * option write_session) :=
  let* sess_ok := TEE_Malloc 16 (* size of the session *) in
  if negb sess_ok then ret (TEE_ERROR_OUT_OF_MEMORY, None) else
  ret (TEE_SUCCESS, Some (set_in_progress false (mkSess TEE_HANDLE_NULL false))).

(** [TA_CloseSessionEntryPoint] (lines 345-354) *)
Definition TA_CloseSessionEntryPoint (session : option write_session) : TEE unit :=
  match session with
  | Some sess =>
    run (if in_progress sess then TEE_CloseObject (object sess) else ret tt) in
    TEE_Free
  | None => ret tt
  end.

(** Modelled from the spec: the command identifiers of this TA.  Its header
    [secure_storage_ta.h] is not among the sources; section 6 of the spec
    lists the commands, the names are those the dispatcher compares its
    argument with, and any other identifier is [CMD_OTHER]. *)
Inductive command :=
  | TA_SECURE_STORAGE_CMD_WRITE_RAW
  | TA_SECURE_STORAGE_CMD_WRITE_RAW_CHUNK
  | TA_SECURE_STORAGE_CMD_WRITE_RAW_FINAL
  | TA_SECURE_STORAGE_CMD_READ_RAW
  | TA_SECURE_STORAGE_CMD_DELETE
  | CMD_OTHER (id : Z).

(** [TA_InvokeCommandEntryPoint] (lines 356-378) *)
Definition TA_InvokeCommandEntryPoint (sess : write_session) (cmd : command)
    (param_types : Z) (params : TEE_Params)
  : TEE (TEE_Result * TEE_Params * write_session) :=
  match cmd with
  | TA_SECURE_STORAGE_CMD_WRITE_RAW =>
    let* res := create_raw_object param_types params in ret (res, params, sess)
  | TA_SECURE_STORAGE_CMD_WRITE_RAW_CHUNK =>
    let* '(res, sess) := write_raw_chunk param_types params sess in
    ret (res, params, sess)
  | TA_SECURE_STORAGE_CMD_WRITE_RAW_FINAL =>
    let* '(res, sess) := write_raw_final sess in ret (res, params, sess)
  | TA_SECURE_STORAGE_CMD_READ_RAW =>
    let* '(res, params) := read_raw_object param_types params in
    ret (res, params, sess)
  | TA_SECURE_STORAGE_CMD_DELETE =>
    let* res := delete_object param_types params in ret (res, params, sess)
  | CMD_OTHER _ => ret (TEE_ERROR_NOT_SUPPORTED, params, sess)
  end.

(** ** Vocabulary of the properties *)

(** The flags [read_raw_object] opens the object with (lines 258-259). *)
Definition read_flags : Z :=
  Z.lor TEE_DATA_FLAG_ACCESS_READ TEE_DATA_FLAG_SHARE_READ.

(** The client issuing the same READ command [n] times; for every reply, the
    result code and the size field that came back. *)
Fixpoint repeat_read (n : nat) (params : TEE_Params)
  : TEE (list (TEE_Result * Z)) :=
  match n with
  | O => ret []
  | S n =>
    let* '(res, reply) := read_raw_object read_param_types params in
    let* rest := repeat_read n params in
    ret ((res, memref_size (prm1 reply)) :: rest)
  end.

(** ** Sample commands and worlds *)

Definition obj1 : list byte := [x6f; x62; x6a; x31].
Definition obj2 : list byte := [x6f; x62; x6a; x32].

Definition chunk_command (id data : list byte) (is_first : Z) : TEE_Params :=
  mkParams (memref_param id) (memref_param data) (value_param is_first) no_param.

Definition read_command (id buf : list byte) : TEE_Params :=
  mkParams (memref_param id) (memref_param buf) no_param no_param.

Definition idle_session : write_session := mkSess TEE_HANDLE_NULL false.

Definition empty_world : tee_world := mkWorld ∅ ∅ [] [].

(** A chunked write of [obj1] is in progress on handle 1, two bytes in. *)
Definition writing_session : write_session := mkSess 1%N true.
Definition writing_world : tee_world :=
  mkWorld {[ obj1 := [xa1; xa1] ]}
          {[ 1%N := mkOpen obj1 write_chunk_flags 2 ]} [] [].

(** The same, in an environment whose store is full: the two allocations of
    the next command succeed, its append fails. *)
Definition full_world : tee_world :=
  set_faults [NoFault; NoFault; Fail TEE_ERROR_STORAGE_NO_SPACE] writing_world.

(** [obj1] is stored with three bytes and no handle is open. *)
Definition stored_world : tee_world :=
  mkWorld {[ obj1 := [xa1; xa2; xa3] ]} ∅ [] [].

(** [obj1] is stored with 40000 bytes: three sub-chunks of a read. *)
Definition big_data : list byte := replicate (Z.to_nat 40000) xa1.
Definition big_world : tee_world := mkWorld {[ obj1 := big_data ]} ∅ [] [].
Definition big_read : TEE_Params :=
  read_command obj1 (replicate (Z.to_nat 40000) x00).

(** Of a reply to [big_read]: the result, the size field, and whether the
    buffer holds the object. *)
Definition summary (r : option (TEE_Result * TEE_Params * tee_world))
  : option (TEE_Result * Z * bool) :=
  match r with
  | Some (res, reply, _) =>
    Some (res, memref_size (prm1 reply),
          bool_decide (memref_buffer (prm1 reply) = big_data))
  | None => None
  end.

(** One byte more than a chunk may carry. *)
Definition oversized : list byte := replicate (Z.to_nat 16385) x00.

(** One session on an empty store: [obj1] is written in three chunks and
    finalized, read with a one-byte buffer, read with a buffer of its size,
    deleted, and read again.  For every command, the result code and the
    size field of the second parameter afterwards. *)
Definition scenario : TEE (list (TEE_Result * Z)) :=
  let invoke sess cmd types params :=
    let* '(res, reply, sess) :=
      TA_InvokeCommandEntryPoint sess cmd types params in
    ret (res, memref_size (prm1 reply), sess) in
  let* '(res, sess) := TA_OpenSessionEntryPoint in
  match sess with
  | None => ret []
  | Some sess =>
    let* '(r1, n1, sess) :=
      invoke sess TA_SECURE_STORAGE_CMD_WRITE_RAW_CHUNK write_chunk_param_types
        (chunk_command obj1 (take (Z.to_nat CHUNK_SIZE) big_data) 1) in
    let* '(r2, n2, sess) :=
      invoke sess TA_SECURE_STORAGE_CMD_WRITE_RAW_CHUNK write_chunk_param_types
        (chunk_command obj1
           (take (Z.to_nat CHUNK_SIZE) (drop (Z.to_nat CHUNK_SIZE) big_data)) 0) in
    let* '(r3, n3, sess) :=
      invoke sess TA_SECURE_STORAGE_CMD_WRITE_RAW_CHUNK write_chunk_param_types
        (chunk_command obj1 (drop (Z.to_nat (2 * CHUNK_SIZE)) big_data) 0) in
    let* '(r4, n4, sess) :=
      invoke sess TA_SECURE_STORAGE_CMD_WRITE_RAW_FINAL 0
        (mkParams no_param no_param no_param no_param) in
    let* '(r5, n5, sess) :=
      invoke sess TA_SECURE_STORAGE_CMD_READ_RAW read_param_types
        (read_command obj1 [x00]) in
    let* '(r6, n6, sess) :=
      invoke sess TA_SECURE_STORAGE_CMD_READ_RAW read_param_types big_read in
    let* '(r7, n7, sess) :=
      invoke sess TA_SECURE_STORAGE_CMD_DELETE delete_param_types
        (mkParams (memref_param obj1) no_param no_param no_param) in
    let* '(r8, n8, sess) :=
      invoke sess TA_SECURE_STORAGE_CMD_READ_RAW read_param_types
        (read_command obj1 [x00]) in
    run TA_CloseSessionEntryPoint (Some sess) in
    ret [(r1, n1); (r2, n2); (r3, n3); (r4, n4); (r5, n5); (r6, n6); (r7, n7);
         (r8, n8)]
  end.

End Storage.

(** * The crypto TA ([code/enc-1mb/secure_storage/ta/secure_storage_ta.c]) *)

Module Crypto.

Definition AES_KEY_SIZE : Z := 32.
Definition AES_IV_SIZE : Z := 16.
Definition AES_BLOCK_SIZE : Z := 16.

Definition TEE_TYPE_AES : Z := 0xA0000010.
Definition TEE_ALG_AES_CBC_NOPAD : Z := 0x10000110.
Definition TEE_MODE_ENCRYPT : Z := 0.
Definition TEE_MODE_DECRYPT : Z := 1.
Definition TEE_ATTR_SECRET_VALUE : Z := 0xC0000000.

(** [TA_SECURE_STORAGE_CMD_*] of [include/secure_storage_ta.h] *)
Definition TA_SECURE_STORAGE_CMD_ENCRYPT_CHUNK : Z := 0.
Definition TA_SECURE_STORAGE_CMD_DECRYPT_CHUNK : Z := 1.
Definition TA_SECURE_STORAGE_CMD_FINALIZE : Z := 2.
Definition TA_SECURE_STORAGE_CMD_RESET : Z := 3.

(** ** The world: key objects, cipher operations, random source *)

(** What the TA is compiled against: the block cipher of the TEE, as a function
    from mode, key, chaining value and whole blocks to the output blocks and
    the next chaining value, and the width of [size_t]. *)
Record platform := mkPlatform {
  cbc_blocks : Z -> list byte -> list byte -> list byte -> list byte * list byte;
  size_t_bits : Z
}.

Record cipher_op := mkOp {
  op_algo : Z;
  op_mode : Z;
  op_max_key : Z;
  op_key : option (list byte);     (* key material copied by TEE_SetOperationKey *)
  op_chain : option (list byte);   (* chaining value; [None] before TEE_CipherInit *)
  op_pending : list byte           (* input that does not fill a block yet *)
}.

Record tee_world := mkWorld {
  keys : gmap N (option (list byte));  (* transient objects; [None]: not populated *)
  ops : gmap N cipher_op;              (* allocated operations *)
  faults : list fault;
  clock : list TEE_Time;
  rng : list byte                      (* bytes TEE_GenerateRandom will deliver *)
}.

Definition set_keys (k : gmap N (option (list byte))) (w : tee_world) :=
  mkWorld k (ops w) (faults w) (clock w) (rng w).
Definition set_ops (o : gmap N cipher_op) (w : tee_world) :=
  mkWorld (keys w) o (faults w) (clock w) (rng w).
Definition set_faults (f : list fault) (w : tee_world) :=
  mkWorld (keys w) (ops w) f (clock w) (rng w).
Definition set_clock (c : list TEE_Time) (w : tee_world) :=
  mkWorld (keys w) (ops w) (faults w) c (rng w).
Definition set_rng (r : list byte) (w : tee_world) :=
  mkWorld (keys w) (ops w) (faults w) (clock w) r.

Abbreviation TEE := (M tee_world).

Definition next_fault : TEE fault :=
  fun w => Some (hd NoFault (faults w), set_faults (tl (faults w)) w).

Definition TEE_Malloc (size : Z) : TEE bool :=
  let* f := next_fault in
  ret (match injected f with Some _ => false | None => true end).

Definition TEE_Free : TEE unit := ret tt.

Definition TEE_GetSystemTime : TEE TEE_Time :=
  fun w => Some (hd (mkTime 0 0) (clock w), set_clock (tl (clock w)) w).

(** [TEE_GenerateRandom(buffer, len)] *)
Definition TEE_GenerateRandom (len : Z) : TEE (list byte) :=
  fun w => Some (resize (Z.to_nat len) x00 (rng w),
                 set_rng (drop (Z.to_nat len) (rng w)) w).

Definition fresh_in {A} (m : gmap N A) : N := fresh ({[ TEE_HANDLE_NULL ]} ∪ dom m).

(** [TEE_AllocateTransientObject(type, maxKeySize, &object)]: the handle is
    written on success only. *)
Definition TEE_AllocateTransientObject (type maxKeySize : Z) (object : N)
  : TEE (TEE_Result * N) :=
  let* f := next_fault in
  match injected f with
  | Some e => ret (e, object)
  | None =>
    let* w := get in
    let h := fresh_in (keys w) in
    run modify (set_keys (<[h := None]> (keys w))) in
    ret (TEE_SUCCESS, h)
  end.

(** [TEE_InitRefAttribute(&attr, attributeID, buffer, length)] *)
Definition TEE_InitRefAttribute (attributeID : Z) (buffer : list byte)
    (len : Z) : Z * list byte :=
  (attributeID, take (Z.to_nat len) buffer).

(** [TEE_PopulateTransientObject(object, attrs, 1)]: panics on a handle that is
    not allocated or is populated already. *)
Definition TEE_PopulateTransientObject (object : N) (attr : Z * list byte)
  : TEE TEE_Result :=
  let* w := get in
  match keys w !! object with
  | Some None =>
    let* f := next_fault in
    match injected f with
    | Some e => ret e
    | None =>
      run modify (set_keys (<[object := Some (snd attr)]> (keys w))) in
      ret TEE_SUCCESS
    end
  | _ => panic
  end.

(** [TEE_FreeTransientObject(object)] *)
Definition TEE_FreeTransientObject (object : N) : TEE unit :=
  if (object =? TEE_HANDLE_NULL)%N then ret tt else
  let* w := get in
  match keys w !! object with
  | None => panic
  | Some _ => modify (set_keys (delete object (keys w)))
  end.

(** [TEE_AllocateOperation(&operation, algorithm, mode, maxKeySize)]: the
    handle is written on success only. *)
Definition TEE_AllocateOperation (operation : N) (algorithm mode maxKeySize : Z)
  : TEE (TEE_Result * N) :=
  let* f := next_fault in
  match injected f with
  | Some e => ret (e, operation)
  | None =>
    let* w := get in
    let h := fresh_in (ops w) in
    run modify (set_ops (<[h := mkOp algorithm mode maxKeySize None None []]>
                           (ops w))) in
    ret (TEE_SUCCESS, h)
  end.

(** [TEE_FreeOperation(operation)] *)
Definition TEE_FreeOperation (operation : N) : TEE unit :=
  let* w := get in
  match ops w !! operation with
  | None => panic
  | Some _ => modify (set_ops (delete operation (ops w)))
  end.

(** [TEE_SetOperationKey(operation, key)]: copies the key material into the
    operation; panics on a handle that is not allocated, on a key object that
    is not populated and on a key longer than the operation allows. *)
Definition TEE_SetOperationKey (operation key : N) : TEE TEE_Result :=
  let* w := get in
  match ops w !! operation, keys w !! key with
  | Some op, Some (Some k) =>
    if Z.of_nat (length k) * 8 >? op_max_key op then panic else
    let* f := next_fault in
    match injected f with
    | Some e => ret e
    | None =>
      run modify (set_ops
            (<[operation := mkOp (op_algo op) (op_mode op) (op_max_key op)
                                 (Some k) None []]> (ops w))) in
      ret TEE_SUCCESS
    end
  | _, _ => panic
  end.

(** [TEE_CipherInit(operation, IV, IVLen)]: panics on an operation that is not
    allocated or has no key. *)
Definition TEE_CipherInit (operation : N) (IV : list byte) (IVLen : Z)
  : TEE unit :=
  let* w := get in
  match ops w !! operation with
  | Some op =>
    match op_key op with
    | Some k =>
      modify (set_ops
        (<[operation := mkOp (op_algo op) (op_mode op) (op_max_key op)
                             (Some k) (Some (take (Z.to_nat IVLen) IV)) []]>
           (ops w)))
    | None => panic
    end
  | None => panic
  end.

(** [struct crypto_session] *)
Record crypto_session := mkSess {
  enc_op : N;
  dec_op : N;
  key_handle : N;
  iv : list byte;
  initialized : bool;
  total_enc_time_us : Z;
  total_dec_time_us : Z;
  total_bytes : Z
}.

Definition set_enc_op (h : N) (s : crypto_session) :=
  mkSess h (dec_op s) (key_handle s) (iv s) (initialized s)
         (total_enc_time_us s) (total_dec_time_us s) (total_bytes s).
Definition set_dec_op (h : N) (s : crypto_session) :=
  mkSess (enc_op s) h (key_handle s) (iv s) (initialized s)
         (total_enc_time_us s) (total_dec_time_us s) (total_bytes s).
Definition set_key_handle (h : N) (s : crypto_session) :=
  mkSess (enc_op s) (dec_op s) h (iv s) (initialized s)
         (total_enc_time_us s) (total_dec_time_us s) (total_bytes s).
Definition set_iv (v : list byte) (s : crypto_session) :=
  mkSess (enc_op s) (dec_op s) (key_handle s) v (initialized s)
         (total_enc_time_us s) (total_dec_time_us s) (total_bytes s).
Definition set_initialized (b : bool) (s : crypto_session) :=
  mkSess (enc_op s) (dec_op s) (key_handle s) (iv s) b
         (total_enc_time_us s) (total_dec_time_us s) (total_bytes s).
Definition set_total_enc_time_us (t : Z) (s : crypto_session) :=
  mkSess (enc_op s) (dec_op s) (key_handle s) (iv s) (initialized s)
         t (total_dec_time_us s) (total_bytes s).
Definition set_total_dec_time_us (t : Z) (s : crypto_session) :=
  mkSess (enc_op s) (dec_op s) (key_handle s) (iv s) (initialized s)
         (total_enc_time_us s) t (total_bytes s).
Definition set_total_bytes (n : Z) (s : crypto_session) :=
  mkSess (enc_op s) (dec_op s) (key_handle s) (iv s) (initialized s)
         (total_enc_time_us s) (total_dec_time_us s) n.

Section WithPlatform.

Variable P : platform.

(** [TEE_CipherUpdate(operation, srcData, srcLen, destData, &destLen)]: runs
    the whole blocks available through the cipher and keeps the rest pending.
    It yields the result, the bytes written to [destData] and the value left
    in [destLen].  Panics on an operation that is not allocated (the null
    handle included) or was not started by [TEE_CipherInit]. *)
Definition TEE_CipherUpdate (operation : N) (src : list byte) (destLen : Z)
  : TEE (TEE_Result * list byte * Z) :=
  if (operation =? TEE_HANDLE_NULL)%N then panic else
  let* w := get in
  match ops w !! operation with
  | Some op =>
    match op_key op, op_chain op with
    | Some k, Some chain =>
      let* f := next_fault in
      match injected f with
      | Some e => ret (e, [], destLen)
      | None =>
        let input := op_pending op ++ src in
        let n := Z.of_nat (length input) / AES_BLOCK_SIZE * AES_BLOCK_SIZE in
        if destLen <? n then ret (TEE_ERROR_SHORT_BUFFER, [], n) else
        let '(out, chain') :=
          cbc_blocks P (op_mode op) k chain (take (Z.to_nat n) input) in
        run modify (set_ops
              (<[operation := mkOp (op_algo op) (op_mode op) (op_max_key op)
                                   (Some k) (Some chain')
                                   (drop (Z.to_nat n) input)]> (ops w))) in
        ret (TEE_SUCCESS, out, Z.of_nat (length out))
      end
    | _, _ => panic
    end
  | None => panic
  end.

(** ** The TA *)

(** [init_crypto_key] (lines 24-58) *)
Definition init_crypto_key (sess : crypto_session)
  : TEE (TEE_Result * crypto_session) :=
  let* key_data := TEE_GenerateRandom AES_KEY_SIZE in
  let* '(res, kh) :=
    TEE_AllocateTransientObject TEE_TYPE_AES (AES_KEY_SIZE * 8) (key_handle sess) in
  let sess := set_key_handle kh sess in
  if negb (res =? TEE_SUCCESS) then ret (res, sess) else
  let attr := TEE_InitRefAttribute TEE_ATTR_SECRET_VALUE key_data AES_KEY_SIZE in
  let* res := TEE_PopulateTransientObject (key_handle sess) attr in
  if negb (res =? TEE_SUCCESS) then
    run TEE_FreeTransientObject (key_handle sess) in ret (res, sess)
  else
  let* iv := TEE_GenerateRandom AES_IV_SIZE in
  ret (TEE_SUCCESS, set_iv iv sess).

(** [init_encryption] (lines 61-85) *)
Definition init_encryption (sess : crypto_session)
  : TEE (TEE_Result * crypto_session) :=
  let* '(res, op) :=
    TEE_AllocateOperation (enc_op sess) TEE_ALG_AES_CBC_NOPAD TEE_MODE_ENCRYPT
                          (AES_KEY_SIZE * 8) in
  let sess := set_enc_op op sess in
  if negb (res =? TEE_SUCCESS) then ret (res, sess) else
  let* res := TEE_SetOperationKey (enc_op sess) (key_handle sess) in
  if negb (res =? TEE_SUCCESS) then
    run TEE_FreeOperation (enc_op sess) in ret (res, sess)
  else
  run TEE_CipherInit (enc_op sess) (iv sess) AES_IV_SIZE in
  ret (TEE_SUCCESS, sess).

(** [init_decryption] (lines 88-112) *)
Definition init_decryption (sess : crypto_session)
  : TEE (TEE_Result * crypto_session) :=
  let* '(res, op) :=
    TEE_AllocateOperation (dec_op sess) TEE_ALG_AES_CBC_NOPAD TEE_MODE_DECRYPT
                          (AES_KEY_SIZE * 8) in
  let sess := set_dec_op op sess in
  if negb (res =? TEE_SUCCESS) then ret (res, sess) else
  let* res := TEE_SetOperationKey (dec_op sess) (key_handle sess) in
  if negb (res =? TEE_SUCCESS) then
    run TEE_FreeOperation (dec_op sess) in ret (res, sess)
  else
  run TEE_CipherInit (dec_op sess) (iv sess) AES_IV_SIZE in
  ret (TEE_SUCCESS, sess).

(** The elapsed time in microseconds, in [uint32_t] arithmetic
    (lines 183-184 and 255-256). *)
Definition elapsed_us_of (start_time end_time : TEE_Time) : Z :=
  wrap 32 (wrap 32 ((seconds end_time - seconds start_time) * 1000000)
           + wrap 32 ((millis end_time - millis start_time) * 1000)).

(** The parameter types each command expects ([exp_param_types]). *)
Definition chunk_param_types : Z :=
  TEE_PARAM_TYPES TEE_PARAM_TYPE_MEMREF_INPUT TEE_PARAM_TYPE_MEMREF_OUTPUT
                  TEE_PARAM_TYPE_VALUE_INPUT TEE_PARAM_TYPE_VALUE_OUTPUT.
Definition finalize_param_types : Z :=
  TEE_PARAM_TYPES TEE_PARAM_TYPE_VALUE_OUTPUT TEE_PARAM_TYPE_VALUE_OUTPUT
                  TEE_PARAM_TYPE_VALUE_OUTPUT TEE_PARAM_TYPE_NONE.

(** [encrypt_chunk], lines 162-192: what follows the [is_first] block. *)
Definition encrypt_the_chunk (params : TEE_Params) (sess : crypto_session)
  : TEE (TEE_Result * TEE_Params * crypto_session) :=
  let plaintext := memref_buffer (prm0 params) in
  let data_sz := memref_size (prm0 params) in
  if negb (data_sz mod 16 =? 0) then
    ret (TEE_ERROR_BAD_PARAMETERS, params, sess)
  else
  let* start_time := TEE_GetSystemTime in
  let out_len := memref_size (prm1 params) in
  let* '(res, out, out_len) :=
    TEE_CipherUpdate (enc_op sess) (TEE_MemMove plaintext data_sz) out_len in
  let ciphertext :=
    TEE_MemMove_at (memref_buffer (prm1 params)) 0 out (Z.of_nat (length out)) in
  let params :=
    set_prm1 (set_memref ciphertext (memref_size (prm1 params)) (prm1 params))
             params in
  let* end_time := TEE_GetSystemTime in
  if negb (res =? TEE_SUCCESS) then ret (res, params, sess) else
  let elapsed_us := elapsed_us_of start_time end_time in
  let sess :=
    set_total_enc_time_us (wrap 32 (total_enc_time_us sess + elapsed_us)) sess in
  let sess :=
    set_total_bytes (wrap (size_t_bits P) (total_bytes sess + data_sz)) sess in
  let params :=
    set_prm1 (set_memref ciphertext out_len (prm1 params)) params in
  let params := set_prm3 (set_value_a elapsed_us (prm3 params)) params in
  ret (TEE_SUCCESS, params, sess).

(** [encrypt_chunk] (lines 115-193) *)
Definition encrypt_chunk (param_types : Z) (params : TEE_Params)
    (sess : crypto_session) : TEE (TEE_Result * TEE_Params * crypto_session) :=
  let exp_param_types := chunk_param_types in
  if negb (param_types =? exp_param_types) then
    ret (TEE_ERROR_BAD_PARAMETERS, params, sess)
  else
  let data_sz := memref_size (prm0 params) in
  let is_first := value_a (prm2 params) in
  if data_sz >? CHUNK_SIZE then ret (TEE_ERROR_BAD_PARAMETERS, params, sess) else
  if negb (is_first =? 0) then
    let* '(res, sess) :=
      (if negb (initialized sess) then
         let* '(res, sess) := init_crypto_key sess in
         if negb (res =? TEE_SUCCESS) then ret (res, sess)
         else ret (TEE_SUCCESS, set_initialized true sess)
       else ret (TEE_SUCCESS, sess)) in
    if negb (res =? TEE_SUCCESS) then ret (res, params, sess) else
    let* '(res, sess) := init_encryption sess in
    if negb (res =? TEE_SUCCESS) then ret (res, params, sess) else
    encrypt_the_chunk params
      (set_total_bytes 0 (set_total_enc_time_us 0 sess))
  else encrypt_the_chunk params sess.

(** [decrypt_chunk], lines 240-263: what follows the [is_first] block. *)
Definition decrypt_the_chunk (params : TEE_Params) (sess : crypto_session)
  : TEE (TEE_Result * TEE_Params * crypto_session) :=
  let ciphertext := memref_buffer (prm0 params) in
  let data_sz := memref_size (prm0 params) in
  let* start_time := TEE_GetSystemTime in
  let out_len := memref_size (prm1 params) in
  let* '(res, out, out_len) :=
    TEE_CipherUpdate (dec_op sess) (TEE_MemMove ciphertext data_sz) out_len in
  let plaintext :=
    TEE_MemMove_at (memref_buffer (prm1 params)) 0 out (Z.of_nat (length out)) in
  let params :=
    set_prm1 (set_memref plaintext (memref_size (prm1 params)) (prm1 params))
             params in
  let* end_time := TEE_GetSystemTime in
  if negb (res =? TEE_SUCCESS) then ret (res, params, sess) else
  let elapsed_us := elapsed_us_of start_time end_time in
  let sess :=
    set_total_dec_time_us (wrap 32 (total_dec_time_us sess + elapsed_us)) sess in
  let params :=
    set_prm1 (set_memref plaintext out_len (prm1 params)) params in
  let params := set_prm3 (set_value_a elapsed_us (prm3 params)) params in
  ret (TEE_SUCCESS, params, sess).

(** [decrypt_chunk] (lines 196-264) *)
Definition decrypt_chunk (param_types : Z) (params : TEE_Params)
    (sess : crypto_session) : TEE (TEE_Result * TEE_Params * crypto_session) :=
  let exp_param_types := chunk_param_types in
  if negb (param_types =? exp_param_types) then
    ret (TEE_ERROR_BAD_PARAMETERS, params, sess)
  else
  let data_sz := memref_size (prm0 params) in
  let is_first := value_a (prm2 params) in
  if data_sz >? CHUNK_SIZE then ret (TEE_ERROR_BAD_PARAMETERS, params, sess) else
  if negb (is_first =? 0) then
    if negb (initialized sess) then ret (TEE_ERROR_BAD_STATE, params, sess) else
    let* '(res, sess) := init_decryption sess in
    if negb (res =? TEE_SUCCESS) then ret (res, params, sess) else
    decrypt_the_chunk params (set_total_dec_time_us 0 sess)
  else decrypt_the_chunk params sess.

(** [finalize_operation] (lines 267-288) *)
Definition finalize_operation (param_types : Z) (params : TEE_Params)
    (sess : crypto_session) : TEE (TEE_Result * TEE_Params * crypto_session) :=
  let exp_param_types := finalize_param_types in
  if negb (param_types =? exp_param_types) then
    ret (TEE_ERROR_BAD_PARAMETERS, params, sess)
  else
  let params :=
    set_prm0 (set_value_a (total_enc_time_us sess / 1000) (prm0 params)) params in
  let params :=
    set_prm1 (set_value_a (total_dec_time_us sess / 1000) (prm1 params)) params in
  let params :=
    set_prm2 (set_value_a (wrap 32 (Z.land (total_bytes sess) 0xFFFFFFFF))
                          (prm2 params)) params in
  ret (TEE_SUCCESS, params, sess).

(** [reset_session] (lines 291-305) *)
Definition reset_session (sess : crypto_session)
  : TEE (TEE_Result * crypto_session) :=
  run (if negb (enc_op sess =? TEE_HANDLE_NULL)%N
       then TEE_FreeOperation (enc_op sess) else ret tt) in
  run (if negb (dec_op sess =? TEE_HANDLE_NULL)%N
       then TEE_FreeOperation (dec_op sess) else ret tt) in
  ret (TEE_SUCCESS,
       set_total_bytes 0
         (set_total_dec_time_us 0
            (set_total_enc_time_us 0
               (set_dec_op TEE_HANDLE_NULL (set_enc_op TEE_HANDLE_NULL sess))))).

(** [TA_OpenSessionEntryPoint] (lines 316-335) *)
Definition TA_OpenSessionEntryPoint : TEE (TEE_Result * option crypto_session) :=
  let* sess_ok := TEE_Malloc 64 (* size of the session *) in
  if negb sess_ok then ret (TEE_ERROR_OUT_OF_MEMORY, None) else
  let sess := mkSess 0%N 0%N 0%N (replicate 16 x00) false 0 0 0 in
  ret (TEE_SUCCESS,
       Some (set_dec_op TEE_HANDLE_NULL
               (set_enc_op TEE_HANDLE_NULL (set_initialized false sess)))).

(** [TA_CloseSessionEntryPoint] (lines 337-352) *)
Definition TA_CloseSessionEntryPoint (session : option crypto_session) : TEE unit :=
  match session with
  | Some sess =>
    run (if negb (enc_op sess =? TEE_HANDLE_NULL)%N
         then TEE_FreeOperation (enc_op sess) else ret tt) in
    run (if negb (dec_op sess =? TEE_HANDLE_NULL)%N
         then TEE_FreeOperation (dec_op sess) else ret tt) in
    run (if initialized sess && negb (key_handle sess =? TEE_HANDLE_NULL)%N
         then TEE_FreeTransientObject (key_handle sess) else ret tt) in
    TEE_Free
  | None => ret tt
  end.

(** [TA_InvokeCommandEntryPoint] (lines 354-374) *)
Definition TA_InvokeCommandEntryPoint (sess : crypto_session) (command : Z)
    (param_types : Z) (params : TEE_Params)
  : TEE (TEE_Result * TEE_Params * crypto_session) :=
  if command =? TA_SECURE_STORAGE_CMD_ENCRYPT_CHUNK then
    encrypt_chunk param_types params sess
  else if command =? TA_SECURE_STORAGE_CMD_DECRYPT_CHUNK then
    decrypt_chunk param_types params sess
  else if command =? TA_SECURE_STORAGE_CMD_FINALIZE then
    finalize_operation param_types params sess
  else if command =? TA_SECURE_STORAGE_CMD_RESET then
    let* '(res, sess) := reset_session sess in ret (res, params, sess)
  else ret (TEE_ERROR_NOT_SUPPORTED, params, sess).

(** The client issuing a sequence of commands (command, parameter types,
    parameters) on one session; the session state after the last one. *)
Fixpoint run_commands (sess : crypto_session)
    (cmds : list (Z * Z * TEE_Params)) : TEE crypto_session :=
  match cmds with
  | [] => ret sess
  | (command, param_types, params) :: rest =>
    let* '(_, _, sess) :=
      TA_InvokeCommandEntryPoint sess command param_types params in
    run_commands sess rest
  end.

End WithPlatform.

(** ** Vocabulary of the properties *)

(** The material a session's streams are keyed with stays the same: key
    objects and random source. *)
Definition same_material (w w' : tee_world) : Prop :=
  keys w' = keys w /\ rng w' = rng w.

(** What identifies the key of a session. *)
Definition same_key (s s' : crypto_session) : Prop :=
  initialized s' = initialized s /\ key_handle s' = key_handle s
  /\ iv s' = iv s.

(** A cipher whose output does not depend on the key. *)
Definition blind (P : platform) : Prop :=
  forall mode k1 k2 chain blocks,
    cbc_blocks P mode k1 chain blocks = cbc_blocks P mode k2 chain blocks.

Definition key_sim (a b : option (list byte)) : Prop :=
  match a, b with
  | Some k1, Some k2 => length k1 = length k2
  | None, None => True
  | _, _ => False
  end.

Definition op_sim (a b : cipher_op) : Prop :=
  op_algo a = op_algo b /\ op_mode a = op_mode b
  /\ op_max_key a = op_max_key b /\ key_sim (op_key a) (op_key b)
  /\ op_chain a = op_chain b /\ op_pending a = op_pending b.

Definition tbl_sim {A} (R : A -> A -> Prop) (m1 m2 : gmap N A) : Prop :=
  forall h, match m1 !! h, m2 !! h with
            | Some a, Some b => R a b
            | None, None => True
            | _, _ => False
            end.

(** Worlds that differ in the bytes of key material only: the content of the
    key objects and the keys copied into the operations.  [Rr] relates the
    random sources. *)
Record sim (Rr : list byte -> list byte -> Prop) (w1 w2 : tee_world) : Prop := {
  sim_faults : faults w1 = faults w2;
  sim_clock : clock w1 = clock w2;
  sim_rng : Rr (rng w1) (rng w2);
  sim_keys : tbl_sim key_sim (keys w1) (keys w2);
  sim_ops : tbl_sim op_sim (ops w1) (ops w2)
}.

(** Before the key is drawn, the random sources may differ in the 32 bytes
    that will become the key. *)
Definition rng_weak (r1 r2 : list byte) : Prop :=
  drop (Z.to_nat AES_KEY_SIZE) r1 = drop (Z.to_nat AES_KEY_SIZE) r2.

(** ** Sample commands and worlds *)

(** A stand-in for the cipher: the blocks pass through unchanged. *)
Definition plain_platform : platform :=
  mkPlatform (fun _ _ chain blocks => (blocks, chain)) 64.

Definition chunk_command (data : list byte) (is_first : Z) (capacity : nat)
  : TEE_Params :=
  mkParams (memref_param data) (memref_param (replicate capacity x00))
           (value_param is_first) no_param.

(** The session as [TA_OpenSessionEntryPoint] leaves it. *)
Definition fresh_session : crypto_session :=
  mkSess TEE_HANDLE_NULL TEE_HANDLE_NULL 0%N (replicate 16 x00) false 0 0 0.

Definition quiet_world : tee_world := mkWorld ∅ ∅ [] [] (replicate 48 x2a).

(** The same world with other random bytes where the key is drawn from. *)
Definition other_world : tee_world :=
  mkWorld ∅ ∅ [] [] (replicate 32 x07 ++ replicate 16 x2a).

(** A stream of two chunks is encrypted and then decrypted on one session;
    for every command, the result code and the output buffer. *)
Definition round_trip (data1 data2 : list byte)
  : TEE (list (TEE_Result * list byte)) :=
  let invoke sess command params :=
    let* '(res, reply, sess) :=
      TA_InvokeCommandEntryPoint plain_platform sess command chunk_param_types
        params in
    ret (res, take (Z.to_nat (memref_size (prm1 reply)))
                   (memref_buffer (prm1 reply)), sess) in
  let* '(r1, o1, sess) :=
    invoke fresh_session TA_SECURE_STORAGE_CMD_ENCRYPT_CHUNK
      (chunk_command data1 1 (length data1)) in
  let* '(r2, o2, sess) :=
    invoke sess TA_SECURE_STORAGE_CMD_ENCRYPT_CHUNK
      (chunk_command data2 0 (length data2)) in
  let* '(r3, o3, sess) :=
    invoke sess TA_SECURE_STORAGE_CMD_DECRYPT_CHUNK
      (chunk_command o1 1 (length o1)) in
  let* '(r4, o4, sess) :=
    invoke sess TA_SECURE_STORAGE_CMD_DECRYPT_CHUNK
      (chunk_command o2 0 (length o2)) in
  ret [(r1, o1); (r2, o2); (r3, o3); (r4, o4)].

End Crypto.

(** * More vocabulary of the storage TA *)

Module StorageTerms.
Import Storage.

(** The flags [delete_object] opens the object with (lines 38-39). *)
Definition delete_flags : Z :=
  Z.lor TEE_DATA_FLAG_ACCESS_READ TEE_DATA_FLAG_ACCESS_WRITE_META.

(** The flags [create_raw_object] creates the object with (lines 95-98). *)
Definition create_flags : Z :=
  Z.lor (Z.lor (Z.lor TEE_DATA_FLAG_ACCESS_READ TEE_DATA_FLAG_ACCESS_WRITE)
               TEE_DATA_FLAG_ACCESS_WRITE_META)
        TEE_DATA_FLAG_OVERWRITE.

(** A DELETE command and a single-shot WRITE command. *)
Definition delete_command (id : list byte) : TEE_Params :=
  mkParams (memref_param id) no_param no_param no_param.

Definition write_command (id data : list byte) : TEE_Params :=
  mkParams (memref_param id) (memref_param data) no_param no_param.

(** The session after a first chunk whose object creation was refused while
    a write was in progress. *)
Definition broken_session : write_session := mkSess TEE_HANDLE_NULL true.

(** [obj1] is stored with two bytes, no handle is open, and the environment
    lets three calls of a command pass and fails the fourth. *)
Definition failing_world : tee_world :=
  mkWorld {[ obj1 := [xa1; xa2] ]} ∅
          [NoFault; NoFault; NoFault; Fail TEE_ERROR_STORAGE_NO_SPACE] [].

End StorageTerms.

(** * More vocabulary of the crypto TA *)

Module CryptoTerms.
Import Crypto.

(** A session on which no stream was ever started. *)
Definition unstarted (s : crypto_session) : bool :=
  negb (initialized s) && (enc_op s =? TEE_HANDLE_NULL)%N
  && (dec_op s =? TEE_HANDLE_NULL)%N.

(** A command (identifier, parameter types, parameters) that starts an
    encryption stream. *)
Definition starts_encryption (c : Z * Z * TEE_Params) : bool :=
  (fst (fst c) =? TA_SECURE_STORAGE_CMD_ENCRYPT_CHUNK)
  && negb (value_a (prm2 (snd c)) =? 0).

(** The elapsed time between two readings of the clock, in milliseconds. *)
Definition elapsed_ms (start_time end_time : TEE_Time) : Z :=
  (seconds end_time - seconds start_time) * 1000
  + (millis end_time - millis start_time).

(** A session in the middle of an encryption stream: key object 1 is
    populated, operation 1 is keyed and started. *)
Definition sample_key : list byte := replicate 32 x2a.
Definition sample_iv : list byte := replicate 16 x2b.

Definition streaming_session : crypto_session :=
  mkSess 1%N TEE_HANDLE_NULL 1%N sample_iv true 0 0 0.

Definition streaming_world : tee_world :=
  mkWorld {[ 1%N := Some sample_key ]}
          {[ 1%N := mkOp TEE_ALG_AES_CBC_NOPAD TEE_MODE_ENCRYPT (AES_KEY_SIZE * 8)
                         (Some sample_key) (Some sample_iv) [] ]}
          [] [mkTime 10 900; mkTime 11 150] [].

(** The same, in an environment that lets an operation be allocated and then
    fails to set its key. *)
Definition keyless_world : tee_world :=
  set_faults [NoFault; Fail TEE_ERROR_CORRUPT_OBJECT] streaming_world.

(** A session in the middle of a decryption stream, and its world. *)
Definition decrypting_session : crypto_session :=
  mkSess TEE_HANDLE_NULL 2%N 1%N sample_iv true 0 0 0.

Definition decrypting_world : tee_world :=
  mkWorld {[ 1%N := Some sample_key ]}
          {[ 2%N := mkOp TEE_ALG_AES_CBC_NOPAD TEE_MODE_DECRYPT (AES_KEY_SIZE * 8)
                         (Some sample_key) (Some sample_iv) [] ]}
          [] [] [].

End CryptoTerms.

(** * The normal world

    The client programs run in the normal world on the TEE Client API and on
    files.  Neither is part of the repository; they are modelled as an
    executable world next to the secure one: the file system maps a path to
    the file's bytes, and every call that can fail consumes an entry of a
    second fault script.  Console output and the wall-clock and CPU-time
    measurements of the programs are left out. *)

Module Host.

Definition TEEC_Result := Z.

Definition TEEC_SUCCESS : TEEC_Result := 0x00000000.
Definition TEEC_ERROR_GENERIC : TEEC_Result := 0xFFFF0000.
Definition TEEC_ERROR_ITEM_NOT_FOUND : TEEC_Result := 0xFFFF0008.
Definition TEEC_ERROR_OUT_OF_MEMORY : TEEC_Result := 0xFFFF000C.
Definition TEEC_ERROR_SHORT_BUFFER : TEEC_Result := 0xFFFF0010.

Definition TEEC_NONE : Z := 0.
Definition TEEC_VALUE_INPUT : Z := 1.
Definition TEEC_VALUE_OUTPUT : Z := 2.
Definition TEEC_MEMREF_TEMP_INPUT : Z := 5.
Definition TEEC_MEMREF_TEMP_OUTPUT : Z := 6.

Definition TEEC_PARAM_TYPES (p0 p1 p2 p3 : Z) : Z :=
  Z.lor (Z.lor (Z.lor p0 (Z.shiftl p1 4)) (Z.shiftl p2 8)) (Z.shiftl p3 12).

(** An open file: the path it was opened on and the file offset. *)
Record descriptor := mkFd { fd_path : list byte; fd_off : Z }.

(** The world of a client: the secure world [tee], the context [session] the
    TA keeps for the client's open session, the files, the fault script. *)
Record host_world {W S : Type} := mkHost {
  tee : W;
  session : S;
  files : gmap (list byte) (list byte);
  hfaults : list fault
}.
Arguments host_world : clear implicits.
Arguments mkHost {W S} _ _ _ _.

Section Posix.
Context {W S : Type}.

Definition set_files (f : gmap (list byte) (list byte)) (hw : host_world W S)
  : host_world W S :=
  mkHost (tee hw) (session hw) f (hfaults hw).

Definition next_hfault : M (host_world W S) fault :=
  fun hw => Some (hd NoFault (hfaults hw),
                  mkHost (tee hw) (session hw) (files hw) (tl (hfaults hw))).

(** [malloc(size)]: [true] stands for a non-null pointer. *)
Definition malloc (size : Z) : M (host_world W S) bool :=
  let* f := next_hfault in
  ret (match injected f with Some _ => false | None => true end).

(** [stat(path, &st)]: the return value and [st.st_size]. *)
Definition stat (path : list byte) : M (host_world W S) (Z * Z) :=
  let* f := next_hfault in
  match injected f with
  | Some _ => ret (-1, 0)
  | None =>
    let* hw := get in
    match files hw !! path with
    | Some content => ret (0, Z.of_nat (length content))
    | None => ret (-1, 0)
    end
  end.

(** [open(path, O_RDONLY)]; [None] stands for a negative return value. *)
Definition open_rdonly (path : list byte)
  : M (host_world W S) (option descriptor) :=
  let* f := next_hfault in
  match injected f with
  | Some _ => ret None
  | None =>
    let* hw := get in
    match files hw !! path with
    | Some _ => ret (Some (mkFd path 0))
    | None => ret None
    end
  end.

(** [open(path, O_WRONLY | O_CREAT | O_TRUNC, 0644)] *)
Definition open_trunc (path : list byte)
  : M (host_world W S) (option descriptor) :=
  let* f := next_hfault in
  match injected f with
  | Some _ => ret None
  | None =>
    run modify (fun hw => set_files (<[path := []]> (files hw)) hw) in
    ret (Some (mkFd path 0))
  end.

(** [read(fd, buf, count)] on a regular file: the return value, the bytes
    delivered and the descriptor with its offset advanced. *)
Definition read (fd : descriptor) (count : Z)
  : M (host_world W S) (Z * list byte * descriptor) :=
  let* f := next_hfault in
  match injected f with
  | Some _ => ret (-1, [], fd)
  | None =>
    let* hw := get in
    match files hw !! fd_path fd with
    | Some content =>
      let got := take (Z.to_nat count) (drop (Z.to_nat (fd_off fd)) content) in
      ret (Z.of_nat (length got), got,
           mkFd (fd_path fd) (fd_off fd + Z.of_nat (length got)))
    | None => ret (-1, [], fd)
    end
  end.

(** [write(fd, buf, count)]: the first [count] bytes of [buf] go to the file
    at the offset, which advances; a failing call writes nothing. *)
Definition write (fd : descriptor) (buf : list byte) (count : Z)
  : M (host_world W S) (Z * descriptor) :=
  let* f := next_hfault in
  match injected f with
  | Some _ => ret (-1, fd)
  | None =>
    let* hw := get in
    match files hw !! fd_path fd with
    | Some content =>
      let bytes := take (Z.to_nat count) buf in
      let content' :=
        resize (Z.to_nat (fd_off fd)) x00 content ++ bytes
          ++ drop (Z.to_nat (fd_off fd) + length bytes) content in
      run modify (set_files (<[fd_path fd := content']> (files hw))) in
      ret (Z.of_nat (length bytes),
           mkFd (fd_path fd) (fd_off fd + Z.of_nat (length bytes)))
    | None => ret (-1, fd)
    end
  end.

Definition close (fd : descriptor) : M (host_world W S) unit := ret tt.

End Posix.

(** The value of a byte, and [(uint8_t) z]. *)
Definition byte_value (b : byte) : Z := Z.of_N (Byte.to_N b).
Definition uint8 (z : Z) : byte :=
  match Byte.of_N (Z.to_N (z mod 256)) with
  | Some b => b
  | None => x00
  end.

(** The object representation of a [uint64_t] (little-endian), as [write]
    and [read] of [&original_size] move it. *)
Definition bytes_of_uint64 (z : Z) : list byte :=
  map (fun i => uint8 (Z.shiftr z (8 * Z.of_nat i))) (seq 0 8).
Definition uint64_of_bytes (l : list byte) : Z :=
  foldr (fun b acc => byte_value b + 256 * acc) 0 l.

End Host.

(** * The client of the storage TA
      ([code/cpu and time cal/secure_storage/host/main.c]) *)

Module StorageHost.
Import Storage Host.

Abbreviation HOST := (M (host_world Storage.tee_world write_session)).

(** [TEEC_InvokeCommand(&ctx->sess, commandID, &op, &origin)] on the open
    session: the TA's entry point runs on the session context with the
    operation's parameter types and parameters (temporary memory references
    are handed over with their size, and come back with the bytes and the size
    the TA left); the result is the TA's.  A panic of the TA ends the run. *)
Definition TEEC_InvokeCommand (commandID : command) (paramTypes : Z)
    (params : TEE_Params) : HOST (TEEC_Result * TEE_Params) :=
  fun hw =>
    match TA_InvokeCommandEntryPoint (session hw) commandID paramTypes params
            (tee hw) with
    | Some (res, params', sess', w') =>
      Some ((res, params'), mkHost w' sess' (files hw) (hfaults hw))
    | None => None
    end.

(** [delete_secure_object] (lines 123-150); [id] is the C string without its
    terminator, [strlen(id)] its length. *)
Definition delete_secure_object (id : list byte) : HOST TEEC_Result :=
  let id_len := Z.of_nat (length id) in
  let paramTypes :=
    TEEC_PARAM_TYPES TEEC_MEMREF_TEMP_INPUT TEEC_NONE TEEC_NONE TEEC_NONE in
  let op := mkParams (mkParam id id_len 0 0) no_param no_param no_param in
  let* '(res, op) :=
    TEEC_InvokeCommand TA_SECURE_STORAGE_CMD_DELETE paramTypes op in
  ret res.

(** The [while] loop of [write_file_to_secure_storage_streaming]
    (lines 191-234).  It yields the result to return at once when a chunk was
    refused, the last value of [bytes_read] and [total_written].  Every
    iteration that continues has read at least one byte of the file. *)
Fixpoint stream_loop (fuel : nat) (obj_id : list byte) (fd : descriptor)
    (chunk_buffer : list byte) (total_written : Z) (is_first : Z)
  : HOST (option TEEC_Result * Z * Z) :=
  match fuel with
  | O => panic
  | S fuel =>
    let* '(bytes_read, got, fd) := read fd CHUNK_SIZE in
    if bytes_read >? 0 then
      let chunk_buffer := got ++ drop (length got) chunk_buffer in
      let paramTypes :=
        TEEC_PARAM_TYPES TEEC_MEMREF_TEMP_INPUT TEEC_MEMREF_TEMP_INPUT
                         TEEC_VALUE_INPUT TEEC_NONE in
      let op :=
        mkParams (mkParam obj_id (Z.of_nat (length obj_id)) 0 0)
                 (mkParam chunk_buffer bytes_read 0 0)
                 (mkParam [] 0 is_first 0) no_param in
      let* '(res, op) :=
        TEEC_InvokeCommand TA_SECURE_STORAGE_CMD_WRITE_RAW_CHUNK paramTypes op in
      if negb (res =? TEEC_SUCCESS) then
        run close fd in
        ret (Some res, bytes_read, total_written)
      else
        stream_loop fuel obj_id fd chunk_buffer (total_written + bytes_read) 0
    else ret (None, bytes_read, total_written)
  end.

(** [write_file_to_secure_storage_streaming] (lines 155-264) *)
Definition write_file_to_secure_storage_streaming (obj_id filename : list byte)
  : HOST TEEC_Result :=
  let* '(rc, st_size) := stat filename in
  if negb (rc =? 0) then ret TEEC_ERROR_ITEM_NOT_FOUND else
  let* fd := open_rdonly filename in
  match fd with
  | None => ret TEEC_ERROR_ITEM_NOT_FOUND
  | Some fd =>
    let chunk_buffer := replicate (Z.to_nat CHUNK_SIZE) x00 in
    let* '(refused, bytes_read, total_written) :=
      stream_loop (S (Z.to_nat st_size)) obj_id fd chunk_buffer 0 1 in
    match refused with
    | Some res => ret res
    | None =>
      run close fd in
      if bytes_read <? 0 then ret TEEC_ERROR_GENERIC else
      let paramTypes := TEEC_PARAM_TYPES TEEC_NONE TEEC_NONE TEEC_NONE TEEC_NONE in
      let op := mkParams no_param no_param no_param no_param in
      let* '(res, op) :=
        TEEC_InvokeCommand TA_SECURE_STORAGE_CMD_WRITE_RAW_FINAL paramTypes op in
      ret res
    end
  end.

(** [read_secure_object_full] (lines 270-323); the buffer is freed before
    the function returns. *)
Definition read_secure_object_full (obj_id : list byte) (expected_size : Z)
  : HOST TEEC_Result :=
  let id_len := Z.of_nat (length obj_id) in
  let* read_buffer_ok := malloc expected_size in
  if negb read_buffer_ok then ret TEEC_ERROR_OUT_OF_MEMORY else
  let read_buffer := replicate (Z.to_nat expected_size) x00 in
  let paramTypes :=
    TEEC_PARAM_TYPES TEEC_MEMREF_TEMP_INPUT TEEC_MEMREF_TEMP_OUTPUT
                     TEEC_NONE TEEC_NONE in
  let op :=
    mkParams (mkParam obj_id id_len 0 0)
             (mkParam read_buffer expected_size 0 0) no_param no_param in
  let* '(res, op) :=
    TEEC_InvokeCommand TA_SECURE_STORAGE_CMD_READ_RAW paramTypes op in
  let bytes_read := memref_size (prm1 op) in
  ret res.

(** [read_and_verify_size] (lines 328-382) *)
Definition read_and_verify_size (obj_id : list byte) (expected_size : Z)
  : HOST TEEC_Result :=
  let id_len := Z.of_nat (length obj_id) in
  let small_buffer := [x00] in
  let paramTypes :=
    TEEC_PARAM_TYPES TEEC_MEMREF_TEMP_INPUT TEEC_MEMREF_TEMP_OUTPUT
                     TEEC_NONE TEEC_NONE in
  let op :=
    mkParams (mkParam obj_id id_len 0 0) (mkParam small_buffer 1 0 0)
             no_param no_param in
  let* '(res, op) :=
    TEEC_InvokeCommand TA_SECURE_STORAGE_CMD_READ_RAW paramTypes op in
  if res =? TEEC_ERROR_SHORT_BUFFER then
    let actual_size := memref_size (prm1 op) in
    if actual_size =? expected_size then ret TEEC_SUCCESS
    else ret TEEC_ERROR_GENERIC
  else if res =? TEEC_SUCCESS then ret TEEC_SUCCESS
  else ret res.

(** ** Sample worlds *)

Definition path_in : list byte := [x2f; x69; x6e].

(** A calm world with an idle session, an empty store and one file. *)
Definition with_file (content : list byte)
  : host_world Storage.tee_world write_session :=
  mkHost empty_world idle_session {[ path_in := content ]} [].

End StorageHost.

(** * The client of the crypto TA
      ([code/enc-1mb/secure_storage/host/main.c]) *)

Module CryptoHost.
Import Crypto Host.

Section WithPlatform.

(** The TEE the TA runs on, and the width of the normal world's [size_t]. *)
Variable P : platform.
Variable size_bits : Z.

Abbreviation HOST := (M (host_world Crypto.tee_world crypto_session)).

(** [TEEC_InvokeCommand(&ctx->sess, commandID, &op, &origin)], as for the
    storage TA. *)
Definition TEEC_InvokeCommand (commandID : Z) (paramTypes : Z)
    (params : TEE_Params) : HOST (TEEC_Result * TEE_Params) :=
  fun hw =>
    match Crypto.TA_InvokeCommandEntryPoint P (session hw) commandID paramTypes
            params (tee hw) with
    | Some (res, params', sess', w') =>
      Some ((res, params'), mkHost w' sess' (files hw) (hfaults hw))
    | None => None
    end.

(** The [for] loop of [pad_data] (lines 95-96), counting [i] up from
    [padding_len - n]. *)
Fixpoint pad_fill (n : nat) (data : list byte) (data_len padding_len : Z)
  : list byte :=
  match n with
  | O => data
  | S n =>
    let i := padding_len - Z.of_nat (S n) in
    pad_fill n (<[Z.to_nat (data_len + i) := uint8 padding_len]> data)
             data_len padding_len
  end.

(** [pad_data] (lines 88-99): the buffer afterwards and the return value.
    The stores are inside the buffer when it has [buffer_size] bytes. *)
Definition pad_data (data : list byte) (data_len buffer_size : Z)
  : list byte * Z :=
  let padding_len := AES_BLOCK_SIZE - data_len mod AES_BLOCK_SIZE in
  if wrap size_bits (data_len + padding_len) >? buffer_size then (data, 0)
  else (pad_fill (Z.to_nat padding_len) data data_len padding_len,
        wrap size_bits (data_len + padding_len)).

(** [unpad_data] (lines 102-119).  The loop runs [i] from
    [data_len - padding_len], in [size_t] arithmetic, up to [data_len]; it
    returns [data_len] at the first byte that differs. *)
Definition unpad_data (data : list byte) (data_len : Z) : Z :=
  if data_len =? 0 then 0 else
  let padding_len := byte_value (nth (Z.to_nat (data_len - 1)) data x00) in
  if (padding_len =? 0) || (padding_len >? AES_BLOCK_SIZE) then data_len else
  let first := wrap size_bits (data_len - padding_len) in
  if forallb (fun i => byte_value (nth (Z.to_nat i) data x00) =? padding_len)
             (seqZ first (data_len - first))
  then wrap size_bits (data_len - padding_len)
  else data_len.

Definition chunk_types : Z :=
  TEEC_PARAM_TYPES TEEC_MEMREF_TEMP_INPUT TEEC_MEMREF_TEMP_OUTPUT
                   TEEC_VALUE_INPUT TEEC_VALUE_OUTPUT.

(** The [while] loop of [encrypt_file] (lines 193-246) up to the label
    [cleanup_enc]: it yields [res].  A failing [read] ends the loop like the
    end of the file does. *)
Fixpoint encrypt_loop (fuel : nat) (in_fd out_fd : descriptor)
    (plain_buf cipher_buf : list byte) (total_encrypted : Z) (is_first : Z)
  : HOST TEEC_Result :=
  match fuel with
  | O => panic
  | S fuel =>
    let* '(bytes_read, got, in_fd) := read in_fd CHUNK_SIZE in
    if bytes_read >? 0 then
      let plain_buf := got ++ drop (length got) plain_buf in
      let '(plain_buf, padded_size) :=
        if negb (bytes_read mod AES_BLOCK_SIZE =? 0)
        then pad_data plain_buf bytes_read (CHUNK_SIZE + AES_BLOCK_SIZE)
        else (plain_buf, bytes_read) in
      if negb (bytes_read mod AES_BLOCK_SIZE =? 0) && (padded_size =? 0)
      then ret TEEC_ERROR_GENERIC else
      let op :=
        mkParams (mkParam plain_buf padded_size 0 0)
                 (mkParam cipher_buf (CHUNK_SIZE + AES_BLOCK_SIZE) 0 0)
                 (mkParam [] 0 is_first 0) no_param in
      let* '(res, op) :=
        TEEC_InvokeCommand TA_SECURE_STORAGE_CMD_ENCRYPT_CHUNK chunk_types op in
      if negb (res =? TEEC_SUCCESS) then ret res else
      let cipher_buf := memref_buffer (prm1 op) in
      let encrypted_size := memref_size (prm1 op) in
      let* '(written, out_fd) := write out_fd cipher_buf encrypted_size in
      if negb (written =? encrypted_size) then ret TEEC_ERROR_GENERIC else
      encrypt_loop fuel in_fd out_fd plain_buf cipher_buf
                   (wrap size_bits (total_encrypted + bytes_read)) 0
    else ret TEEC_SUCCESS
  end.

(** [encrypt_file] (lines 122-266) *)
Definition encrypt_file (input_file output_file : list byte)
  : HOST TEEC_Result :=
  let* '(rc, st_size) := stat input_file in
  if negb (rc =? 0) then ret TEEC_ERROR_ITEM_NOT_FOUND else
  let original_size := wrap 64 st_size in
  let* plain_ok := malloc (CHUNK_SIZE + AES_BLOCK_SIZE) in
  let* cipher_ok := malloc (CHUNK_SIZE + AES_BLOCK_SIZE) in
  if negb plain_ok || negb cipher_ok then ret TEEC_ERROR_OUT_OF_MEMORY else
  let plain_buf := replicate (Z.to_nat (CHUNK_SIZE + AES_BLOCK_SIZE)) x00 in
  let cipher_buf := replicate (Z.to_nat (CHUNK_SIZE + AES_BLOCK_SIZE)) x00 in
  let* in_fd := open_rdonly input_file in
  match in_fd with
  | None => ret TEEC_ERROR_ITEM_NOT_FOUND
  | Some in_fd =>
    let* out_fd := open_trunc output_file in
    match out_fd with
    | None => run close in_fd in ret TEEC_ERROR_GENERIC
    | Some out_fd =>
      let* '(written, out_fd) :=
        write out_fd (bytes_of_uint64 original_size) 8 in
      if negb (written =? 8) then
        run close in_fd in run close out_fd in ret TEEC_ERROR_GENERIC
      else
      let* res :=
        encrypt_loop (S (Z.to_nat st_size)) in_fd out_fd plain_buf cipher_buf
                     0 1 in
      run close in_fd in
      run close out_fd in
      ret res
    end
  end.

(** The [while] loop of [decrypt_file] (lines 339-391) up to the label
    [cleanup_dec]: it yields [res]. *)
Fixpoint decrypt_loop (fuel : nat) (in_fd out_fd : descriptor)
    (cipher_buf plain_buf : list byte) (original_size : Z)
    (total_decrypted total_written : Z) (is_first : Z) : HOST TEEC_Result :=
  match fuel with
  | O => panic
  | S fuel =>
    let* '(bytes_read, got, in_fd) := read in_fd CHUNK_SIZE in
    if bytes_read >? 0 then
      let cipher_buf := got ++ drop (length got) cipher_buf in
      let op :=
        mkParams (mkParam cipher_buf bytes_read 0 0)
                 (mkParam plain_buf (CHUNK_SIZE + AES_BLOCK_SIZE) 0 0)
                 (mkParam [] 0 is_first 0) no_param in
      let* '(res, op) :=
        TEEC_InvokeCommand TA_SECURE_STORAGE_CMD_DECRYPT_CHUNK chunk_types op in
      if negb (res =? TEEC_SUCCESS) then ret res else
      let plain_buf := memref_buffer (prm1 op) in
      let decrypted_size := memref_size (prm1 op) in
      let to_write :=
        if wrap size_bits (total_written + decrypted_size) >? original_size
        then wrap size_bits (wrap 64 (original_size - total_written))
        else decrypted_size in
      let* '(written, out_fd) := write out_fd plain_buf to_write in
      if negb (written =? to_write) then ret TEEC_ERROR_GENERIC else
      let total_decrypted := wrap size_bits (total_decrypted + decrypted_size) in
      let total_written := wrap size_bits (total_written + to_write) in
      if total_written >=? original_size then ret TEEC_SUCCESS else
      decrypt_loop fuel in_fd out_fd cipher_buf plain_buf original_size
                   total_decrypted total_written 0
    else ret TEEC_SUCCESS
  end.

(** [decrypt_file] (lines 269-411) *)
Definition decrypt_file (input_file output_file : list byte)
  : HOST TEEC_Result :=
  let* '(rc, st_size) := stat input_file in
  if negb (rc =? 0) then ret TEEC_ERROR_ITEM_NOT_FOUND else
  let* cipher_ok := malloc (CHUNK_SIZE + AES_BLOCK_SIZE) in
  let* plain_ok := malloc (CHUNK_SIZE + AES_BLOCK_SIZE) in
  if negb cipher_ok || negb plain_ok then ret TEEC_ERROR_OUT_OF_MEMORY else
  let cipher_buf := replicate (Z.to_nat (CHUNK_SIZE + AES_BLOCK_SIZE)) x00 in
  let plain_buf := replicate (Z.to_nat (CHUNK_SIZE + AES_BLOCK_SIZE)) x00 in
  let* in_fd := open_rdonly input_file in
  match in_fd with
  | None => ret TEEC_ERROR_ITEM_NOT_FOUND
  | Some in_fd =>
    let* out_fd := open_trunc output_file in
    match out_fd with
    | None => run close in_fd in ret TEEC_ERROR_GENERIC
    | Some out_fd =>
      let* '(header_read, header, in_fd) := read in_fd 8 in
      if negb (header_read =? 8) then
        run close in_fd in run close out_fd in ret TEEC_ERROR_GENERIC
      else
      let original_size := uint64_of_bytes header in
      let* res :=
        decrypt_loop (S (Z.to_nat st_size)) in_fd out_fd cipher_buf plain_buf
                     original_size 0 0 1 in
      run close in_fd in
      run close out_fd in
      ret res
    end
  end.

End WithPlatform.

(** ** Vocabulary of the properties *)

(** The cipher's decryption undoes its encryption, block for block and with
    the same chaining value afterwards, as CBC does. *)
Definition inverts (P : platform) : Prop :=
  forall k chain blocks,
    Z.of_nat (length blocks) mod AES_BLOCK_SIZE = 0 ->
    length (fst (cbc_blocks P TEE_MODE_ENCRYPT k chain blocks)) = length blocks
    /\ cbc_blocks P TEE_MODE_DECRYPT k chain
         (fst (cbc_blocks P TEE_MODE_ENCRYPT k chain blocks))
       = (blocks, snd (cbc_blocks P TEE_MODE_ENCRYPT k chain blocks)).

(** The session holds the key [k] and the chaining value [v] every stream
    starts from. *)
Definition keyed (sess : crypto_session) (w : Crypto.tee_world)
    (k v : list byte) : Prop :=
  initialized sess = true
  /\ keys w !! key_handle sess = Some (Some k)
  /\ Z.of_nat (length k) * 8 <= AES_KEY_SIZE * 8
  /\ take (Z.to_nat AES_IV_SIZE) (iv sess) = v.

(** The operation [h] is in the middle of a stream in the direction [mode]
    under the key [k], with the chaining value [chain] and no input pending. *)
Definition streaming (mode : Z) (h : N) (w : Crypto.tee_world)
    (k chain : list byte) : Prop :=
  h <> TEE_HANDLE_NULL
  /\ exists op, ops w !! h = Some op /\ op_mode op = mode
                /\ op_key op = Some k /\ op_chain op = Some chain
                /\ op_pending op = [].

(** What [encrypt_file] sends for the bytes one [read] delivered: the bytes
    themselves when they fill whole blocks, the bytes and their padding
    otherwise. *)
Definition padded (chunk : list byte) : list byte :=
  let n := Z.of_nat (length chunk) in
  if n mod AES_BLOCK_SIZE =? 0 then chunk
  else chunk ++ replicate (Z.to_nat (AES_BLOCK_SIZE - n mod AES_BLOCK_SIZE))
                          (uint8 (AES_BLOCK_SIZE - n mod AES_BLOCK_SIZE)).

(** The ciphertext of a file: chunk after chunk of [CHUNK_SIZE] bytes, padded
    and run through the cipher, the chaining value carried over; [n] bounds
    the number of chunks. *)
Fixpoint cipher_chunks (P : platform) (n : nat) (k chain content : list byte)
  : list byte :=
  match n with
  | O => []
  | S n =>
    match content with
    | [] => []
    | _ =>
      let '(out, chain') :=
        cbc_blocks P TEE_MODE_ENCRYPT k chain
                   (padded (take (Z.to_nat CHUNK_SIZE) content)) in
      out ++ cipher_chunks P n k chain' (drop (Z.to_nat CHUNK_SIZE) content)
    end
  end.

(** ** Sample worlds *)

Definition path_plain : list byte := [x2f; x70].
Definition path_cipher : list byte := [x2f; x63].
Definition path_out : list byte := [x2f; x6f].

End CryptoHost.

(** * Properties *)

(** ** The monad and the buffers *)

Lemma bind_some {W A B} (m : M W A) (k : A -> M W B) w a w' :
  m w = Some (a, w') -> bind m k w = k a w'.
Proof. intros H. unfold bind. now rewrite H. Qed.

Lemma bind_none {W A B} (m : M W A) (k : A -> M W B) w :
  m w = None -> bind m k w = None.
Proof. intros H. unfold bind. now rewrite H. Qed.

Lemma neqb_false (a b : Z) : a = b -> negb (a =? b) = false.
Proof. intros ->. now rewrite Z.eqb_refl. Qed.

Lemma neqb_true (a b : Z) : a <> b -> negb (a =? b) = true.
Proof. intros H. apply Z.eqb_neq in H. now rewrite H. Qed.

Lemma gtb_false (a b : Z) : a <= b -> (a >? b) = false.
Proof. intros H. rewrite Z.gtb_ltb. now apply Z.ltb_ge. Qed.

Lemma gtb_true (a b : Z) : b < a -> (a >? b) = true.
Proof. intros H. rewrite Z.gtb_ltb. now apply Z.ltb_lt. Qed.

Lemma TEE_MemMove_all (l : list byte) : TEE_MemMove l (Z.of_nat (length l)) = l.
Proof. unfold TEE_MemMove. rewrite Nat2Z.id. apply firstn_all. Qed.

Lemma TEE_MemMove_length src n :
  Z.of_nat (length (TEE_MemMove src n)) <= Z.max 0 n.
Proof. unfold TEE_MemMove. rewrite length_take. lia. Qed.

Lemma MemMove_at_invariant (buf data : list byte) (total cs : nat) :
  (total + cs <= length data)%nat -> (length data <= length buf)%nat ->
  let chunk := take cs (drop total data) in
  let buf' := take total buf ++ take cs chunk ++ drop (total + cs) buf in
  take (total + cs) buf' ++ drop (total + cs) data ++ drop (length data) buf'
  = take total buf ++ drop total data ++ drop (length data) buf.
Proof.
  intros H1 H2 chunk buf'.
  assert (Hc : length chunk = cs) by (unfold chunk; rewrite length_take, length_drop; lia).
  assert (Htb : length (take total buf) = total) by (rewrite length_take; lia).
  assert (Hbuf' : buf' = (take total buf ++ chunk) ++ drop (total + cs) buf).
  { unfold buf'. rewrite <- Hc at 1. rewrite firstn_all. now rewrite app_assoc. }
  assert (Hl : length (take total buf ++ chunk) = (total + cs)%nat)
    by (rewrite length_app; lia).
  rewrite Hbuf'.
  rewrite (take_app_length' _ _ _ (eq_sym Hl)).
  rewrite drop_app_ge by lia. rewrite Hl, drop_drop.
  replace (total + cs + (length data - (total + cs)))%nat with (length data) by lia.
  rewrite <- !app_assoc. f_equal.
  rewrite app_assoc. f_equal.
  unfold chunk. rewrite <- (drop_drop data cs total). apply take_drop.
Qed.


Section Triples.
Context {W : Type} (R : W -> W -> Prop) `{!Reflexive R, !Transitive R}.

Lemma triple_ret {A} (a : A) (Q : A -> Prop) : Q a -> triple R (ret a) Q.
Proof. intros H w a' w' [= <- <-]. split; [exact H|reflexivity]. Qed.

Lemma triple_bind {A B} (m : M W A) (k : A -> M W B) (Q1 : A -> Prop) (Q2 : B -> Prop) :
  triple R m Q1 -> (forall a, Q1 a -> triple R (k a) Q2) ->
  triple R (bind m k) Q2.
Proof.
  intros Hm Hk w b w'. unfold bind.
  destruct (m w) as [[a w1]|] eqn:E; [|discriminate].
  intros Hkw. destruct (Hm _ _ _ E) as [Hq Hr].
  destruct (Hk a Hq _ _ _ Hkw) as [Hq2 Hr2]. split; [exact Hq2|].
  etransitivity; eassumption.
Qed.

Lemma triple_weaken {A} (m : M W A) (Q Q' : A -> Prop) :
  triple R m Q -> (forall a, Q a -> Q' a) -> triple R m Q'.
Proof. intros Hm HQ w a w' E. destruct (Hm _ _ _ E). auto. Qed.

Lemma triple_panic {A} (Q : A -> Prop) : triple R panic Q.
Proof. intros w a w' [=]. Qed.

Lemma triple_get (Q : W -> Prop) : (forall w, Q w) -> triple R get Q.
Proof. intros H w a w' [= <- <-]. split; [apply H|reflexivity]. Qed.

Lemma triple_modify (f : W -> W) (Q : unit -> Prop) :
  Q tt -> (forall w, R w (f w)) -> triple R (modify f) Q.
Proof. intros HQ Hf w a w' [= <- <-]. auto. Qed.

End Triples.

Lemma lockstep_ret {W A} (R : W -> W -> Prop) (Q : A -> A -> Prop) a1 a2 :
  Q a1 a2 -> lockstep R R Q (ret a1) (ret a2).
Proof. intros H w1 w2 Hw. cbn. auto. Qed.

Lemma lockstep_panic {W A} (R R' : W -> W -> Prop) (Q : A -> A -> Prop) :
  lockstep R R' Q panic panic.
Proof. intros w1 w2 _. exact I. Qed.

Lemma lockstep_bind {W A B} (R1 R2 R3 : W -> W -> Prop)
    (Q1 : A -> A -> Prop) (Q2 : B -> B -> Prop) m1 m2 k1 k2 :
  lockstep R1 R2 Q1 m1 m2 ->
  (forall a1 a2, Q1 a1 a2 -> lockstep R2 R3 Q2 (k1 a1) (k2 a2)) ->
  lockstep R1 R3 Q2 (bind m1 k1) (bind m2 k2).
Proof.
  intros Hm Hk w1 w2 Hw. specialize (Hm w1 w2 Hw). unfold bind.
  destruct (m1 w1) as [[a1 w1']|], (m2 w2) as [[a2 w2']|]; try easy.
  destruct Hm as [Hq Hr]. exact (Hk a1 a2 Hq w1' w2' Hr).
Qed.

Lemma lockstep_weaken {W A} (R1 R2 R1' R2' : W -> W -> Prop)
    (Q Q' : A -> A -> Prop) m1 m2 :
  lockstep R1 R2 Q m1 m2 ->
  (forall w1 w2, R1' w1 w2 -> R1 w1 w2) ->
  (forall w1 w2, R2 w1 w2 -> R2' w1 w2) ->
  (forall a1 a2, Q a1 a2 -> Q' a1 a2) ->
  lockstep R1' R2' Q' m1 m2.
Proof.
  intros Hm H1 H2 HQ w1 w2 Hw. specialize (Hm w1 w2 (H1 _ _ Hw)).
  destruct (m1 w1) as [[a1 w1']|], (m2 w2) as [[a2 w2']|]; try easy.
  destruct Hm. auto.
Qed.


(** ** The storage TA *)

Module StorageSpec.
Import Storage.

(** *** Allocation and the fault script *)

Lemma next_fault_nil w : faults w = [] -> next_fault w = Some (NoFault, w).
Proof. destruct w; simpl; intros ->; reflexivity. Qed.

Lemma TEE_Malloc_nil n w : faults w = [] -> TEE_Malloc n w = Some (true, w).
Proof. intros H. unfold TEE_Malloc. rewrite (bind_some _ _ _ _ _ (next_fault_nil w H)). reflexivity. Qed.

Lemma TEE_Malloc_store n w b w' :
  TEE_Malloc n w = Some (b, w') ->
  objects w' = objects w /\ handles w' = handles w /\ clock w' = clock w.
Proof. unfold TEE_Malloc, bind, next_fault, ret. intros [= _ <-]. auto. Qed.

(** *** The chunked write

    The size test comes before every effect. *)
Lemma write_raw_chunk_oversized pt params sess w :
  CHUNK_SIZE < memref_size (prm1 params) ->
  write_raw_chunk pt params sess w = Some (TEE_ERROR_BAD_PARAMETERS, sess, w).
Proof.
  intros H. unfold write_raw_chunk.
  destruct (negb (pt =? write_chunk_param_types)); [reflexivity|].
  now rewrite (gtb_true _ _ H).
Qed.

Lemma TEE_Malloc_total n w :
  exists b w', TEE_Malloc n w = Some (b, w')
               /\ objects w' = objects w /\ handles w' = handles w.
Proof. unfold TEE_Malloc, bind, next_fault, ret. eexists _, _. eauto. Qed.






(** A failing append leaves store and handles as they were. *)
Lemma TEE_WriteObjectData_fail h data w e w' :
  TEE_WriteObjectData h data w = Some (e, w') ->
  e <> TEE_SUCCESS ->
  objects w' = objects w /\ handles w' = handles w
  /\ h <> TEE_HANDLE_NULL /\ is_Some (handles w !! h).
Proof.
  unfold TEE_WriteObjectData. destruct (N.eqb_spec h TEE_HANDLE_NULL) as [|Hn]; [discriminate|].
  unfold bind, get, panic, next_fault, ret, modify.
  destruct (handles w !! h) as [oo|] eqn:Hh; [|discriminate].
  destruct (negb (has_flag _ _)); [discriminate|].
  cbn [hd]. destruct (injected _).
  - intros [= <- <-] _. cbn. eauto.
  - cbn [objects set_faults]. destruct (objects w !! oo_id oo).
    + destruct (_ >? _).
      * intros [= <- <-] _. cbn. eauto.
      * intros [= <- <-] Hne. now elim Hne.
    + intros [= <- <-] _. cbn. eauto.
Qed.

(** Reading an identifier that is not in the store. *)
Lemma TEE_OpenPersistentObject_absent id flags w :
  objects w !! id = None ->
  faults w = [] ->
  TEE_OpenPersistentObject TEE_STORAGE_PRIVATE id flags w
  = Some (TEE_ERROR_ITEM_NOT_FOUND, TEE_HANDLE_NULL, w).
Proof.
  intros Hid Hf. unfold TEE_OpenPersistentObject.
  rewrite (bind_some _ _ _ _ _ (next_fault_nil w Hf)). cbn [injected].
  unfold bind, get. rewrite (neqb_false _ _ eq_refl), Hid. reflexivity.
Qed.

Lemma read_raw_object_absent id buf p2 p3 w :
  objects w !! id = None ->
  faults w = [] ->
  read_raw_object read_param_types (mkParams (memref_param id) buf p2 p3) w
  = Some (TEE_ERROR_ITEM_NOT_FOUND, mkParams (memref_param id) buf p2 p3, w).
Proof.
  intros Hid Hf. unfold read_raw_object.
  rewrite (neqb_false _ _ eq_refl).
  rewrite (bind_some _ _ _ _ _ (TEE_Malloc_nil _ w Hf)). cbn [negb].
  rewrite (bind_some _ _ _ _ _ (TEE_Malloc_nil _ w Hf)). cbn [negb].
  cbn [prm0 memref_param memref_buffer memref_size]. rewrite TEE_MemMove_all.
  rewrite (bind_some _ _ _ _ _ (TEE_OpenPersistentObject_absent _ _ w Hid Hf)).
  reflexivity.
Qed.

(** C1.  When a WRITE_CHUNK command reaches the append (as a first chunk,
    after creating the object, or as a continuation of a write in progress)
    and [TEE_WriteObjectData] fails with [e], the command returns [e], the
    session's [in_progress] flag is false, the handle is closed and the object
    it was open on is gone from the store: a later READ of that identifier
    returns [TEE_ERROR_ITEM_NOT_FOUND]. *)
Theorem append_failure_rolls_back pt params sess w w1 w2 w3 w4 sess1 oo e :
  pt = write_chunk_param_types ->
  memref_size (prm1 params) <= CHUNK_SIZE ->
  TEE_Malloc (memref_size (prm0 params)) w = Some (true, w1) ->
  TEE_Malloc (memref_size (prm1 params)) w1 = Some (true, w2) ->
  (value_a (prm2 params) <> 0
   /\ TEE_CreatePersistentObject TEE_STORAGE_PRIVATE
        (TEE_MemMove (memref_buffer (prm0 params)) (memref_size (prm0 params)))
        write_chunk_flags [] w2
      = Some (TEE_SUCCESS, object sess1, w3)
   /\ in_progress sess1 = true
   \/
   value_a (prm2 params) = 0 /\ in_progress sess = true
   /\ sess1 = sess /\ w3 = w2) ->
  handles w3 !! object sess1 = Some oo ->
  has_flag (oo_flags oo) TEE_DATA_FLAG_ACCESS_WRITE_META = true ->
  TEE_WriteObjectData (object sess1)
    (TEE_MemMove (memref_buffer (prm1 params)) (memref_size (prm1 params))) w3
  = Some (e, w4) ->
  e <> TEE_SUCCESS ->
  exists w',
    write_raw_chunk pt params sess w
    = Some (e, set_in_progress false sess1, w')
    /\ objects w' !! oo_id oo = None
    /\ handles w' !! object sess1 = None
    /\ forall w'' buf p2 p3,
         objects w'' = objects w' -> faults w'' = [] ->
         read_raw_object read_param_types
           (mkParams (memref_param (oo_id oo)) buf p2 p3) w''
         = Some (TEE_ERROR_ITEM_NOT_FOUND,
                 mkParams (memref_param (oo_id oo)) buf p2 p3, w'').
Proof.
  intros Hpt Hsz Hm1 Hm2 Hreach Hh Hmeta Hwr He.
  destruct (TEE_WriteObjectData_fail _ _ _ _ _ Hwr He) as (Ho4 & Hh4 & Hnn & _).
  assert (Hh' : handles w4 !! object sess1 = Some oo) by now rewrite Hh4.
  exists (set_handles (delete (object sess1) (handles w4))
            (set_objects (delete (oo_id oo) (objects w4)) w4)).
  assert (Htail : forall s, object s = object sess1 ->
     write_the_chunk (TEE_MemMove (memref_buffer (prm1 params)) (memref_size (prm1 params))) s w3
     = Some (e, set_in_progress false sess1,
             set_handles (delete (object sess1) (handles w4))
               (set_objects (delete (oo_id oo) (objects w4)) w4))).
  { intros s Hs. unfold write_the_chunk. rewrite Hs.
    rewrite (bind_some _ _ _ _ _ Hwr). rewrite (neqb_true _ _ He).
    unfold TEE_CloseAndDeletePersistentObject1.
    apply N.eqb_neq in Hnn. rewrite Hnn.
    unfold bind, get, modify, TEE_Free, ret. rewrite Hh', Hmeta. cbn [negb].
    unfold set_in_progress. rewrite Hs. reflexivity. }
  split; [|split; [|split]].
  - unfold write_raw_chunk. rewrite (neqb_false _ _ Hpt), (gtb_false _ _ Hsz).
    rewrite (bind_some _ _ _ _ _ Hm1). cbn [negb].
    rewrite (bind_some _ _ _ _ _ Hm2). cbn [negb].
    destruct Hreach as [(Hfirst & Hcr & Hip) | (Hfirst & Hip & -> & ->)].
    + rewrite (neqb_true _ _ Hfirst).
      rewrite (bind_some _ _ _ _ _ Hcr). rewrite (neqb_false _ _ eq_refl).
      apply Htail. reflexivity.
    + rewrite (neqb_false _ _ Hfirst), Hip. cbn [negb]. apply Htail. reflexivity.
  - cbn. apply lookup_delete_eq.
  - cbn. apply lookup_delete_eq.
  - intros w'' buf p2 p3 Ho Hf. apply read_raw_object_absent; [|exact Hf].
    rewrite Ho. cbn. apply lookup_delete_eq.
Qed.

Lemma append_failure_rolls_back_witness :
  exists w',
    write_raw_chunk write_chunk_param_types (chunk_command obj1 [xa3] 0)
      writing_session full_world
    = Some (TEE_ERROR_STORAGE_NO_SPACE, set_in_progress false writing_session, w')
    /\ objects w' !! obj1 = None
    /\ handles w' !! 1%N = None
    /\ forall w'' buf p2 p3,
         objects w'' = objects w' -> faults w'' = [] ->
         read_raw_object read_param_types
           (mkParams (memref_param obj1) buf p2 p3) w''
         = Some (TEE_ERROR_ITEM_NOT_FOUND,
                 mkParams (memref_param obj1) buf p2 p3, w'').
Proof.
  apply (append_failure_rolls_back write_chunk_param_types
           (chunk_command obj1 [xa3] 0) writing_session full_world
           (set_faults [NoFault; Fail TEE_ERROR_STORAGE_NO_SPACE] writing_world)
           (set_faults [Fail TEE_ERROR_STORAGE_NO_SPACE] writing_world)
           (set_faults [Fail TEE_ERROR_STORAGE_NO_SPACE] writing_world)
           (set_faults [] writing_world)
           writing_session (mkOpen obj1 write_chunk_flags 2)
           TEE_ERROR_STORAGE_NO_SPACE);
    [reflexivity | vm_compute; discriminate | reflexivity | reflexivity
    | right; repeat split; reflexivity | reflexivity | reflexivity
    | reflexivity | discriminate].
Defined.



(** What an append that returns has done. *)
Lemma TEE_WriteObjectData_inv h data w e w' :
  TEE_WriteObjectData h data w = Some (e, w') ->
  exists oo,
    handles w !! h = Some oo /\ h <> TEE_HANDLE_NULL
    /\ (e <> TEE_SUCCESS /\ objects w' = objects w /\ handles w' = handles w
        \/ e = TEE_SUCCESS
           /\ exists old,
               objects w !! oo_id oo = Some old
               /\ objects w'
                  = <[oo_id oo := write_at (oo_pos oo) data old]> (objects w)
               /\ handles w'
                  = <[h := mkOpen (oo_id oo) (oo_flags oo)
                             (oo_pos oo + Z.of_nat (length data))]> (handles w)).
Proof.
  unfold TEE_WriteObjectData. destruct (N.eqb_spec h TEE_HANDLE_NULL) as [|Hn]; [discriminate|].
  unfold bind, get, panic, next_fault, ret, modify.
  destruct (handles w !! h) as [oo|] eqn:Hh; [|discriminate].
  destruct (negb (has_flag _ _)); [discriminate|].
  cbn [hd]. destruct (injected _) as [e'|] eqn:Hinj.
  - intros [= <- <-]. exists oo. split; [easy|]. split; [easy|]. left. cbn.
    split; [|easy]. destruct (hd _ _) as [|e''|]; try discriminate.
    cbn in Hinj. destruct (Z.eqb_spec e'' TEE_SUCCESS); [discriminate|]. congruence.
  - cbn [objects set_faults]. destruct (objects w !! oo_id oo) as [old|] eqn:Hold.
    + destruct (_ >? _).
      * intros [= <- <-]. exists oo. cbn. intuition (auto; discriminate).
      * intros [= <- <-]. exists oo. cbn. split; [easy|]. split; [easy|]. right.
        split; [easy|]. exists old. easy.
    + intros [= <- <-]. exists oo. cbn. intuition (auto; discriminate).
Qed.

Lemma TEE_WriteObjectData_total h data w oo :
  handles w !! h = Some oo -> h <> TEE_HANDLE_NULL ->
  has_flag (oo_flags oo) TEE_DATA_FLAG_ACCESS_WRITE = true ->
  exists e w', TEE_WriteObjectData h data w = Some (e, w').
Proof.
  intros Hh Hn Hf. unfold TEE_WriteObjectData. apply N.eqb_neq in Hn. rewrite Hn.
  unfold bind, get, panic, next_fault, ret, modify. rewrite Hh, Hf. cbn [negb hd].
  destruct (injected _); [eauto|]. cbn [objects set_faults].
  destruct (objects w !! oo_id oo); [|eauto]. destruct (_ >? _); eauto.
Qed.

Lemma fresh_handle_spec hs :
  fresh_handle hs <> TEE_HANDLE_NULL /\ hs !! fresh_handle hs = None.
Proof.
  unfold fresh_handle.
  pose proof (is_fresh ({[TEE_HANDLE_NULL]} ∪ dom hs)) as H.
  split.
  - intros E. apply H. rewrite E. set_solver.
  - apply not_elem_of_dom. set_solver.
Qed.

Lemma access_conflict_write_chunk oflags :
  access_conflict oflags write_chunk_flags = true.
Proof.
  unfold access_conflict.
  replace (has_flag write_chunk_flags TEE_DATA_FLAG_ACCESS_WRITE_META) with true
    by reflexivity.
  now rewrite orb_true_r.
Qed.

Lemma conflicting_false id flags hs h oo :
  conflicting id flags hs = false ->
  hs !! h = Some oo -> oo_id oo = id ->
  access_conflict (oo_flags oo) flags = false.
Proof.
  unfold conflicting. intros Hc Hh Hid.
  destruct (access_conflict (oo_flags oo) flags) eqn:Hac; [|reflexivity].
  assert (existsb (fun e : N * open_object =>
                     bool_decide (oo_id (snd e) = id)
                     && access_conflict (oo_flags (snd e)) flags)
                  (map_to_list hs) = true) as Ht; [|congruence].
  apply existsb_exists. exists (h, oo). split.
  - apply list_elem_of_In, elem_of_map_to_list, Hh.
  - cbn. rewrite Hac, bool_decide_eq_true_2; auto.
Qed.

Lemma TEE_CreatePersistentObject_inv id flags init w h w' :
  TEE_CreatePersistentObject TEE_STORAGE_PRIVATE id flags init w
  = Some (TEE_SUCCESS, h, w') ->
  h = fresh_handle (handles w)
  /\ conflicting id flags (handles w) = false
  /\ objects w' = <[id := init]> (objects w)
  /\ handles w' = <[h := mkOpen id flags 0]> (handles w).
Proof.
  unfold TEE_CreatePersistentObject, bind, next_fault, get, modify, ret.
  cbn [hd]. destruct (injected _) as [e|] eqn:Hinj.
  - intros [= He _ _]. destruct (hd _ _) as [|e'|]; try discriminate.
    cbn in Hinj. destruct (Z.eqb_spec e' TEE_SUCCESS); [discriminate|]. congruence.
  - cbn [negb handles objects set_faults]. rewrite (neqb_false _ _ eq_refl).
    destruct (conflicting _ _ _); [discriminate|].
    destruct (_ && _); [discriminate|].
    intros [= <- <-]. cbn. auto.
Qed.

(** C9.  A WRITE_CHUNK command with [is_first <> 0] that arrives while a
    write is in progress and whose object creation succeeds stores the new
    handle in the session; the previous handle is neither closed nor is its
    object finalized or rolled back: it stays open, with its data as it was,
    after the command and also after [TA_CloseSessionEntryPoint].  The closing
    of the session closes the stored handle, which is open until then when the
    command succeeded, and touches no other handle and no object. *)
Theorem restart_abandons_previous_handle
    pt params sess w w1 w2 w3 h_new oo_old :
  pt = write_chunk_param_types ->
  memref_size (prm1 params) <= CHUNK_SIZE ->
  TEE_Malloc (memref_size (prm0 params)) w = Some (true, w1) ->
  TEE_Malloc (memref_size (prm1 params)) w1 = Some (true, w2) ->
  in_progress sess = true ->
  handles w !! object sess = Some oo_old ->
  value_a (prm2 params) <> 0 ->
  TEE_CreatePersistentObject TEE_STORAGE_PRIVATE
    (TEE_MemMove (memref_buffer (prm0 params)) (memref_size (prm0 params)))
    write_chunk_flags [] w2
  = Some (TEE_SUCCESS, h_new, w3) ->
  exists res sess' w',
    write_raw_chunk pt params sess w = Some (res, sess', w')
    /\ object sess' = h_new
    /\ h_new <> object sess
    /\ handles w' !! object sess = Some oo_old
    /\ objects w' !! oo_id oo_old = objects w !! oo_id oo_old
    /\ exists w'',
         TA_CloseSessionEntryPoint (Some sess') w' = Some (tt, w'')
         /\ handles w'' !! object sess = Some oo_old
         /\ objects w'' !! oo_id oo_old = objects w !! oo_id oo_old
         /\ handles w'' !! h_new = None
         /\ (forall h, h <> h_new -> handles w'' !! h = handles w' !! h)
         /\ objects w'' = objects w'
         /\ (res = TEE_SUCCESS ->
             in_progress sess' = true /\ is_Some (handles w' !! h_new)).
Proof.
  intros Hpt Hsz Hm1 Hm2 Hip Hold Hfirst Hcr.
  set (id := TEE_MemMove (memref_buffer (prm0 params)) (memref_size (prm0 params))) in *.
  set (data := TEE_MemMove (memref_buffer (prm1 params)) (memref_size (prm1 params))).
  destruct (TEE_Malloc_store _ _ _ _ Hm1) as (Ho1 & Hh1 & _).
  destruct (TEE_Malloc_store _ _ _ _ Hm2) as (Ho2 & Hh2 & _).
  destruct (TEE_CreatePersistentObject_inv _ _ _ _ _ _ Hcr) as (Hfr & Hnc & Ho3 & Hh3).
  destruct (fresh_handle_spec (handles w2)) as [Hnn Hfresh]. rewrite <- Hfr in Hnn, Hfresh.
  assert (Hold2 : handles w2 !! object sess = Some oo_old) by now rewrite Hh2, Hh1.
  assert (Hne : h_new <> object sess) by congruence.
  assert (Hidne : id <> oo_id oo_old).
  { intros E. symmetry in E.
    pose proof (conflicting_false _ _ _ _ _ Hnc Hold2 E) as Hc.
    now rewrite access_conflict_write_chunk in Hc. }
  assert (Hnew3 : handles w3 !! h_new = Some (mkOpen id write_chunk_flags 0))
    by (rewrite Hh3; apply lookup_insert_eq).
  assert (Hold3 : handles w3 !! object sess = Some oo_old)
    by (rewrite Hh3, lookup_insert_ne; auto).
  assert (Hobj3 : objects w3 !! oo_id oo_old = objects w !! oo_id oo_old)
    by (rewrite Ho3, lookup_insert_ne; auto; congruence).
  destruct (TEE_WriteObjectData_total h_new data w3 _ Hnew3 Hnn eq_refl) as (e & w4 & Hwr).
  destruct (TEE_WriteObjectData_inv _ _ _ _ _ Hwr) as (oo & Hoo & _ & Hcase).
  rewrite Hnew3 in Hoo. injection Hoo as <-. cbn [oo_id oo_flags oo_pos] in Hcase.
  assert (Hprefix : write_raw_chunk pt params sess w
                    = write_the_chunk data (mkSess h_new true) w3).
  { unfold write_raw_chunk. rewrite (neqb_false _ _ Hpt), (gtb_false _ _ Hsz).
    rewrite (bind_some _ _ _ _ _ Hm1). cbn [negb].
    rewrite (bind_some _ _ _ _ _ Hm2). cbn [negb].
    rewrite (neqb_true _ _ Hfirst).
    fold id. rewrite (bind_some _ _ _ _ _ Hcr). rewrite (neqb_false _ _ eq_refl).
    reflexivity. }
  rewrite Hprefix. unfold write_the_chunk. cbn [object].
  rewrite (bind_some _ _ _ _ _ Hwr).
  destruct Hcase as [(He & Ho4 & Hh4) | (He & old & _ & Ho4 & Hh4)].
  - (* the append fails: the new object is rolled back, the old handle stays *)
    rewrite (neqb_true _ _ He).
    unfold TEE_CloseAndDeletePersistentObject1.
    apply N.eqb_neq in Hnn. rewrite Hnn.
    unfold bind, get, modify, TEE_Free, ret.
    rewrite Hh4, Hnew3. cbn [oo_flags oo_id negb]. 
    replace (has_flag write_chunk_flags TEE_DATA_FLAG_ACCESS_WRITE_META) with true
      by reflexivity.
    cbn [negb].
    eexists _, _, _. split; [reflexivity|]. cbn.
    rewrite !lookup_delete_ne by auto. rewrite Hh4, Ho4.
    repeat split; auto.
    eexists. repeat split; cbn; rewrite ?lookup_delete_ne by auto; rewrite ?Hh4, ?Ho4; auto.
    apply lookup_delete_eq.
  - (* the append succeeds *)
    subst e. rewrite (neqb_false _ _ eq_refl).
    unfold bind, TEE_Free, ret.
    eexists _, _, _. split; [reflexivity|]. cbn.
    assert (Hold4 : handles w4 !! object sess = Some oo_old)
      by (rewrite Hh4, lookup_insert_ne; auto).
    assert (Hobj4 : objects w4 !! oo_id oo_old = objects w !! oo_id oo_old)
      by (rewrite Ho4, lookup_insert_ne; auto).
    repeat split; auto.
    unfold TEE_CloseObject. apply N.eqb_neq in Hnn. rewrite Hnn.
    unfold bind, get, modify, TEE_Free, ret.
    rewrite Hh4, lookup_insert_eq.
    eexists. repeat split; cbn;
      rewrite ?lookup_delete_ne, ?lookup_insert_ne by auto; auto.
    + apply lookup_delete_eq.
    + intros h Hh. now rewrite lookup_delete_ne by auto.
Qed.

Lemma restart_abandons_previous_handle_witness :
  exists res sess' w',
    write_raw_chunk write_chunk_param_types (chunk_command obj2 [xb2] 1)
      writing_session writing_world = Some (res, sess', w')
    /\ object sess' = 2%N
    /\ 2%N <> object writing_session
    /\ handles w' !! object writing_session = Some (mkOpen obj1 write_chunk_flags 2)
    /\ objects w' !! obj1 = objects writing_world !! obj1
    /\ exists w'',
         TA_CloseSessionEntryPoint (Some sess') w' = Some (tt, w'')
         /\ handles w'' !! object writing_session
            = Some (mkOpen obj1 write_chunk_flags 2)
         /\ objects w'' !! obj1 = objects writing_world !! obj1
         /\ handles w'' !! 2%N = None
         /\ (forall h, h <> 2%N -> handles w'' !! h = handles w' !! h)
         /\ objects w'' = objects w'
         /\ (res = TEE_SUCCESS ->
             in_progress sess' = true /\ is_Some (handles w' !! 2%N)).
Proof.
  eapply (restart_abandons_previous_handle write_chunk_param_types
            (chunk_command obj2 [xb2] 1) writing_session writing_world
            writing_world writing_world _ 2%N (mkOpen obj1 write_chunk_flags 2));
    [reflexivity | vm_compute; discriminate | reflexivity | reflexivity
    | reflexivity | reflexivity | discriminate | vm_compute; reflexivity].
Defined.



Lemma TEE_CreatePersistentObject_ok id flags init w :
  faults w = [] ->
  conflicting id flags (handles w) = false ->
  has_flag flags TEE_DATA_FLAG_OVERWRITE = true ->
  TEE_CreatePersistentObject TEE_STORAGE_PRIVATE id flags init w
  = Some (TEE_SUCCESS, fresh_handle (handles w),
          set_handles (<[fresh_handle (handles w) := mkOpen id flags 0]> (handles w))
            (set_objects (<[id := init]> (objects w)) w)).
Proof.
  intros Hf Hc Ho. unfold TEE_CreatePersistentObject.
  rewrite (bind_some _ _ _ _ _ (next_fault_nil w Hf)). cbn [injected].
  unfold bind, get, modify, ret. rewrite (neqb_false _ _ eq_refl), Hc, Ho.
  rewrite andb_false_r. reflexivity.
Qed.

Lemma TEE_WriteObjectData_ok h data w oo old :
  faults w = [] ->
  handles w !! h = Some oo -> h <> TEE_HANDLE_NULL ->
  has_flag (oo_flags oo) TEE_DATA_FLAG_ACCESS_WRITE = true ->
  objects w !! oo_id oo = Some old ->
  oo_pos oo + Z.of_nat (length data) <= TEE_DATA_MAX_POSITION ->
  TEE_WriteObjectData h data w
  = Some (TEE_SUCCESS,
          set_handles (<[h := mkOpen (oo_id oo) (oo_flags oo)
                               (oo_pos oo + Z.of_nat (length data))]> (handles w))
            (set_objects (<[oo_id oo := write_at (oo_pos oo) data old]> (objects w))
               w)).
Proof.
  intros Hf Hh Hn Hfl Hold Hpos. unfold TEE_WriteObjectData.
  apply N.eqb_neq in Hn. rewrite Hn.
  unfold bind at 1. unfold get at 1. rewrite Hh, Hfl. cbn [negb].
  rewrite (bind_some _ _ _ _ _ (next_fault_nil w Hf)). cbn [injected].
  rewrite Hold, (gtb_false _ _ Hpos). reflexivity.
Qed.

(** C5, as amended.  In a reliable environment a WRITE_CHUNK command with
    [is_first <> 0] and at most [CHUNK_SIZE] bytes of data, on an identifier no
    handle is open on, creates the object or replaces its content, with the
    access flags write + write-meta + overwrite (read access is not among
    them), stores the new handle in the session, sets [in_progress] and leaves
    the chunk's bytes as the object's content. *)
Theorem first_chunk_creates_object params sess w :
  let id := TEE_MemMove (memref_buffer (prm0 params)) (memref_size (prm0 params)) in
  let data := TEE_MemMove (memref_buffer (prm1 params)) (memref_size (prm1 params)) in
  let h := fresh_handle (handles w) in
  memref_size (prm1 params) <= CHUNK_SIZE ->
  value_a (prm2 params) <> 0 ->
  faults w = [] ->
  conflicting id write_chunk_flags (handles w) = false ->
  write_raw_chunk write_chunk_param_types params sess w
  = Some (TEE_SUCCESS, mkSess h true,
          set_handles
            (<[h := mkOpen id write_chunk_flags (Z.of_nat (length data))]>
               (handles w))
            (set_objects (<[id := data]> (objects w)) w))
  /\ write_chunk_flags
     = Z.lor (Z.lor TEE_DATA_FLAG_ACCESS_WRITE TEE_DATA_FLAG_ACCESS_WRITE_META)
             TEE_DATA_FLAG_OVERWRITE
  /\ has_flag write_chunk_flags TEE_DATA_FLAG_ACCESS_READ = false.
Proof.
  intros id data h Hsz Hfirst Hf Hc. split; [|split; reflexivity].
  destruct (fresh_handle_spec (handles w)) as [Hnn Hfresh]. fold h in Hnn, Hfresh.
  unfold write_raw_chunk. rewrite (neqb_false _ _ eq_refl), (gtb_false _ _ Hsz).
  rewrite (bind_some _ _ _ _ _ (TEE_Malloc_nil _ w Hf)). cbn [negb].
  rewrite (bind_some _ _ _ _ _ (TEE_Malloc_nil _ w Hf)). cbn [negb].
  rewrite (neqb_true _ _ Hfirst). fold id data.
  rewrite (bind_some _ _ _ _ _ (TEE_CreatePersistentObject_ok _ _ [] w Hf Hc eq_refl)).
  rewrite (neqb_false _ _ eq_refl). fold h.
  unfold write_the_chunk. cbn [object set_object set_in_progress].
  erewrite bind_some; cycle 1.
  { eapply (TEE_WriteObjectData_ok h data _ (mkOpen id write_chunk_flags 0) []);
      cbn; auto.
    - apply lookup_insert_eq.
    - apply lookup_insert_eq.
    - pose proof (TEE_MemMove_length (memref_buffer (prm1 params))
                    (memref_size (prm1 params))) as Hl. fold data in Hl.
      unfold CHUNK_SIZE, TEE_DATA_MAX_POSITION in *. lia. }
  rewrite (neqb_false _ _ eq_refl). unfold bind, TEE_Free, ret.
  do 2 f_equal. destruct w; unfold set_handles, set_objects; cbn.
  f_equal.
  - rewrite insert_insert_eq. unfold write_at. cbn. now rewrite drop_nil, app_nil_r.
  - now rewrite insert_insert_eq.
Qed.

Lemma first_chunk_creates_object_witness :
  write_raw_chunk write_chunk_param_types (chunk_command obj1 [xa1] 1)
    idle_session empty_world
  = Some (TEE_SUCCESS, mkSess (fresh_handle (handles empty_world)) true,
          set_handles
            (<[fresh_handle (handles empty_world) :=
                 mkOpen obj1 write_chunk_flags 1]> (handles empty_world))
            (set_objects (<[obj1 := [xa1]]> (objects empty_world)) empty_world))
  /\ write_chunk_flags
     = Z.lor (Z.lor TEE_DATA_FLAG_ACCESS_WRITE TEE_DATA_FLAG_ACCESS_WRITE_META)
             TEE_DATA_FLAG_OVERWRITE
  /\ has_flag write_chunk_flags TEE_DATA_FLAG_ACCESS_READ = false.
Proof.
  apply (first_chunk_creates_object (chunk_command obj1 [xa1] 1)
           idle_session empty_world);
    [vm_compute; discriminate | discriminate | reflexivity | reflexivity].
Defined.

(** C5 as stated fails: the handle a first chunk creates is not opened with
    read + write + write-meta + overwrite; read access is missing. *)
Lemma first_chunk_handle_lacks_read_access :
  exists w' oo,
    write_raw_chunk write_chunk_param_types (chunk_command obj1 [xa1] 1)
      idle_session empty_world
    = Some (TEE_SUCCESS, mkSess 1%N true, w')
    /\ handles w' !! 1%N = Some oo
    /\ has_flag (oo_flags oo) TEE_DATA_FLAG_ACCESS_READ = false
    /\ oo_flags oo
       <> Z.lor (Z.lor (Z.lor TEE_DATA_FLAG_ACCESS_READ TEE_DATA_FLAG_ACCESS_WRITE)
                       TEE_DATA_FLAG_ACCESS_WRITE_META)
                TEE_DATA_FLAG_OVERWRITE.
Proof.
  eexists _, _. split; [vm_compute; reflexivity|].
  split; [vm_compute; reflexivity|]. split; [reflexivity|]. vm_compute. discriminate.
Qed.


(** *** The read loop *)

Lemma chunk_size_for_bounds len total :
  0 <= total < len ->
  0 < chunk_size_for len total <= CHUNK_SIZE
  /\ total + chunk_size_for len total <= len.
Proof.
  intros H. unfold chunk_size_for, CHUNK_SIZE.
  destruct (Z.gtb_spec (len - total) (16 * 1024)); lia.
Qed.

Lemma set_faults_id w : set_faults (faults w) w = w.
Proof. now destruct w. Qed.

Lemma TEE_ReadObjectData_step h oo data size w :
  handles w !! h = Some oo -> h <> TEE_HANDLE_NULL ->
  has_flag (oo_flags oo) TEE_DATA_FLAG_ACCESS_READ = true ->
  objects w !! oo_id oo = Some data ->
  injected (hd NoFault (faults w)) = None ->
  let limit := match hd NoFault (faults w) with
               | Short n => Z.min size n | _ => size end in
  let got := take (Z.to_nat limit) (drop (Z.to_nat (oo_pos oo)) data) in
  TEE_ReadObjectData h size w
  = Some (TEE_SUCCESS, got,
          set_handles (<[h := mkOpen (oo_id oo) (oo_flags oo)
                               (oo_pos oo + Z.of_nat (length got))]> (handles w))
            (set_faults (tl (faults w)) w)).
Proof.
  intros Hh Hn Hfl Hd Hinj limit got. unfold TEE_ReadObjectData.
  apply N.eqb_neq in Hn. rewrite Hn.
  unfold bind, get, next_fault, modify, ret. rewrite Hh, Hfl. cbn [negb].
  rewrite Hinj. cbn [objects set_faults]. rewrite Hd. reflexivity.
Qed.

Lemma read_loop_step fuel h id flags data buf total w :
  handles w !! h = Some (mkOpen id flags total) -> h <> TEE_HANDLE_NULL ->
  has_flag flags TEE_DATA_FLAG_ACCESS_READ = true ->
  objects w !! id = Some data ->
  0 <= total < Z.of_nat (length data) ->
  hd NoFault (faults w) = NoFault ->
  let cs := chunk_size_for (Z.of_nat (length data)) total in
  let chunk := take (Z.to_nat cs) (drop (Z.to_nat total) data) in
  read_loop (S fuel) h (Z.of_nat (length data)) buf total w
  = read_loop fuel h (Z.of_nat (length data))
      (TEE_MemMove_at buf total chunk cs) (total + cs)
      (set_handles (<[h := mkOpen id flags (total + cs)]> (handles w))
         (set_faults (tl (faults w)) w)).
Proof.
  intros Hh Hn Hfl Hd Ht Hnf cs chunk.
  destruct (chunk_size_for_bounds _ _ Ht) as [Hcs Hle]. fold cs in Hcs, Hle.
  assert (Hlen : Z.of_nat (length chunk) = cs).
  { unfold chunk. rewrite length_take, length_drop. lia. }
  cbn [read_loop]. rewrite (proj2 (Z.ltb_lt _ _) (proj2 Ht)). fold cs.
  erewrite bind_some; cycle 1.
  { apply (TEE_ReadObjectData_step h (mkOpen id flags total) data cs w); auto.
    now rewrite Hnf. }
  rewrite Hnf. cbn [oo_pos oo_id oo_flags]. fold chunk.
  rewrite (neqb_false _ _ eq_refl), Hlen, (neqb_false _ _ eq_refl). reflexivity.
Qed.

Lemma read_loop_complete fuel : forall h id flags data buf total w,
  handles w !! h = Some (mkOpen id flags total) -> h <> TEE_HANDLE_NULL ->
  has_flag flags TEE_DATA_FLAG_ACCESS_READ = true ->
  objects w !! id = Some data ->
  0 <= total <= Z.of_nat (length data) ->
  (length data <= length buf)%nat ->
  faults w = [] ->
  Z.of_nat (length data) - total <= Z.of_nat fuel ->
  read_loop fuel h (Z.of_nat (length data)) buf total w
  = Some (TEE_SUCCESS,
          take (Z.to_nat total) buf ++ drop (Z.to_nat total) data
            ++ drop (length data) buf,
          Z.of_nat (length data),
          set_handles (<[h := mkOpen id flags (Z.of_nat (length data))]> (handles w))
            w).
Proof.
  induction fuel as [|fuel IH]; intros h id flags data buf total w Hh Hn Hfl Hd Ht Hb Hf Hfuel.
  - assert (total = Z.of_nat (length data)) as -> by lia.
    cbn [read_loop]. rewrite Z.ltb_irrefl. unfold ret.
    rewrite Nat2Z.id, drop_all, app_nil_l, take_drop.
    rewrite (insert_id _ _ _ Hh). now destruct w.
  - destruct (Z.eq_dec total (Z.of_nat (length data))) as [->|Hne].
    + cbn [read_loop]. rewrite Z.ltb_irrefl. unfold ret.
      rewrite Nat2Z.id, drop_all, app_nil_l, take_drop.
      rewrite (insert_id _ _ _ Hh). now destruct w.
    + assert (Ht' : 0 <= total < Z.of_nat (length data)) by lia.
      destruct (chunk_size_for_bounds _ _ Ht') as [Hcs Hle].
      rewrite (read_loop_step fuel h id flags data buf total w) by (auto; now rewrite Hf).
      set (cs := chunk_size_for (Z.of_nat (length data)) total) in *.
      set (chunk := take (Z.to_nat cs) (drop (Z.to_nat total) data)).
      assert (Hlenb : length (TEE_MemMove_at buf total chunk cs) = length buf).
      { unfold TEE_MemMove_at, chunk.
        rewrite !length_app, !length_take, !length_drop. lia. }
      rewrite (IH h id flags data); cbn [handles objects faults set_handles set_faults]; auto.
      * f_equal. f_equal; [f_equal|].
        -- f_equal. rewrite Z2Nat.inj_add by lia.
           apply (MemMove_at_invariant buf data (Z.to_nat total) (Z.to_nat cs)); lia.
        -- rewrite insert_insert_eq. destruct w; cbn in *; subst. reflexivity.
      * apply lookup_insert_eq.
      * lia.
      * lia.
      * now rewrite Hf.
      * lia.
Qed.

Lemma read_loop_short k : forall fuel h id flags data buf total w n rest,
  handles w !! h = Some (mkOpen id flags total) -> h <> TEE_HANDLE_NULL ->
  has_flag flags TEE_DATA_FLAG_ACCESS_READ = true ->
  objects w !! id = Some data ->
  0 <= total ->
  faults w = replicate k NoFault ++ Short n :: rest ->
  total + Z.of_nat k * CHUNK_SIZE < Z.of_nat (length data) ->
  n < chunk_size_for (Z.of_nat (length data)) (total + Z.of_nat k * CHUNK_SIZE) ->
  (k < fuel)%nat ->
  exists buf' w',
    read_loop fuel h (Z.of_nat (length data)) buf total w
    = Some (TEE_ERROR_GENERIC, buf', total + Z.of_nat k * CHUNK_SIZE, w')
    /\ objects w' = objects w
    /\ exists pos, handles w' = <[h := mkOpen id flags pos]> (handles w).
Proof.
  induction k as [|k IH]; intros fuel h id flags data buf total w n rest
    Hh Hn Hfl Hd Ht Hf Hlt Hshort Hfuel.
  - destruct fuel as [|fuel]; [lia|]. rewrite Z.add_0_r in *. cbn [replicate app] in Hf.
    assert (Ht' : 0 <= total < Z.of_nat (length data)) by lia.
    destruct (chunk_size_for_bounds _ _ Ht') as [Hcs Hle].
    cbn [read_loop]. rewrite (proj2 (Z.ltb_lt _ _) Hlt).
    erewrite bind_some; cycle 1.
    { apply (TEE_ReadObjectData_step h (mkOpen id flags total) data _ w); auto.
      now rewrite Hf. }
    rewrite Hf. cbn [hd tl oo_pos oo_id oo_flags].
    rewrite (neqb_false _ _ eq_refl).
    set (cs := chunk_size_for (Z.of_nat (length data)) total) in *.
    rewrite neqb_true.
    + eexists _, _. split; [reflexivity|]. split; [reflexivity|].
      eexists. reflexivity.
    + rewrite length_take. lia.
  - destruct fuel as [|fuel]; [lia|].
    assert (Hk : Z.of_nat (S k) * CHUNK_SIZE = CHUNK_SIZE + Z.of_nat k * CHUNK_SIZE) by lia.
    rewrite Hk in *.
    assert (HC : 0 < CHUNK_SIZE) by reflexivity.
    assert (Ht' : 0 <= total < Z.of_nat (length data)) by lia.
    assert (Hcs : chunk_size_for (Z.of_nat (length data)) total = CHUNK_SIZE).
    { unfold chunk_size_for. rewrite gtb_true; [reflexivity|]. lia. }
    cbn [replicate app] in Hf.
    rewrite (read_loop_step fuel h id flags data buf total w) by (auto; now rewrite Hf).
    rewrite Hcs.
    edestruct (IH fuel h id flags data
                 (TEE_MemMove_at buf total
                    (take (Z.to_nat CHUNK_SIZE) (drop (Z.to_nat total) data)) CHUNK_SIZE)
                 (total + CHUNK_SIZE)
                 (set_handles (<[h := mkOpen id flags (total + CHUNK_SIZE)]> (handles w))
                    (set_faults (tl (faults w)) w)) n rest)
      as (buf' & w' & Hrun & Hobj & pos & Hpos); cbn [handles objects faults set_handles set_faults]; auto.
    + apply lookup_insert_eq.
    + lia.
    + now rewrite Hf.
    + lia.
    + now rewrite <- Z.add_assoc.
    + lia.
    + exists buf', w'. rewrite Hrun, Z.add_assoc. split; [reflexivity|].
      split; [exact Hobj|]. exists pos. rewrite Hpos. cbn.
      apply insert_insert_eq.
Qed.

(** *** The READ command *)

Lemma TEE_Malloc_calm n w :
  hd NoFault (faults w) = NoFault ->
  TEE_Malloc n w = Some (true, set_faults (tl (faults w)) w).
Proof. intros H. unfold TEE_Malloc, bind, next_fault, ret. now rewrite H. Qed.

Lemma TEE_OpenPersistentObject_calm id flags data w :
  hd NoFault (faults w) = NoFault ->
  objects w !! id = Some data ->
  conflicting id flags (handles w) = false ->
  TEE_OpenPersistentObject TEE_STORAGE_PRIVATE id flags w
  = Some (TEE_SUCCESS, fresh_handle (handles w),
          set_handles (<[fresh_handle (handles w) := mkOpen id flags 0]> (handles w))
            (set_faults (tl (faults w)) w)).
Proof.
  intros Hf Hd Hc. unfold TEE_OpenPersistentObject, bind, next_fault, get, modify, ret.
  rewrite Hf. cbn [injected objects handles set_faults].
  rewrite (neqb_false _ _ eq_refl), Hd, Hc. reflexivity.
Qed.

Lemma TEE_GetObjectInfo1_calm h oo data w :
  hd NoFault (faults w) = NoFault ->
  handles w !! h = Some oo -> h <> TEE_HANDLE_NULL ->
  objects w !! oo_id oo = Some data ->
  TEE_GetObjectInfo1 h w
  = Some (TEE_SUCCESS, mkInfo (Z.of_nat (length data)) (oo_pos oo),
          set_faults (tl (faults w)) w).
Proof.
  intros Hf Hh Hn Hd. unfold TEE_GetObjectInfo1.
  apply N.eqb_neq in Hn. rewrite Hn.
  unfold bind, next_fault, get, ret. rewrite Hh, Hf. cbn [injected objects set_faults].
  now rewrite Hd.
Qed.

Lemma TEE_CloseObject_ok h oo w :
  handles w !! h = Some oo -> h <> TEE_HANDLE_NULL ->
  TEE_CloseObject h w = Some (tt, set_handles (delete h (handles w)) w).
Proof.
  intros Hh Hn. unfold TEE_CloseObject. apply N.eqb_neq in Hn. rewrite Hn.
  unfold bind, get, modify. now rewrite Hh.
Qed.

Lemma read_exit_ok h oo res params w :
  handles w !! h = Some oo -> h <> TEE_HANDLE_NULL ->
  read_exit h res params w
  = Some (res, params, set_handles (delete h (handles w)) w).
Proof.
  intros Hh Hn. unfold read_exit.
  rewrite (bind_some _ _ _ _ _ (TEE_CloseObject_ok _ _ _ Hh Hn)). reflexivity.
Qed.

Lemma hd_nil_calm w : faults w = [] -> hd NoFault (faults w) = NoFault.
Proof. now intros ->. Qed.

Lemma read_whole_object params w id data :
  id = TEE_MemMove (memref_buffer (prm0 params)) (memref_size (prm0 params)) ->
  objects w !! id = Some data ->
  conflicting id read_flags (handles w) = false ->
  Z.of_nat (length data) <= memref_size (prm1 params) ->
  memref_size (prm1 params) = Z.of_nat (length (memref_buffer (prm1 params))) ->
  faults w = [] ->
  read_raw_object read_param_types params w
  = Some (TEE_SUCCESS,
          set_prm1 (set_memref
                      (data ++ drop (length data) (memref_buffer (prm1 params)))
                      (Z.of_nat (length data)) (prm1 params)) params,
          set_clock (tl (tl (clock w))) w).
Proof.
  intros Hid Hd Hc Hsz Hbuf Hf.
  destruct (fresh_handle_spec (handles w)) as [Hnn Hfresh].
  set (h := fresh_handle (handles w)) in *.
  unfold read_raw_object. rewrite (neqb_false _ _ eq_refl).
  rewrite (bind_some _ _ _ _ _ (TEE_Malloc_nil _ w Hf)). cbn [negb].
  rewrite (bind_some _ _ _ _ _ (TEE_Malloc_nil _ w Hf)). cbn [negb].
  rewrite <- Hid. fold read_flags.
  rewrite (bind_some _ _ _ _ _
             (TEE_OpenPersistentObject_calm _ _ _ w (hd_nil_calm w Hf) Hd Hc)).
  rewrite (neqb_false _ _ eq_refl). fold h.
  rewrite Hf. cbn [tl]. rewrite <- Hf, set_faults_id.
  set (w1 := set_handles (<[h := mkOpen id read_flags 0]> (handles w)) w).
  assert (Hh1 : handles w1 !! h = Some (mkOpen id read_flags 0)) by apply lookup_insert_eq.
  assert (Hf1 : faults w1 = []) by exact Hf.
  erewrite bind_some; cycle 1.
  { apply (TEE_GetObjectInfo1_calm h _ data w1 (hd_nil_calm w1 Hf1) Hh1 Hnn). exact Hd. }
  cbv beta iota. rewrite (neqb_false _ _ eq_refl). cbn [dataSize].
  rewrite (gtb_false _ _ Hsz).
  rewrite Hf1. cbn [tl]. rewrite <- Hf1, set_faults_id.
  unfold bind at 1. unfold TEE_GetSystemTime at 1.
  set (w2 := set_clock (tl (clock w1)) w1).
  rewrite (bind_some _ _ _ _ _
    (read_loop_complete (Z.to_nat (Z.of_nat (length data))) h id read_flags data
       (memref_buffer (prm1 params)) 0 w2 Hh1 Hnn eq_refl Hd
       ltac:(lia) ltac:(lia) Hf ltac:(lia))).
  cbv beta iota. rewrite (neqb_false _ _ eq_refl).
  unfold bind at 1. unfold TEE_GetSystemTime at 1.
  erewrite read_exit_ok; [|apply lookup_insert_eq|exact Hnn].
  cbn [Z.to_nat take drop app]. apply f_equal. apply f_equal2; [apply f_equal|].
  - destruct params as [p0 [b1 s1 a1 v1] p2 p3]; reflexivity.
  - subst w2 w1. destruct w as [o hs f c]; cbn in *.
    unfold set_handles, set_clock; cbn.
    f_equal. rewrite delete_insert_eq, delete_insert_eq. now apply delete_id.
Qed.

Lemma read_short_delivery params w id data k n rest :
  id = TEE_MemMove (memref_buffer (prm0 params)) (memref_size (prm0 params)) ->
  objects w !! id = Some data ->
  conflicting id read_flags (handles w) = false ->
  Z.of_nat (length data) <= memref_size (prm1 params) ->
  faults w = replicate (4 + k) NoFault ++ Short n :: rest ->
  Z.of_nat k * CHUNK_SIZE < Z.of_nat (length data) ->
  n < chunk_size_for (Z.of_nat (length data)) (Z.of_nat k * CHUNK_SIZE) ->
  exists params' w',
    read_raw_object read_param_types params w
    = Some (TEE_ERROR_GENERIC, params', w')
    /\ memref_size (prm1 params') = memref_size (prm1 params)
    /\ objects w' = objects w /\ handles w' = handles w.
Proof.
  intros Hid Hd Hc Hsz Hf Hk Hn.
  destruct (fresh_handle_spec (handles w)) as [Hnn Hfresh].
  set (h := fresh_handle (handles w)) in *.
  cbn [Nat.add replicate app] in Hf.
  unfold read_raw_object. rewrite (neqb_false _ _ eq_refl).
  rewrite (bind_some _ _ _ _ _ (TEE_Malloc_calm _ w ltac:(now rewrite Hf))).
  cbn [negb].
  erewrite bind_some; cycle 1.
  { apply TEE_Malloc_calm. cbn. now rewrite Hf. }
  cbn [negb]. rewrite <- Hid. fold read_flags.
  erewrite bind_some; cycle 1.
  { apply (TEE_OpenPersistentObject_calm id read_flags data);
      [cbn; now rewrite Hf|exact Hd|exact Hc]. }
  cbv beta iota. rewrite (neqb_false _ _ eq_refl).
  cbn [handles faults set_faults tl objects clock]. fold h.
  erewrite bind_some; cycle 1.
  { apply (TEE_GetObjectInfo1_calm h (mkOpen id read_flags 0) data); cbn;
      [now rewrite Hf|apply lookup_insert_eq|exact Hnn|exact Hd]. }
  cbv beta iota. rewrite (neqb_false _ _ eq_refl). cbn [dataSize].
  rewrite (gtb_false _ _ Hsz).
  unfold bind at 1. unfold TEE_GetSystemTime at 1.
  match goal with |- context [bind (read_loop ?f ?hh ?l ?b 0) _ ?ww] =>
    destruct (read_loop_short k f hh id read_flags data b 0 ww n rest)
      as (buf' & w' & Hrun & Hobj & pos & Hpos)
  end; cbn [handles faults set_faults set_handles set_clock objects]; auto.
  - apply lookup_insert_eq.
  - lia.
  - now rewrite Hf.
  - assert (0 < CHUNK_SIZE) by reflexivity. nia.
  - rewrite (bind_some _ _ _ _ _ Hrun). cbv beta iota.
    change (negb (TEE_ERROR_GENERIC =? TEE_SUCCESS)) with true. cbv iota.
    erewrite read_exit_ok; [|rewrite Hpos; apply lookup_insert_eq|exact Hnn].
    eexists _, _. split; [reflexivity|]. cbn. split; [reflexivity|].
    split; [exact Hobj|]. rewrite Hpos. cbn.
    rewrite !delete_insert_eq. now apply delete_id.
Qed.

Lemma read_undersized params w id data :
  id = TEE_MemMove (memref_buffer (prm0 params)) (memref_size (prm0 params)) ->
  objects w !! id = Some data ->
  conflicting id read_flags (handles w) = false ->
  memref_size (prm1 params) < Z.of_nat (length data) ->
  faults w = [] ->
  read_raw_object read_param_types params w
  = Some (TEE_ERROR_SHORT_BUFFER,
          set_prm1 (set_memref (memref_buffer (prm1 params))
                               (Z.of_nat (length data)) (prm1 params)) params,
          w).
Proof.
  intros Hid Hd Hc Hsz Hf.
  destruct (fresh_handle_spec (handles w)) as [Hnn Hfresh].
  set (h := fresh_handle (handles w)) in *.
  unfold read_raw_object. rewrite (neqb_false _ _ eq_refl).
  rewrite (bind_some _ _ _ _ _ (TEE_Malloc_nil _ w Hf)). cbn [negb].
  rewrite (bind_some _ _ _ _ _ (TEE_Malloc_nil _ w Hf)). cbn [negb].
  rewrite <- Hid. fold read_flags.
  rewrite (bind_some _ _ _ _ _
             (TEE_OpenPersistentObject_calm _ _ _ w (hd_nil_calm w Hf) Hd Hc)).
  cbv beta iota. rewrite (neqb_false _ _ eq_refl). fold h.
  rewrite Hf. cbn [tl]. rewrite <- Hf, set_faults_id.
  set (w1 := set_handles (<[h := mkOpen id read_flags 0]> (handles w)) w).
  assert (Hh1 : handles w1 !! h = Some (mkOpen id read_flags 0)) by apply lookup_insert_eq.
  assert (Hf1 : faults w1 = []) by exact Hf.
  erewrite bind_some; cycle 1.
  { apply (TEE_GetObjectInfo1_calm h _ data w1 (hd_nil_calm w1 Hf1) Hh1 Hnn). exact Hd. }
  cbv beta iota. rewrite (neqb_false _ _ eq_refl). cbn [dataSize].
  rewrite (gtb_true _ _ Hsz).
  rewrite Hf1. cbn [tl]. rewrite <- Hf1, set_faults_id.
  erewrite read_exit_ok; [|exact Hh1|exact Hnn].
  do 2 f_equal. subst w1. destruct w as [o hs f c]; cbn in *.
  unfold set_handles; cbn. f_equal. rewrite delete_insert_eq. now apply delete_id.
Qed.

(** *** The read returns

    Every iteration of the loop that continues has read at least one byte, so
    the fuel [read_raw_object] gives the loop is enough, and the handle it
    reads through is open with read access: the command always returns. *)
Lemma TEE_ReadObjectData_total h oo size w :
  handles w !! h = Some oo -> h <> TEE_HANDLE_NULL ->
  has_flag (oo_flags oo) TEE_DATA_FLAG_ACCESS_READ = true ->
  exists res got w' pos,
    TEE_ReadObjectData h size w = Some (res, got, w')
    /\ handles w' !! h = Some (mkOpen (oo_id oo) (oo_flags oo) pos).
Proof.
  intros Hh Hn Hfl. unfold TEE_ReadObjectData.
  apply N.eqb_neq in Hn. rewrite Hn.
  unfold bind, get, next_fault, modify, ret. rewrite Hh, Hfl. cbn [negb hd].
  destruct oo as [id fl pos]. cbn [oo_id oo_flags oo_pos] in *.
  destruct (injected _); [eexists _, _, _, pos; split; [reflexivity|exact Hh]|].
  cbn [objects set_faults].
  destruct (objects w !! id); [|eexists _, _, _, pos; split; [reflexivity|exact Hh]].
  eexists _, _, _, _. split; [reflexivity|]. cbn. apply lookup_insert_eq.
Qed.

Lemma read_loop_total fuel : forall h oo dataSize buf total w,
  handles w !! h = Some oo -> h <> TEE_HANDLE_NULL ->
  has_flag (oo_flags oo) TEE_DATA_FLAG_ACCESS_READ = true ->
  0 <= total ->
  dataSize - total <= Z.of_nat fuel ->
  exists r w' pos,
    read_loop fuel h dataSize buf total w = Some (r, w')
    /\ handles w' !! h = Some (mkOpen (oo_id oo) (oo_flags oo) pos).
Proof.
  induction fuel as [|fuel IH]; intros h oo dataSize buf total w Hh Hn Hfl Ht Hfuel.
  - cbn [read_loop]. rewrite (proj2 (Z.ltb_ge _ _)) by lia.
    destruct oo. eexists _, _, _. split; [reflexivity|exact Hh].
  - cbn [read_loop]. destruct (Z.ltb_spec total dataSize) as [Hlt|Hge];
      [|destruct oo; eexists _, _, _; split; [reflexivity|exact Hh]].
    destruct (chunk_size_for_bounds dataSize total ltac:(lia)) as [Hcs Hle].
    destruct (TEE_ReadObjectData_total h oo (chunk_size_for dataSize total) w Hh Hn Hfl)
      as (res & got & w1 & pos & E & Hh1).
    rewrite (bind_some _ _ _ _ _ E). cbv beta iota.
    destruct (negb (res =? _)); [eexists _, _, _; split; [reflexivity|exact Hh1]|].
    destruct (Z.eqb_spec (Z.of_nat (length got)) (chunk_size_for dataSize total)) as [Hg|Hg];
      cbn [negb]; [|eexists _, _, _; split; [reflexivity|exact Hh1]].
    rewrite Hg.
    apply (IH h (mkOpen (oo_id oo) (oo_flags oo) pos)); auto; lia.
Qed.

Lemma TEE_OpenPersistentObject_inv id flags w res h w' :
  TEE_OpenPersistentObject TEE_STORAGE_PRIVATE id flags w = Some (res, h, w') ->
  res <> TEE_SUCCESS
  \/ h <> TEE_HANDLE_NULL /\ handles w' !! h = Some (mkOpen id flags 0).
Proof.
  unfold TEE_OpenPersistentObject, bind, next_fault, get, modify, ret. cbn [hd].
  destruct (injected _) as [e|] eqn:Hinj.
  - intros [= <- _ _]. left. destruct (hd _ _) as [|e'|]; try discriminate.
    cbn in Hinj. destruct (Z.eqb_spec e' TEE_SUCCESS); [discriminate|]. congruence.
  - cbn [negb handles objects set_faults]. rewrite (neqb_false _ _ eq_refl).
    destruct (objects w !! id); [|intros [= <- _ _]; left; discriminate].
    destruct (conflicting _ _ _); [intros [= <- _ _]; left; discriminate|].
    intros [= <- <- <-]. right. split; [apply fresh_handle_spec|].
    cbn. apply lookup_insert_eq.
Qed.

Lemma TEE_GetObjectInfo1_total h oo w :
  handles w !! h = Some oo -> h <> TEE_HANDLE_NULL ->
  exists r w', TEE_GetObjectInfo1 h w = Some (r, w') /\ handles w' = handles w.
Proof.
  intros Hh Hn. unfold TEE_GetObjectInfo1. apply N.eqb_neq in Hn. rewrite Hn.
  unfold bind, get, next_fault, ret. rewrite Hh. cbn [hd].
  destruct (injected _); [eauto|]. cbn [objects set_faults].
  destruct (objects w !! oo_id oo); eauto.
Qed.

Lemma read_raw_object_total pt params w :
  exists r w', read_raw_object pt params w = Some (r, w').
Proof.
  unfold read_raw_object.
  destruct (negb (pt =? _)); [unfold ret; eauto|].
  destruct (TEE_Malloc_total (memref_size (prm0 params)) w) as (b1 & w1 & E1 & _).
  rewrite (bind_some _ _ _ _ _ E1). destruct b1; cbn [negb]; [|unfold ret; eauto].
  destruct (TEE_Malloc_total CHUNK_SIZE w1) as (b2 & w2 & E2 & _).
  rewrite (bind_some _ _ _ _ _ E2). destruct b2; cbn [negb]; [|cbn; eauto].
  match goal with |- context [TEE_OpenPersistentObject ?s ?i ?f] =>
    destruct (TEE_OpenPersistentObject s i f w2) as [[[res h] w3]|] eqn:E3
  end.
  2:{ exfalso. revert E3. unfold TEE_OpenPersistentObject, bind, next_fault, get, modify, ret.
      cbn [hd]. destruct (injected _); [discriminate|].
      cbn [negb handles objects set_faults]. destruct (negb _); [discriminate|].
      destruct (objects w2 !! _); [|discriminate].
      destruct (conflicting _ _ _); discriminate. }
  rewrite (bind_some _ _ _ _ _ E3). cbv beta iota.
  destruct (TEE_OpenPersistentObject_inv _ _ _ _ _ _ E3) as [Hne|[Hn Hh]].
  { rewrite (neqb_true _ _ Hne). cbn. eauto. }
  destruct (Z.eqb_spec res TEE_SUCCESS) as [->|Hne]; cbn [negb]; [|cbn; eauto].
  destruct (TEE_GetObjectInfo1_total h _ w3 Hh Hn) as ([res' info] & w4 & E4 & Hh4).
  rewrite (bind_some _ _ _ _ _ E4). cbv beta iota.
  assert (Hexit : forall r p w5 pos,
            handles w5 !! h = Some (mkOpen (TEE_MemMove (memref_buffer (prm0 params)) (memref_size (prm0 params))) (Z.lor TEE_DATA_FLAG_ACCESS_READ TEE_DATA_FLAG_SHARE_READ) pos) ->
            exists r' w', read_exit h r p w5 = Some (r', w')).
  { intros r p w5 pos H5. erewrite read_exit_ok; eauto. }
  rewrite <- Hh4 in Hh.
  destruct (negb (res' =? _)); [eapply Hexit; exact Hh|].
  destruct (_ >? _); [eapply Hexit; exact Hh|].
  unfold bind at 1. unfold TEE_GetSystemTime at 1.
  edestruct (read_loop_total (Z.to_nat (dataSize info)) h _ (dataSize info)
               (memref_buffer (prm1 params)) 0 (set_clock (tl (clock w4)) w4) Hh Hn eq_refl)
    as ([[r buf] tot] & w5 & pos & E5 & Hh5); [lia|lia|].
  rewrite (bind_some _ _ _ _ _ E5). cbv beta iota.
  destruct (negb (r =? _)); [eapply Hexit; exact Hh5|].
  unfold bind at 1. unfold TEE_GetSystemTime at 1.
  eapply Hexit. cbn. exact Hh5.
Qed.

(** C3, as amended.  A READ command on a stored object that no conflicting
    handle is open on (no chunked write holds it open), with an output buffer
    of at least [dataSize] bytes: in a reliable
    environment it returns [TEE_SUCCESS], the buffer starts with the object's
    [dataSize] bytes (the rest of the buffer is untouched) and the size field
    is [dataSize]; every sub-chunk requested from the store is at most
    [CHUNK_SIZE] bytes; and when the store delivers fewer bytes than requested
    for sub-chunk [k] the command returns [TEE_ERROR_GENERIC], the size field
    being left as it was. *)
Theorem read_streams_whole_object params w id data :
  id = TEE_MemMove (memref_buffer (prm0 params)) (memref_size (prm0 params)) ->
  objects w !! id = Some data ->
  conflicting id read_flags (handles w) = false ->
  Z.of_nat (length data) <= memref_size (prm1 params) ->
  memref_size (prm1 params) = Z.of_nat (length (memref_buffer (prm1 params))) ->
  (faults w = [] ->
   read_raw_object read_param_types params w
   = Some (TEE_SUCCESS,
           set_prm1 (set_memref
                       (data ++ drop (length data) (memref_buffer (prm1 params)))
                       (Z.of_nat (length data)) (prm1 params)) params,
           set_clock (tl (tl (clock w))) w))
  /\ (forall total,
        0 <= total < Z.of_nat (length data) ->
        0 < chunk_size_for (Z.of_nat (length data)) total <= CHUNK_SIZE)
  /\ (forall k n rest,
        faults w = replicate (4 + k) NoFault ++ Short n :: rest ->
        Z.of_nat k * CHUNK_SIZE < Z.of_nat (length data) ->
        n < chunk_size_for (Z.of_nat (length data)) (Z.of_nat k * CHUNK_SIZE) ->
        exists params' w',
          read_raw_object read_param_types params w
          = Some (TEE_ERROR_GENERIC, params', w')
          /\ memref_size (prm1 params') = memref_size (prm1 params)
          /\ objects w' = objects w /\ handles w' = handles w).
Proof.
  intros Hid Hd Hc Hsz Hbuf. split; [|split].
  - intros Hf. now apply (read_whole_object params w id data).
  - intros total Ht. now apply chunk_size_for_bounds.
  - intros k n rest Hf Hk Hn. now apply (read_short_delivery params w id data k n rest).
Qed.

Lemma read_streams_whole_object_witness :
  faults stored_world = []
  /\ read_raw_object read_param_types (read_command obj1 (replicate 5 x00))
       stored_world
     = Some (TEE_SUCCESS,
             set_prm1 (set_memref ([xa1; xa2; xa3] ++ drop 3 (replicate 5 x00)) 3
                         (prm1 (read_command obj1 (replicate 5 x00))))
               (read_command obj1 (replicate 5 x00)),
             set_clock (tl (tl (clock stored_world))) stored_world).
Proof.
  split; [reflexivity|].
  apply (read_streams_whole_object (read_command obj1 (replicate 5 x00))
           stored_world obj1 [xa1; xa2; xa3]);
    [reflexivity | reflexivity | reflexivity | vm_compute; discriminate
    | reflexivity | reflexivity].
Defined.

(** C3 as stated fails for an object that a chunked write holds open.  After
    the first chunk of a write of [obj1] the object exists, with two bytes; a
    READ of it with a buffer of two bytes does not succeed: it returns
    [TEE_ERROR_ACCESS_CONFLICT], copies nothing and leaves the size field as
    it was. *)
Lemma read_during_write_is_refused :
  write_raw_chunk write_chunk_param_types (chunk_command obj1 [xa1; xa1] 1)
    idle_session empty_world
  = Some (TEE_SUCCESS, writing_session, writing_world)
  /\ objects writing_world !! obj1 = Some [xa1; xa1]
  /\ Z.of_nat (length [xa1; xa1])
     <= memref_size (prm1 (read_command obj1 [x00; x00]))
  /\ read_raw_object read_param_types (read_command obj1 [x00; x00]) writing_world
     = Some (TEE_ERROR_ACCESS_CONFLICT, read_command obj1 [x00; x00],
             writing_world).
Proof.
  split; [vm_compute; reflexivity|]. split; [reflexivity|].
  split; [vm_compute; discriminate|]. vm_compute. reflexivity.
Qed.

Example read_three_sub_chunks :
  summary (read_raw_object read_param_types big_read big_world)
  = Some (TEE_SUCCESS, 40000, true).
Proof. vm_compute. reflexivity. Qed.

(** The scenario of the spec's section 8, with 40000 bytes. *)
Example scenario_runs :
  fst <$> scenario empty_world
  = Some [(TEE_SUCCESS, 16384); (TEE_SUCCESS, 16384); (TEE_SUCCESS, 7232);
          (TEE_SUCCESS, 0); (TEE_ERROR_SHORT_BUFFER, 40000);
          (TEE_SUCCESS, 40000); (TEE_SUCCESS, 0);
          (TEE_ERROR_ITEM_NOT_FOUND, 1)].
Proof. vm_compute. reflexivity. Qed.

Example short_second_sub_chunk :
  summary (read_raw_object read_param_types big_read
             (set_faults (replicate 5 NoFault ++ [Short 100]) big_world))
  = Some (TEE_ERROR_GENERIC, 40000, false).
Proof. vm_compute. reflexivity. Qed.


Lemma repeat_read_undersized n params w id data :
  id = TEE_MemMove (memref_buffer (prm0 params)) (memref_size (prm0 params)) ->
  objects w !! id = Some data ->
  conflicting id read_flags (handles w) = false ->
  memref_size (prm1 params) < Z.of_nat (length data) ->
  faults w = [] ->
  repeat_read n params w
  = Some (replicate n (TEE_ERROR_SHORT_BUFFER, Z.of_nat (length data)), w).
Proof.
  intros Hid Hd Hc Hsz Hf. induction n as [|n IH]; [reflexivity|].
  cbn [repeat_read].
  rewrite (bind_some _ _ _ _ _ (read_undersized params w id data Hid Hd Hc Hsz Hf)).
  cbv beta iota. rewrite (bind_some _ _ _ _ _ IH). reflexivity.
Qed.

(** C4, as amended.  In a reliable environment a READ command on a stored
    object that no conflicting handle is open on (no chunked write holds it
    open), with an output buffer smaller than [dataSize], returns
    [TEE_ERROR_SHORT_BUFFER] with the size field set to [dataSize], the buffer
    untouched and the world as it was; repeated any number of times it reports
    the same size; and a READ with a buffer of that size returns
    [TEE_SUCCESS], the object's bytes and that size. *)
Theorem undersized_read_reports_size params w id data :
  id = TEE_MemMove (memref_buffer (prm0 params)) (memref_size (prm0 params)) ->
  objects w !! id = Some data ->
  conflicting id read_flags (handles w) = false ->
  memref_size (prm1 params) < Z.of_nat (length data) ->
  faults w = [] ->
  read_raw_object read_param_types params w
  = Some (TEE_ERROR_SHORT_BUFFER,
          set_prm1 (set_memref (memref_buffer (prm1 params))
                               (Z.of_nat (length data)) (prm1 params)) params,
          w)
  /\ (forall n,
        repeat_read n params w
        = Some (replicate n (TEE_ERROR_SHORT_BUFFER, Z.of_nat (length data)), w))
  /\ (forall buf,
        length buf = length data ->
        read_raw_object read_param_types (set_prm1 (memref_param buf) params) w
        = Some (TEE_SUCCESS,
                set_prm1 (set_memref data (Z.of_nat (length data))
                                     (memref_param buf)) params,
                set_clock (tl (tl (clock w))) w)).
Proof.
  intros Hid Hd Hc Hsz Hf. split; [|split].
  - now apply (read_undersized params w id data).
  - intros n. now apply (repeat_read_undersized n params w id data).
  - intros buf Hlen.
    rewrite (read_whole_object (set_prm1 (memref_param buf) params) w id data);
      auto; cbn [prm1 set_prm1 memref_param memref_size memref_buffer]; try lia.
    rewrite <- Hlen, drop_all, app_nil_r. reflexivity.
Qed.

Lemma undersized_read_reports_size_witness :
  read_raw_object read_param_types (read_command obj1 [x00]) stored_world
  = Some (TEE_ERROR_SHORT_BUFFER,
          set_prm1 (set_memref [x00] 3 (prm1 (read_command obj1 [x00])))
            (read_command obj1 [x00]),
          stored_world).
Proof.
  apply (undersized_read_reports_size (read_command obj1 [x00])
           stored_world obj1 [xa1; xa2; xa3]);
    [reflexivity | reflexivity | reflexivity | reflexivity | reflexivity].
Defined.

(** C4 as stated fails for an object that a chunked write holds open.  After
    the first chunk of a write of [obj1] the object exists, with two bytes; a
    READ of it with a buffer of one byte returns [TEE_ERROR_ACCESS_CONFLICT],
    not [TEE_ERROR_SHORT_BUFFER], and the size field still holds the size of
    the buffer, not the two bytes a read needs. *)
Lemma undersized_read_during_write_is_refused :
  write_raw_chunk write_chunk_param_types (chunk_command obj1 [xa1; xa1] 1)
    idle_session empty_world
  = Some (TEE_SUCCESS, writing_session, writing_world)
  /\ objects writing_world !! obj1 = Some [xa1; xa1]
  /\ memref_size (prm1 (read_command obj1 [x00])) < Z.of_nat (length [xa1; xa1])
  /\ exists reply,
       read_raw_object read_param_types (read_command obj1 [x00]) writing_world
       = Some (TEE_ERROR_ACCESS_CONFLICT, reply, writing_world)
       /\ TEE_ERROR_ACCESS_CONFLICT <> TEE_ERROR_SHORT_BUFFER
       /\ memref_size (prm1 reply) = 1.
Proof.
  split; [vm_compute; reflexivity|]. split; [reflexivity|].
  split; [vm_compute; reflexivity|].
  eexists. split; [vm_compute; reflexivity|]. split; [discriminate|reflexivity].
Qed.

End StorageSpec.

(** ** The crypto TA *)

Module CryptoSpec.
Import Crypto.

(** *** Commands that keep the key material

    [keeps m Q]: whenever [m] returns, [Q] holds of its value and neither the
    key objects nor the random source have changed. *)

#[local] Instance same_material_refl : Reflexive same_material.
Proof. now intros w. Qed.
#[local] Instance same_material_trans : Transitive same_material.
Proof. intros a b c [? ?] [? ?]. split; congruence. Qed.

Abbreviation keeps := (triple same_material).

Lemma keeps_next_fault : keeps next_fault (fun _ => True).
Proof. intros w a w' [= <- <-]. now split. Qed.

Lemma keeps_GetSystemTime : keeps TEE_GetSystemTime (fun _ => True).
Proof. intros w a w' [= <- <-]. now split. Qed.

Ltac keeps_step :=
  match goal with
  | |- triple _ (bind _ _) _ =>
      eapply (triple_bind same_material _ _ (fun _ => True)); [|intros ? _]
  | |- triple _ (ret _) _ => apply (triple_ret same_material); exact I
  | |- triple _ panic _ => apply triple_panic
  | |- triple _ get _ => apply (triple_get same_material); intros; exact I
  | |- triple _ (modify _) _ =>
      apply (triple_modify same_material); [exact I | intros; now split]
  | |- triple _ next_fault _ => apply keeps_next_fault
  | |- triple _ TEE_GetSystemTime _ => apply keeps_GetSystemTime
  | |- triple _ (match ?x with _ => _ end) _ => destruct x
  end.
Ltac keeps_prim := repeat keeps_step.

Lemma keeps_AllocateOperation op a m k :
  keeps (TEE_AllocateOperation op a m k) (fun _ => True).
Proof. unfold TEE_AllocateOperation. keeps_prim. Qed.

Lemma keeps_SetOperationKey op k :
  keeps (TEE_SetOperationKey op k) (fun _ => True).
Proof. unfold TEE_SetOperationKey. keeps_prim. Qed.

Lemma keeps_FreeOperation op : keeps (TEE_FreeOperation op) (fun _ => True).
Proof. unfold TEE_FreeOperation. keeps_prim. Qed.

Lemma keeps_CipherInit op iv n : keeps (TEE_CipherInit op iv n) (fun _ => True).
Proof. unfold TEE_CipherInit. keeps_prim. Qed.

Lemma keeps_CipherUpdate P op src n :
  keeps (TEE_CipherUpdate P op src n) (fun _ => True).
Proof. unfold TEE_CipherUpdate. keeps_prim. Qed.


Lemma same_key_refl s : same_key s s.
Proof. now repeat split. Qed.

Lemma same_key_trans s1 s2 s3 : same_key s1 s2 -> same_key s2 s3 -> same_key s1 s3.
Proof. intros (?&?&?) (?&?&?). repeat split; congruence. Qed.

Ltac keeps_call :=
  first
    [ apply keeps_next_fault | apply keeps_GetSystemTime
    | apply keeps_AllocateOperation | apply keeps_SetOperationKey
    | apply keeps_FreeOperation | apply keeps_CipherInit
    | apply keeps_CipherUpdate
    | apply (triple_ret same_material _ (fun _ => True)); exact I ].

Ltac keeps_go :=
  repeat match goal with
  | |- triple _ (bind _ _) _ =>
      eapply (triple_bind same_material); [solve [keeps_call]|intros ? _]
  | |- triple _ (if ?b then _ else _) _ => destruct b
  | |- triple _ (match ?x with _ => _ end) _ => destruct x
  | |- triple _ (ret _) _ => apply (triple_ret same_material)
  end.

Lemma keeps_init_encryption s :
  keeps (init_encryption s) (fun r => same_key s (snd r)).
Proof. unfold init_encryption. keeps_go; now repeat split. Qed.

Lemma keeps_init_decryption s :
  keeps (init_decryption s) (fun r => same_key s (snd r)).
Proof. unfold init_decryption. keeps_go; now repeat split. Qed.

Lemma keeps_encrypt_the_chunk P params s :
  keeps (encrypt_the_chunk P params s) (fun r => same_key s (snd r)).
Proof. unfold encrypt_the_chunk. keeps_go; now repeat split. Qed.

Lemma keeps_decrypt_the_chunk P params s :
  keeps (decrypt_the_chunk P params s) (fun r => same_key s (snd r)).
Proof. unfold decrypt_the_chunk. keeps_go; now repeat split. Qed.

Lemma keeps_encrypt_chunk P pt params s :
  initialized s = true \/ value_a (prm2 params) = 0 ->
  keeps (encrypt_chunk P pt params s) (fun r => same_key s (snd r)).
Proof.
  intros H. unfold encrypt_chunk.
  destruct (negb (pt =? _)); [apply (triple_ret same_material), same_key_refl|].
  destruct (_ >? _); [apply (triple_ret same_material), same_key_refl|].
  destruct (Z.eqb_spec (value_a (prm2 params)) 0) as [E|E]; cbn [negb].
  - apply keeps_encrypt_the_chunk.
  - destruct H as [H|H]; [|contradiction]. rewrite H. cbn [negb].
    eapply (triple_bind same_material); [apply (triple_ret same_material (TEE_SUCCESS, s)), eq_refl|].
    intros [res s0] [= <- <-]. rewrite (neqb_false _ _ eq_refl).
    eapply (triple_bind same_material); [apply keeps_init_encryption|].
    intros [res s1] Hs1. cbn [snd] in Hs1.
    destruct (negb (res =? _)); [now apply (triple_ret same_material)|].
    eapply triple_weaken; [apply keeps_encrypt_the_chunk|].
    intros [[r p] s2] Hs2. cbn [snd] in *.
    eapply same_key_trans; [exact Hs1|]. exact Hs2.
Qed.

Lemma keeps_decrypt_chunk P pt params s :
  keeps (decrypt_chunk P pt params s) (fun r => same_key s (snd r)).
Proof.
  unfold decrypt_chunk.
  destruct (negb (pt =? _)); [apply (triple_ret same_material), same_key_refl|].
  destruct (_ >? _); [apply (triple_ret same_material), same_key_refl|].
  destruct (negb (value_a _ =? 0)); [|apply keeps_decrypt_the_chunk].
  destruct (negb (initialized s)); [apply (triple_ret same_material), same_key_refl|].
  eapply (triple_bind same_material); [apply keeps_init_decryption|].
  intros [res s1] Hs1. cbn [snd] in Hs1.
  destruct (negb (res =? _)); [now apply (triple_ret same_material)|].
  eapply triple_weaken; [apply keeps_decrypt_the_chunk|].
  intros [[r p] s2] Hs2. cbn [snd] in *.
  eapply same_key_trans; [exact Hs1|]. exact Hs2.
Qed.

Lemma keeps_finalize_operation pt params s :
  keeps (finalize_operation pt params s) (fun r => same_key s (snd r)).
Proof. unfold finalize_operation. keeps_go; now repeat split. Qed.

Lemma keeps_reset_session s :
  keeps (reset_session s) (fun r => same_key s (snd r)).
Proof.
  unfold reset_session.
  destruct (negb (enc_op s =? _)%N), (negb (dec_op s =? _)%N);
    keeps_go; now repeat split.
Qed.

Lemma keeps_InvokeCommand P s command pt params :
  initialized s = true
  \/ command <> TA_SECURE_STORAGE_CMD_ENCRYPT_CHUNK
  \/ value_a (prm2 params) = 0 ->
  keeps (TA_InvokeCommandEntryPoint P s command pt params)
        (fun r => same_key s (snd r)).
Proof.
  intros H. unfold TA_InvokeCommandEntryPoint.
  destruct (Z.eqb_spec command TA_SECURE_STORAGE_CMD_ENCRYPT_CHUNK).
  { apply keeps_encrypt_chunk. tauto. }
  destruct (command =? _); [apply keeps_decrypt_chunk|].
  destruct (command =? _); [apply keeps_finalize_operation|].
  destruct (command =? _); [|apply (triple_ret same_material), same_key_refl].
  eapply (triple_bind same_material); [apply keeps_reset_session|].
  intros [res s1] Hs1. apply (triple_ret same_material). exact Hs1.
Qed.


(** *** A reliable environment *)

Lemma crypto_next_fault_nil w : faults w = [] -> next_fault w = Some (NoFault, w).
Proof. destruct w; simpl; intros ->; reflexivity. Qed.

Lemma fresh_in_spec {A} (m : gmap N A) :
  fresh_in m <> TEE_HANDLE_NULL /\ m !! fresh_in m = None.
Proof.
  unfold fresh_in.
  pose proof (is_fresh ({[TEE_HANDLE_NULL]} ∪ dom m)) as H.
  split.
  - intros E. apply H. rewrite E. set_solver.
  - apply not_elem_of_dom. set_solver.
Qed.

Lemma TEE_AllocateTransientObject_ok ty sz old w :
  faults w = [] ->
  TEE_AllocateTransientObject ty sz old w
  = Some (TEE_SUCCESS, fresh_in (keys w),
          set_keys (<[fresh_in (keys w) := None]> (keys w)) w).
Proof.
  intros Hf. unfold TEE_AllocateTransientObject.
  rewrite (bind_some _ _ _ _ _ (crypto_next_fault_nil w Hf)). reflexivity.
Qed.

Lemma TEE_PopulateTransientObject_ok h attr w :
  faults w = [] -> keys w !! h = Some None ->
  TEE_PopulateTransientObject h attr w
  = Some (TEE_SUCCESS, set_keys (<[h := Some (snd attr)]> (keys w)) w).
Proof.
  intros Hf Hk. unfold TEE_PopulateTransientObject.
  unfold bind at 1. unfold get at 1. rewrite Hk.
  rewrite (bind_some _ _ _ _ _ (crypto_next_fault_nil w Hf)). reflexivity.
Qed.

Lemma TEE_AllocateOperation_ok old alg mode sz w :
  faults w = [] ->
  TEE_AllocateOperation old alg mode sz w
  = Some (TEE_SUCCESS, fresh_in (ops w),
          set_ops (<[fresh_in (ops w) := mkOp alg mode sz None None []]> (ops w)) w).
Proof.
  intros Hf. unfold TEE_AllocateOperation.
  rewrite (bind_some _ _ _ _ _ (crypto_next_fault_nil w Hf)). reflexivity.
Qed.

Lemma TEE_SetOperationKey_ok h kh op k w :
  faults w = [] -> ops w !! h = Some op -> keys w !! kh = Some (Some k) ->
  Z.of_nat (length k) * 8 <= op_max_key op ->
  TEE_SetOperationKey h kh w
  = Some (TEE_SUCCESS,
          set_ops (<[h := mkOp (op_algo op) (op_mode op) (op_max_key op)
                              (Some k) None []]> (ops w)) w).
Proof.
  intros Hf Ho Hk Hl. unfold TEE_SetOperationKey.
  unfold bind at 1. unfold get at 1. rewrite Ho, Hk, (gtb_false _ _ Hl).
  rewrite (bind_some _ _ _ _ _ (crypto_next_fault_nil w Hf)). reflexivity.
Qed.

Lemma TEE_CipherInit_ok h op k IV n w :
  ops w !! h = Some op -> op_key op = Some k ->
  TEE_CipherInit h IV n w
  = Some (tt, set_ops (<[h := mkOp (op_algo op) (op_mode op) (op_max_key op)
                                  (Some k) (Some (take (Z.to_nat n) IV)) []]>
                          (ops w)) w).
Proof.
  intros Ho Hk. unfold TEE_CipherInit, bind, get, modify. now rewrite Ho, Hk.
Qed.

Lemma set_ops_set_ops o o' w : set_ops o (set_ops o' w) = set_ops o w.
Proof. reflexivity. Qed.

Lemma init_encryption_ok sess k w :
  faults w = [] -> keys w !! key_handle sess = Some (Some k) ->
  Z.of_nat (length k) * 8 <= AES_KEY_SIZE * 8 ->
  init_encryption sess w
  = Some (TEE_SUCCESS, set_enc_op (fresh_in (ops w)) sess,
          set_ops (<[fresh_in (ops w) :=
                       mkOp TEE_ALG_AES_CBC_NOPAD TEE_MODE_ENCRYPT (AES_KEY_SIZE * 8)
                            (Some k) (Some (take (Z.to_nat AES_IV_SIZE) (iv sess))) []]>
                     (ops w)) w).
Proof.
  intros Hf Hk Hl. unfold init_encryption.
  rewrite (bind_some _ _ _ _ _ (TEE_AllocateOperation_ok _ _ _ _ w Hf)).
  cbv beta iota. rewrite (neqb_false _ _ eq_refl).
  erewrite bind_some; cycle 1.
  { eapply (TEE_SetOperationKey_ok _ _ _ k);
      [exact Hf|apply lookup_insert_eq|exact Hk|exact Hl]. }
  rewrite (neqb_false _ _ eq_refl).
  erewrite bind_some; cycle 1.
  { eapply (TEE_CipherInit_ok _ _ k); [apply lookup_insert_eq|reflexivity]. }
  unfold ret. cbn. rewrite !set_ops_set_ops, !insert_insert_eq. reflexivity.
Qed.

Lemma init_decryption_ok sess k w :
  faults w = [] -> keys w !! key_handle sess = Some (Some k) ->
  Z.of_nat (length k) * 8 <= AES_KEY_SIZE * 8 ->
  init_decryption sess w
  = Some (TEE_SUCCESS, set_dec_op (fresh_in (ops w)) sess,
          set_ops (<[fresh_in (ops w) :=
                       mkOp TEE_ALG_AES_CBC_NOPAD TEE_MODE_DECRYPT (AES_KEY_SIZE * 8)
                            (Some k) (Some (take (Z.to_nat AES_IV_SIZE) (iv sess))) []]>
                     (ops w)) w).
Proof.
  intros Hf Hk Hl. unfold init_decryption.
  rewrite (bind_some _ _ _ _ _ (TEE_AllocateOperation_ok _ _ _ _ w Hf)).
  cbv beta iota. rewrite (neqb_false _ _ eq_refl).
  erewrite bind_some; cycle 1.
  { eapply (TEE_SetOperationKey_ok _ _ _ k);
      [exact Hf|apply lookup_insert_eq|exact Hk|exact Hl]. }
  rewrite (neqb_false _ _ eq_refl).
  erewrite bind_some; cycle 1.
  { eapply (TEE_CipherInit_ok _ _ k); [apply lookup_insert_eq|reflexivity]. }
  unfold ret. cbn. rewrite !set_ops_set_ops, !insert_insert_eq. reflexivity.
Qed.

Lemma init_crypto_key_ok sess w :
  faults w = [] ->
  init_crypto_key sess w
  = Some (TEE_SUCCESS,
          set_iv (resize (Z.to_nat AES_IV_SIZE) x00
                    (drop (Z.to_nat AES_KEY_SIZE) (rng w)))
            (set_key_handle (fresh_in (keys w)) sess),
          set_rng (drop (Z.to_nat AES_IV_SIZE) (drop (Z.to_nat AES_KEY_SIZE) (rng w)))
            (set_keys (<[fresh_in (keys w) :=
                           Some (resize (Z.to_nat AES_KEY_SIZE) x00 (rng w))]>
                         (keys w)) w)).
Proof.
  intros Hf. unfold init_crypto_key.
  unfold bind at 1. unfold TEE_GenerateRandom at 1.
  erewrite bind_some; cycle 1.
  { apply TEE_AllocateTransientObject_ok. exact Hf. }
  cbv beta iota. rewrite (neqb_false _ _ eq_refl).
  erewrite bind_some; cycle 1.
  { apply TEE_PopulateTransientObject_ok; [exact Hf|]. cbn. apply lookup_insert_eq. }
  rewrite (neqb_false _ _ eq_refl).
  unfold bind, TEE_GenerateRandom, ret. cbn.
  unfold TEE_InitRefAttribute. cbn [snd].
  rewrite take_ge by (rewrite length_resize; reflexivity).
  rewrite insert_insert_eq. destruct w; reflexivity.
Qed.


(** *** Encrypting and decrypting a chunk *)

Lemma TEE_CipherUpdate_ok P h op k chain src destLen w :
  faults w = [] -> h <> TEE_HANDLE_NULL ->
  ops w !! h = Some op -> op_key op = Some k -> op_chain op = Some chain ->
  op_pending op = [] ->
  Z.of_nat (length src) mod AES_BLOCK_SIZE = 0 ->
  Z.of_nat (length src) <= destLen ->
  TEE_CipherUpdate P h src destLen w
  = Some (TEE_SUCCESS, fst (cbc_blocks P (op_mode op) k chain src),
          Z.of_nat (length (fst (cbc_blocks P (op_mode op) k chain src))),
          set_ops (<[h := mkOp (op_algo op) (op_mode op) (op_max_key op) (Some k)
                              (Some (snd (cbc_blocks P (op_mode op) k chain src)))
                              []]> (ops w)) w).
Proof.
  intros Hf Hn Ho Hk Hc Hp Hal Hd. unfold TEE_CipherUpdate.
  apply N.eqb_neq in Hn. rewrite Hn.
  unfold bind at 1. unfold get at 1. rewrite Ho, Hk, Hc, Hp.
  rewrite (bind_some _ _ _ _ _ (crypto_next_fault_nil w Hf)). cbn [injected app].
  assert (Hn' : Z.of_nat (length src) / AES_BLOCK_SIZE * AES_BLOCK_SIZE
                = Z.of_nat (length src)).
  { unfold AES_BLOCK_SIZE in *.
    pose proof (Z.div_mod (Z.of_nat (length src)) 16 ltac:(lia)). lia. }
  rewrite Hn'. rewrite (proj2 (Z.ltb_ge _ _) Hd).
  rewrite Nat2Z.id, firstn_all, drop_all.
  destruct (cbc_blocks P (op_mode op) k chain src) as [out chain']. reflexivity.
Qed.

Lemma TEE_CipherUpdate_total P h op k chain src destLen w :
  h <> TEE_HANDLE_NULL ->
  ops w !! h = Some op -> op_key op = Some k -> op_chain op = Some chain ->
  exists r w', TEE_CipherUpdate P h src destLen w = Some (r, w').
Proof.
  intros Hn Ho Hk Hc. unfold TEE_CipherUpdate.
  apply N.eqb_neq in Hn. rewrite Hn.
  unfold bind, get, next_fault, modify, ret. rewrite Ho, Hk, Hc. cbn [hd].
  destruct (injected _); [eauto|].
  destruct (_ <? _); [eauto|].
  destruct (cbc_blocks _ _ _ _ _). eauto.
Qed.

Lemma encrypt_the_chunk_total P params sess op k chain w :
  enc_op sess <> TEE_HANDLE_NULL ->
  ops w !! enc_op sess = Some op -> op_key op = Some k ->
  op_chain op = Some chain ->
  exists r w', encrypt_the_chunk P params sess w = Some (r, w').
Proof.
  intros Hn Ho Hk Hc. unfold encrypt_the_chunk.
  destruct (negb (_ =? 0)); [unfold ret; eauto|].
  unfold bind at 1. unfold TEE_GetSystemTime at 1.
  edestruct (TEE_CipherUpdate_total P (enc_op sess) op k chain
               (TEE_MemMove (memref_buffer (prm0 params)) (memref_size (prm0 params)))
               (memref_size (prm1 params)) (set_clock (tl (clock w)) w))
    as ([[r out] n] & w' & E);
    [exact Hn|exact Ho|exact Hk|exact Hc|].
  rewrite (bind_some _ _ _ _ _ E). cbv beta iota.
  unfold bind, TEE_GetSystemTime, ret. destruct (negb (_ =? _)); eauto.
Qed.

(** C10.  In a reliable environment an ENCRYPT_CHUNK command with
    [is_first <> 0] whose payload is at most [CHUNK_SIZE] bytes but not a
    multiple of 16 returns [TEE_ERROR_BAD_PARAMETERS] after it has changed the
    session and the world: [initialized] is true (key and IV were drawn from
    the random source if it was not already), a fresh encryption operation is
    allocated, keyed and started with the IV, and the cumulative encryption
    time and byte counters are zero. *)
Theorem misaligned_first_chunk_mutates P params sess w :
  memref_size (prm0 params) <= CHUNK_SIZE ->
  memref_size (prm0 params) mod 16 <> 0 ->
  value_a (prm2 params) <> 0 ->
  faults w = [] ->
  (initialized sess = true ->
   exists k, keys w !! key_handle sess = Some (Some k)
             /\ Z.of_nat (length k) * 8 <= AES_KEY_SIZE * 8) ->
  exists sess' w',
    encrypt_chunk P chunk_param_types params sess w
    = Some (TEE_ERROR_BAD_PARAMETERS, params, sess', w')
    /\ initialized sess' = true
    /\ total_enc_time_us sess' = 0 /\ total_bytes sess' = 0
    /\ enc_op sess' = fresh_in (ops w)
    /\ ops w !! enc_op sess' = None
    /\ (exists k,
          keys w' !! key_handle sess' = Some (Some k)
          /\ ops w' !! enc_op sess'
             = Some (mkOp TEE_ALG_AES_CBC_NOPAD TEE_MODE_ENCRYPT (AES_KEY_SIZE * 8)
                          (Some k)
                          (Some (take (Z.to_nat AES_IV_SIZE) (iv sess'))) []))
    /\ (initialized sess = false ->
        key_handle sess' = fresh_in (keys w)
        /\ keys w !! key_handle sess' = None
        /\ keys w' !! key_handle sess'
           = Some (Some (resize (Z.to_nat AES_KEY_SIZE) x00 (rng w)))
        /\ iv sess'
           = resize (Z.to_nat AES_IV_SIZE) x00 (drop (Z.to_nat AES_KEY_SIZE) (rng w)))
    /\ (initialized sess = true ->
        key_handle sess' = key_handle sess /\ iv sess' = iv sess
        /\ keys w' = keys w /\ rng w' = rng w).
Proof.
  intros Hsz Hal Hfirst Hf Hkey.
  destruct (fresh_in_spec (ops w)) as [Hnn Hfresh].
  unfold encrypt_chunk. rewrite (neqb_false _ _ eq_refl), (gtb_false _ _ Hsz).
  rewrite (neqb_true _ _ Hfirst).
  destruct (initialized sess) eqn:Hinit; cbn [negb].
  - destruct (Hkey eq_refl) as (k & Hk & Hl).
    unfold bind at 1. unfold ret at 1. rewrite (neqb_false _ _ eq_refl).
    rewrite (bind_some _ _ _ _ _ (init_encryption_ok sess k w Hf Hk Hl)).
    cbv beta iota. rewrite (neqb_false _ _ eq_refl).
    unfold encrypt_the_chunk. rewrite (neqb_true _ _ Hal). unfold ret.
    eexists _, _. split; [reflexivity|]. cbn.
    rewrite lookup_insert_eq. repeat split; auto; try discriminate.
    exists k. split; [exact Hk|reflexivity].
  - clear Hkey.
    erewrite bind_some; cycle 1.
    { rewrite (bind_some _ _ _ _ _ (init_crypto_key_ok sess w Hf)).
      cbv beta iota. rewrite (neqb_false _ _ eq_refl). reflexivity. }
    cbv beta iota. rewrite (neqb_false _ _ eq_refl).
    erewrite bind_some; cycle 1.
    { eapply init_encryption_ok; [exact Hf| |].
      - cbn. apply lookup_insert_eq.
      - rewrite length_resize. reflexivity. }
    cbv beta iota. rewrite (neqb_false _ _ eq_refl).
    unfold encrypt_the_chunk. rewrite (neqb_true _ _ Hal). unfold ret.
    eexists _, _. split; [reflexivity|]. cbn.
    rewrite !lookup_insert_eq.
    destruct (fresh_in_spec (keys w)) as [_ Hkfresh].
    repeat split; auto; try discriminate.
    eexists. split; reflexivity.
Qed.

Lemma misaligned_first_chunk_mutates_witness :
  exists sess' w',
    encrypt_chunk plain_platform chunk_param_types
      (chunk_command (replicate 15 x01) 1 16) fresh_session quiet_world
    = Some (TEE_ERROR_BAD_PARAMETERS, chunk_command (replicate 15 x01) 1 16,
            sess', w')
    /\ initialized sess' = true
    /\ total_enc_time_us sess' = 0 /\ total_bytes sess' = 0
    /\ enc_op sess' = fresh_in (ops quiet_world)
    /\ ops quiet_world !! enc_op sess' = None.
Proof.
  destruct (misaligned_first_chunk_mutates plain_platform
              (chunk_command (replicate 15 x01) 1 16) fresh_session quiet_world)
    as (sess' & w' & H1 & H2 & H3 & H4 & H5 & H6 & _);
    [vm_compute; discriminate | vm_compute; discriminate | discriminate
    | reflexivity | discriminate |].
  exists sess', w'. repeat split; assumption.
Defined.


Lemma encrypt_chunk_oversized P pt params sess w :
  CHUNK_SIZE < memref_size (prm0 params) ->
  encrypt_chunk P pt params sess w
  = Some (TEE_ERROR_BAD_PARAMETERS, params, sess, w).
Proof.
  intros H. unfold encrypt_chunk.
  destruct (negb (pt =? chunk_param_types)); [reflexivity|].
  now rewrite (gtb_true _ _ H).
Qed.

Lemma decrypt_chunk_oversized P pt params sess w :
  CHUNK_SIZE < memref_size (prm0 params) ->
  decrypt_chunk P pt params sess w
  = Some (TEE_ERROR_BAD_PARAMETERS, params, sess, w).
Proof.
  intros H. unfold decrypt_chunk.
  destruct (negb (pt =? chunk_param_types)); [reflexivity|].
  now rewrite (gtb_true _ _ H).
Qed.


(** *** The life of the key *)

Lemma first_encrypt_generates P params sess w :
  faults w = [] -> initialized sess = false ->
  memref_size (prm0 params) <= CHUNK_SIZE ->
  value_a (prm2 params) <> 0 ->
  exists res params' sess' w',
    encrypt_chunk P chunk_param_types params sess w
    = Some (res, params', sess', w')
    /\ initialized sess' = true
    /\ key_handle sess' = fresh_in (keys w)
    /\ keys w !! key_handle sess' = None
    /\ keys w' !! key_handle sess'
       = Some (Some (resize (Z.to_nat AES_KEY_SIZE) x00 (rng w)))
    /\ iv sess'
       = resize (Z.to_nat AES_IV_SIZE) x00 (drop (Z.to_nat AES_KEY_SIZE) (rng w))
    /\ rng w' = drop (Z.to_nat AES_IV_SIZE) (drop (Z.to_nat AES_KEY_SIZE) (rng w)).
Proof.
  intros Hf Hinit Hsz Hfirst.
  destruct (fresh_in_spec (ops w)) as [Hnn Hfresh].
  destruct (fresh_in_spec (keys w)) as [_ Hkfresh].
  unfold encrypt_chunk. rewrite (neqb_false _ _ eq_refl), (gtb_false _ _ Hsz).
  rewrite (neqb_true _ _ Hfirst), Hinit. cbn [negb].
  erewrite bind_some; cycle 1.
  { rewrite (bind_some _ _ _ _ _ (init_crypto_key_ok sess w Hf)).
    cbv beta iota. rewrite (neqb_false _ _ eq_refl). reflexivity. }
  cbv beta iota. rewrite (neqb_false _ _ eq_refl).
  erewrite bind_some; cycle 1.
  { eapply init_encryption_ok; [exact Hf| |].
    - cbn. apply lookup_insert_eq.
    - rewrite length_resize. reflexivity. }
  cbv beta iota. rewrite (neqb_false _ _ eq_refl).
  match goal with |- context [encrypt_the_chunk P params ?s ?ww] =>
    edestruct (encrypt_the_chunk_total P params s) as ([[res params'] sess'] & w' & E);
      [| | | |rewrite E;
       destruct (keeps_encrypt_the_chunk P params s _ _ _ E) as [(Hi & Hkh & Hiv) [Hk Hr]]]
  end.
  - exact Hnn.
  - cbn. apply lookup_insert_eq.
  - reflexivity.
  - reflexivity.
  - cbn [snd] in *. exists res, params', sess', w'. split; [reflexivity|].
    rewrite Hi, Hkh, Hiv, Hk, Hr. cbn. rewrite lookup_insert_eq.
    repeat split; auto.
Qed.

Lemma initialized_only_by_first_encrypt P sess command pt params w r w' :
  TA_InvokeCommandEntryPoint P sess command pt params w = Some (r, w') ->
  initialized sess = false -> initialized (snd r) = true ->
  command = TA_SECURE_STORAGE_CMD_ENCRYPT_CHUNK /\ value_a (prm2 params) <> 0.
Proof.
  intros E Hi Hi'.
  destruct (Z.eq_dec command TA_SECURE_STORAGE_CMD_ENCRYPT_CHUNK) as [Hc|Hc];
    [destruct (Z.eq_dec (value_a (prm2 params)) 0) as [Hz|Hz]; [|auto]|].
  - destruct (keeps_InvokeCommand P sess command pt params
                (or_intror (or_intror Hz)) _ _ _ E) as [(H & _) _]. congruence.
  - destruct (keeps_InvokeCommand P sess command pt params
                (or_intror (or_introl Hc)) _ _ _ E) as [(H & _) _]. congruence.
Qed.

Lemma run_commands_keeps P cmds : forall sess w sess' w',
  initialized sess = true ->
  run_commands P sess cmds w = Some (sess', w') ->
  same_key sess sess' /\ same_material w w'.
Proof.
  induction cmds as [|[[c pt] ps] rest IH]; intros sess w sess' w' Hi E.
  - injection E as <- <-. split; [apply same_key_refl|reflexivity].
  - cbn [run_commands] in E. unfold bind in E.
    destruct (TA_InvokeCommandEntryPoint P sess c pt ps w) as [[[[res p'] s1] w1]|] eqn:E1;
      [|discriminate].
    destruct (keeps_InvokeCommand P sess c pt ps (or_introl Hi) _ _ _ E1) as [Hs Hm].
    cbn [snd] in Hs.
    destruct (IH s1 w1 sess' w') as [Hs' Hm']; [|exact E|].
    + destruct Hs as (-> & _). exact Hi.
    + split; [eapply same_key_trans; eassumption|]. etransitivity; eassumption.
Qed.


Lemma stream_start_encrypt P params sess w k :
  faults w = [] -> initialized sess = true ->
  keys w !! key_handle sess = Some (Some k) ->
  Z.of_nat (length k) * 8 <= AES_KEY_SIZE * 8 ->
  value_a (prm2 params) <> 0 ->
  memref_size (prm0 params) = Z.of_nat (length (memref_buffer (prm0 params))) ->
  memref_size (prm0 params) <= CHUNK_SIZE ->
  memref_size (prm0 params) mod 16 = 0 ->
  memref_size (prm0 params) <= memref_size (prm1 params) ->
  let out :=
    fst (cbc_blocks P TEE_MODE_ENCRYPT k (take (Z.to_nat AES_IV_SIZE) (iv sess))
           (memref_buffer (prm0 params))) in
  exists params' sess' w',
    encrypt_chunk P chunk_param_types params sess w
    = Some (TEE_SUCCESS, params', sess', w')
    /\ enc_op sess' = fresh_in (ops w)
    /\ ops w !! enc_op sess' = None
    /\ memref_buffer (prm1 params')
       = TEE_MemMove_at (memref_buffer (prm1 params)) 0 out (Z.of_nat (length out)).
Proof.
  intros Hf Hinit Hk Hl Hfirst Hbuf Hsz Hal Hdst out.
  destruct (fresh_in_spec (ops w)) as [Hnn Hfresh].
  unfold encrypt_chunk. rewrite (neqb_false _ _ eq_refl), (gtb_false _ _ Hsz).
  rewrite (neqb_true _ _ Hfirst), Hinit. cbn [negb].
  unfold bind at 1. unfold ret at 1. rewrite (neqb_false _ _ eq_refl).
  rewrite (bind_some _ _ _ _ _ (init_encryption_ok sess k w Hf Hk Hl)).
  cbv beta iota. rewrite (neqb_false _ _ eq_refl).
  unfold encrypt_the_chunk. rewrite (neqb_false _ _ Hal).
  unfold bind at 1. unfold TEE_GetSystemTime at 1.
  assert (Hmm : TEE_MemMove (memref_buffer (prm0 params)) (memref_size (prm0 params))
                = memref_buffer (prm0 params))
    by (rewrite Hbuf; apply TEE_MemMove_all).
  rewrite Hmm.
  erewrite bind_some; cycle 1.
  { eapply (TEE_CipherUpdate_ok P _ _ k (take (Z.to_nat AES_IV_SIZE) (iv sess)));
      [exact Hf|exact Hnn|cbn; apply lookup_insert_eq|reflexivity|reflexivity
      |reflexivity| |].
    - rewrite <- Hbuf. exact Hal.
    - rewrite <- Hbuf. exact Hdst. }
  cbv beta iota. unfold bind at 1. unfold TEE_GetSystemTime at 1.
  rewrite (neqb_false _ _ eq_refl). unfold ret.
  eexists _, _, _. split; [reflexivity|]. cbn. auto.
Qed.

Lemma stream_start_decrypt P params sess w k :
  faults w = [] -> initialized sess = true ->
  keys w !! key_handle sess = Some (Some k) ->
  Z.of_nat (length k) * 8 <= AES_KEY_SIZE * 8 ->
  value_a (prm2 params) <> 0 ->
  memref_size (prm0 params) = Z.of_nat (length (memref_buffer (prm0 params))) ->
  memref_size (prm0 params) <= CHUNK_SIZE ->
  memref_size (prm0 params) mod 16 = 0 ->
  memref_size (prm0 params) <= memref_size (prm1 params) ->
  let out :=
    fst (cbc_blocks P TEE_MODE_DECRYPT k (take (Z.to_nat AES_IV_SIZE) (iv sess))
           (memref_buffer (prm0 params))) in
  exists params' sess' w',
    decrypt_chunk P chunk_param_types params sess w
    = Some (TEE_SUCCESS, params', sess', w')
    /\ dec_op sess' = fresh_in (ops w)
    /\ ops w !! dec_op sess' = None
    /\ memref_buffer (prm1 params')
       = TEE_MemMove_at (memref_buffer (prm1 params)) 0 out (Z.of_nat (length out)).
Proof.
  intros Hf Hinit Hk Hl Hfirst Hbuf Hsz Hal Hdst out.
  destruct (fresh_in_spec (ops w)) as [Hnn Hfresh].
  unfold decrypt_chunk. rewrite (neqb_false _ _ eq_refl), (gtb_false _ _ Hsz).
  rewrite (neqb_true _ _ Hfirst), Hinit. cbn [negb].
  rewrite (bind_some _ _ _ _ _ (init_decryption_ok sess k w Hf Hk Hl)).
  cbv beta iota. rewrite (neqb_false _ _ eq_refl).
  unfold decrypt_the_chunk.
  unfold bind at 1. unfold TEE_GetSystemTime at 1.
  assert (Hmm : TEE_MemMove (memref_buffer (prm0 params)) (memref_size (prm0 params))
                = memref_buffer (prm0 params))
    by (rewrite Hbuf; apply TEE_MemMove_all).
  rewrite Hmm.
  erewrite bind_some; cycle 1.
  { eapply (TEE_CipherUpdate_ok P _ _ k (take (Z.to_nat AES_IV_SIZE) (iv sess)));
      [exact Hf|exact Hnn|cbn; apply lookup_insert_eq|reflexivity|reflexivity
      |reflexivity| |].
    - unfold AES_BLOCK_SIZE. rewrite <- Hbuf. exact Hal.
    - rewrite <- Hbuf. exact Hdst. }
  cbv beta iota. unfold bind at 1. unfold TEE_GetSystemTime at 1.
  rewrite (neqb_false _ _ eq_refl). unfold ret.
  eexists _, _, _. split; [reflexivity|]. cbn. auto.
Qed.

(** *** The key reaches the outputs through the cipher only

    Every call of the API, and then every command, runs in lockstep from two
    worlds that differ in key bytes only, provided the cipher is [blind]. *)

Lemma tbl_sim_dom {A} (R : A -> A -> Prop) m1 m2 :
  tbl_sim R m1 m2 -> dom m1 = dom m2.
Proof.
  intros H. apply set_eq. intros h. rewrite !elem_of_dom. specialize (H h).
  destruct (m1 !! h), (m2 !! h); try easy; split; intros []; try easy; eauto.
Qed.

Lemma tbl_sim_fresh {A} (R : A -> A -> Prop) m1 m2 :
  tbl_sim R m1 m2 -> fresh_in m1 = fresh_in m2.
Proof. intros H. unfold fresh_in. now rewrite (tbl_sim_dom R m1 m2 H). Qed.

Lemma tbl_sim_insert {A} (R : A -> A -> Prop) m1 m2 h a b :
  tbl_sim R m1 m2 -> R a b -> tbl_sim R (<[h := a]> m1) (<[h := b]> m2).
Proof.
  intros H Hab h'. destruct (decide (h = h')) as [->|Hne].
  - now rewrite !lookup_insert_eq.
  - rewrite !lookup_insert_ne by auto. apply H.
Qed.

Lemma tbl_sim_delete {A} (R : A -> A -> Prop) m1 m2 h :
  tbl_sim R m1 m2 -> tbl_sim R (delete h m1) (delete h m2).
Proof.
  intros H h'. destruct (decide (h = h')) as [->|Hne].
  - now rewrite !lookup_delete_eq.
  - rewrite !lookup_delete_ne by auto. apply H.
Qed.

Section Primitives.
Variable Rr : list byte -> list byte -> Prop.

Abbreviation same := (lockstep (sim Rr) (sim Rr) eq).

Lemma same_next_fault : same next_fault next_fault.
Proof.
  intros w1 w2 H. cbn. destruct H. split; [congruence|].
  constructor; cbn; auto; congruence.
Qed.

Lemma same_GetSystemTime : same TEE_GetSystemTime TEE_GetSystemTime.
Proof.
  intros w1 w2 H. cbn. destruct H. split; [congruence|].
  constructor; cbn; auto; congruence.
Qed.

Lemma same_AllocateTransientObject ty sz old :
  same (TEE_AllocateTransientObject ty sz old)
       (TEE_AllocateTransientObject ty sz old).
Proof.
  unfold TEE_AllocateTransientObject.
  eapply lockstep_bind; [apply same_next_fault|]. intros f _ <-.
  destruct (injected f); [now apply lockstep_ret|].
  intros w1 w2 H. cbn. rewrite (tbl_sim_fresh _ _ _ (sim_keys _ _ _ H)).
  split; [reflexivity|]. destruct H. constructor; cbn; auto.
  now apply tbl_sim_insert.
Qed.

Lemma same_PopulateTransientObject h a1 a2 :
  length (snd a1) = length (snd a2) ->
  same (TEE_PopulateTransientObject h a1) (TEE_PopulateTransientObject h a2).
Proof.
  intros Hl w1 w2 H. unfold TEE_PopulateTransientObject, bind, get, next_fault, modify, ret, panic.
  pose proof (sim_keys _ _ _ H h) as Hk.
  destruct (keys w1 !! h) as [[k1|]|], (keys w2 !! h) as [[k2|]|]; try easy.
  cbn [hd]. rewrite (sim_faults _ _ _ H).
  destruct (injected _).
  - split; [reflexivity|]. destruct H; constructor; cbn; auto; congruence.
  - split; [reflexivity|]. destruct H; constructor; cbn; auto; try congruence.
    now apply tbl_sim_insert.
Qed.

Lemma same_FreeTransientObject h :
  same (TEE_FreeTransientObject h) (TEE_FreeTransientObject h).
Proof.
  unfold TEE_FreeTransientObject. destruct (_ =? _)%N; [now apply lockstep_ret|].
  intros w1 w2 H. unfold bind, get, modify, panic.
  pose proof (sim_keys _ _ _ H h) as Hk.
  destruct (keys w1 !! h), (keys w2 !! h); try easy.
  split; [reflexivity|]. destruct H. constructor; cbn; auto.
  now apply tbl_sim_delete.
Qed.

Lemma same_AllocateOperation old alg mode sz :
  same (TEE_AllocateOperation old alg mode sz)
       (TEE_AllocateOperation old alg mode sz).
Proof.
  unfold TEE_AllocateOperation.
  eapply lockstep_bind; [apply same_next_fault|]. intros f _ <-.
  destruct (injected f); [now apply lockstep_ret|].
  intros w1 w2 H. cbn. rewrite (tbl_sim_fresh _ _ _ (sim_ops _ _ _ H)).
  split; [reflexivity|]. destruct H. constructor; cbn; auto.
  apply tbl_sim_insert; [assumption|]. now repeat split.
Qed.

Lemma same_FreeOperation h : same (TEE_FreeOperation h) (TEE_FreeOperation h).
Proof.
  intros w1 w2 H. unfold TEE_FreeOperation, bind, get, modify, panic.
  pose proof (sim_ops _ _ _ H h) as Hk.
  destruct (ops w1 !! h), (ops w2 !! h); try easy.
  split; [reflexivity|]. destruct H. constructor; cbn; auto.
  now apply tbl_sim_delete.
Qed.

Lemma same_SetOperationKey h kh :
  same (TEE_SetOperationKey h kh) (TEE_SetOperationKey h kh).
Proof.
  intros w1 w2 H. unfold TEE_SetOperationKey, bind, get, next_fault, modify, ret, panic.
  pose proof (sim_ops _ _ _ H h) as Ho. pose proof (sim_keys _ _ _ H kh) as Hk.
  destruct (ops w1 !! h) as [o1|], (ops w2 !! h) as [o2|]; try easy.
  destruct (keys w1 !! kh) as [[k1|]|], (keys w2 !! kh) as [[k2|]|]; try easy.
  - cbn in Hk. destruct Ho as (Ha & Hm & Hx & Hkey & Hc & Hp).
    rewrite Hk, Hx. destruct (_ >? _); [exact I|].
    cbn [hd]. rewrite (sim_faults _ _ _ H).
    destruct (injected _).
    + split; [reflexivity|]. destruct H; constructor; cbn; auto; congruence.
    + split; [reflexivity|]. destruct H; constructor; cbn; auto; try congruence.
      apply tbl_sim_insert; [assumption|]. now repeat split.
Qed.

Lemma same_CipherInit h IV n : same (TEE_CipherInit h IV n) (TEE_CipherInit h IV n).
Proof.
  intros w1 w2 H. unfold TEE_CipherInit, bind, get, modify, panic.
  pose proof (sim_ops _ _ _ H h) as Ho.
  destruct (ops w1 !! h) as [o1|], (ops w2 !! h) as [o2|]; try easy.
  destruct Ho as (Ha & Hm & Hx & Hkey & Hc & Hp).
  destruct (op_key o1) as [k1|], (op_key o2) as [k2|]; try easy.
  split; [reflexivity|]. destruct H. constructor; cbn; auto.
  apply tbl_sim_insert; [assumption|]. now repeat split.
Qed.

Lemma same_CipherUpdate P h src n :
  blind P -> same (TEE_CipherUpdate P h src n) (TEE_CipherUpdate P h src n).
Proof.
  intros HP w1 w2 H. unfold TEE_CipherUpdate.
  destruct (_ =? _)%N; [exact I|].
  unfold bind, get, next_fault, modify, ret, panic.
  pose proof (sim_ops _ _ _ H h) as Ho.
  destruct (ops w1 !! h) as [o1|], (ops w2 !! h) as [o2|]; try easy.
  destruct Ho as (Ha & Hm & Hx & Hkey & Hc & Hp).
  destruct (op_key o1) as [k1|], (op_key o2) as [k2|]; try easy.
  rewrite <- Hc, <- Hp, <- Hm.
  destruct (op_chain o1) as [c|]; [|exact I].
  cbn [hd]. rewrite (sim_faults _ _ _ H).
  destruct (injected _).
  - split; [reflexivity|]. destruct H; constructor; cbn; auto; congruence.
  - destruct (_ <? _).
    + split; [reflexivity|]. destruct H; constructor; cbn; auto; congruence.
    + rewrite (HP (op_mode o1) k1 k2).
      destruct (cbc_blocks _ _ _ _ _) as [out c'].
      split; [reflexivity|]. destruct H; constructor; cbn; auto; try congruence.
      apply tbl_sim_insert; [assumption|]. now repeat split.
Qed.

End Primitives.


Lemma sim_eq_weak w1 w2 : sim eq w1 w2 -> sim rng_weak w1 w2.
Proof. intros []. constructor; auto. unfold rng_weak. congruence. Qed.

Lemma same_GenerateRandom n :
  lockstep (sim eq) (sim eq) eq (TEE_GenerateRandom n) (TEE_GenerateRandom n).
Proof.
  intros w1 w2 H. cbn. destruct H as [? ? Hr ? ?]. rewrite Hr. split; [reflexivity|].
  constructor; cbn; auto.
Qed.

Lemma lockstep_draw_key :
  lockstep (sim rng_weak) (sim eq) (fun k1 k2 => length k1 = length k2)
    (TEE_GenerateRandom AES_KEY_SIZE) (TEE_GenerateRandom AES_KEY_SIZE).
Proof.
  intros w1 w2 H. cbn. split; [now rewrite !length_resize|].
  destruct H. constructor; cbn; auto.
Qed.

Ltac same_call HP :=
  first
    [ apply same_next_fault | apply same_GetSystemTime
    | apply same_AllocateOperation | apply same_SetOperationKey
    | apply same_FreeOperation | apply same_CipherInit
    | apply same_CipherUpdate; exact HP
    | apply same_FreeTransientObject | apply same_AllocateTransientObject
    | apply same_GenerateRandom
    | apply (lockstep_ret _ eq); reflexivity ].

Ltac same_go HP :=
  repeat match goal with
  | |- lockstep _ _ _ (bind _ _) (bind _ _) =>
      eapply lockstep_bind; [solve [same_call HP]|intros ? ? <-]
  | |- lockstep _ _ _ (if ?b then _ else _) (if ?b then _ else _) => destruct b
  | |- lockstep _ _ _ (match ?x with _ => _ end) (match ?x with _ => _ end) =>
      destruct x
  | |- lockstep _ _ _ (ret _) (ret _) => apply lockstep_ret; reflexivity
  | |- lockstep _ _ _ panic panic => apply lockstep_panic
  end.

Section Commands.
Variable P : platform.
Hypothesis HP : blind P.

Lemma same_init_encryption Rr s :
  lockstep (sim Rr) (sim Rr) eq (init_encryption s) (init_encryption s).
Proof. unfold init_encryption. same_go HP. Qed.

Lemma same_init_decryption Rr s :
  lockstep (sim Rr) (sim Rr) eq (init_decryption s) (init_decryption s).
Proof. unfold init_decryption. same_go HP. Qed.

Lemma same_encrypt_the_chunk Rr params s :
  lockstep (sim Rr) (sim Rr) eq
    (encrypt_the_chunk P params s) (encrypt_the_chunk P params s).
Proof. unfold encrypt_the_chunk. same_go HP. Qed.

Lemma same_decrypt_the_chunk Rr params s :
  lockstep (sim Rr) (sim Rr) eq
    (decrypt_the_chunk P params s) (decrypt_the_chunk P params s).
Proof. unfold decrypt_the_chunk. same_go HP. Qed.

Lemma same_init_crypto_key s :
  lockstep (sim rng_weak) (sim eq) eq (init_crypto_key s) (init_crypto_key s).
Proof.
  unfold init_crypto_key.
  eapply lockstep_bind; [apply lockstep_draw_key|]. intros k1 k2 Hk.
  eapply lockstep_bind; [apply same_AllocateTransientObject|].
  intros [res kh] ? <-. destruct (negb (res =? _)); [now apply lockstep_ret|].
  eapply lockstep_bind.
  { apply same_PopulateTransientObject. unfold TEE_InitRefAttribute. cbn.
    cbv beta in Hk. rewrite !length_take, Hk. reflexivity. }
  intros res' ? <-. same_go HP.
Qed.

Lemma same_decrypt_chunk Rr pt params s :
  lockstep (sim Rr) (sim Rr) eq
    (decrypt_chunk P pt params s) (decrypt_chunk P pt params s).
Proof.
  unfold decrypt_chunk.
  destruct (negb (pt =? _)); [now apply lockstep_ret|].
  destruct (_ >? _); [now apply lockstep_ret|].
  destruct (negb (_ =? 0)); [|apply same_decrypt_the_chunk].
  destruct (negb (initialized s)); [now apply lockstep_ret|].
  eapply lockstep_bind; [apply same_init_decryption|]. intros [res s1] ? <-.
  destruct (negb (res =? _)); [now apply lockstep_ret|].
  apply same_decrypt_the_chunk.
Qed.

Lemma same_encrypt_chunk pt params s :
  lockstep (sim rng_weak) (sim rng_weak) eq
    (encrypt_chunk P pt params s) (encrypt_chunk P pt params s).
Proof.
  unfold encrypt_chunk.
  destruct (negb (pt =? _)); [now apply lockstep_ret|].
  destruct (_ >? _); [now apply lockstep_ret|].
  destruct (negb (_ =? 0)); [|apply same_encrypt_the_chunk].
  destruct (negb (initialized s)).
  - eapply lockstep_weaken with (R1 := sim rng_weak) (R2 := sim eq) (Q := eq);
      [|auto|apply sim_eq_weak|auto].
    eapply lockstep_bind with (Q1 := eq) (R2 := sim eq).
    { eapply lockstep_bind; [apply same_init_crypto_key|]. intros [res s1] ? <-.
      destruct (negb (res =? _)); now apply lockstep_ret. }
    intros [res s1] ? <-. destruct (negb (res =? _)); [now apply lockstep_ret|].
    eapply lockstep_bind; [apply same_init_encryption|]. intros [res' s2] ? <-.
    destruct (negb (res' =? _)); [now apply lockstep_ret|].
    apply same_encrypt_the_chunk.
  - eapply lockstep_bind with (Q1 := eq); [now apply lockstep_ret|].
    intros [res s1] ? <-. destruct (negb (res =? _)); [now apply lockstep_ret|].
    eapply lockstep_bind; [apply same_init_encryption|]. intros [res' s2] ? <-.
    destruct (negb (res' =? _)); [now apply lockstep_ret|].
    apply same_encrypt_the_chunk.
Qed.

Lemma same_finalize_operation Rr pt params s :
  lockstep (sim Rr) (sim Rr) eq
    (finalize_operation pt params s) (finalize_operation pt params s).
Proof. unfold finalize_operation. same_go HP. Qed.

Lemma same_reset_session Rr s :
  lockstep (sim Rr) (sim Rr) eq (reset_session s) (reset_session s).
Proof.
  unfold reset_session.
  destruct (negb (enc_op s =? _)%N), (negb (dec_op s =? _)%N); same_go HP.
Qed.

Lemma same_InvokeCommand s command pt params :
  lockstep (sim rng_weak) (sim rng_weak) eq
    (TA_InvokeCommandEntryPoint P s command pt params)
    (TA_InvokeCommandEntryPoint P s command pt params).
Proof.
  unfold TA_InvokeCommandEntryPoint.
  destruct (command =? _); [apply same_encrypt_chunk|].
  destruct (command =? _); [apply same_decrypt_chunk|].
  destruct (command =? _); [apply same_finalize_operation|].
  destruct (command =? _); [|now apply lockstep_ret].
  eapply lockstep_bind; [apply same_reset_session|]. intros [res s1] ? <-.
  now apply lockstep_ret.
Qed.

End Commands.

Lemma plain_platform_blind : blind plain_platform.
Proof. intros mode k1 k2 chain blocks. reflexivity. Qed.

Lemma quiet_other_sim : sim rng_weak quiet_world other_world.
Proof. constructor; try reflexivity; intros h; cbn; now rewrite !lookup_empty. Qed.

(** Two worlds whose keys differ give the same replies. *)
Example round_trip_runs :
  let data1 := replicate 16 x01 in
  let data2 := replicate 32 x02 in
  fst <$> round_trip data1 data2 quiet_world
  = Some [(TEE_SUCCESS, data1); (TEE_SUCCESS, data2);
          (TEE_SUCCESS, data1); (TEE_SUCCESS, data2)]
  /\ fst <$> round_trip data1 data2 other_world
     = fst <$> round_trip data1 data2 quiet_world.
Proof. split; vm_compute; reflexivity. Qed.

(** *** The claims on the crypto session *)

(** With [is_first = 0] the [initialized] test of [decrypt_chunk] is skipped:
    on a session whose decryption operation is the null handle the command
    goes on to [TEE_CipherUpdate], which panics. *)
Lemma decrypt_continuation_null_engine P params sess w :
  memref_size (prm0 params) <= CHUNK_SIZE ->
  value_a (prm2 params) = 0 ->
  dec_op sess = TEE_HANDLE_NULL ->
  decrypt_chunk P chunk_param_types params sess w = None.
Proof.
  intros Hsz Hfirst Hop. unfold decrypt_chunk.
  rewrite (neqb_false _ _ eq_refl), (gtb_false _ _ Hsz), (neqb_false _ _ Hfirst).
  unfold decrypt_the_chunk, bind, TEE_GetSystemTime, TEE_CipherUpdate.
  now rewrite Hop.
Qed.

(** C6.  The code at the failing input: on the session as it is opened, a
    DECRYPT_CHUNK command with [is_first = 0] does not return
    [TEE_ERROR_BAD_STATE]; it calls the cipher on the null operation handle and
    the TA panics. *)
Theorem decrypt_continuation_before_init_panics :
  TA_OpenSessionEntryPoint quiet_world
  = Some (TEE_SUCCESS, Some fresh_session, quiet_world)
  /\ decrypt_chunk plain_platform chunk_param_types
       (chunk_command (replicate 16 x01) 0 16) fresh_session quiet_world
     = None
  /\ decrypt_chunk plain_platform chunk_param_types
       (chunk_command (replicate 16 x01) 0 16) fresh_session quiet_world
     <> Some (TEE_ERROR_BAD_STATE, chunk_command (replicate 16 x01) 0 16,
              fresh_session, quiet_world).
Proof.
  split; [vm_compute; reflexivity|].
  assert (H : decrypt_chunk plain_platform chunk_param_types
                (chunk_command (replicate 16 x01) 0 16) fresh_session quiet_world
              = None) by (vm_compute; reflexivity).
  split; [exact H|]. rewrite H. discriminate.
Qed.

(** C7.  In a reliable environment the first well-formed ENCRYPT_CHUNK with
    [is_first <> 0] on a session that is not initialized draws the key and
    the IV from the random source and sets [initialized]; no other command
    sets the flag; once it is set, no sequence of commands changes the flag,
    the key handle, the IV, the key objects or the random source (nothing is
    generated again); every later stream start, by ENCRYPT_CHUNK or
    DECRYPT_CHUNK with [is_first <> 0], allocates an operation handle that
    was not allocated before and its output is the cipher's under the session
    key and the session IV; and the key reaches the output parameters through
    the cipher only: with a cipher that ignores its key, two worlds differing
    in key bytes only give the same results, output parameters and sessions. *)
Theorem key_and_iv_generated_once P params sess w :
  faults w = [] ->
  initialized sess = false ->
  memref_size (prm0 params) <= CHUNK_SIZE ->
  value_a (prm2 params) <> 0 ->
  (exists res params' sess' w',
     encrypt_chunk P chunk_param_types params sess w
     = Some (res, params', sess', w')
     /\ initialized sess' = true
     /\ key_handle sess' = fresh_in (keys w)
     /\ keys w !! key_handle sess' = None
     /\ keys w' !! key_handle sess'
        = Some (Some (resize (Z.to_nat AES_KEY_SIZE) x00 (rng w)))
     /\ iv sess'
        = resize (Z.to_nat AES_IV_SIZE) x00 (drop (Z.to_nat AES_KEY_SIZE) (rng w))
     /\ rng w' = drop (Z.to_nat AES_IV_SIZE) (drop (Z.to_nat AES_KEY_SIZE) (rng w)))
  /\ (forall s command pt ps w0 r w1,
        TA_InvokeCommandEntryPoint P s command pt ps w0 = Some (r, w1) ->
        initialized s = false -> initialized (snd r) = true ->
        command = TA_SECURE_STORAGE_CMD_ENCRYPT_CHUNK /\ value_a (prm2 ps) <> 0)
  /\ (forall s cmds w0 s' w1,
        initialized s = true ->
        run_commands P s cmds w0 = Some (s', w1) ->
        same_key s s' /\ same_material w0 w1)
  /\ (forall s ps w0 k,
        faults w0 = [] -> initialized s = true ->
        keys w0 !! key_handle s = Some (Some k) ->
        Z.of_nat (length k) * 8 <= AES_KEY_SIZE * 8 ->
        value_a (prm2 ps) <> 0 ->
        memref_size (prm0 ps) = Z.of_nat (length (memref_buffer (prm0 ps))) ->
        memref_size (prm0 ps) <= CHUNK_SIZE ->
        memref_size (prm0 ps) mod 16 = 0 ->
        memref_size (prm0 ps) <= memref_size (prm1 ps) ->
        (let out := fst (cbc_blocks P TEE_MODE_ENCRYPT k
                           (take (Z.to_nat AES_IV_SIZE) (iv s))
                           (memref_buffer (prm0 ps))) in
         exists ps' s' w1,
           encrypt_chunk P chunk_param_types ps s w0
           = Some (TEE_SUCCESS, ps', s', w1)
           /\ enc_op s' = fresh_in (ops w0)
           /\ ops w0 !! enc_op s' = None
           /\ memref_buffer (prm1 ps')
              = TEE_MemMove_at (memref_buffer (prm1 ps)) 0 out
                  (Z.of_nat (length out)))
        /\ (let out := fst (cbc_blocks P TEE_MODE_DECRYPT k
                              (take (Z.to_nat AES_IV_SIZE) (iv s))
                              (memref_buffer (prm0 ps))) in
            exists ps' s' w1,
              decrypt_chunk P chunk_param_types ps s w0
              = Some (TEE_SUCCESS, ps', s', w1)
              /\ dec_op s' = fresh_in (ops w0)
              /\ ops w0 !! dec_op s' = None
              /\ memref_buffer (prm1 ps')
                 = TEE_MemMove_at (memref_buffer (prm1 ps)) 0 out
                     (Z.of_nat (length out))))
  /\ (blind P ->
      forall s command pt ps,
        lockstep (sim rng_weak) (sim rng_weak) eq
          (TA_InvokeCommandEntryPoint P s command pt ps)
          (TA_InvokeCommandEntryPoint P s command pt ps)).
Proof.
  intros Hf Hinit Hsz Hfirst. split; [|split; [|split; [|split]]].
  - now apply first_encrypt_generates.
  - intros s command pt ps w0 r w1. apply initialized_only_by_first_encrypt.
  - intros s cmds w0 s' w1. apply run_commands_keeps.
  - intros s ps w0 k H1 H2 H3 H4 H5 H6 H7 H8 H9. split.
    + now apply stream_start_encrypt.
    + now apply stream_start_decrypt.
  - intros HP s command pt ps. now apply same_InvokeCommand.
Qed.

Lemma key_and_iv_generated_once_witness :
  exists res params' sess' w',
    encrypt_chunk plain_platform chunk_param_types
      (chunk_command (replicate 16 x01) 1 16) fresh_session quiet_world
    = Some (res, params', sess', w')
    /\ initialized sess' = true
    /\ key_handle sess' = fresh_in (keys quiet_world)
    /\ keys quiet_world !! key_handle sess' = None
    /\ keys w' !! key_handle sess'
       = Some (Some (resize (Z.to_nat AES_KEY_SIZE) x00 (rng quiet_world)))
    /\ iv sess'
       = resize (Z.to_nat AES_IV_SIZE) x00
           (drop (Z.to_nat AES_KEY_SIZE) (rng quiet_world))
    /\ rng w'
       = drop (Z.to_nat AES_IV_SIZE) (drop (Z.to_nat AES_KEY_SIZE) (rng quiet_world)).
Proof.
  apply (key_and_iv_generated_once plain_platform
           (chunk_command (replicate 16 x01) 1 16) fresh_session quiet_world);
    [reflexivity | reflexivity | vm_compute; discriminate | discriminate].
Defined.

(** C8.  WRITE_CHUNK, ENCRYPT_CHUNK and DECRYPT_CHUNK answer a chunk of more
    than [CHUNK_SIZE] bytes with [TEE_ERROR_BAD_PARAMETERS] and leave session,
    parameters and world as they were. *)
Theorem oversized_chunk_rejected P wpt wparams wsess ww cpt cparams csess cw :
  CHUNK_SIZE < memref_size (prm1 wparams) ->
  CHUNK_SIZE < memref_size (prm0 cparams) ->
  Storage.write_raw_chunk wpt wparams wsess ww
  = Some (TEE_ERROR_BAD_PARAMETERS, wsess, ww)
  /\ encrypt_chunk P cpt cparams csess cw
     = Some (TEE_ERROR_BAD_PARAMETERS, cparams, csess, cw)
  /\ decrypt_chunk P cpt cparams csess cw
     = Some (TEE_ERROR_BAD_PARAMETERS, cparams, csess, cw).
Proof.
  intros Hw Hc. split; [|split].
  - now apply StorageSpec.write_raw_chunk_oversized.
  - now apply encrypt_chunk_oversized.
  - now apply decrypt_chunk_oversized.
Qed.

Lemma oversized_chunk_rejected_witness :
  Storage.write_raw_chunk Storage.write_chunk_param_types
    (Storage.chunk_command Storage.obj1 Storage.oversized 1)
    Storage.idle_session Storage.empty_world
  = Some (TEE_ERROR_BAD_PARAMETERS, Storage.idle_session, Storage.empty_world)
  /\ encrypt_chunk plain_platform chunk_param_types
       (chunk_command Storage.oversized 1 16) fresh_session quiet_world
     = Some (TEE_ERROR_BAD_PARAMETERS, chunk_command Storage.oversized 1 16,
             fresh_session, quiet_world)
  /\ decrypt_chunk plain_platform chunk_param_types
       (chunk_command Storage.oversized 1 16) fresh_session quiet_world
     = Some (TEE_ERROR_BAD_PARAMETERS, chunk_command Storage.oversized 1 16,
             fresh_session, quiet_world).
Proof.
  apply (oversized_chunk_rejected plain_platform
           Storage.write_chunk_param_types
           (Storage.chunk_command Storage.obj1 Storage.oversized 1)
           Storage.idle_session Storage.empty_world
           chunk_param_types
           (chunk_command Storage.oversized 1 16) fresh_session quiet_world);
    vm_compute; reflexivity.
Defined.

End CryptoSpec.

(** ** More of the storage TA: delete, single-shot write, the write stream *)

Module StorageMore.
Import Storage StorageTerms StorageSpec.

(** *** Handles and conflicts *)

Lemma has_flag_lor_l a b f : has_flag a f = true -> has_flag (Z.lor a b) f = true.
Proof.
  unfold has_flag. intros H.
  destruct (Z.eqb_spec (Z.land a f) 0) as [E|E]; [discriminate|].
  destruct (Z.eqb_spec (Z.land (Z.lor a b) f) 0) as [E'|E']; [|reflexivity].
  exfalso. apply E. apply Z.bits_inj'. intros n Hn.
  apply (f_equal (fun z => Z.testbit z n)) in E'.
  rewrite Z.land_spec, Z.lor_spec, Z.bits_0 in E'.
  rewrite Z.land_spec, Z.bits_0.
  destruct (Z.testbit a n), (Z.testbit f n); cbn in *; auto.
Qed.

Lemma access_conflict_meta oflags nflags :
  has_flag nflags TEE_DATA_FLAG_ACCESS_WRITE_META = true ->
  access_conflict oflags nflags = true.
Proof. intros H. unfold access_conflict. rewrite H. now rewrite orb_true_r. Qed.

Lemma access_conflict_meta_l oflags nflags :
  has_flag oflags TEE_DATA_FLAG_ACCESS_WRITE_META = true ->
  access_conflict oflags nflags = true.
Proof. intros H. unfold access_conflict. now rewrite H. Qed.

(** With write-meta access asked for, no conflict means that no handle at all
    is open on the object, so that no other access conflicts either. *)
Lemma conflicting_meta id flags hs :
  has_flag flags TEE_DATA_FLAG_ACCESS_WRITE_META = true ->
  conflicting id flags hs = false ->
  forall flags', conflicting id flags' hs = false.
Proof.
  intros Hm Hc flags'. unfold conflicting in *.
  destruct (existsb _ (map_to_list hs)) eqn:E in |- *; [|reflexivity].
  apply existsb_exists in E as ([h oo] & Hin & Hb).
  apply andb_true_iff in Hb as [Hid _].
  assert (existsb (fun e : N * open_object =>
                     bool_decide (oo_id (snd e) = id)
                     && access_conflict (oo_flags (snd e)) flags)
                  (map_to_list hs) = true) as Ht; [|congruence].
  apply existsb_exists. exists (h, oo). split; [exact Hin|].
  rewrite Hid. cbn. now apply access_conflict_meta.
Qed.

Lemma conflicting_true id flags hs h oo :
  hs !! h = Some oo -> oo_id oo = id ->
  access_conflict (oo_flags oo) flags = true ->
  conflicting id flags hs = true.
Proof.
  intros Hh Hid Hac. unfold conflicting. apply existsb_exists.
  exists (h, oo). split.
  - apply list_elem_of_In, elem_of_map_to_list, Hh.
  - cbn. rewrite Hac, bool_decide_eq_true_2; auto.
Qed.

Lemma conflicting_insert_other id flags hs h oo :
  oo_id oo <> id -> hs !! h = None ->
  conflicting id flags (<[h := oo]> hs) = conflicting id flags hs.
Proof.
  intros Hid Hh.
  destruct (conflicting id flags hs) eqn:E.
  - unfold conflicting in E. apply existsb_exists in E as ([h' oo'] & Hin & Hb).
    apply list_elem_of_In, elem_of_map_to_list in Hin.
    apply andb_true_iff in Hb as [Hb1 Hb2]. apply bool_decide_eq_true in Hb1.
    apply (conflicting_true id flags _ h' oo'); auto.
    rewrite lookup_insert_ne; [exact Hin|]. intros ->. congruence.
  - destruct (conflicting id flags (<[h:=oo]> hs)) eqn:E'; [|reflexivity].
    unfold conflicting in E'. apply existsb_exists in E' as ([h' oo'] & Hin & Hb).
    apply list_elem_of_In, elem_of_map_to_list in Hin.
    apply andb_true_iff in Hb as [Hb1 Hb2]. apply bool_decide_eq_true in Hb1.
    destruct (decide (h' = h)) as [->|Hne].
    + rewrite lookup_insert_eq in Hin. injection Hin as <-. contradiction.
    + rewrite lookup_insert_ne in Hin by auto.
      rewrite (conflicting_true id flags hs h' oo') in E; auto.
Qed.

Lemma set_handles_fresh w h oo :
  handles w !! h = None ->
  set_handles (delete h (<[h := oo]> (handles w))) w = w.
Proof.
  intros H. destruct w as [o hs f c]; cbn in *. unfold set_handles; cbn. f_equal.
  rewrite delete_insert_eq. now apply delete_id.
Qed.

(** *** DELETE *)

Lemma TEE_CloseAndDelete_ok h oo w :
  handles w !! h = Some oo -> h <> TEE_HANDLE_NULL ->
  has_flag (oo_flags oo) TEE_DATA_FLAG_ACCESS_WRITE_META = true ->
  TEE_CloseAndDeletePersistentObject1 h w
  = Some (TEE_SUCCESS,
          set_handles (delete h (handles w))
            (set_objects (delete (oo_id oo) (objects w)) w)).
Proof.
  intros Hh Hn Hf. unfold TEE_CloseAndDeletePersistentObject1.
  apply N.eqb_neq in Hn. rewrite Hn.
  unfold bind, get, modify, ret. now rewrite Hh, Hf.
Qed.

Lemma delete_object_absent params w id :
  id = TEE_MemMove (memref_buffer (prm0 params)) (memref_size (prm0 params)) ->
  objects w !! id = None -> faults w = [] ->
  delete_object delete_param_types params w
  = Some (TEE_ERROR_ITEM_NOT_FOUND, w).
Proof.
  intros Hid Ho Hf. unfold delete_object. rewrite (neqb_false _ _ eq_refl).
  rewrite (bind_some _ _ _ _ _ (TEE_Malloc_nil _ w Hf)). cbn [negb].
  rewrite <- Hid.
  rewrite (bind_some _ _ _ _ _ (TEE_OpenPersistentObject_absent _ _ w Ho Hf)).
  reflexivity.
Qed.

Lemma delete_object_present params w id data :
  id = TEE_MemMove (memref_buffer (prm0 params)) (memref_size (prm0 params)) ->
  objects w !! id = Some data ->
  conflicting id delete_flags (handles w) = false ->
  faults w = [] ->
  delete_object delete_param_types params w
  = Some (TEE_SUCCESS, set_objects (delete id (objects w)) w).
Proof.
  intros Hid Hd Hc Hf.
  destruct (fresh_handle_spec (handles w)) as [Hnn Hfresh].
  unfold delete_object. rewrite (neqb_false _ _ eq_refl).
  rewrite (bind_some _ _ _ _ _ (TEE_Malloc_nil _ w Hf)). cbn [negb].
  rewrite <- Hid. fold delete_flags.
  rewrite (bind_some _ _ _ _ _
             (TEE_OpenPersistentObject_calm _ _ _ w (hd_nil_calm w Hf) Hd Hc)).
  cbv beta iota. rewrite (neqb_false _ _ eq_refl).
  rewrite Hf. cbn [tl]. rewrite <- Hf, set_faults_id.
  erewrite bind_some; cycle 1.
  { eapply (TEE_CloseAndDelete_ok _ (mkOpen id delete_flags 0));
      [apply lookup_insert_eq|exact Hnn|reflexivity]. }
  unfold bind, TEE_Free, ret. do 2 f_equal.
  destruct w as [o hs f c]; cbn in *. unfold set_handles, set_objects; cbn.
  f_equal. rewrite delete_insert_eq. now apply delete_id.
Qed.


(** X1.  In a reliable environment a DELETE command on a stored object that
    no handle is open on returns [TEE_SUCCESS] and removes exactly that object
    (every other object and the handle table are as before); after it, a
    second DELETE and a READ of the identifier return
    [TEE_ERROR_ITEM_NOT_FOUND] without any change. *)
Theorem delete_removes_object params w id data :
  id = TEE_MemMove (memref_buffer (prm0 params)) (memref_size (prm0 params)) ->
  objects w !! id = Some data ->
  conflicting id delete_flags (handles w) = false ->
  faults w = [] ->
  let w' := set_objects (delete id (objects w)) w in
  delete_object delete_param_types params w = Some (TEE_SUCCESS, w')
  /\ delete_object delete_param_types params w'
     = Some (TEE_ERROR_ITEM_NOT_FOUND, w')
  /\ forall buf p2 p3,
       read_raw_object read_param_types (mkParams (memref_param id) buf p2 p3) w'
       = Some (TEE_ERROR_ITEM_NOT_FOUND, mkParams (memref_param id) buf p2 p3, w').
Proof.
  intros Hid Hd Hc Hf w'. split; [|split].
  - now apply (delete_object_present params w id data).
  - apply (delete_object_absent params w' id); auto. cbn. apply lookup_delete_eq.
  - intros buf p2 p3. apply read_raw_object_absent; auto. cbn. apply lookup_delete_eq.
Qed.

Lemma delete_removes_object_witness :
  delete_object delete_param_types (delete_command obj1) stored_world
  = Some (TEE_SUCCESS, set_objects (delete obj1 (objects stored_world)) stored_world).
Proof.
  apply (delete_removes_object (delete_command obj1) stored_world obj1
           [xa1; xa2; xa3]);
    [reflexivity | reflexivity | reflexivity | reflexivity].
Defined.

(** *** What a command leaves behind, whatever the environment does *)

Lemma TEE_OpenPersistentObject_cases id flags w :
  exists res h w',
    TEE_OpenPersistentObject TEE_STORAGE_PRIVATE id flags w = Some (res, h, w')
    /\ objects w' = objects w
    /\ (res <> TEE_SUCCESS /\ handles w' = handles w
        \/ res = TEE_SUCCESS /\ h <> TEE_HANDLE_NULL /\ handles w !! h = None
           /\ handles w' = <[h := mkOpen id flags 0]> (handles w)).
Proof.
  unfold TEE_OpenPersistentObject, bind, next_fault, get, modify, ret. cbn [hd].
  destruct (injected _) as [e|] eqn:Hinj.
  - eexists _, _, _. split; [reflexivity|]. split; [reflexivity|]. left.
    split; [|reflexivity]. destruct (hd _ _) as [|e'|]; try discriminate.
    cbn in Hinj. destruct (Z.eqb_spec e' TEE_SUCCESS); [discriminate|]. congruence.
  - cbn [negb handles objects set_faults]. rewrite (neqb_false _ _ eq_refl).
    destruct (objects w !! id).
    2:{ eexists _, _, _. split; [reflexivity|]. split; [reflexivity|]. left.
        split; [discriminate|reflexivity]. }
    destruct (conflicting _ _ _).
    { eexists _, _, _. split; [reflexivity|]. split; [reflexivity|]. left.
      split; [discriminate|reflexivity]. }
    eexists _, _, _. split; [reflexivity|]. split; [reflexivity|]. right.
    destruct (fresh_handle_spec (handles w)). cbn. auto.
Qed.

(** X2.  Whatever its parameters, and whatever faults the allocation and the
    opening of the object meet, a DELETE command returns (the TA does not
    panic), leaves no handle behind, and changes the store only when it
    reports success: then it has removed the object named by the identifier
    and nothing else.  The command discards the result of
    [TEE_CloseAndDeletePersistentObject1] (line 47), which is taken to do its
    work on the handle just opened. *)
Theorem delete_object_frame pt params w :
  exists res w',
    delete_object pt params w = Some (res, w')
    /\ handles w' = handles w
    /\ (res <> TEE_SUCCESS -> objects w' = objects w)
    /\ (res = TEE_SUCCESS ->
        objects w'
        = delete (TEE_MemMove (memref_buffer (prm0 params))
                              (memref_size (prm0 params))) (objects w)).
Proof.
  unfold delete_object.
  destruct (negb (pt =? _)).
  { eexists _, _. split; [reflexivity|]. repeat split; auto. discriminate. }
  destruct (TEE_Malloc_total (memref_size (prm0 params)) w) as (b1 & w1 & E1 & Ho1 & Hh1).
  rewrite (bind_some _ _ _ _ _ E1). destruct b1; cbn [negb].
  2:{ eexists _, _. split; [reflexivity|]. repeat split; auto. discriminate. }
  set (id := TEE_MemMove _ _).
  destruct (TEE_OpenPersistentObject_cases id
              (Z.lor TEE_DATA_FLAG_ACCESS_READ TEE_DATA_FLAG_ACCESS_WRITE_META) w1)
    as (res & h & w2 & E2 & Ho2 & [[Hne Hh2]|(-> & Hn & Hfr & Hh2)]).
  - rewrite (bind_some _ _ _ _ _ E2). cbv beta iota. rewrite (neqb_true _ _ Hne).
    eexists _, _. split; [reflexivity|]. repeat split; try congruence.
  - rewrite (bind_some _ _ _ _ _ E2). cbv beta iota. rewrite (neqb_false _ _ eq_refl).
    erewrite bind_some; cycle 1.
    { eapply (TEE_CloseAndDelete_ok _ (mkOpen id _ 0));
        [rewrite Hh2; apply lookup_insert_eq|exact Hn|reflexivity]. }
    eexists _, _. split; [reflexivity|]. cbn.
    rewrite Hh2, delete_insert_eq, delete_id by exact Hfr.
    repeat split; try congruence.
Qed.

Lemma TEE_GetObjectInfo1_frame h oo w :
  handles w !! h = Some oo -> h <> TEE_HANDLE_NULL ->
  exists r w', TEE_GetObjectInfo1 h w = Some (r, w')
               /\ objects w' = objects w /\ handles w' = handles w.
Proof.
  intros Hh Hn. unfold TEE_GetObjectInfo1. apply N.eqb_neq in Hn. rewrite Hn.
  unfold bind, get, next_fault, ret. rewrite Hh. cbn [hd].
  destruct (injected _); [eauto|]. cbn [objects set_faults].
  destruct (objects w !! oo_id oo); eauto.
Qed.

Lemma TEE_ReadObjectData_frame h id flags pos size w :
  handles w !! h = Some (mkOpen id flags pos) -> h <> TEE_HANDLE_NULL ->
  has_flag flags TEE_DATA_FLAG_ACCESS_READ = true ->
  exists res got w' pos',
    TEE_ReadObjectData h size w = Some (res, got, w')
    /\ objects w' = objects w
    /\ handles w' = <[h := mkOpen id flags pos']> (handles w).
Proof.
  intros Hh Hn Hfl. unfold TEE_ReadObjectData.
  apply N.eqb_neq in Hn. rewrite Hn.
  unfold bind, get, next_fault, modify, ret. rewrite Hh. cbn [oo_flags oo_id oo_pos].
  rewrite Hfl. cbn [negb hd].
  destruct (injected _).
  { eexists _, _, _, pos. split; [reflexivity|]. cbn. split; [reflexivity|].
    symmetry. now apply insert_id. }
  cbn [objects set_faults].
  destruct (objects w !! id).
  2:{ eexists _, _, _, pos. split; [reflexivity|]. cbn. split; [reflexivity|].
      symmetry. now apply insert_id. }
  eexists _, _, _, _. split; [reflexivity|]. cbn. auto.
Qed.

Lemma read_loop_frame fuel : forall h id flags pos dataSize buf total w,
  handles w !! h = Some (mkOpen id flags pos) -> h <> TEE_HANDLE_NULL ->
  has_flag flags TEE_DATA_FLAG_ACCESS_READ = true ->
  0 <= total ->
  dataSize - total <= Z.of_nat fuel ->
  exists r w' pos',
    read_loop fuel h dataSize buf total w = Some (r, w')
    /\ objects w' = objects w
    /\ handles w' = <[h := mkOpen id flags pos']> (handles w).
Proof.
  induction fuel as [|fuel IH]; intros h id flags pos dataSize buf total w Hh Hn Hfl Ht Hfuel.
  - cbn [read_loop]. rewrite (proj2 (Z.ltb_ge _ _)) by lia.
    eexists _, _, pos. split; [reflexivity|]. split; [reflexivity|].
    symmetry. now apply insert_id.
  - cbn [read_loop]. destruct (Z.ltb_spec total dataSize) as [Hlt|Hge].
    2:{ eexists _, _, pos. split; [reflexivity|]. split; [reflexivity|].
        symmetry. now apply insert_id. }
    destruct (chunk_size_for_bounds dataSize total ltac:(lia)) as [Hcs Hle].
    destruct (TEE_ReadObjectData_frame h id flags pos (chunk_size_for dataSize total) w
                Hh Hn Hfl) as (res & got & w1 & pos1 & E & Ho1 & Hh1).
    rewrite (bind_some _ _ _ _ _ E). cbv beta iota.
    destruct (negb (res =? _)); [eexists _, _, _; split; [reflexivity|]; eauto|].
    destruct (Z.eqb_spec (Z.of_nat (length got)) (chunk_size_for dataSize total)) as [Hg|Hg];
      cbn [negb]; [|eexists _, _, _; split; [reflexivity|]; eauto].
    rewrite Hg.
    edestruct (IH h id flags pos1 dataSize
                 (TEE_MemMove_at buf total got (chunk_size_for dataSize total))
                 (total + chunk_size_for dataSize total) w1)
      as (r & w2 & pos2 & E2 & Ho2 & Hh2); auto.
    + rewrite Hh1. apply lookup_insert_eq.
    + lia.
    + lia.
    + exists r, w2, pos2. split; [exact E2|]. split; [congruence|].
      rewrite Hh2, Hh1. apply insert_insert_eq.
Qed.

(** X3.  Whatever its parameters and whatever the environment does, a READ
    command returns (the TA does not panic, the loop ends), and it leaves the
    store and the handle table exactly as they were: the handle it opens is
    closed on every path. *)
Theorem read_raw_object_frame pt params w :
  exists res params' w',
    read_raw_object pt params w = Some (res, params', w')
    /\ objects w' = objects w /\ handles w' = handles w
    /\ prm0 params' = prm0 params.
Proof.
  unfold read_raw_object.
  destruct (negb (pt =? _)); [eexists _, _, _; split; [reflexivity|]; auto|].
  destruct (TEE_Malloc_total (memref_size (prm0 params)) w) as (b1 & w1 & E1 & Ho1 & Hh1).
  rewrite (bind_some _ _ _ _ _ E1). destruct b1; cbn [negb];
    [|eexists _, _, _; split; [reflexivity|]; auto].
  destruct (TEE_Malloc_total CHUNK_SIZE w1) as (b2 & w2 & E2 & Ho2 & Hh2).
  rewrite (bind_some _ _ _ _ _ E2). destruct b2; cbn [negb].
  2:{ eexists _, _, _. split; [reflexivity|]. repeat split; congruence. }
  set (id := TEE_MemMove _ _).
  destruct (TEE_OpenPersistentObject_cases id
              (Z.lor TEE_DATA_FLAG_ACCESS_READ TEE_DATA_FLAG_SHARE_READ) w2)
    as (res & h & w3 & E3 & Ho3 & [[Hne Hh3]|(-> & Hn & Hfr & Hh3)]);
    rewrite (bind_some _ _ _ _ _ E3); cbv beta iota.
  { rewrite (neqb_true _ _ Hne).
    eexists _, _, _. split; [reflexivity|]. repeat split; congruence. }
  rewrite (neqb_false _ _ eq_refl).
  assert (Hrest : handles w = handles w2) by congruence.
  assert (Hobj : objects w3 = objects w) by congruence.
  assert (Hexit : forall r p w5 pos,
            objects w5 = objects w3 ->
            handles w5 = <[h := mkOpen id (Z.lor TEE_DATA_FLAG_ACCESS_READ
                                             TEE_DATA_FLAG_SHARE_READ) pos]> (handles w2) ->
            prm0 p = prm0 params ->
            exists res params' w',
              read_exit h r p w5 = Some (res, params', w')
              /\ objects w' = objects w /\ handles w' = handles w
              /\ prm0 params' = prm0 params).
  { intros r p w5 pos Ho5 Hh5 Hp.
    erewrite read_exit_ok; [|rewrite Hh5; apply lookup_insert_eq|exact Hn].
    eexists _, _, _. split; [reflexivity|]. cbn.
    rewrite Hh5, delete_insert_eq, delete_id by exact Hfr.
    repeat split; congruence. }
  assert (Hh3' : handles w3 !! h = Some (mkOpen id (Z.lor TEE_DATA_FLAG_ACCESS_READ
                                                     TEE_DATA_FLAG_SHARE_READ) 0))
    by (rewrite Hh3; apply lookup_insert_eq).
  destruct (TEE_GetObjectInfo1_frame h _ w3 Hh3' Hn) as ([res' info] & w4 & E4 & Ho4 & Hh4).
  rewrite (bind_some _ _ _ _ _ E4). cbv beta iota.
  destruct (negb (res' =? _));
    [eapply (Hexit _ _ _ 0); [exact Ho4|congruence|reflexivity]|].
  destruct (_ >? _);
    [eapply (Hexit _ _ _ 0); [exact Ho4|congruence|reflexivity]|].
  unfold bind at 1. unfold TEE_GetSystemTime at 1.
  edestruct (read_loop_frame (Z.to_nat (dataSize info)) h id read_flags 0
               (dataSize info)
               (memref_buffer (prm1 params)) 0 (set_clock (tl (clock w4)) w4))
    as ([[r buf] tot] & w5 & pos & E5 & Ho5 & Hh5);
    [cbn; rewrite Hh4; exact Hh3'|exact Hn|reflexivity|lia|lia|].
  rewrite (bind_some _ _ _ _ _ E5). cbv beta iota.
  cbn [objects handles set_clock] in Ho5, Hh5.
  assert (Hh5' : handles w5 = <[h := mkOpen id (Z.lor TEE_DATA_FLAG_ACCESS_READ
                                           TEE_DATA_FLAG_SHARE_READ) pos]> (handles w2))
    by (rewrite Hh5, Hh4, Hh3; apply insert_insert_eq).
  destruct (negb (r =? _));
    [eapply (Hexit _ _ _ pos); [congruence|exact Hh5'|reflexivity]|].
  unfold bind at 1. unfold TEE_GetSystemTime at 1.
  eapply (Hexit _ _ _ pos); cbn; [congruence|exact Hh5'|reflexivity].
Qed.

End StorageMore.

(** ** The storage TA: single-shot write and the stream of chunks *)

Module StorageWrite.
Import Storage StorageTerms StorageSpec StorageMore.

Lemma TEE_CreatePersistentObject_calm id flags init w :
  hd NoFault (faults w) = NoFault ->
  conflicting id flags (handles w) = false ->
  has_flag flags TEE_DATA_FLAG_OVERWRITE = true ->
  TEE_CreatePersistentObject TEE_STORAGE_PRIVATE id flags init w
  = Some (TEE_SUCCESS, fresh_handle (handles w),
          set_handles (<[fresh_handle (handles w) := mkOpen id flags 0]> (handles w))
            (set_objects (<[id := init]> (objects w))
               (set_faults (tl (faults w)) w))).
Proof.
  intros Hf Hc Ho. unfold TEE_CreatePersistentObject, bind, next_fault, get, modify, ret.
  rewrite Hf. cbn [injected handles objects set_faults].
  rewrite (neqb_false _ _ eq_refl), Hc, Ho, andb_false_r. reflexivity.
Qed.

Lemma TEE_CreatePersistentObject_conflict id flags init w :
  hd NoFault (faults w) = NoFault ->
  conflicting id flags (handles w) = true ->
  TEE_CreatePersistentObject TEE_STORAGE_PRIVATE id flags init w
  = Some (TEE_ERROR_ACCESS_CONFLICT, TEE_HANDLE_NULL, set_faults (tl (faults w)) w).
Proof.
  intros Hf Hc. unfold TEE_CreatePersistentObject, bind, next_fault, get, modify, ret.
  rewrite Hf. cbn [injected handles objects set_faults].
  now rewrite (neqb_false _ _ eq_refl), Hc.
Qed.

Lemma TEE_OpenPersistentObject_conflict id flags data w :
  hd NoFault (faults w) = NoFault ->
  objects w !! id = Some data ->
  conflicting id flags (handles w) = true ->
  TEE_OpenPersistentObject TEE_STORAGE_PRIVATE id flags w
  = Some (TEE_ERROR_ACCESS_CONFLICT, TEE_HANDLE_NULL, set_faults (tl (faults w)) w).
Proof.
  intros Hf Hd Hc. unfold TEE_OpenPersistentObject, bind, next_fault, get, modify, ret.
  rewrite Hf. cbn [injected handles objects set_faults].
  now rewrite (neqb_false _ _ eq_refl), Hd, Hc.
Qed.

Lemma TEE_WriteObjectData_injected h data w oo e :
  handles w !! h = Some oo -> h <> TEE_HANDLE_NULL ->
  has_flag (oo_flags oo) TEE_DATA_FLAG_ACCESS_WRITE = true ->
  hd NoFault (faults w) = Fail e -> e <> TEE_SUCCESS ->
  TEE_WriteObjectData h data w = Some (e, set_faults (tl (faults w)) w).
Proof.
  intros Hh Hn Hfl Hf He. unfold TEE_WriteObjectData.
  apply N.eqb_neq in Hn. rewrite Hn.
  unfold bind at 1. unfold get at 1. rewrite Hh, Hfl. cbn [negb].
  unfold bind, next_fault, ret. rewrite Hf. cbn [injected].
  apply Z.eqb_neq in He. now rewrite He.
Qed.

Lemma write_at_end data old :
  write_at (Z.of_nat (length old)) data old = old ++ data.
Proof.
  unfold write_at. rewrite Nat2Z.id, resize_all.
  rewrite drop_ge by lia. now rewrite app_nil_r.
Qed.

Lemma write_at_nil data : write_at 0 data [] = data.
Proof. unfold write_at. cbn. now rewrite drop_nil, app_nil_r. Qed.

Lemma create_raw_object_ok params w id data :
  id = TEE_MemMove (memref_buffer (prm0 params)) (memref_size (prm0 params)) ->
  data = TEE_MemMove (memref_buffer (prm1 params)) (memref_size (prm1 params)) ->
  memref_size (prm1 params) <= CHUNK_SIZE ->
  conflicting id create_flags (handles w) = false ->
  faults w = [] ->
  create_raw_object write_param_types params w
  = Some (TEE_SUCCESS, set_objects (<[id := data]> (objects w)) w).
Proof.
  intros Hid Hdata Hsz Hc Hf.
  destruct (fresh_handle_spec (handles w)) as [Hnn Hfresh].
  set (h := fresh_handle (handles w)) in *.
  unfold create_raw_object. rewrite (neqb_false _ _ eq_refl).
  rewrite (bind_some _ _ _ _ _ (TEE_Malloc_nil _ w Hf)). cbn [negb].
  rewrite (gtb_false _ _ Hsz).
  rewrite (bind_some _ _ _ _ _ (TEE_Malloc_nil _ w Hf)). cbn [negb].
  rewrite <- Hid, <- Hdata. fold create_flags.
  rewrite (bind_some _ _ _ _ _ (TEE_CreatePersistentObject_ok _ _ [] w Hf Hc eq_refl)).
  cbv beta iota. rewrite (neqb_false _ _ eq_refl). fold h.
  erewrite bind_some; cycle 1.
  { eapply (TEE_WriteObjectData_ok h data _ (mkOpen id create_flags 0) []);
      cbn; auto.
    - apply lookup_insert_eq.
    - apply lookup_insert_eq.
    - pose proof (TEE_MemMove_length (memref_buffer (prm1 params))
                    (memref_size (prm1 params))) as Hl. rewrite <- Hdata in Hl.
      unfold CHUNK_SIZE, TEE_DATA_MAX_POSITION in *. lia. }
  rewrite (neqb_false _ _ eq_refl).
  erewrite bind_some; cycle 1.
  { eapply TEE_CloseObject_ok; [cbn; apply lookup_insert_eq|exact Hnn]. }
  unfold bind, TEE_Free, ret. do 2 f_equal.
  destruct w as [o hs f c]; unfold set_handles, set_objects; cbn in *.
  f_equal.
  - rewrite insert_insert_eq. now rewrite write_at_nil.
  - rewrite insert_insert_eq, delete_insert_eq. now apply delete_id.
Qed.

(** X4.  The single-shot WRITE command.  In a reliable environment, with at
    most [CHUNK_SIZE] bytes of data and an identifier no handle is open on,
    it returns [TEE_SUCCESS] and leaves the data as the object's whole content
    (replacing any previous content), every other object and the handle table
    being as before; a READ with a buffer of at least that size then returns
    exactly these bytes.  With more than [CHUNK_SIZE] bytes of data the
    command returns [TEE_ERROR_OUT_OF_MEMORY], whatever the environment does,
    and stores nothing. *)
Theorem single_shot_write_then_read params w id data :
  id = TEE_MemMove (memref_buffer (prm0 params)) (memref_size (prm0 params)) ->
  data = TEE_MemMove (memref_buffer (prm1 params)) (memref_size (prm1 params)) ->
  memref_size (prm1 params) <= CHUNK_SIZE ->
  conflicting id create_flags (handles w) = false ->
  faults w = [] ->
  let w' := set_objects (<[id := data]> (objects w)) w in
  create_raw_object write_param_types params w = Some (TEE_SUCCESS, w')
  /\ (forall buf,
        (length data <= length buf)%nat ->
        read_raw_object read_param_types (read_command id buf) w'
        = Some (TEE_SUCCESS,
                set_prm1 (set_memref (data ++ drop (length data) buf)
                            (Z.of_nat (length data)) (memref_param buf))
                  (read_command id buf),
                set_clock (tl (tl (clock w'))) w'))
  /\ (forall big w0,
        CHUNK_SIZE < memref_size (prm1 big) ->
        exists w1,
          create_raw_object write_param_types big w0
          = Some (TEE_ERROR_OUT_OF_MEMORY, w1)
          /\ objects w1 = objects w0 /\ handles w1 = handles w0).
Proof.
  intros Hid Hdata Hsz Hc Hf w'. split; [|split].
  - now apply create_raw_object_ok.
  - intros buf Hlen.
    apply (read_whole_object (read_command id buf) w' id data); cbn; auto.
    + now rewrite TEE_MemMove_all.
    + apply lookup_insert_eq.
    + now apply (conflicting_meta id create_flags).
    + lia.
  - intros big w0 Hbig. unfold create_raw_object. rewrite (neqb_false _ _ eq_refl).
    destruct (TEE_Malloc_total (memref_size (prm0 big)) w0) as (b1 & w1 & E1 & Ho1 & Hh1).
    rewrite (bind_some _ _ _ _ _ E1). destruct b1; cbn [negb].
    + rewrite (gtb_true _ _ Hbig). eexists. split; [reflexivity|]. auto.
    + eexists. split; [reflexivity|]. auto.
Qed.

Lemma single_shot_write_then_read_witness :
  create_raw_object write_param_types (write_command obj2 [xb1; xb2]) stored_world
  = Some (TEE_SUCCESS,
          set_objects (<[obj2 := [xb1; xb2]]> (objects stored_world)) stored_world).
Proof.
  apply (single_shot_write_then_read (write_command obj2 [xb1; xb2]) stored_world
           obj2 [xb1; xb2]);
    [reflexivity | reflexivity | vm_compute; discriminate | reflexivity
    | reflexivity].
Defined.

(** X5.  When the append of a single-shot WRITE fails (the two allocations
    and the creation of the object having succeeded), the command returns the
    error of the append and the object is gone from the store: the content an
    object of that identifier had before the command is not kept.  No handle
    is left behind. *)
Theorem failed_single_shot_write_deletes params w id e rest :
  id = TEE_MemMove (memref_buffer (prm0 params)) (memref_size (prm0 params)) ->
  memref_size (prm1 params) <= CHUNK_SIZE ->
  conflicting id create_flags (handles w) = false ->
  faults w = [NoFault; NoFault; NoFault; Fail e] ++ rest ->
  e <> TEE_SUCCESS ->
  exists w',
    create_raw_object write_param_types params w = Some (e, w')
    /\ objects w' = delete id (objects w)
    /\ objects w' !! id = None
    /\ handles w' = handles w.
Proof.
  intros Hid Hsz Hc Hf He.
  destruct (fresh_handle_spec (handles w)) as [Hnn Hfresh].
  set (h := fresh_handle (handles w)) in *.
  unfold create_raw_object. rewrite (neqb_false _ _ eq_refl).
  rewrite (bind_some _ _ _ _ _ (TEE_Malloc_calm _ w ltac:(now rewrite Hf))).
  cbn [negb]. rewrite (gtb_false _ _ Hsz).
  erewrite bind_some; cycle 1.
  { apply TEE_Malloc_calm. cbn. now rewrite Hf. }
  cbn [negb]. rewrite <- Hid. fold create_flags.
  erewrite bind_some; cycle 1.
  { apply TEE_CreatePersistentObject_calm; cbn; [now rewrite Hf|exact Hc|reflexivity]. }
  cbv beta iota. rewrite (neqb_false _ _ eq_refl).
  cbn [handles faults set_faults tl objects]. fold h.
  erewrite bind_some; cycle 1.
  { eapply (TEE_WriteObjectData_injected h _ _ (mkOpen id create_flags 0) e); cbn.
    - apply lookup_insert_eq.
    - exact Hnn.
    - reflexivity.
    - now rewrite Hf.
    - exact He. }
  rewrite (neqb_true _ _ He).
  erewrite bind_some; cycle 1.
  { erewrite bind_some; cycle 1.
    { eapply (TEE_CloseAndDelete_ok h (mkOpen id create_flags 0)); cbn;
        [apply lookup_insert_eq|exact Hnn|reflexivity]. }
    reflexivity. }
  unfold bind, TEE_Free, ret. eexists. split; [reflexivity|]. cbn.
  rewrite delete_insert_eq, delete_insert_eq, lookup_delete_eq.
  repeat split. now apply delete_id.
Qed.

Lemma failed_single_shot_write_deletes_witness :
  exists w',
    create_raw_object write_param_types (write_command obj1 [xb1]) failing_world
    = Some (TEE_ERROR_STORAGE_NO_SPACE, w')
    /\ objects w' = delete obj1 (objects failing_world)
    /\ objects w' !! obj1 = None
    /\ handles w' = handles failing_world.
Proof.
  apply (failed_single_shot_write_deletes (write_command obj1 [xb1]) failing_world
           obj1 TEE_ERROR_STORAGE_NO_SPACE []);
    [reflexivity | vm_compute; discriminate | reflexivity | reflexivity
    | discriminate].
Defined.

(** *** The stream of chunks *)

Lemma write_raw_chunk_first_ok params sess w :
  let id := TEE_MemMove (memref_buffer (prm0 params)) (memref_size (prm0 params)) in
  let data := TEE_MemMove (memref_buffer (prm1 params)) (memref_size (prm1 params)) in
  let h := fresh_handle (handles w) in
  memref_size (prm1 params) <= CHUNK_SIZE ->
  value_a (prm2 params) <> 0 ->
  faults w = [] ->
  conflicting id write_chunk_flags (handles w) = false ->
  write_raw_chunk write_chunk_param_types params sess w
  = Some (TEE_SUCCESS, mkSess h true,
          set_handles
            (<[h := mkOpen id write_chunk_flags (Z.of_nat (length data))]>
               (handles w))
            (set_objects (<[id := data]> (objects w)) w)).
Proof.
  intros id data h Hsz Hfirst Hf Hc.
  destruct (fresh_handle_spec (handles w)) as [Hnn Hfresh]. fold h in Hnn, Hfresh.
  unfold write_raw_chunk. rewrite (neqb_false _ _ eq_refl), (gtb_false _ _ Hsz).
  rewrite (bind_some _ _ _ _ _ (TEE_Malloc_nil _ w Hf)). cbn [negb].
  rewrite (bind_some _ _ _ _ _ (TEE_Malloc_nil _ w Hf)). cbn [negb].
  rewrite (neqb_true _ _ Hfirst). fold id data.
  rewrite (bind_some _ _ _ _ _ (TEE_CreatePersistentObject_ok _ _ [] w Hf Hc eq_refl)).
  rewrite (neqb_false _ _ eq_refl). fold h.
  unfold write_the_chunk. cbn [object set_object set_in_progress].
  erewrite bind_some; cycle 1.
  { eapply (TEE_WriteObjectData_ok h data _ (mkOpen id write_chunk_flags 0) []);
      cbn; auto.
    - apply lookup_insert_eq.
    - apply lookup_insert_eq.
    - pose proof (TEE_MemMove_length (memref_buffer (prm1 params))
                    (memref_size (prm1 params))) as Hl. fold data in Hl.
      unfold CHUNK_SIZE, TEE_DATA_MAX_POSITION in *. lia. }
  rewrite (neqb_false _ _ eq_refl). unfold bind, TEE_Free, ret.
  do 2 f_equal. destruct w; unfold set_handles, set_objects; cbn.
  f_equal.
  - rewrite insert_insert_eq. now rewrite write_at_nil.
  - now rewrite insert_insert_eq.
Qed.

Lemma write_raw_chunk_append_ok params sess w id flags old :
  let data := TEE_MemMove (memref_buffer (prm1 params)) (memref_size (prm1 params)) in
  memref_size (prm1 params) <= CHUNK_SIZE ->
  value_a (prm2 params) = 0 ->
  in_progress sess = true ->
  object sess <> TEE_HANDLE_NULL ->
  handles w !! object sess = Some (mkOpen id flags (Z.of_nat (length old))) ->
  has_flag flags TEE_DATA_FLAG_ACCESS_WRITE = true ->
  objects w !! id = Some old ->
  Z.of_nat (length old) + Z.of_nat (length data) <= TEE_DATA_MAX_POSITION ->
  faults w = [] ->
  write_raw_chunk write_chunk_param_types params sess w
  = Some (TEE_SUCCESS, sess,
          set_handles
            (<[object sess :=
                 mkOpen id flags (Z.of_nat (length old) + Z.of_nat (length data))]>
               (handles w))
            (set_objects (<[id := old ++ data]> (objects w)) w)).
Proof.
  intros data Hsz Hfirst Hip Hnn Hh Hfl Hold Hmax Hf.
  unfold write_raw_chunk. rewrite (neqb_false _ _ eq_refl), (gtb_false _ _ Hsz).
  rewrite (bind_some _ _ _ _ _ (TEE_Malloc_nil _ w Hf)). cbn [negb].
  rewrite (bind_some _ _ _ _ _ (TEE_Malloc_nil _ w Hf)). cbn [negb].
  rewrite (neqb_false _ _ Hfirst), Hip. cbn [negb]. fold data.
  unfold write_the_chunk.
  rewrite (bind_some _ _ _ _ _
             (TEE_WriteObjectData_ok _ data w _ old Hf Hh Hnn Hfl Hold Hmax)).
  rewrite (neqb_false _ _ eq_refl). unfold bind, TEE_Free, ret.
  cbn [oo_id oo_flags oo_pos]. now rewrite write_at_end.
Qed.

(** X6.  In a reliable environment a WRITE_CHUNK command with [is_first = 0]
    on a session whose write is in progress appends the chunk's bytes to the
    object the session's handle is open on and advances the handle's position
    by their number; session, other objects and other handles are as before.
    The identifier the command carries is not looked at: the bytes go to the
    session's object whatever it names. *)
Theorem continuation_appends params sess w id flags old :
  let data := TEE_MemMove (memref_buffer (prm1 params)) (memref_size (prm1 params)) in
  memref_size (prm1 params) <= CHUNK_SIZE ->
  value_a (prm2 params) = 0 ->
  in_progress sess = true ->
  object sess <> TEE_HANDLE_NULL ->
  handles w !! object sess = Some (mkOpen id flags (Z.of_nat (length old))) ->
  has_flag flags TEE_DATA_FLAG_ACCESS_WRITE = true ->
  objects w !! id = Some old ->
  Z.of_nat (length old) + Z.of_nat (length data) <= TEE_DATA_MAX_POSITION ->
  faults w = [] ->
  write_raw_chunk write_chunk_param_types params sess w
  = Some (TEE_SUCCESS, sess,
          set_handles
            (<[object sess :=
                 mkOpen id flags (Z.of_nat (length old) + Z.of_nat (length data))]>
               (handles w))
            (set_objects (<[id := old ++ data]> (objects w)) w)).
Proof. exact (write_raw_chunk_append_ok params sess w id flags old). Qed.

Lemma continuation_appends_witness :
  write_raw_chunk write_chunk_param_types (chunk_command obj2 [xa3] 0)
    writing_session writing_world
  = Some (TEE_SUCCESS, writing_session,
          set_handles
            (<[1%N := mkOpen obj1 write_chunk_flags (Z.of_nat 2 + Z.of_nat 1)]>
               (handles writing_world))
            (set_objects (<[obj1 := [xa1; xa1] ++ [xa3]]> (objects writing_world))
               writing_world)).
Proof.
  apply (continuation_appends (chunk_command obj2 [xa3] 0) writing_session
           writing_world obj1 write_chunk_flags [xa1; xa1]);
    [vm_compute; discriminate | reflexivity | reflexivity | discriminate
    | reflexivity | reflexivity | reflexivity | vm_compute; discriminate
    | reflexivity].
Defined.

(** X7.  [TA_CloseSessionEntryPoint] on a session whose write is in progress
    closes the session's handle and nothing else: the object keeps the bytes
    appended so far (there is no roll-back as after a failed append), and a
    READ of it afterwards returns exactly these bytes. *)
Theorem close_session_keeps_partial_object sess w id flags pos partial :
  in_progress sess = true ->
  object sess <> TEE_HANDLE_NULL ->
  handles w !! object sess = Some (mkOpen id flags pos) ->
  objects w !! id = Some partial ->
  conflicting id read_flags (delete (object sess) (handles w)) = false ->
  faults w = [] ->
  let w' := set_handles (delete (object sess) (handles w)) w in
  TA_CloseSessionEntryPoint (Some sess) w = Some (tt, w')
  /\ objects w' = objects w
  /\ forall buf,
       (length partial <= length buf)%nat ->
       read_raw_object read_param_types (read_command id buf) w'
       = Some (TEE_SUCCESS,
               set_prm1 (set_memref (partial ++ drop (length partial) buf)
                           (Z.of_nat (length partial)) (memref_param buf))
                 (read_command id buf),
               set_clock (tl (tl (clock w'))) w').
Proof.
  intros Hip Hnn Hh Hd Hc Hf w'. split; [|split].
  - unfold TA_CloseSessionEntryPoint. rewrite Hip.
    rewrite (bind_some _ _ _ _ _ (TEE_CloseObject_ok _ _ _ Hh Hnn)). reflexivity.
  - reflexivity.
  - intros buf Hlen.
    apply (read_whole_object (read_command id buf) w' id partial); cbn; auto.
    + now rewrite TEE_MemMove_all.
    + lia.
Qed.

Lemma close_session_keeps_partial_object_witness :
  TA_CloseSessionEntryPoint (Some writing_session) writing_world
  = Some (tt, set_handles (delete 1%N (handles writing_world)) writing_world)
  /\ read_raw_object read_param_types (read_command obj1 [x00; x00])
       (set_handles (delete 1%N (handles writing_world)) writing_world)
     = Some (TEE_SUCCESS,
             set_prm1 (set_memref ([xa1; xa1] ++ drop 2 [x00; x00]) 2
                         (memref_param [x00; x00]))
               (read_command obj1 [x00; x00]),
             set_clock (tl (tl (clock writing_world)))
               (set_handles (delete 1%N (handles writing_world)) writing_world)).
Proof.
  destruct (close_session_keeps_partial_object writing_session writing_world obj1
              write_chunk_flags 2 [xa1; xa1])
    as (H1 & _ & H3);
    [reflexivity | discriminate | reflexivity | reflexivity | reflexivity
    | reflexivity |].
  split; [exact H1|]. apply (H3 [x00; x00]). cbn. lia.
Defined.

(** X8.  While a chunked write is in progress on an object, the handle of the
    session locks it: in a reliable environment a READ, a DELETE and a
    single-shot WRITE of that identifier all return
    [TEE_ERROR_ACCESS_CONFLICT] and change nothing. *)
Theorem write_in_progress_locks_object sess w id pos data :
  handles w !! object sess = Some (mkOpen id write_chunk_flags pos) ->
  objects w !! id = Some data ->
  faults w = [] ->
  (forall buf,
     read_raw_object read_param_types (read_command id buf) w
     = Some (TEE_ERROR_ACCESS_CONFLICT, read_command id buf, w))
  /\ delete_object delete_param_types (delete_command id) w
     = Some (TEE_ERROR_ACCESS_CONFLICT, w)
  /\ (forall new,
        Z.of_nat (length new) <= CHUNK_SIZE ->
        create_raw_object write_param_types (write_command id new) w
        = Some (TEE_ERROR_ACCESS_CONFLICT, w)).
Proof.
  intros Hh Hd Hf.
  assert (Hc : forall flags, conflicting id flags (handles w) = true).
  { intros flags. apply (conflicting_true id flags _ _ _ Hh eq_refl).
    now apply access_conflict_meta_l. }
  split; [|split].
  - intros buf. unfold read_raw_object. rewrite (neqb_false _ _ eq_refl).
    rewrite (bind_some _ _ _ _ _ (TEE_Malloc_nil _ w Hf)). cbn [negb].
    rewrite (bind_some _ _ _ _ _ (TEE_Malloc_nil _ w Hf)). cbn [negb].
    cbn [read_command prm0 memref_param memref_buffer memref_size].
    rewrite TEE_MemMove_all.
    rewrite (bind_some _ _ _ _ _
               (TEE_OpenPersistentObject_conflict _ _ _ w (hd_nil_calm w Hf) Hd (Hc _))).
    cbv beta iota. rewrite Hf. cbn [tl]. rewrite <- Hf, set_faults_id. reflexivity.
  - unfold delete_object. rewrite (neqb_false _ _ eq_refl).
    rewrite (bind_some _ _ _ _ _ (TEE_Malloc_nil _ w Hf)). cbn [negb].
    cbn [delete_command prm0 memref_param memref_buffer memref_size].
    rewrite TEE_MemMove_all.
    rewrite (bind_some _ _ _ _ _
               (TEE_OpenPersistentObject_conflict _ _ _ w (hd_nil_calm w Hf) Hd (Hc _))).
    cbv beta iota. rewrite Hf. cbn [tl]. rewrite <- Hf, set_faults_id. reflexivity.
  - intros new Hnew. unfold create_raw_object. rewrite (neqb_false _ _ eq_refl).
    rewrite (bind_some _ _ _ _ _ (TEE_Malloc_nil _ w Hf)). cbn [negb].
    cbn [write_command prm0 prm1 memref_param memref_buffer memref_size].
    rewrite (gtb_false _ _ Hnew).
    rewrite (bind_some _ _ _ _ _ (TEE_Malloc_nil _ w Hf)). cbn [negb].
    rewrite !TEE_MemMove_all.
    rewrite (bind_some _ _ _ _ _
               (TEE_CreatePersistentObject_conflict _ _ _ w (hd_nil_calm w Hf) (Hc _))).
    cbv beta iota. rewrite Hf. cbn [tl]. rewrite <- Hf, set_faults_id. reflexivity.
Qed.

Lemma write_in_progress_locks_object_witness :
  delete_object delete_param_types (delete_command obj1) writing_world
  = Some (TEE_ERROR_ACCESS_CONFLICT, writing_world).
Proof.
  apply (write_in_progress_locks_object writing_session writing_world obj1 2
           [xa1; xa1]);
    [reflexivity | reflexivity | reflexivity].
Defined.

(** X9.  A WRITE_CHUNK command with [is_first <> 0] that names the object the
    session is already writing is refused with [TEE_ERROR_ACCESS_CONFLICT]
    (the session's own handle holds the object), and it leaves the session
    with the null handle while [in_progress] stays true.  From then on a
    WRITE_CHUNK with [is_first = 0] makes the TA panic, WRITE_FINAL reports
    [TEE_SUCCESS] without closing anything, and the handle of the interrupted
    write stays open. *)
Theorem restart_on_same_object_breaks_session params sess w id pos :
  id = TEE_MemMove (memref_buffer (prm0 params)) (memref_size (prm0 params)) ->
  memref_size (prm1 params) <= CHUNK_SIZE ->
  value_a (prm2 params) <> 0 ->
  in_progress sess = true ->
  handles w !! object sess = Some (mkOpen id write_chunk_flags pos) ->
  faults w = [] ->
  write_raw_chunk write_chunk_param_types params sess w
  = Some (TEE_ERROR_ACCESS_CONFLICT, broken_session, w)
  /\ (forall next,
        memref_size (prm1 next) <= CHUNK_SIZE -> value_a (prm2 next) = 0 ->
        write_raw_chunk write_chunk_param_types next broken_session w = None)
  /\ write_raw_final broken_session w
     = Some (TEE_SUCCESS, set_in_progress false broken_session, w)
  /\ TA_CloseSessionEntryPoint (Some broken_session) w = Some (tt, w).
Proof.
  intros Hid Hsz Hfirst Hip Hh Hf.
  assert (Hc : conflicting id write_chunk_flags (handles w) = true).
  { apply (conflicting_true id _ _ _ _ Hh eq_refl). now apply access_conflict_meta. }
  split; [|split; [|split]].
  - unfold write_raw_chunk. rewrite (neqb_false _ _ eq_refl), (gtb_false _ _ Hsz).
    rewrite (bind_some _ _ _ _ _ (TEE_Malloc_nil _ w Hf)). cbn [negb].
    rewrite (bind_some _ _ _ _ _ (TEE_Malloc_nil _ w Hf)). cbn [negb].
    rewrite (neqb_true _ _ Hfirst), <- Hid.
    rewrite (bind_some _ _ _ _ _
               (TEE_CreatePersistentObject_conflict _ _ _ w (hd_nil_calm w Hf) Hc)).
    cbv beta iota. rewrite Hf. cbn [tl]. rewrite <- Hf, set_faults_id.
    unfold set_object, broken_session. now rewrite Hip.
  - intros next Hsz' Hfirst'.
    unfold write_raw_chunk. rewrite (neqb_false _ _ eq_refl), (gtb_false _ _ Hsz').
    rewrite (bind_some _ _ _ _ _ (TEE_Malloc_nil _ w Hf)). cbn [negb].
    rewrite (bind_some _ _ _ _ _ (TEE_Malloc_nil _ w Hf)). cbn [negb].
    rewrite (neqb_false _ _ Hfirst'). reflexivity.
  - reflexivity.
  - reflexivity.
Qed.

Lemma restart_on_same_object_breaks_session_witness :
  write_raw_chunk write_chunk_param_types (chunk_command obj1 [xb1] 1)
    writing_session writing_world
  = Some (TEE_ERROR_ACCESS_CONFLICT, broken_session, writing_world)
  /\ write_raw_chunk write_chunk_param_types (chunk_command obj1 [xb2] 0)
       broken_session writing_world = None.
Proof.
  destruct (restart_on_same_object_breaks_session (chunk_command obj1 [xb1] 1)
              writing_session writing_world obj1 2)
    as (H1 & H2 & _);
    [reflexivity | vm_compute; discriminate | discriminate | reflexivity
    | reflexivity | reflexivity |].
  split; [exact H1|]. apply H2; [vm_compute; discriminate | reflexivity].
Defined.

End StorageWrite.

(** ** The client of the storage TA *)

Module StorageHostSpec.
Import Storage StorageTerms StorageSpec StorageMore StorageWrite Host StorageHost.

(** *** Files in a calm normal world *)

Section PosixCalm.
Context {W S : Type}.
Implicit Types hw : host_world W S.

Lemma calm_id hw :
  hfaults hw = [] ->
  mkHost (tee hw) (session hw) (files hw) (tl (hfaults hw)) = hw.
Proof. destruct hw; cbn; now intros ->. Qed.

Lemma next_hfault_calm hw :
  hfaults hw = [] -> next_hfault hw = Some (NoFault, hw).
Proof. intros H. unfold next_hfault. now rewrite (calm_id hw H), H. Qed.

Lemma malloc_calm n hw : hfaults hw = [] -> malloc n hw = Some (true, hw).
Proof.
  intros H. unfold malloc. now rewrite (bind_some _ _ _ _ _ (next_hfault_calm hw H)).
Qed.

Lemma stat_calm path content hw :
  hfaults hw = [] -> files hw !! path = Some content ->
  stat path hw = Some ((0, Z.of_nat (length content)), hw).
Proof.
  intros H Hp. unfold stat.
  rewrite (bind_some _ _ _ _ _ (next_hfault_calm hw H)). cbn [injected].
  unfold bind, get, ret. now rewrite Hp.
Qed.

Lemma open_rdonly_calm path content hw :
  hfaults hw = [] -> files hw !! path = Some content ->
  open_rdonly path hw = Some (Some (mkFd path 0), hw).
Proof.
  intros H Hp. unfold open_rdonly.
  rewrite (bind_some _ _ _ _ _ (next_hfault_calm hw H)). cbn [injected].
  unfold bind, get, ret. now rewrite Hp.
Qed.

Lemma open_trunc_calm path hw :
  hfaults hw = [] ->
  open_trunc path hw
  = Some (Some (mkFd path 0), set_files (<[path := []]> (files hw)) hw).
Proof.
  intros H. unfold open_trunc.
  now rewrite (bind_some _ _ _ _ _ (next_hfault_calm hw H)).
Qed.

Lemma read_calm path off count content hw :
  hfaults hw = [] -> files hw !! path = Some content ->
  let got := take (Z.to_nat count) (drop (Z.to_nat off) content) in
  read (mkFd path off) count hw
  = Some ((Z.of_nat (length got), got, mkFd path (off + Z.of_nat (length got))), hw).
Proof.
  intros H Hp got. unfold read.
  rewrite (bind_some _ _ _ _ _ (next_hfault_calm hw H)). cbn [injected].
  unfold bind, get, ret. cbn [fd_path fd_off]. now rewrite Hp.
Qed.

(** Appending at the end of the file. *)
Lemma write_calm path buf count content hw :
  hfaults hw = [] -> files hw !! path = Some content ->
  let bytes := take (Z.to_nat count) buf in
  write (mkFd path (Z.of_nat (length content))) buf count hw
  = Some ((Z.of_nat (length bytes),
           mkFd path (Z.of_nat (length content) + Z.of_nat (length bytes))),
          set_files (<[path := content ++ bytes]> (files hw)) hw).
Proof.
  intros H Hp bytes. unfold write.
  rewrite (bind_some _ _ _ _ _ (next_hfault_calm hw H)). cbn [injected].
  unfold bind, get, modify, ret. cbn [fd_path fd_off]. rewrite Hp.
  rewrite Nat2Z.id, resize_all, drop_ge by lia. now rewrite app_nil_r.
Qed.

End PosixCalm.

(** *** Streaming a file into the store *)

Lemma invoke_chunk sess w fs hf pt params :
  TEEC_InvokeCommand TA_SECURE_STORAGE_CMD_WRITE_RAW_CHUNK pt params
    (mkHost w sess fs hf)
  = match write_raw_chunk pt params sess w with
    | Some (res, sess', w') => Some ((res, params), mkHost w' sess' fs hf)
    | None => None
    end.
Proof.
  unfold TEEC_InvokeCommand, TA_InvokeCommandEntryPoint. cbn [tee session files hfaults].
  unfold bind. destruct (write_raw_chunk pt params sess w) as [[[res s'] w']|]; reflexivity.
Qed.

Lemma invoke_final sess w fs hf pt params :
  TEEC_InvokeCommand TA_SECURE_STORAGE_CMD_WRITE_RAW_FINAL pt params
    (mkHost w sess fs hf)
  = match write_raw_final sess w with
    | Some (res, sess', w') => Some ((res, params), mkHost w' sess' fs hf)
    | None => None
    end.
Proof.
  unfold TEEC_InvokeCommand, TA_InvokeCommandEntryPoint. cbn [tee session files hfaults].
  unfold bind. destruct (write_raw_final sess w) as [[[res s'] w']|]; reflexivity.
Qed.

Lemma invoke_read sess w fs hf pt params :
  TEEC_InvokeCommand TA_SECURE_STORAGE_CMD_READ_RAW pt params
    (mkHost w sess fs hf)
  = match read_raw_object pt params w with
    | Some (res, params', w') => Some ((res, params'), mkHost w' sess fs hf)
    | None => None
    end.
Proof.
  unfold TEEC_InvokeCommand, TA_InvokeCommandEntryPoint. cbn [tee session files hfaults].
  unfold bind. destruct (read_raw_object pt params w) as [[[res p'] w']|]; reflexivity.
Qed.

Lemma invoke_delete sess w fs hf pt params :
  TEEC_InvokeCommand TA_SECURE_STORAGE_CMD_DELETE pt params
    (mkHost w sess fs hf)
  = match delete_object pt params w with
    | Some (res, w') => Some ((res, params), mkHost w' sess fs hf)
    | None => None
    end.
Proof.
  unfold TEEC_InvokeCommand, TA_InvokeCommandEntryPoint. cbn [tee session files hfaults].
  unfold bind. destruct (delete_object pt params w) as [[res w']|]; reflexivity.
Qed.

Lemma write_raw_final_ok sess w oo :
  in_progress sess = true -> object sess <> TEE_HANDLE_NULL ->
  handles w !! object sess = Some oo ->
  write_raw_final sess w
  = Some (TEE_SUCCESS, set_in_progress false sess,
          set_handles (delete (object sess) (handles w)) w).
Proof.
  intros Hip Hn Hh. unfold write_raw_final. rewrite Hip. cbn [negb].
  now rewrite (bind_some _ _ _ _ _ (TEE_CloseObject_ok _ _ _ Hh Hn)).
Qed.

Lemma chunk_types_eq :
  TEEC_PARAM_TYPES TEEC_MEMREF_TEMP_INPUT TEEC_MEMREF_TEMP_INPUT
                   TEEC_VALUE_INPUT TEEC_NONE = write_chunk_param_types.
Proof. reflexivity. Qed.

Lemma take_chunk_buffer (got buf : list byte) :
  TEE_MemMove (got ++ drop (length got) buf) (Z.of_nat (length got)) = got.
Proof. unfold TEE_MemMove. rewrite Nat2Z.id. now rewrite take_app_length. Qed.

Lemma take_length_take {A} n (l : list A) : take (length (take n l)) l = take n l.
Proof.
  rewrite length_take. destruct (Nat.le_gt_cases n (length l)).
  - now rewrite Nat.min_l.
  - rewrite Nat.min_r by lia. rewrite firstn_all. symmetry. apply take_ge. lia.
Qed.

Lemma world_insert_id (w : tee_world) h oo id data :
  handles w !! h = Some oo -> objects w !! id = Some data ->
  set_handles (<[h := oo]> (handles w)) (set_objects (<[id := data]> (objects w)) w)
  = w.
Proof.
  intros Hh Ho. destruct w as [o hs f c]; cbn in *.
  unfold set_handles, set_objects; cbn. f_equal; now apply insert_id.
Qed.

(** The loop after the first chunk: the object holds the first [off] bytes of
    the file, and the handle stands at their end. *)
Lemma stream_loop_rest fuel : forall off w h id buf total content path other fs,
  fs !! path = Some content ->
  0 <= off <= Z.of_nat (length content) ->
  (length content - Z.to_nat off < fuel)%nat ->
  length buf = Z.to_nat CHUNK_SIZE ->
  h <> TEE_HANDLE_NULL ->
  handles w !! h = Some (mkOpen id write_chunk_flags off) ->
  objects w !! id = Some (take (Z.to_nat off) content) ->
  Z.of_nat (length content) <= TEE_DATA_MAX_POSITION ->
  faults w = [] ->
  exists buf',
  stream_loop fuel other (mkFd path off) buf total 0 (mkHost w (mkSess h true) fs [])
  = Some ((None, 0, total + (Z.of_nat (length content) - off)),
          mkHost
            (set_handles
               (<[h := mkOpen id write_chunk_flags (Z.of_nat (length content))]>
                  (handles w))
               (set_objects (<[id := content]> (objects w)) w))
            (mkSess h true) fs [])
  /\ buf' = buf.
Proof.
  induction fuel as [|fuel IH];
    intros off w h id buf total content path other fs Hp Hoff Hfuel Hbuf Hn Hh Ho Hmax Hf;
    [lia|].
  exists buf. split; [|reflexivity].
  cbn [stream_loop].
  rewrite (bind_some _ _ _ _ _
             (read_calm path off CHUNK_SIZE content (mkHost w (mkSess h true) fs [])
                eq_refl Hp)).
  cbv beta iota zeta.
  set (got := take (Z.to_nat CHUNK_SIZE) (drop (Z.to_nat off) content)).
  destruct (decide (off = Z.of_nat (length content))) as [Hend|Hmore].
  - assert (Hgot : got = []).
    { unfold got. rewrite drop_ge by lia. apply take_nil. }
    rewrite Hgot. cbn [length]. rewrite Nat2Z.inj_0, (gtb_false 0 0) by lia.
    unfold ret. do 3 f_equal; [lia|].
    rewrite world_insert_id; auto; [now rewrite <- Hend|].
    rewrite Ho. f_equal. rewrite Hend, Nat2Z.id. apply firstn_all.
  - assert (Hlen : 0 < Z.of_nat (length got) <= CHUNK_SIZE).
    { unfold got. rewrite length_take, length_drop. unfold CHUNK_SIZE. lia. }
    assert (Hlen' : off + Z.of_nat (length got) <= Z.of_nat (length content)).
    { unfold got. rewrite length_take, length_drop. lia. }
    rewrite (gtb_true _ 0) by lia.
    unfold bind at 1. rewrite invoke_chunk, chunk_types_eq.
    assert (Htake : take (Z.to_nat off) content ++ got
                    = take (Z.to_nat (off + Z.of_nat (length got))) content).
    { rewrite Z2Nat.inj_add, Nat2Z.id by lia.
      rewrite <- take_take_drop. f_equal. unfold got.
      symmetry. apply take_length_take. }
    erewrite (write_raw_chunk_append_ok _ (mkSess h true) w id write_chunk_flags
                (take (Z.to_nat off) content));
      cbn [prm1 prm2 memref_size memref_buffer value_a in_progress object];
      rewrite ?take_chunk_buffer, ?length_take_le by lia;
      rewrite ?Z2Nat.id by lia; auto; try lia.
    cbv beta iota. rewrite (neqb_false _ _ eq_refl).
    rewrite Htake.
    edestruct (IH (off + Z.of_nat (length got))
                 (set_handles
                    (<[h := mkOpen id write_chunk_flags (off + Z.of_nat (length got))]>
                       (handles w))
                    (set_objects
                       (<[id := take (Z.to_nat (off + Z.of_nat (length got))) content]>
                          (objects w)) w))
                 h id (got ++ drop (length got) buf) (total + Z.of_nat (length got))
                 content path other fs) as (buf'' & Hrun & _); auto.
    + lia.
    + lia.
    + rewrite length_app, length_drop. unfold CHUNK_SIZE in *. lia.
    + cbn. apply lookup_insert_eq.
    + cbn. apply lookup_insert_eq.
    + rewrite Hrun. do 3 f_equal; [lia|].
      destruct w as [o hs f c]; unfold set_handles, set_objects; cbn.
      now rewrite !insert_insert_eq.
Qed.

Lemma stream_file obj_id filename content w sess fs :
  fs !! filename = Some content -> content <> [] ->
  faults w = [] ->
  conflicting obj_id write_chunk_flags (handles w) = false ->
  Z.of_nat (length content) <= TEE_DATA_MAX_POSITION ->
  write_file_to_secure_storage_streaming obj_id filename (mkHost w sess fs [])
  = Some (TEEC_SUCCESS,
          mkHost (set_objects (<[obj_id := content]> (objects w)) w)
                 (mkSess (fresh_handle (handles w)) false) fs []).
Proof.
  intros Hp Hne Hf Hc Hmax.
  destruct (fresh_handle_spec (handles w)) as [Hnn Hfresh].
  set (h := fresh_handle (handles w)) in *.
  unfold write_file_to_secure_storage_streaming.
  rewrite (bind_some _ _ _ _ _
             (stat_calm filename content (mkHost w sess fs []) eq_refl Hp)).
  cbv beta iota. rewrite (neqb_false _ _ eq_refl).
  rewrite (bind_some _ _ _ _ _
             (open_rdonly_calm filename content (mkHost w sess fs []) eq_refl Hp)).
  rewrite Nat2Z.id.
  set (buf := replicate (Z.to_nat CHUNK_SIZE) x00).
  assert (Hloop :
    stream_loop (S (length content)) obj_id (mkFd filename 0) buf 0 1
      (mkHost w sess fs [])
    = Some ((None, 0, Z.of_nat (length content)),
            mkHost
              (set_handles
                 (<[h := mkOpen obj_id write_chunk_flags (Z.of_nat (length content))]>
                    (handles w))
                 (set_objects (<[obj_id := content]> (objects w)) w))
              (mkSess h true) fs [])).
  { cbn [stream_loop].
    rewrite (bind_some _ _ _ _ _
               (read_calm filename 0 CHUNK_SIZE content (mkHost w sess fs [])
                  eq_refl Hp)).
    cbv beta iota zeta. change (Z.to_nat 0) with 0%nat. rewrite drop_0.
    set (got := take (Z.to_nat CHUNK_SIZE) content).
    assert (Hlen : 0 < Z.of_nat (length got) <= CHUNK_SIZE).
    { unfold got. rewrite length_take. unfold CHUNK_SIZE.
      destruct content; [congruence|]. cbn [length]. lia. }
    assert (Hlen' : Z.of_nat (length got) <= Z.of_nat (length content)).
    { unfold got. rewrite length_take. lia. }
    rewrite (gtb_true _ 0) by lia.
    unfold bind at 1. rewrite invoke_chunk, chunk_types_eq.
    rewrite write_raw_chunk_first_ok;
      cbn [prm0 prm1 prm2 memref_size memref_buffer value_a];
      rewrite ?take_chunk_buffer, ?TEE_MemMove_all; auto; try lia.
    cbv beta iota. rewrite (neqb_false _ _ eq_refl). fold h.
    rewrite !Z.add_0_l.
    edestruct (stream_loop_rest (length content) (Z.of_nat (length got))
                 (set_handles
                    (<[h := mkOpen obj_id write_chunk_flags (Z.of_nat (length got))]>
                       (handles w))
                    (set_objects (<[obj_id := got]> (objects w)) w))
                 h obj_id (got ++ drop (length got) buf) (Z.of_nat (length got))
                 content filename obj_id fs) as (buf' & Hrun & _); auto.
    - lia.
    - lia.
    - rewrite length_app, length_drop. unfold buf. rewrite length_replicate.
      unfold CHUNK_SIZE in *. lia.
    - cbn. apply lookup_insert_eq.
    - cbn. rewrite lookup_insert_eq. f_equal. unfold got.
      rewrite Nat2Z.id. symmetry. apply take_length_take.
    - rewrite Hrun. do 3 f_equal; [lia|].
      destruct w as [o hs f c]; unfold set_handles, set_objects; cbn.
      now rewrite !insert_insert_eq. }
  rewrite (bind_some _ _ _ _ _ Hloop). cbv beta iota.
  unfold close at 1. unfold bind at 1. unfold ret at 1.
  change (0 <? 0) with false. cbv iota.
  unfold bind at 1. rewrite invoke_final.
  erewrite write_raw_final_ok; [|reflexivity|exact Hnn|cbn; apply lookup_insert_eq].
  unfold ret. do 3 f_equal.
  destruct w as [o hs f c]; unfold set_handles, set_objects; cbn in *.
  f_equal. rewrite delete_insert_eq. now apply delete_id.
Qed.

(** X10.  In a calm world [write_file_to_secure_storage_streaming] on a file
    that is not empty, for an identifier no handle is open on, returns
    [TEEC_SUCCESS] and leaves the object with exactly the bytes of the file,
    however many chunks that takes; every other object and the handle table
    are as before, the session is idle again, and the files are untouched. *)
Theorem streaming_stores_file obj_id filename content hw :
  files hw !! filename = Some content ->
  content <> [] ->
  hfaults hw = [] ->
  faults (tee hw) = [] ->
  conflicting obj_id write_chunk_flags (handles (tee hw)) = false ->
  Z.of_nat (length content) <= TEE_DATA_MAX_POSITION ->
  write_file_to_secure_storage_streaming obj_id filename hw
  = Some (TEEC_SUCCESS,
          mkHost (set_objects (<[obj_id := content]> (objects (tee hw))) (tee hw))
                 (mkSess (fresh_handle (handles (tee hw))) false)
                 (files hw) (hfaults hw)).
Proof.
  destruct hw as [w sess fs hf]. cbn [tee session files hfaults].
  intros Hp Hne -> Hf Hc Hmax. now apply stream_file.
Qed.

Lemma streaming_stores_file_witness :
  write_file_to_secure_storage_streaming obj1 path_in (with_file [xa1; xa2; xa3])
  = Some (TEEC_SUCCESS,
          mkHost (set_objects (<[obj1 := [xa1; xa2; xa3]]> (objects empty_world))
                    empty_world)
                 (mkSess (fresh_handle (handles empty_world)) false)
                 (files (with_file [xa1; xa2; xa3])) []).
Proof.
  apply (streaming_stores_file obj1 path_in [xa1; xa2; xa3]
           (with_file [xa1; xa2; xa3]));
    [reflexivity | discriminate | reflexivity | reflexivity | reflexivity
    | vm_compute; discriminate].
Defined.

(** X11.  [write_file_to_secure_storage_streaming] on an empty file sends no
    chunk, so that its WRITE_FINAL finds no write in progress: on an idle
    session the function returns [TEE_ERROR_BAD_STATE] and nothing at all is
    changed; in particular no empty object is created, and an object of that
    identifier stored before keeps its content. *)
Theorem streaming_empty_file_fails obj_id filename hw :
  files hw !! filename = Some [] ->
  hfaults hw = [] ->
  in_progress (session hw) = false ->
  write_file_to_secure_storage_streaming obj_id filename hw
  = Some (TEE_ERROR_BAD_STATE, hw).
Proof.
  destruct hw as [w sess fs hf]. cbn [tee session files hfaults].
  intros Hp -> Hip.
  unfold write_file_to_secure_storage_streaming.
  rewrite (bind_some _ _ _ _ _
             (stat_calm filename [] (mkHost w sess fs []) eq_refl Hp)).
  cbv beta iota. rewrite (neqb_false _ _ eq_refl).
  rewrite (bind_some _ _ _ _ _
             (open_rdonly_calm filename [] (mkHost w sess fs []) eq_refl Hp)).
  cbn [length Z.of_nat Z.to_nat stream_loop].
  erewrite bind_some; cycle 1.
  { rewrite (bind_some _ _ _ _ _
               (read_calm filename 0 CHUNK_SIZE [] (mkHost w sess fs []) eq_refl Hp)).
    reflexivity. }
  cbv beta iota. rewrite drop_nil, take_nil. cbn [length]. rewrite Nat2Z.inj_0.
  unfold close at 1. unfold bind at 1. unfold ret at 1.
  change (0 <? 0) with false. cbv iota.
  unfold bind at 1. rewrite invoke_final.
  unfold write_raw_final. now rewrite Hip.
Qed.

Lemma streaming_empty_file_fails_witness :
  write_file_to_secure_storage_streaming obj1 path_in (with_file [])
  = Some (TEE_ERROR_BAD_STATE, with_file []).
Proof.
  apply (streaming_empty_file_fails obj1 path_in (with_file []));
    [reflexivity | reflexivity | reflexivity].
Defined.

Lemma read_types_eq :
  TEEC_PARAM_TYPES TEEC_MEMREF_TEMP_INPUT TEEC_MEMREF_TEMP_OUTPUT
                   TEEC_NONE TEEC_NONE = read_param_types.
Proof. reflexivity. Qed.

(** X12.  [read_and_verify_size] on a stored object that no conflicting
    handle is open on (no chunked write holds it open), in a calm world.  For
    an object of more than one byte it returns [TEEC_SUCCESS] when the expected
    size is the object's size and [TEEC_ERROR_GENERIC] when it is not,
    changing nothing.  For an object of at most one byte the one-byte query
    succeeds, and the function returns [TEEC_SUCCESS] whatever size was
    expected.  For an identifier that is not stored it returns
    [TEE_ERROR_ITEM_NOT_FOUND]. *)
Theorem verify_size_of_stored_object obj_id data expected_size hw :
  objects (tee hw) !! obj_id = Some data ->
  conflicting obj_id read_flags (handles (tee hw)) = false ->
  faults (tee hw) = [] ->
  (1 < Z.of_nat (length data) ->
   read_and_verify_size obj_id expected_size hw
   = Some (if expected_size =? Z.of_nat (length data)
           then TEEC_SUCCESS else TEEC_ERROR_GENERIC, hw))
  /\ (Z.of_nat (length data) <= 1 ->
      exists hw', read_and_verify_size obj_id expected_size hw
                  = Some (TEEC_SUCCESS, hw')
                  /\ objects (tee hw') = objects (tee hw)
                  /\ handles (tee hw') = handles (tee hw))
  /\ (forall other hw0,
        objects (tee hw0) !! other = None -> faults (tee hw0) = [] ->
        read_and_verify_size other expected_size hw0
        = Some (TEE_ERROR_ITEM_NOT_FOUND, hw0)).
Proof.
  destruct hw as [w sess fs hf]. cbn [tee session files hfaults].
  intros Hd Hc Hf. split; [|split].
  - intros Hbig. unfold read_and_verify_size.
    unfold bind at 1. rewrite invoke_read, read_types_eq.
    erewrite (read_undersized _ w obj_id data); cbn; auto;
      [|now rewrite TEE_MemMove_all].
    rewrite Z.eqb_sym. destruct (_ =? _); reflexivity.
  - intros Hsmall. unfold read_and_verify_size.
    unfold bind at 1. rewrite invoke_read, read_types_eq.
    erewrite (read_whole_object _ w obj_id data); cbn; auto;
      [|now rewrite TEE_MemMove_all].
    eexists. split; [reflexivity|]. cbn. auto.
  - intros other [w0 sess0 fs0 hf0]. cbn [tee session files hfaults].
    intros Ho Hf0. unfold read_and_verify_size.
    unfold bind at 1. rewrite invoke_read, read_types_eq.
    change (mkParam other (Z.of_nat (length other)) 0 0) with (memref_param other).
    now rewrite (read_raw_object_absent other _ _ _ w0 Ho Hf0).
Qed.

Lemma verify_size_of_stored_object_witness :
  read_and_verify_size obj1 7
    (mkHost stored_world idle_session ∅ [])
  = Some (TEEC_ERROR_GENERIC, mkHost stored_world idle_session ∅ []).
Proof.
  destruct (verify_size_of_stored_object obj1 [xa1; xa2; xa3] 7
              (mkHost stored_world idle_session ∅ []))
    as (H1 & _);
    [reflexivity | reflexivity | reflexivity |].
  apply H1. cbn. lia.
Defined.

(** *** A stored file, read back and deleted *)

Lemma conflicting_unopened id flags hs :
  conflicting id write_chunk_flags hs = false -> conflicting id flags hs = false.
Proof.
  intros Hc. unfold conflicting in *.
  destruct (existsb _ (map_to_list hs)) eqn:E in |- *; [|reflexivity].
  apply existsb_exists in E. destruct E as ([h oo] & Hin & Ht).
  apply andb_true_iff in Ht. destruct Ht as [Hid _].
  assert (existsb (fun e : N * open_object =>
                     bool_decide (oo_id (snd e) = id)
                     && access_conflict (oo_flags (snd e)) write_chunk_flags)
                  (map_to_list hs) = true) as Ht; [|congruence].
  apply existsb_exists. exists (h, oo). split; [exact Hin|].
  now rewrite Hid, access_conflict_write_chunk.
Qed.

Lemma read_full_stored obj_id data w sess fs :
  objects w !! obj_id = Some data ->
  conflicting obj_id read_flags (handles w) = false ->
  faults w = [] ->
  read_secure_object_full obj_id (Z.of_nat (length data)) (mkHost w sess fs [])
  = Some (TEEC_SUCCESS, mkHost (set_clock (tl (tl (clock w))) w) sess fs []).
Proof.
  intros Hd Hc Hf. unfold read_secure_object_full.
  rewrite (bind_some _ _ _ _ _ (malloc_calm _ (mkHost w sess fs []) eq_refl)).
  cbn [negb]. unfold bind at 1. rewrite invoke_read, read_types_eq.
  erewrite (read_whole_object _ w obj_id data); cbn [prm0 prm1 memref_buffer memref_size];
    [reflexivity|now rewrite TEE_MemMove_all|exact Hd|exact Hc|lia
    |rewrite length_replicate; lia|exact Hf].
Qed.

Lemma read_full_absent obj_id n w sess fs :
  objects w !! obj_id = None -> faults w = [] ->
  read_secure_object_full obj_id n (mkHost w sess fs [])
  = Some (TEE_ERROR_ITEM_NOT_FOUND, mkHost w sess fs []).
Proof.
  intros Ho Hf. unfold read_secure_object_full.
  rewrite (bind_some _ _ _ _ _ (malloc_calm _ (mkHost w sess fs []) eq_refl)).
  cbn [negb]. unfold bind at 1. rewrite invoke_read, read_types_eq.
  change (mkParam obj_id (Z.of_nat (length obj_id)) 0 0) with (memref_param obj_id).
  now rewrite (read_raw_object_absent obj_id _ _ _ w Ho Hf).
Qed.

(** X13.  A file streamed into the store can be read back and deleted.  After
    [write_file_to_secure_storage_streaming] has stored a file,
    [read_secure_object_full] with the file's size succeeds and leaves the
    object as it is; [delete_secure_object] then succeeds and removes it, and
    a further [read_secure_object_full] reports
    [TEE_ERROR_ITEM_NOT_FOUND]. *)
Theorem stored_file_read_back_and_deleted obj_id filename content hw :
  files hw !! filename = Some content ->
  content <> [] ->
  hfaults hw = [] ->
  faults (tee hw) = [] ->
  conflicting obj_id write_chunk_flags (handles (tee hw)) = false ->
  Z.of_nat (length content) <= TEE_DATA_MAX_POSITION ->
  exists hw1 hw2 hw3,
    write_file_to_secure_storage_streaming obj_id filename hw
    = Some (TEEC_SUCCESS, hw1)
    /\ read_secure_object_full obj_id (Z.of_nat (length content)) hw1
       = Some (TEEC_SUCCESS, hw2)
    /\ objects (tee hw2) !! obj_id = Some content
    /\ delete_secure_object obj_id hw2 = Some (TEEC_SUCCESS, hw3)
    /\ objects (tee hw3) = delete obj_id (objects (tee hw))
    /\ read_secure_object_full obj_id (Z.of_nat (length content)) hw3
       = Some (TEE_ERROR_ITEM_NOT_FOUND, hw3).
Proof.
  destruct hw as [w sess fs hf]. cbn [tee session files hfaults].
  intros Hp Hne -> Hf Hc Hmax.
  eexists _, _, _.
  split; [exact (stream_file obj_id filename content w sess fs Hp Hne Hf Hc Hmax)|].
  split.
  { apply read_full_stored; cbn [objects handles faults set_objects];
      [apply lookup_insert_eq|now apply conflicting_unopened|exact Hf]. }
  split; [cbn; apply lookup_insert_eq|].
  split.
  { unfold delete_secure_object. unfold bind at 1.
    rewrite invoke_delete.
    erewrite (delete_object_present _ _ obj_id content);
      cbn [prm0 memref_buffer memref_size objects handles faults set_objects
           set_clock];
      [reflexivity|now rewrite TEE_MemMove_all|apply lookup_insert_eq
      |now apply conflicting_unopened|exact Hf]. }
  split; [cbn; now rewrite delete_insert_eq|].
  apply read_full_absent; [|exact Hf].
  cbn. now rewrite delete_insert_eq, lookup_delete_eq.
Qed.

Lemma stored_file_read_back_and_deleted_witness :
  exists hw1 hw2 hw3,
    write_file_to_secure_storage_streaming obj1 path_in (with_file [xa1; xa2; xa3])
    = Some (TEEC_SUCCESS, hw1)
    /\ read_secure_object_full obj1 (Z.of_nat (length [xa1; xa2; xa3])) hw1
       = Some (TEEC_SUCCESS, hw2)
    /\ objects (tee hw2) !! obj1 = Some [xa1; xa2; xa3]
    /\ delete_secure_object obj1 hw2 = Some (TEEC_SUCCESS, hw3)
    /\ objects (tee hw3) = delete obj1 (objects (tee (with_file [xa1; xa2; xa3])))
    /\ read_secure_object_full obj1 (Z.of_nat (length [xa1; xa2; xa3])) hw3
       = Some (TEE_ERROR_ITEM_NOT_FOUND, hw3).
Proof.
  apply (stored_file_read_back_and_deleted obj1 path_in [xa1; xa2; xa3]
           (with_file [xa1; xa2; xa3]));
    [reflexivity | discriminate | reflexivity | reflexivity | reflexivity
    | vm_compute; discriminate].
Defined.

End StorageHostSpec.

(** ** More of the crypto TA: streams, counters, reset, the end of a session *)

Module CryptoMore.
Import Crypto CryptoTerms CryptoSpec.

(** *** A session without a stream *)

Lemma unstarted_spec s :
  unstarted s = true
  <-> initialized s = false /\ enc_op s = TEE_HANDLE_NULL
      /\ dec_op s = TEE_HANDLE_NULL.
Proof.
  unfold unstarted. rewrite !andb_true_iff, negb_true_iff, !N.eqb_eq. tauto.
Qed.

Lemma encrypt_continuation_null_engine P params sess w :
  memref_size (prm0 params) <= CHUNK_SIZE ->
  memref_size (prm0 params) mod 16 = 0 ->
  value_a (prm2 params) = 0 ->
  enc_op sess = TEE_HANDLE_NULL ->
  encrypt_chunk P chunk_param_types params sess w = None.
Proof.
  intros Hsz Hal Hfirst Hop. unfold encrypt_chunk.
  rewrite (neqb_false _ _ eq_refl), (gtb_false _ _ Hsz), (neqb_false _ _ Hfirst).
  unfold encrypt_the_chunk. rewrite (neqb_false _ _ Hal).
  unfold bind, TEE_GetSystemTime, TEE_CipherUpdate.
  now rewrite Hop.
Qed.

Lemma unstarted_step P sess command pt params w r w' :
  unstarted sess = true ->
  starts_encryption (command, pt, params) = false ->
  TA_InvokeCommandEntryPoint P sess command pt params w = Some (r, w') ->
  w' = w /\ unstarted (snd r) = true
  /\ (command = TA_SECURE_STORAGE_CMD_ENCRYPT_CHUNK
      \/ command = TA_SECURE_STORAGE_CMD_DECRYPT_CHUNK ->
      fst (fst r) <> TEE_SUCCESS /\ snd (fst r) = params).
Proof.
  intros Hu Hs. pose proof (proj1 (unstarted_spec sess) Hu) as (Hi & He & Hd).
  unfold starts_encryption in Hs. cbn [fst snd] in Hs.
  unfold TA_InvokeCommandEntryPoint.
  destruct (Z.eqb_spec command TA_SECURE_STORAGE_CMD_ENCRYPT_CHUNK) as [->|Hne].
  { (* ENCRYPT_CHUNK with is_first = 0 *)
    cbn [andb] in Hs. apply negb_false_iff, Z.eqb_eq in Hs.
    unfold encrypt_chunk.
    destruct (negb (pt =? _)) eqn:Hpt.
    { intros [= <- <-]. cbn. repeat split; auto; discriminate. }
    destruct (_ >? _) eqn:Hsz.
    { intros [= <- <-]. cbn. repeat split; auto; discriminate. }
    rewrite (neqb_false _ _ Hs). unfold encrypt_the_chunk.
    destruct (negb (_ mod 16 =? 0)).
    { intros [= <- <-]. cbn. repeat split; auto; discriminate. }
    unfold bind, TEE_GetSystemTime, TEE_CipherUpdate. rewrite He. discriminate. }
  destruct (Z.eqb_spec command TA_SECURE_STORAGE_CMD_DECRYPT_CHUNK) as [->|Hne2].
  { unfold decrypt_chunk.
    destruct (negb (pt =? _)) eqn:Hpt.
    { intros [= <- <-]. cbn. repeat split; auto; discriminate. }
    destruct (_ >? _) eqn:Hsz.
    { intros [= <- <-]. cbn. repeat split; auto; discriminate. }
    destruct (negb (value_a _ =? 0)).
    - rewrite Hi. cbn [negb]. intros [= <- <-]. cbn. repeat split; auto; discriminate.
    - unfold decrypt_the_chunk, bind, TEE_GetSystemTime, TEE_CipherUpdate.
      rewrite Hd. discriminate. }
  destruct (command =? TA_SECURE_STORAGE_CMD_FINALIZE).
  { unfold finalize_operation. destruct (negb (pt =? _)).
    - intros [= <- <-]. cbn. split; [reflexivity|]. split; [exact Hu|]. intros [?|?]; contradiction.
    - intros [= <- <-]. cbn. split; [reflexivity|]. split; [exact Hu|]. intros [?|?]; contradiction. }
  destruct (command =? TA_SECURE_STORAGE_CMD_RESET).
  { unfold reset_session. rewrite He, Hd. cbn.
    intros [= <- <-]. cbn. split; [reflexivity|]. split.
    - apply unstarted_spec. cbn. auto.
    - intros [?|?]; contradiction. }
  intros [= <- <-]. cbn. split; [reflexivity|]. split; [exact Hu|].
  intros [?|?]; contradiction.
Qed.

(** X14.  A session on which no encryption stream was ever started does
    nothing: whatever commands the client sends, as long as none of them is
    an ENCRYPT_CHUNK with [is_first <> 0], the session and the world stay as
    they were (no key, no operation, no random byte drawn), and every
    ENCRYPT_CHUNK and DECRYPT_CHUNK among them that returns at all returns an
    error and leaves its parameters untouched. *)
Theorem no_stream_without_first_encrypt P cmds sess w sess' w' :
  unstarted sess = true ->
  forallb (fun c => negb (starts_encryption c)) cmds = true ->
  run_commands P sess cmds w = Some (sess', w') ->
  (w' = w /\ unstarted sess' = true)
  /\ forall command pt params w0 r w1,
       starts_encryption (command, pt, params) = false ->
       command = TA_SECURE_STORAGE_CMD_ENCRYPT_CHUNK
       \/ command = TA_SECURE_STORAGE_CMD_DECRYPT_CHUNK ->
       TA_InvokeCommandEntryPoint P sess' command pt params w0 = Some (r, w1) ->
       fst (fst r) <> TEE_SUCCESS /\ snd (fst r) = params /\ w1 = w0.
Proof.
  intros Hu Hall Hrun.
  assert (Hinv : w' = w /\ unstarted sess' = true).
  { revert sess w Hu Hall Hrun.
    induction cmds as [|[[c pt] ps] rest IH]; intros sess w Hu Hall Hrun.
    - injection Hrun as <- <-. auto.
    - cbn [forallb] in Hall. apply andb_true_iff in Hall as [Hc Hrest].
      apply negb_true_iff in Hc.
      cbn [run_commands] in Hrun. unfold bind in Hrun.
      destruct (TA_InvokeCommandEntryPoint P sess c pt ps w)
        as [[[[res p'] s1] w1]|] eqn:E1; [|discriminate].
      destruct (unstarted_step P sess c pt ps w _ _ Hu Hc E1) as (-> & Hu1 & _).
      cbn [snd] in Hu1. exact (IH s1 w Hu1 Hrest Hrun). }
  split; [exact Hinv|].
  intros command pt params w0 r w1 Hs Hc E.
  destruct (unstarted_step P sess' command pt params w0 r w1 (proj2 Hinv) Hs E)
    as (-> & _ & H).
  destruct (H Hc). auto.
Qed.

Lemma no_stream_without_first_encrypt_witness :
  run_commands plain_platform fresh_session
    [(TA_SECURE_STORAGE_CMD_DECRYPT_CHUNK, chunk_param_types,
      chunk_command (replicate 16 x01) 1 16);
     (TA_SECURE_STORAGE_CMD_RESET, 0, chunk_command [] 0 0);
     (TA_SECURE_STORAGE_CMD_ENCRYPT_CHUNK, chunk_param_types,
      chunk_command (replicate 15 x01) 0 16)]
    quiet_world
  = Some (fresh_session, quiet_world)
  /\ quiet_world = quiet_world /\ unstarted fresh_session = true.
Proof.
  split; [vm_compute; reflexivity|].
  apply (no_stream_without_first_encrypt plain_platform
           [(TA_SECURE_STORAGE_CMD_DECRYPT_CHUNK, chunk_param_types,
             chunk_command (replicate 16 x01) 1 16);
            (TA_SECURE_STORAGE_CMD_RESET, 0, chunk_command [] 0 0);
            (TA_SECURE_STORAGE_CMD_ENCRYPT_CHUNK, chunk_param_types,
             chunk_command (replicate 15 x01) 0 16)]
           fresh_session quiet_world fresh_session quiet_world);
    [reflexivity | reflexivity | vm_compute; reflexivity].
Defined.

(** *** A chunk of a stream *)

Lemma set_prm1_same params :
  set_prm1 (set_memref (memref_buffer (prm1 params)) (memref_size (prm1 params))
                       (prm1 params)) params = params.
Proof. destruct params as [p0 [b s a v] p2 p3]. reflexivity. Qed.

Lemma MemMove_at_nil (buf : list byte) :
  TEE_MemMove_at buf 0 [] (Z.of_nat (length (@nil byte))) = buf.
Proof. unfold TEE_MemMove_at. cbn. now rewrite drop_0. Qed.

Section Chunk.
Variable P : platform.

(** What [encrypt_chunk] does after its [is_first] block with an operation
    that is keyed and started, in a reliable environment. *)
Lemma encrypt_the_chunk_ok params sess w op k chain :
  let src := TEE_MemMove (memref_buffer (prm0 params)) (memref_size (prm0 params)) in
  let out := fst (cbc_blocks P (op_mode op) k chain src) in
  let chain' := snd (cbc_blocks P (op_mode op) k chain src) in
  let elapsed := elapsed_us_of (hd (mkTime 0 0) (clock w))
                               (hd (mkTime 0 0) (tl (clock w))) in
  faults w = [] ->
  enc_op sess <> TEE_HANDLE_NULL ->
  ops w !! enc_op sess = Some op ->
  op_key op = Some k -> op_chain op = Some chain -> op_pending op = [] ->
  Z.of_nat (length src) = memref_size (prm0 params) ->
  memref_size (prm0 params) mod 16 = 0 ->
  memref_size (prm0 params) <= memref_size (prm1 params) ->
  encrypt_the_chunk P params sess w
  = Some (TEE_SUCCESS,
          set_prm3 (set_value_a elapsed (prm3 params))
            (set_prm1 (set_memref
                         (TEE_MemMove_at (memref_buffer (prm1 params)) 0 out
                            (Z.of_nat (length out)))
                         (Z.of_nat (length out)) (prm1 params)) params),
          set_total_bytes
            (wrap (size_t_bits P) (total_bytes sess + memref_size (prm0 params)))
            (set_total_enc_time_us (wrap 32 (total_enc_time_us sess + elapsed)) sess),
          set_ops (<[enc_op sess :=
                       mkOp (op_algo op) (op_mode op) (op_max_key op) (Some k)
                            (Some chain') []]> (ops w))
            (set_clock (tl (tl (clock w))) w)).
Proof.
  intros src out chain' elapsed Hf Hn Ho Hk Hc Hp Hlen Hal Hd.
  unfold encrypt_the_chunk. rewrite (neqb_false _ _ Hal).
  unfold bind at 1. unfold TEE_GetSystemTime at 1. fold src.
  erewrite bind_some; cycle 1.
  { eapply (TEE_CipherUpdate_ok P _ op k chain src); cbn; eauto.
    - rewrite Hlen. exact Hal.
    - rewrite Hlen. exact Hd. }
  cbv beta iota. unfold bind at 1. unfold TEE_GetSystemTime at 1.
  cbn [clock set_ops set_clock]. rewrite (neqb_false _ _ eq_refl). unfold ret.
  fold out chain' elapsed. reflexivity.
Qed.

Lemma decrypt_the_chunk_ok params sess w op k chain :
  let src := TEE_MemMove (memref_buffer (prm0 params)) (memref_size (prm0 params)) in
  let out := fst (cbc_blocks P (op_mode op) k chain src) in
  let chain' := snd (cbc_blocks P (op_mode op) k chain src) in
  let elapsed := elapsed_us_of (hd (mkTime 0 0) (clock w))
                               (hd (mkTime 0 0) (tl (clock w))) in
  faults w = [] ->
  dec_op sess <> TEE_HANDLE_NULL ->
  ops w !! dec_op sess = Some op ->
  op_key op = Some k -> op_chain op = Some chain -> op_pending op = [] ->
  Z.of_nat (length src) = memref_size (prm0 params) ->
  memref_size (prm0 params) mod 16 = 0 ->
  memref_size (prm0 params) <= memref_size (prm1 params) ->
  decrypt_the_chunk P params sess w
  = Some (TEE_SUCCESS,
          set_prm3 (set_value_a elapsed (prm3 params))
            (set_prm1 (set_memref
                         (TEE_MemMove_at (memref_buffer (prm1 params)) 0 out
                            (Z.of_nat (length out)))
                         (Z.of_nat (length out)) (prm1 params)) params),
          set_total_dec_time_us (wrap 32 (total_dec_time_us sess + elapsed)) sess,
          set_ops (<[dec_op sess :=
                       mkOp (op_algo op) (op_mode op) (op_max_key op) (Some k)
                            (Some chain') []]> (ops w))
            (set_clock (tl (tl (clock w))) w)).
Proof.
  intros src out chain' elapsed Hf Hn Ho Hk Hc Hp Hlen Hal Hd.
  unfold decrypt_the_chunk.
  unfold bind at 1. unfold TEE_GetSystemTime at 1. fold src.
  erewrite bind_some; cycle 1.
  { eapply (TEE_CipherUpdate_ok P _ op k chain src); cbn; eauto.
    - rewrite Hlen. exact Hal.
    - rewrite Hlen. exact Hd. }
  cbv beta iota. unfold bind at 1. unfold TEE_GetSystemTime at 1.
  cbn [clock set_ops set_clock]. rewrite (neqb_false _ _ eq_refl). unfold ret.
  fold out chain' elapsed. reflexivity.
Qed.

End Chunk.

Lemma elapsed_us_exact t0 t1 :
  0 <= elapsed_ms t0 t1 -> elapsed_ms t0 t1 * 1000 < 2 ^ 32 ->
  elapsed_us_of t0 t1 = elapsed_ms t0 t1 * 1000.
Proof.
  unfold elapsed_us_of, elapsed_ms, wrap. intros H0 H1.
  rewrite <- Z.add_mod by lia.
  replace ((seconds t1 - seconds t0) * 1000000 + (millis t1 - millis t0) * 1000)
    with (((seconds t1 - seconds t0) * 1000 + (millis t1 - millis t0)) * 1000) by lia.
  apply Z.mod_small. lia.
Qed.

(** X15.  In a reliable environment an ENCRYPT_CHUNK command with
    [is_first = 0] on a session whose encryption operation is keyed and
    started, for a payload that is a multiple of 16 bytes, at most
    [CHUNK_SIZE], and fits the output buffer, returns [TEE_SUCCESS]; the output
    buffer starts with the cipher's output for the payload under the
    operation's key and the chaining value the previous chunk left, the size
    field is the length of that output, and the operation keeps the new
    chaining value for the next chunk.  The session's key, IV and handles are
    as before; its byte counter has grown by the payload's size and its time
    counter by the elapsed time, which is also returned in the fourth
    parameter. *)
Theorem continuation_chunk_is_encrypted P params sess w op k chain :
  let src := TEE_MemMove (memref_buffer (prm0 params)) (memref_size (prm0 params)) in
  let out := fst (cbc_blocks P (op_mode op) k chain src) in
  let chain' := snd (cbc_blocks P (op_mode op) k chain src) in
  let elapsed := elapsed_us_of (hd (mkTime 0 0) (clock w))
                               (hd (mkTime 0 0) (tl (clock w))) in
  value_a (prm2 params) = 0 ->
  faults w = [] ->
  enc_op sess <> TEE_HANDLE_NULL ->
  ops w !! enc_op sess = Some op ->
  op_key op = Some k -> op_chain op = Some chain -> op_pending op = [] ->
  Z.of_nat (length src) = memref_size (prm0 params) ->
  memref_size (prm0 params) <= CHUNK_SIZE ->
  memref_size (prm0 params) mod 16 = 0 ->
  memref_size (prm0 params) <= memref_size (prm1 params) ->
  encrypt_chunk P chunk_param_types params sess w
  = Some (TEE_SUCCESS,
          set_prm3 (set_value_a elapsed (prm3 params))
            (set_prm1 (set_memref
                         (TEE_MemMove_at (memref_buffer (prm1 params)) 0 out
                            (Z.of_nat (length out)))
                         (Z.of_nat (length out)) (prm1 params)) params),
          set_total_bytes
            (wrap (size_t_bits P) (total_bytes sess + memref_size (prm0 params)))
            (set_total_enc_time_us (wrap 32 (total_enc_time_us sess + elapsed)) sess),
          set_ops (<[enc_op sess :=
                       mkOp (op_algo op) (op_mode op) (op_max_key op) (Some k)
                            (Some chain') []]> (ops w))
            (set_clock (tl (tl (clock w))) w)).
Proof.
  intros src out chain' elapsed Hfirst Hf Hn Ho Hk Hc Hp Hlen Hsz Hal Hd.
  unfold encrypt_chunk.
  rewrite (neqb_false _ _ eq_refl), (gtb_false _ _ Hsz), (neqb_false _ _ Hfirst).
  now apply encrypt_the_chunk_ok.
Qed.

Lemma continuation_chunk_is_encrypted_witness :
  exists params' sess' w',
    encrypt_chunk plain_platform chunk_param_types
      (chunk_command (replicate 16 x01) 0 16) streaming_session streaming_world
    = Some (TEE_SUCCESS, params', sess', w')
    /\ memref_buffer (prm1 params') = replicate 16 x01
    /\ total_bytes sess' = 16 /\ total_enc_time_us sess' = 250000.
Proof.
  eexists _, _, _. split.
  - apply (continuation_chunk_is_encrypted plain_platform
             (chunk_command (replicate 16 x01) 0 16) streaming_session
             streaming_world
             (mkOp TEE_ALG_AES_CBC_NOPAD TEE_MODE_ENCRYPT (AES_KEY_SIZE * 8)
                   (Some sample_key) (Some sample_iv) [])
             sample_key sample_iv);
      [reflexivity | reflexivity | discriminate | reflexivity | reflexivity
      | reflexivity | reflexivity | reflexivity | vm_compute; discriminate
      | reflexivity | vm_compute; discriminate].
  - split; [|split]; vm_compute; reflexivity.
Defined.

Lemma mod_pow_narrow x b : 32 <= b -> (x mod 2 ^ b) mod 2 ^ 32 = x mod 2 ^ 32.
Proof.
  intros Hb. rewrite <- !Z.land_ones by lia. rewrite <- Z.land_assoc. f_equal.
  rewrite Z.land_ones by lia. apply Z.ones_mod_pow2. lia.
Qed.

(** X16.  The time and byte counters reach the client.  When the clock reads
    [t0] before and [t1] after the cipher call of a successful ENCRYPT_CHUNK
    continuation, the chunk's fourth parameter returns the exact elapsed time
    in microseconds, also when [t1] has the smaller [millis] field; and a
    FINALIZE after it reports, in whole milliseconds, the time accumulated
    before plus the time of this chunk, and the low 32 bits of the byte
    counter, as long as the accumulated microseconds stay below [2^32]. *)
Theorem chunk_time_reaches_finalize P params sess w op k chain t0 t1 rest T fparams :
  value_a (prm2 params) = 0 ->
  faults w = [] ->
  clock w = t0 :: t1 :: rest ->
  enc_op sess <> TEE_HANDLE_NULL ->
  ops w !! enc_op sess = Some op ->
  op_key op = Some k -> op_chain op = Some chain -> op_pending op = [] ->
  Z.of_nat (length (TEE_MemMove (memref_buffer (prm0 params))
                                (memref_size (prm0 params))))
  = memref_size (prm0 params) ->
  memref_size (prm0 params) <= CHUNK_SIZE ->
  memref_size (prm0 params) mod 16 = 0 ->
  memref_size (prm0 params) <= memref_size (prm1 params) ->
  0 <= elapsed_ms t0 t1 -> 0 <= T ->
  total_enc_time_us sess = T * 1000 ->
  (T + elapsed_ms t0 t1) * 1000 < 2 ^ 32 ->
  32 <= size_t_bits P ->
  exists params' sess' w' fparams',
    encrypt_chunk P chunk_param_types params sess w
    = Some (TEE_SUCCESS, params', sess', w')
    /\ value_a (prm3 params') = elapsed_ms t0 t1 * 1000
    /\ finalize_operation finalize_param_types fparams sess' w'
       = Some (TEE_SUCCESS, fparams', sess', w')
    /\ value_a (prm0 fparams') = T + elapsed_ms t0 t1
    /\ value_a (prm2 fparams')
       = (total_bytes sess + memref_size (prm0 params)) mod 2 ^ 32.
Proof.
  intros Hfirst Hf Hclk Hn Ho Hk Hc Hp Hlen Hsz Hal Hd H0 HT Htot Hmax Hbits.
  unfold encrypt_chunk.
  rewrite (neqb_false _ _ eq_refl), (gtb_false _ _ Hsz), (neqb_false _ _ Hfirst).
  rewrite (encrypt_the_chunk_ok P params sess w op k chain) by assumption.
  rewrite Hclk. cbn [hd tl].
  assert (He : elapsed_us_of t0 t1 = elapsed_ms t0 t1 * 1000)
    by (apply elapsed_us_exact; lia).
  rewrite He. eexists _, _, _, _. split; [reflexivity|].
  split; [reflexivity|].
  unfold finalize_operation. rewrite (neqb_false _ _ eq_refl).
  split; [reflexivity|]. cbn. split.
  - rewrite Htot. unfold wrap. rewrite Z.mod_small by lia.
    replace (T * 1000 + elapsed_ms t0 t1 * 1000) with ((T + elapsed_ms t0 t1) * 1000)
      by lia.
    apply Z.div_mul. lia.
  - unfold wrap. change 4294967295 with (Z.ones 32).
    rewrite Z.land_ones by lia. rewrite Z.mod_mod by lia.
    apply mod_pow_narrow. exact Hbits.
Qed.

Lemma chunk_time_reaches_finalize_witness :
  exists params' sess' w' fparams',
    encrypt_chunk plain_platform chunk_param_types
      (chunk_command (replicate 16 x01) 0 16) streaming_session streaming_world
    = Some (TEE_SUCCESS, params', sess', w')
    /\ value_a (prm3 params') = elapsed_ms (mkTime 10 900) (mkTime 11 150) * 1000
    /\ finalize_operation finalize_param_types (chunk_command [] 0 0) sess' w'
       = Some (TEE_SUCCESS, fparams', sess', w')
    /\ value_a (prm0 fparams') = 0 + elapsed_ms (mkTime 10 900) (mkTime 11 150)
    /\ value_a (prm2 fparams')
       = (total_bytes streaming_session
          + memref_size (prm0 (chunk_command (replicate 16 x01) 0 16))) mod 2 ^ 32.
Proof.
  apply (chunk_time_reaches_finalize plain_platform
           (chunk_command (replicate 16 x01) 0 16) streaming_session
           streaming_world
           (mkOp TEE_ALG_AES_CBC_NOPAD TEE_MODE_ENCRYPT (AES_KEY_SIZE * 8)
                 (Some sample_key) (Some sample_iv) [])
           sample_key sample_iv (mkTime 10 900) (mkTime 11 150) [] 0
           (chunk_command [] 0 0));
    [reflexivity | reflexivity | reflexivity | discriminate | reflexivity
    | reflexivity | reflexivity | reflexivity | reflexivity
    | vm_compute; discriminate | reflexivity | vm_compute; discriminate
    | vm_compute; discriminate | lia | reflexivity | reflexivity
    | vm_compute; discriminate].
Defined.

(** *** Streams that start again *)

Lemma lookup_fresh_other {A} (m : gmap N A) h a :
  m !! h = Some a -> h <> fresh_in m.
Proof. intros H E. destruct (fresh_in_spec m) as [_ Hf]. congruence. Qed.

Lemma close_session_streaming sess w o kk :
  enc_op sess <> TEE_HANDLE_NULL -> ops w !! enc_op sess = Some o ->
  dec_op sess = TEE_HANDLE_NULL -> initialized sess = true ->
  key_handle sess <> TEE_HANDLE_NULL -> keys w !! key_handle sess = Some kk ->
  TA_CloseSessionEntryPoint (Some sess) w
  = Some (tt, set_keys (delete (key_handle sess) (keys w))
                (set_ops (delete (enc_op sess) (ops w)) w)).
Proof.
  intros He Ho Hd Hi Hkn Hk. unfold TA_CloseSessionEntryPoint.
  rewrite Hd, Hi. apply N.eqb_neq in He, Hkn. rewrite He, Hkn.
  cbn [negb andb N.eqb TEE_HANDLE_NULL].
  unfold TEE_FreeOperation, TEE_FreeTransientObject. rewrite Hkn.
  unfold bind, get, modify, ret, TEE_Free. rewrite Ho.
  cbn [keys set_ops]. rewrite Hk. reflexivity.
Qed.

Lemma first_encrypt_chunk_ok P params sess w k :
  let data := memref_buffer (prm0 params) in
  let out := fst (cbc_blocks P TEE_MODE_ENCRYPT k
                    (take (Z.to_nat AES_IV_SIZE) (iv sess)) data) in
  faults w = [] -> initialized sess = true ->
  keys w !! key_handle sess = Some (Some k) ->
  Z.of_nat (length k) * 8 <= AES_KEY_SIZE * 8 ->
  value_a (prm2 params) <> 0 ->
  memref_size (prm0 params) = Z.of_nat (length data) ->
  memref_size (prm0 params) <= CHUNK_SIZE ->
  memref_size (prm0 params) mod 16 = 0 ->
  memref_size (prm0 params) <= memref_size (prm1 params) ->
  exists params' sess' w' o,
    encrypt_chunk P chunk_param_types params sess w
    = Some (TEE_SUCCESS, params', sess', w')
    /\ memref_buffer (prm1 params')
       = TEE_MemMove_at (memref_buffer (prm1 params)) 0 out (Z.of_nat (length out))
    /\ enc_op sess' = fresh_in (ops w) /\ dec_op sess' = dec_op sess
    /\ key_handle sess' = key_handle sess /\ initialized sess' = initialized sess
    /\ ops w' = <[fresh_in (ops w) := o]> (ops w) /\ keys w' = keys w.
Proof.
  intros data out Hf Hinit Hk Hl Hfirst Hbuf Hsz Hal Hdst.
  destruct (fresh_in_spec (ops w)) as [Hnn Hfresh].
  unfold encrypt_chunk. rewrite (neqb_false _ _ eq_refl), (gtb_false _ _ Hsz).
  rewrite (neqb_true _ _ Hfirst), Hinit. cbn [negb].
  unfold bind at 1. unfold ret at 1. rewrite (neqb_false _ _ eq_refl).
  rewrite (bind_some _ _ _ _ _ (init_encryption_ok sess k w Hf Hk Hl)).
  cbv beta iota. rewrite (neqb_false _ _ eq_refl).
  assert (Hmm : TEE_MemMove (memref_buffer (prm0 params)) (memref_size (prm0 params))
                = data)
    by (rewrite Hbuf; apply TEE_MemMove_all).
  erewrite (encrypt_the_chunk_ok P params _ _ _ k
              (take (Z.to_nat AES_IV_SIZE) (iv sess)));
    cbn [enc_op set_enc_op set_total_bytes set_total_enc_time_us ops set_ops
         faults op_key op_chain op_pending op_mode];
    [|exact Hf|exact Hnn|apply lookup_insert_eq|reflexivity|reflexivity|reflexivity
     |rewrite Hmm; now rewrite Hbuf|exact Hal|exact Hdst].
  rewrite Hmm. fold out.
  eexists _, _, _, _. split; [reflexivity|].
  split; [reflexivity|]. split; [reflexivity|]. split; [reflexivity|].
  split; [reflexivity|]. split; [exact Hinit|].
  cbn [ops keys set_ops set_clock]. rewrite insert_insert_eq. split; reflexivity.
Qed.

(** X17.  Every ENCRYPT_CHUNK with [is_first <> 0] allocates a new operation
    and starts it with the session's key and the session's IV: the output of
    the first chunk depends on the key, the IV and the payload only, so that
    two streams of one session that start with the same bytes start with the
    same ciphertext.  The operation of the stream before is not freed: it
    stays allocated after the command, and [TA_CloseSessionEntryPoint] frees
    the new one only. *)
Theorem restart_reuses_iv_and_leaks_operation P params sess w k old_op :
  let data := memref_buffer (prm0 params) in
  let out := fst (cbc_blocks P TEE_MODE_ENCRYPT k
                    (take (Z.to_nat AES_IV_SIZE) (iv sess)) data) in
  faults w = [] -> initialized sess = true ->
  keys w !! key_handle sess = Some (Some k) ->
  key_handle sess <> TEE_HANDLE_NULL ->
  Z.of_nat (length k) * 8 <= AES_KEY_SIZE * 8 ->
  ops w !! enc_op sess = Some old_op ->
  dec_op sess = TEE_HANDLE_NULL ->
  value_a (prm2 params) <> 0 ->
  memref_size (prm0 params) = Z.of_nat (length data) ->
  memref_size (prm0 params) <= CHUNK_SIZE ->
  memref_size (prm0 params) mod 16 = 0 ->
  memref_size (prm0 params) <= memref_size (prm1 params) ->
  exists params' sess' w' w'',
    encrypt_chunk P chunk_param_types params sess w
    = Some (TEE_SUCCESS, params', sess', w')
    /\ memref_buffer (prm1 params')
       = TEE_MemMove_at (memref_buffer (prm1 params)) 0 out (Z.of_nat (length out))
    /\ enc_op sess' <> enc_op sess
    /\ ops w' !! enc_op sess = Some old_op
    /\ TA_CloseSessionEntryPoint (Some sess') w' = Some (tt, w'')
    /\ ops w'' !! enc_op sess = Some old_op.
Proof.
  intros data out Hf Hinit Hk Hkn Hl Hold Hdec Hfirst Hbuf Hsz Hal Hdst.
  destruct (fresh_in_spec (ops w)) as [Hnn Hfresh].
  pose proof (lookup_fresh_other _ _ _ Hold) as Hne.
  destruct (first_encrypt_chunk_ok P params sess w k Hf Hinit Hk Hl Hfirst Hbuf
              Hsz Hal Hdst)
    as (params' & sess' & w' & o & Hrun & Hout & He & Hd & Hkh & Hi & Hops & Hkeys).
  exists params', sess', w'. eexists.
  split; [exact Hrun|]. split; [exact Hout|].
  split; [congruence|].
  split; [rewrite Hops, lookup_insert_ne by congruence; exact Hold|].
  erewrite close_session_streaming;
    [split; [reflexivity|]
    |congruence|rewrite Hops, He; apply lookup_insert_eq
    |congruence|congruence|congruence|rewrite Hkeys, Hkh; exact Hk].
  cbn [ops keys set_ops set_keys].
  rewrite Hops, He, delete_insert_eq, lookup_delete_ne by congruence.
  exact Hold.
Qed.

Lemma restart_reuses_iv_and_leaks_operation_witness :
  exists params' sess' w' w'',
    encrypt_chunk plain_platform chunk_param_types
      (chunk_command (replicate 16 x01) 1 16) streaming_session streaming_world
    = Some (TEE_SUCCESS, params', sess', w')
    /\ memref_buffer (prm1 params')
       = TEE_MemMove_at
           (memref_buffer (prm1 (chunk_command (replicate 16 x01) 1 16))) 0
           (fst (cbc_blocks plain_platform TEE_MODE_ENCRYPT sample_key
                   (take (Z.to_nat AES_IV_SIZE) (iv streaming_session))
                   (replicate 16 x01)))
           (Z.of_nat (length (fst (cbc_blocks plain_platform TEE_MODE_ENCRYPT
                                     sample_key
                                     (take (Z.to_nat AES_IV_SIZE)
                                           (iv streaming_session))
                                     (replicate 16 x01)))))
    /\ enc_op sess' <> enc_op streaming_session
    /\ ops w' !! enc_op streaming_session
       = Some (mkOp TEE_ALG_AES_CBC_NOPAD TEE_MODE_ENCRYPT (AES_KEY_SIZE * 8)
                    (Some sample_key) (Some sample_iv) [])
    /\ TA_CloseSessionEntryPoint (Some sess') w' = Some (tt, w'')
    /\ ops w'' !! enc_op streaming_session
       = Some (mkOp TEE_ALG_AES_CBC_NOPAD TEE_MODE_ENCRYPT (AES_KEY_SIZE * 8)
                    (Some sample_key) (Some sample_iv) []).
Proof.
  apply (restart_reuses_iv_and_leaks_operation plain_platform
           (chunk_command (replicate 16 x01) 1 16) streaming_session
           streaming_world sample_key
           (mkOp TEE_ALG_AES_CBC_NOPAD TEE_MODE_ENCRYPT (AES_KEY_SIZE * 8)
                 (Some sample_key) (Some sample_iv) []));
    [reflexivity | reflexivity | reflexivity | discriminate
    | vm_compute; discriminate | reflexivity | reflexivity | discriminate
    | reflexivity | vm_compute; discriminate | reflexivity
    | vm_compute; discriminate].
Defined.

(** X18.  RESET forgets the stream, not the key.  Whatever parameter types
    come with it, RESET frees the running operation and zeroes the three
    counters (bytes, encryption time, decryption time), and keeps the key
    handle and the IV of the session: the first chunk of the next stream is
    encrypted under the same key, chained from the same IV.  After this
    stream the closing of the session leaves no operation behind and frees
    the key. *)
Theorem reset_then_restart P pt params cparams sess w k old_op :
  let data := memref_buffer (prm0 cparams) in
  let out := fst (cbc_blocks P TEE_MODE_ENCRYPT k
                    (take (Z.to_nat AES_IV_SIZE) (iv sess)) data) in
  faults w = [] -> initialized sess = true ->
  keys w !! key_handle sess = Some (Some k) ->
  key_handle sess <> TEE_HANDLE_NULL ->
  Z.of_nat (length k) * 8 <= AES_KEY_SIZE * 8 ->
  enc_op sess <> TEE_HANDLE_NULL ->
  ops w !! enc_op sess = Some old_op ->
  dec_op sess = TEE_HANDLE_NULL ->
  value_a (prm2 cparams) <> 0 ->
  memref_size (prm0 cparams) = Z.of_nat (length data) ->
  memref_size (prm0 cparams) <= CHUNK_SIZE ->
  memref_size (prm0 cparams) mod 16 = 0 ->
  memref_size (prm0 cparams) <= memref_size (prm1 cparams) ->
  exists sess1 w1 params' sess2 w2 w3,
    TA_InvokeCommandEntryPoint P sess TA_SECURE_STORAGE_CMD_RESET pt params w
    = Some (TEE_SUCCESS, params, sess1, w1)
    /\ ops w1 = delete (enc_op sess) (ops w)
    /\ total_bytes sess1 = 0 /\ total_enc_time_us sess1 = 0
    /\ total_dec_time_us sess1 = 0
    /\ key_handle sess1 = key_handle sess /\ iv sess1 = iv sess
    /\ encrypt_chunk P chunk_param_types cparams sess1 w1
       = Some (TEE_SUCCESS, params', sess2, w2)
    /\ memref_buffer (prm1 params')
       = TEE_MemMove_at (memref_buffer (prm1 cparams)) 0 out (Z.of_nat (length out))
    /\ TA_CloseSessionEntryPoint (Some sess2) w2 = Some (tt, w3)
    /\ ops w3 = delete (enc_op sess) (ops w)
    /\ keys w3 = delete (key_handle sess) (keys w).
Proof.
  intros data out Hf Hinit Hk Hkn Hl Hen Hold Hdec Hfirst Hbuf Hsz Hal Hdst.
  set (w1 := set_ops (delete (enc_op sess) (ops w)) w).
  set (sess1 := set_total_bytes 0
                  (set_total_dec_time_us 0
                     (set_total_enc_time_us 0
                        (set_dec_op TEE_HANDLE_NULL
                           (set_enc_op TEE_HANDLE_NULL sess))))).
  destruct (fresh_in_spec (ops w1)) as [Hnn Hfresh].
  assert (Hreset : reset_session sess w = Some (TEE_SUCCESS, sess1, w1)).
  { unfold reset_session. rewrite Hdec.
    pose proof Hen as Hen'. apply N.eqb_neq in Hen'. rewrite Hen'.
    cbn [negb N.eqb TEE_HANDLE_NULL].
    unfold TEE_FreeOperation, bind, get, modify, ret. now rewrite Hold. }
  destruct (first_encrypt_chunk_ok P cparams sess1 w1 k Hf Hinit Hk Hl Hfirst Hbuf
              Hsz Hal Hdst)
    as (params' & sess2 & w2 & o & Hrun & Hout & He & Hd & Hkh & Hi & Hops & Hkeys).
  exists sess1, w1, params', sess2, w2. eexists.
  split.
  { unfold TA_InvokeCommandEntryPoint.
    change (TA_SECURE_STORAGE_CMD_RESET =? TA_SECURE_STORAGE_CMD_ENCRYPT_CHUNK)
      with false.
    change (TA_SECURE_STORAGE_CMD_RESET =? TA_SECURE_STORAGE_CMD_DECRYPT_CHUNK)
      with false.
    change (TA_SECURE_STORAGE_CMD_RESET =? TA_SECURE_STORAGE_CMD_FINALIZE)
      with false.
    change (TA_SECURE_STORAGE_CMD_RESET =? TA_SECURE_STORAGE_CMD_RESET) with true.
    cbv iota. rewrite (bind_some _ _ _ _ _ Hreset). reflexivity. }
  split; [reflexivity|]. split; [reflexivity|]. split; [reflexivity|].
  split; [reflexivity|]. split; [reflexivity|]. split; [reflexivity|].
  split; [exact Hrun|]. split; [exact Hout|].
  erewrite close_session_streaming;
    [split; [reflexivity|]
    |rewrite He; exact Hnn|rewrite Hops, He; apply lookup_insert_eq
    |rewrite Hd; reflexivity|rewrite Hi; exact Hinit|rewrite Hkh; exact Hkn
    |rewrite Hkeys, Hkh; exact Hk].
  cbn [ops keys set_ops set_keys]. rewrite Hops, He, Hkeys, Hkh.
  rewrite delete_insert_eq, delete_id by exact Hfresh. split; reflexivity.
Qed.

Lemma reset_then_restart_witness :
  exists sess1 w1 params' sess2 w2 w3,
    TA_InvokeCommandEntryPoint plain_platform streaming_session
      TA_SECURE_STORAGE_CMD_RESET 0 (chunk_command [] 0 0) streaming_world
    = Some (TEE_SUCCESS, chunk_command [] 0 0, sess1, w1)
    /\ ops w1 = delete (enc_op streaming_session) (ops streaming_world)
    /\ total_bytes sess1 = 0 /\ total_enc_time_us sess1 = 0
    /\ total_dec_time_us sess1 = 0
    /\ key_handle sess1 = key_handle streaming_session
    /\ iv sess1 = iv streaming_session
    /\ encrypt_chunk plain_platform chunk_param_types
         (chunk_command (replicate 16 x01) 1 16) sess1 w1
       = Some (TEE_SUCCESS, params', sess2, w2)
    /\ memref_buffer (prm1 params')
       = TEE_MemMove_at
           (memref_buffer (prm1 (chunk_command (replicate 16 x01) 1 16))) 0
           (fst (cbc_blocks plain_platform TEE_MODE_ENCRYPT sample_key
                   (take (Z.to_nat AES_IV_SIZE) (iv streaming_session))
                   (replicate 16 x01)))
           (Z.of_nat (length (fst (cbc_blocks plain_platform TEE_MODE_ENCRYPT
                                     sample_key
                                     (take (Z.to_nat AES_IV_SIZE)
                                           (iv streaming_session))
                                     (replicate 16 x01)))))
    /\ TA_CloseSessionEntryPoint (Some sess2) w2 = Some (tt, w3)
    /\ ops w3 = delete (enc_op streaming_session) (ops streaming_world)
    /\ keys w3 = delete (key_handle streaming_session) (keys streaming_world).
Proof.
  apply (reset_then_restart plain_platform 0 (chunk_command [] 0 0)
           (chunk_command (replicate 16 x01) 1 16) streaming_session
           streaming_world sample_key
           (mkOp TEE_ALG_AES_CBC_NOPAD TEE_MODE_ENCRYPT (AES_KEY_SIZE * 8)
                 (Some sample_key) (Some sample_iv) []));
    [reflexivity | reflexivity | reflexivity | discriminate
    | vm_compute; discriminate | discriminate | reflexivity | reflexivity
    | discriminate | reflexivity | vm_compute; discriminate | reflexivity
    | vm_compute; discriminate].
Defined.

(** *** A key that cannot be set *)

Lemma init_encryption_key_fails sess k w e rest :
  faults w = NoFault :: Fail e :: rest -> e <> TEE_SUCCESS ->
  keys w !! key_handle sess = Some (Some k) ->
  Z.of_nat (length k) * 8 <= AES_KEY_SIZE * 8 ->
  init_encryption sess w
  = Some (e, set_enc_op (fresh_in (ops w)) sess, set_faults rest w).
Proof.
  intros Hf He Hk Hl. destruct (fresh_in_spec (ops w)) as [_ Hfresh].
  destruct w as [ks os fs cl rg]. cbn [ops keys faults] in *. subst fs.
  apply Z.eqb_neq in He.
  unfold init_encryption, TEE_AllocateOperation, TEE_SetOperationKey,
    TEE_FreeOperation, bind, next_fault, get, modify, ret, set_ops, set_faults.
  cbn [ops keys faults clock rng hd tl injected enc_op set_enc_op key_handle].
  rewrite (neqb_false _ _ eq_refl).
  cbn [ops keys faults clock rng hd tl injected enc_op set_enc_op key_handle].
  rewrite lookup_insert_eq, Hk. cbn [op_max_key]. rewrite (gtb_false _ _ Hl).
  cbn [ops keys faults clock rng hd tl injected]. rewrite He.
  cbn [ops keys faults clock rng]. rewrite He. cbn [negb ops].
  rewrite lookup_insert_eq. cbn [ops keys faults clock rng].
  rewrite delete_insert_eq, delete_id by exact Hfresh. reflexivity.
Qed.

(** X19.  A key that cannot be set leaves a stale handle.  When
    [TEE_SetOperationKey] reports an error at the start of a stream,
    [init_encryption] frees the operation it has just allocated and returns
    the error, with the freed handle still in [sess->enc_op].  The command
    returns that error and no operation is added; after it, both RESET and the
    closing of the session call [TEE_FreeOperation] on the freed handle, and
    the TA panics. *)
Theorem failed_key_setup_leaves_stale_handle P params sess w k e rest :
  faults w = NoFault :: Fail e :: rest -> e <> TEE_SUCCESS ->
  initialized sess = true ->
  keys w !! key_handle sess = Some (Some k) ->
  Z.of_nat (length k) * 8 <= AES_KEY_SIZE * 8 ->
  value_a (prm2 params) <> 0 ->
  memref_size (prm0 params) <= CHUNK_SIZE ->
  exists sess' w',
    encrypt_chunk P chunk_param_types params sess w = Some (e, params, sess', w')
    /\ ops w' = ops w
    /\ enc_op sess' <> TEE_HANDLE_NULL
    /\ ops w' !! enc_op sess' = None
    /\ reset_session sess' w' = None
    /\ TA_CloseSessionEntryPoint (Some sess') w' = None.
Proof.
  intros Hf He Hinit Hk Hl Hfirst Hsz.
  destruct (fresh_in_spec (ops w)) as [Hnn Hfresh].
  exists (set_enc_op (fresh_in (ops w)) sess), (set_faults rest w).
  split.
  { unfold encrypt_chunk. rewrite (neqb_false _ _ eq_refl), (gtb_false _ _ Hsz).
    rewrite (neqb_true _ _ Hfirst), Hinit. cbn [negb].
    unfold bind at 1. unfold ret at 1. rewrite (neqb_false _ _ eq_refl).
    rewrite (bind_some _ _ _ _ _ (init_encryption_key_fails sess k w e rest
                                    Hf He Hk Hl)).
    cbv beta iota. rewrite (neqb_true _ _ He). reflexivity. }
  split; [reflexivity|]. split; [exact Hnn|]. split; [exact Hfresh|].
  apply N.eqb_neq in Hnn.
  split.
  - unfold reset_session. cbn [enc_op set_enc_op]. rewrite Hnn. cbn [negb].
    unfold bind at 1. unfold TEE_FreeOperation, bind, get.
    cbn [ops set_faults]. now rewrite Hfresh.
  - unfold TA_CloseSessionEntryPoint. cbn [enc_op set_enc_op]. rewrite Hnn.
    cbn [negb]. unfold bind at 1. unfold TEE_FreeOperation, bind, get.
    cbn [ops set_faults]. now rewrite Hfresh.
Qed.

Lemma failed_key_setup_leaves_stale_handle_witness :
  exists sess' w',
    encrypt_chunk plain_platform chunk_param_types
      (chunk_command (replicate 16 x01) 1 16) streaming_session keyless_world
    = Some (TEE_ERROR_CORRUPT_OBJECT, chunk_command (replicate 16 x01) 1 16,
            sess', w')
    /\ ops w' = ops keyless_world
    /\ enc_op sess' <> TEE_HANDLE_NULL
    /\ ops w' !! enc_op sess' = None
    /\ reset_session sess' w' = None
    /\ TA_CloseSessionEntryPoint (Some sess') w' = None.
Proof.
  apply (failed_key_setup_leaves_stale_handle plain_platform
           (chunk_command (replicate 16 x01) 1 16) streaming_session
           keyless_world sample_key TEE_ERROR_CORRUPT_OBJECT []);
    [reflexivity | discriminate | reflexivity | reflexivity
    | vm_compute; discriminate | discriminate | vm_compute; discriminate].
Defined.

(** *** A ciphertext chunk of any size *)

Lemma TEE_CipherUpdate_whole_blocks P h op k chain src destLen w :
  let n := Z.to_nat (Z.of_nat (length src) / AES_BLOCK_SIZE * AES_BLOCK_SIZE) in
  faults w = [] -> h <> TEE_HANDLE_NULL ->
  ops w !! h = Some op -> op_key op = Some k -> op_chain op = Some chain ->
  op_pending op = [] ->
  Z.of_nat (length src) / AES_BLOCK_SIZE * AES_BLOCK_SIZE <= destLen ->
  TEE_CipherUpdate P h src destLen w
  = Some (TEE_SUCCESS, fst (cbc_blocks P (op_mode op) k chain (take n src)),
          Z.of_nat (length (fst (cbc_blocks P (op_mode op) k chain (take n src)))),
          set_ops (<[h := mkOp (op_algo op) (op_mode op) (op_max_key op) (Some k)
                              (Some (snd (cbc_blocks P (op_mode op) k chain
                                            (take n src))))
                              (drop n src)]> (ops w)) w).
Proof.
  intros n Hf Hn Ho Hk Hc Hp Hd. unfold TEE_CipherUpdate.
  apply N.eqb_neq in Hn. rewrite Hn.
  unfold bind at 1. unfold get at 1. rewrite Ho, Hk, Hc, Hp.
  rewrite (bind_some _ _ _ _ _ (crypto_next_fault_nil w Hf)). cbn [injected app].
  rewrite (proj2 (Z.ltb_ge _ _) Hd). fold n.
  destruct (cbc_blocks P (op_mode op) k chain (take n src)) as [out chain'].
  reflexivity.
Qed.

(** X20.  DECRYPT_CHUNK does not ask for whole blocks.  Where ENCRYPT_CHUNK
    refuses a payload whose size is not a multiple of 16, a DECRYPT_CHUNK
    continuation takes it and returns [TEE_SUCCESS]: the cipher runs on the
    whole blocks at the front of the payload, the size field of the output
    counts what these gave, and the last [size mod 16] bytes stay pending in
    the operation. *)
Theorem decrypt_chunk_takes_ragged_payload P params sess w op k chain :
  let size := memref_size (prm0 params) in
  let src := TEE_MemMove (memref_buffer (prm0 params)) size in
  let whole := Z.to_nat (size / AES_BLOCK_SIZE * AES_BLOCK_SIZE) in
  let out := fst (cbc_blocks P (op_mode op) k chain (take whole src)) in
  faults w = [] ->
  dec_op sess <> TEE_HANDLE_NULL ->
  ops w !! dec_op sess = Some op ->
  op_key op = Some k -> op_chain op = Some chain -> op_pending op = [] ->
  value_a (prm2 params) = 0 ->
  Z.of_nat (length src) = size ->
  size <= CHUNK_SIZE ->
  size <= memref_size (prm1 params) ->
  exists params' sess' w' op',
    decrypt_chunk P chunk_param_types params sess w
    = Some (TEE_SUCCESS, params', sess', w')
    /\ memref_size (prm1 params') = Z.of_nat (length out)
    /\ dec_op sess' = dec_op sess
    /\ ops w' !! dec_op sess = Some op'
    /\ op_pending op' = drop whole src
    /\ Z.of_nat (length (op_pending op')) = size mod AES_BLOCK_SIZE.
Proof.
  intros size src whole out Hf Hn Ho Hk Hc Hp Hfirst Hlen Hsz Hd.
  assert (Hsize : 0 <= size) by lia.
  pose proof (Z.div_mod size 16 ltac:(lia)) as Hdm.
  pose proof (Z.mod_pos_bound size 16 ltac:(lia)) as Hmb.
  eexists _, _, _, _. split.
  { unfold decrypt_chunk. fold size.
    rewrite (neqb_false _ _ eq_refl), (gtb_false _ _ Hsz), (neqb_false _ _ Hfirst).
    unfold decrypt_the_chunk. fold size. fold src.
    unfold bind at 1. unfold TEE_GetSystemTime at 1.
    erewrite bind_some; cycle 1.
    { eapply (TEE_CipherUpdate_whole_blocks P _ op k chain src); cbn; eauto.
      rewrite Hlen. unfold AES_BLOCK_SIZE. lia. }
    cbv beta iota. unfold bind at 1. unfold TEE_GetSystemTime at 1.
    rewrite (neqb_false _ _ eq_refl). unfold ret. reflexivity. }
  cbn [prm1 set_prm1 set_prm3 set_memref memref_size dec_op set_total_dec_time_us
       ops set_ops set_clock].
  rewrite Hlen. fold whole. fold out.
  split; [reflexivity|]. split; [reflexivity|].
  split; [apply lookup_insert_eq|]. cbn [op_pending].
  split; [reflexivity|].
  rewrite length_drop. unfold whole, AES_BLOCK_SIZE. lia.
Qed.

Lemma decrypt_chunk_takes_ragged_payload_witness :
  exists params' sess' w' op',
    decrypt_chunk plain_platform chunk_param_types
      (chunk_command (replicate 20 x01) 0 32) decrypting_session decrypting_world
    = Some (TEE_SUCCESS, params', sess', w')
    /\ memref_size (prm1 params')
       = Z.of_nat (length (fst (cbc_blocks plain_platform TEE_MODE_DECRYPT sample_key
                                  sample_iv
                                  (take (Z.to_nat (20 / AES_BLOCK_SIZE * AES_BLOCK_SIZE))
                                     (TEE_MemMove (replicate 20 x01) 20)))))
    /\ dec_op sess' = dec_op decrypting_session
    /\ ops w' !! dec_op decrypting_session = Some op'
    /\ op_pending op'
       = drop (Z.to_nat (20 / AES_BLOCK_SIZE * AES_BLOCK_SIZE))
           (TEE_MemMove (replicate 20 x01) 20)
    /\ Z.of_nat (length (op_pending op')) = 20 mod AES_BLOCK_SIZE.
Proof.
  apply (decrypt_chunk_takes_ragged_payload plain_platform
           (chunk_command (replicate 20 x01) 0 32) decrypting_session
           decrypting_world
           (mkOp TEE_ALG_AES_CBC_NOPAD TEE_MODE_DECRYPT (AES_KEY_SIZE * 8)
                 (Some sample_key) (Some sample_iv) [])
           sample_key sample_iv);
    [reflexivity | discriminate | reflexivity | reflexivity | reflexivity
    | reflexivity | reflexivity | reflexivity | vm_compute; discriminate
    | vm_compute; discriminate].
Defined.

End CryptoMore.

(** ** The client of the crypto TA *)

Module CryptoHostSpec.
Import Crypto CryptoTerms CryptoSpec CryptoMore Host CryptoHost.
Import StorageHostSpec.

(** *** Bytes and the size header *)

Lemma byte_value_uint8 z : byte_value (uint8 z) = z mod 256.
Proof.
  unfold byte_value, uint8.
  pose proof (Z.mod_pos_bound z 256 ltac:(lia)) as Hb.
  destruct (Byte.of_N (Z.to_N (z mod 256))) as [b|] eqn:E.
  - apply Byte.to_of_N in E. rewrite E. lia.
  - apply Byte.of_N_None_iff in E. lia.
Qed.

Lemma uint64_round_trip z :
  0 <= z < 2 ^ 64 -> uint64_of_bytes (bytes_of_uint64 z) = z.
Proof.
  intros Hz. unfold bytes_of_uint64, uint64_of_bytes.
  change (seq 0 8) with [0; 1; 2; 3; 4; 5; 6; 7]%nat.
  cbn [map List.map foldr fold_right].
  rewrite !byte_value_uint8, !Z.shiftr_div_pow2 by lia.
  change (8 * Z.of_nat 0) with 0. change (8 * Z.of_nat 1) with 8.
  change (8 * Z.of_nat 2) with 16. change (8 * Z.of_nat 3) with 24.
  change (8 * Z.of_nat 4) with 32. change (8 * Z.of_nat 5) with 40.
  change (8 * Z.of_nat 6) with 48. change (8 * Z.of_nat 7) with 56.
  change (2 ^ 0) with 1. rewrite Z.div_1_r.
  pose proof (Z.div_mod z 256 ltac:(lia)).
  assert (Hs : forall a b, 0 < a -> 0 < b -> z / (a * b) = z / a / b)
    by (intros; rewrite Z.div_div by lia; reflexivity).
  change (2 ^ 8) with 256.
  change (2 ^ 16) with (256 * 256). change (2 ^ 24) with (256 * 256 * 256).
  change (2 ^ 32) with (256 * 256 * 256 * 256).
  change (2 ^ 40) with (256 * 256 * 256 * 256 * 256).
  change (2 ^ 48) with (256 * 256 * 256 * 256 * 256 * 256).
  change (2 ^ 56) with (256 * 256 * 256 * 256 * 256 * 256 * 256).
  rewrite !Hs by lia.
  set (a1 := z / 256) in *. set (a2 := a1 / 256) in *. set (a3 := a2 / 256) in *.
  set (a4 := a3 / 256) in *. set (a5 := a4 / 256) in *. set (a6 := a5 / 256) in *.
  set (a7 := a6 / 256) in *.
  pose proof (Z.div_mod a1 256 ltac:(lia)). pose proof (Z.div_mod a2 256 ltac:(lia)).
  pose proof (Z.div_mod a3 256 ltac:(lia)). pose proof (Z.div_mod a4 256 ltac:(lia)).
  pose proof (Z.div_mod a5 256 ltac:(lia)). pose proof (Z.div_mod a6 256 ltac:(lia)).
  pose proof (Z.div_mod a7 256 ltac:(lia)).
  fold a2 in H0. fold a3 in H1. fold a4 in H2. fold a5 in H3. fold a6 in H4.
  fold a7 in H5.
  assert (a7 / 256 = 0).
  { unfold a7, a6, a5, a4, a3, a2, a1. rewrite !Z.div_div by lia.
    apply Z.div_small. change (2 ^ 64) with 18446744073709551616 in Hz. lia. }
  lia.
Qed.

Lemma length_bytes_of_uint64 z : length (bytes_of_uint64 z) = 8%nat.
Proof. reflexivity. Qed.

(** *** Padding *)

Section Pad.
Variable size_bits : Z.

Lemma length_pad_fill n : forall data dl pl,
  length (pad_fill n data dl pl) = length data.
Proof.
  induction n as [|n IH]; intros data dl pl; [reflexivity|].
  cbn [pad_fill]. rewrite IH. apply length_insert.
Qed.

Lemma pad_fill_spec n : forall data dl pl,
  0 <= dl -> Z.of_nat n <= pl -> dl + pl <= Z.of_nat (length data) ->
  pad_fill n data dl pl
  = take (Z.to_nat (dl + pl) - n) data ++ replicate n (uint8 pl)
      ++ drop (Z.to_nat (dl + pl)) data.
Proof.
  induction n as [|n IH]; intros data dl pl Hdl Hn Hlen.
  - cbn [pad_fill replicate app]. rewrite Nat.sub_0_r. now rewrite take_drop.
  - cbn [pad_fill]. rewrite IH by (rewrite ?length_insert; lia).
    replace (Z.to_nat (dl + (pl - Z.of_nat (S n))))
      with (Z.to_nat (dl + pl) - S n)%nat by lia.
    set (N := Z.to_nat (dl + pl)). set (i := (N - S n)%nat).
    assert (Hi : (i < length data)%nat) by (unfold i, N; lia).
    rewrite drop_insert_lt by (unfold i; lia).
    replace (N - n)%nat with (S i) by (unfold i, N; lia).
    rewrite take_insert_lt by lia.
    rewrite insert_take_drop by (rewrite length_take; lia).
    rewrite take_take, Nat.min_l by lia.
    rewrite drop_ge by (rewrite length_take; lia).
    cbn [replicate]. rewrite <- app_assoc. reflexivity.
Qed.

Lemma pad_data_ok data dl bs :
  let p := AES_BLOCK_SIZE - dl mod AES_BLOCK_SIZE in
  0 <= dl -> dl + p <= bs -> bs <= Z.of_nat (length data) ->
  dl + p < 2 ^ size_bits ->
  pad_data size_bits data dl bs
  = (take (Z.to_nat dl) data ++ replicate (Z.to_nat p) (uint8 p)
       ++ drop (Z.to_nat (dl + p)) data,
     dl + p).
Proof.
  intros p Hdl Hbs Hlen Hmax.
  assert (Hp : 0 < p <= 16)
    by (unfold p, AES_BLOCK_SIZE; pose proof (Z.mod_pos_bound dl 16); lia).
  unfold pad_data. fold p. unfold wrap. rewrite Z.mod_small by lia.
  rewrite (gtb_false _ _ Hbs).
  rewrite pad_fill_spec by lia.
  replace (Z.to_nat (dl + p) - Z.to_nat p)%nat with (Z.to_nat dl) by lia.
  reflexivity.
Qed.

Lemma nth_in_padding (A D : list byte) n b i :
  (length A <= i < length A + n)%nat ->
  nth i (A ++ replicate n b ++ D) x00 = b.
Proof.
  intros Hi. rewrite nth_lookup, lookup_app_r by lia.
  rewrite lookup_app_l by (rewrite length_replicate; lia).
  rewrite lookup_replicate_2 by lia. reflexivity.
Qed.

(** X21.  Padding and its removal.  On a buffer with room for it,
    [pad_data] keeps the first [data_len] bytes, returns the next multiple of
    the block size above [data_len] (a whole block more when [data_len] is a
    multiple already), and [unpad_data] on the padded buffer and that length
    gives [data_len] back. *)
Theorem unpad_after_pad data data_len buffer_size :
  0 <= data_len ->
  data_len + (AES_BLOCK_SIZE - data_len mod AES_BLOCK_SIZE) <= buffer_size ->
  buffer_size <= Z.of_nat (length data) ->
  buffer_size < 2 ^ size_bits ->
  let padded := pad_data size_bits data data_len buffer_size in
  data_len < snd padded <= data_len + AES_BLOCK_SIZE
  /\ snd padded mod AES_BLOCK_SIZE = 0
  /\ take (Z.to_nat data_len) (fst padded) = take (Z.to_nat data_len) data
  /\ unpad_data size_bits (fst padded) (snd padded) = data_len.
Proof.
  intros Hdl Hbs Hlen Hmax padded. subst padded.
  set (p := AES_BLOCK_SIZE - data_len mod AES_BLOCK_SIZE) in *.
  assert (Hp : 0 < p <= 16)
    by (unfold p, AES_BLOCK_SIZE; pose proof (Z.mod_pos_bound data_len 16); lia).
  rewrite pad_data_ok by (fold p; lia). fold p. cbn [fst snd].
  assert (HA : length (take (Z.to_nat data_len) data) = Z.to_nat data_len)
    by (rewrite length_take; lia).
  split; [unfold AES_BLOCK_SIZE; lia|]. split.
  { unfold p, AES_BLOCK_SIZE.
    replace (data_len + (16 - data_len mod 16))
      with (data_len - data_len mod 16 + 1 * 16) by lia.
    rewrite Z.mod_add by lia. rewrite Zminus_mod, Z.mod_mod, Z.sub_diag by lia.
    reflexivity. }
  split.
  { rewrite take_app_le by lia. rewrite take_take. f_equal. lia. }
  unfold unpad_data.
  assert (Hz : (data_len + p =? 0) = false) by (apply Z.eqb_neq; lia).
  rewrite Hz.
  rewrite nth_in_padding by lia. rewrite byte_value_uint8.
  rewrite Z.mod_small by lia.
  assert (Hz' : (p =? 0) = false) by (apply Z.eqb_neq; lia). rewrite Hz'.
  rewrite (gtb_false p AES_BLOCK_SIZE) by (unfold AES_BLOCK_SIZE; lia).
  cbn [orb]. unfold wrap.
  replace (data_len + p - p) with data_len by lia.
  rewrite Z.mod_small by lia.
  replace (data_len + p - data_len) with p by lia.
  assert (Hall : forallb
            (fun i => byte_value
                        (nth (Z.to_nat i)
                           (take (Z.to_nat data_len) data
                              ++ replicate (Z.to_nat p) (uint8 p)
                              ++ drop (Z.to_nat (data_len + p)) data) x00) =? p)
            (seqZ data_len p) = true).
  { apply forallb_forall. intros i Hi.
    apply list_elem_of_In, elem_of_seqZ in Hi.
    rewrite nth_in_padding by lia. rewrite byte_value_uint8.
    rewrite Z.mod_small by lia. apply Z.eqb_refl. }
  rewrite Hall. reflexivity.
Qed.

(** X22.  [unpad_data] trusts the last byte.  When the last byte of the data
    is a padding length between 1 and 16 that exceeds [data_len], the
    subtraction [data_len - padding_len] wraps around in [size_t], the
    verification loop is not entered, and the function returns a length
    beyond the data: [2 ^ size_bits - (padding_len - data_len)]. *)
Theorem unpad_data_wraps_around data data_len :
  let padding_len :=
    byte_value (nth (Z.to_nat (data_len - 1)) data x00) in
  0 < data_len < padding_len -> padding_len <= AES_BLOCK_SIZE ->
  AES_BLOCK_SIZE < 2 ^ size_bits ->
  unpad_data size_bits data data_len
  = 2 ^ size_bits - (padding_len - data_len)
  /\ data_len < unpad_data size_bits data data_len.
Proof.
  intros p Hlt Hle Hbits. unfold unpad_data. fold p.
  assert (Hz : (data_len =? 0) = false) by (apply Z.eqb_neq; lia). rewrite Hz.
  assert (Hz' : (p =? 0) = false) by (apply Z.eqb_neq; lia). rewrite Hz'.
  rewrite (gtb_false _ _ Hle). cbn [orb].
  assert (Hw : wrap size_bits (data_len - p) = 2 ^ size_bits - (p - data_len)).
  { unfold wrap, AES_BLOCK_SIZE in *.
    replace (data_len - p) with (2 ^ size_bits - (p - data_len) + (-1) * 2 ^ size_bits)
      by lia.
    rewrite Z.mod_add by lia. apply Z.mod_small. lia. }
  rewrite Hw.
  rewrite seqZ_nil by (unfold AES_BLOCK_SIZE in *; lia).
  cbn [forallb]. unfold AES_BLOCK_SIZE in *. split; [reflexivity|lia].
Qed.

End Pad.

Lemma unpad_after_pad_witness :
  3 < snd (pad_data 64 ([x61; x62; x63] ++ replicate 29 x00) 3 32)
    <= 3 + AES_BLOCK_SIZE
  /\ snd (pad_data 64 ([x61; x62; x63] ++ replicate 29 x00) 3 32)
       mod AES_BLOCK_SIZE = 0
  /\ take (Z.to_nat 3)
       (fst (pad_data 64 ([x61; x62; x63] ++ replicate 29 x00) 3 32))
     = take (Z.to_nat 3) ([x61; x62; x63] ++ replicate 29 x00)
  /\ unpad_data 64
       (fst (pad_data 64 ([x61; x62; x63] ++ replicate 29 x00) 3 32))
       (snd (pad_data 64 ([x61; x62; x63] ++ replicate 29 x00) 3 32)) = 3.
Proof.
  apply (unpad_after_pad 64 ([x61; x62; x63] ++ replicate 29 x00) 3 32);
    [lia | vm_compute; discriminate | vm_compute; discriminate | reflexivity].
Defined.

Lemma unpad_data_wraps_around_witness :
  unpad_data 64 [x02] 1
  = 2 ^ 64 - (byte_value (nth (Z.to_nat (1 - 1)) [x02] x00) - 1)
  /\ 1 < unpad_data 64 [x02] 1.
Proof.
  apply (unpad_data_wraps_around 64 [x02] 1);
    [split; reflexivity | vm_compute; discriminate | reflexivity].
Defined.


(** *** One command of a stream *)

Section Steps.
Variable P : platform.

Lemma keyed_frame sess w sess' w' k v :
  keys w' = keys w -> key_handle sess' = key_handle sess ->
  iv sess' = iv sess -> initialized sess' = initialized sess ->
  keyed sess w k v -> keyed sess' w' k v.
Proof.
  intros Hk Hh Hi Hn (H1 & H2 & H3 & H4). unfold keyed.
  rewrite Hk, Hh, Hi, Hn. auto.
Qed.

Lemma encrypt_continuation_step params sess w k chain :
  let src := TEE_MemMove (memref_buffer (prm0 params)) (memref_size (prm0 params)) in
  let out := fst (cbc_blocks P TEE_MODE_ENCRYPT k chain src) in
  let chain' := snd (cbc_blocks P TEE_MODE_ENCRYPT k chain src) in
  faults w = [] -> streaming TEE_MODE_ENCRYPT (enc_op sess) w k chain ->
  value_a (prm2 params) = 0 ->
  Z.of_nat (length src) = memref_size (prm0 params) ->
  memref_size (prm0 params) <= CHUNK_SIZE ->
  memref_size (prm0 params) mod 16 = 0 ->
  memref_size (prm0 params) <= memref_size (prm1 params) ->
  exists params' sess' w',
    encrypt_chunk P chunk_param_types params sess w
    = Some (TEE_SUCCESS, params', sess', w')
    /\ memref_buffer (prm1 params')
       = TEE_MemMove_at (memref_buffer (prm1 params)) 0 out (Z.of_nat (length out))
    /\ memref_size (prm1 params') = Z.of_nat (length out)
    /\ faults w' = []
    /\ streaming TEE_MODE_ENCRYPT (enc_op sess') w' k chain'
    /\ forall k0 v0, keyed sess w k0 v0 -> keyed sess' w' k0 v0.
Proof.
  intros src out chain' Hf (Hn & op & Ho & Hm & Hk & Hc & Hp) Hfirst Hlen Hsz Hal Hd.
  unfold encrypt_chunk.
  rewrite (neqb_false _ _ eq_refl), (gtb_false _ _ Hsz), (neqb_false _ _ Hfirst).
  rewrite (encrypt_the_chunk_ok P params sess w op k chain) by assumption.
  rewrite Hm. fold src out chain'.
  eexists _, _, _. split; [reflexivity|].
  split; [reflexivity|]. split; [reflexivity|]. split; [exact Hf|].
  split.
  - split; [exact Hn|]. eexists. split; [apply lookup_insert_eq|].
    cbn. auto.
  - intros k0 v0. apply keyed_frame; reflexivity.
Qed.

Lemma encrypt_keyed_step params sess w k v :
  let src := TEE_MemMove (memref_buffer (prm0 params)) (memref_size (prm0 params)) in
  let out := fst (cbc_blocks P TEE_MODE_ENCRYPT k v src) in
  let chain' := snd (cbc_blocks P TEE_MODE_ENCRYPT k v src) in
  faults w = [] -> keyed sess w k v ->
  value_a (prm2 params) <> 0 ->
  Z.of_nat (length src) = memref_size (prm0 params) ->
  memref_size (prm0 params) <= CHUNK_SIZE ->
  memref_size (prm0 params) mod 16 = 0 ->
  memref_size (prm0 params) <= memref_size (prm1 params) ->
  exists params' sess' w',
    encrypt_chunk P chunk_param_types params sess w
    = Some (TEE_SUCCESS, params', sess', w')
    /\ memref_buffer (prm1 params')
       = TEE_MemMove_at (memref_buffer (prm1 params)) 0 out (Z.of_nat (length out))
    /\ memref_size (prm1 params') = Z.of_nat (length out)
    /\ faults w' = []
    /\ streaming TEE_MODE_ENCRYPT (enc_op sess') w' k chain'
    /\ keyed sess' w' k v.
Proof.
  intros src out chain' Hf (Hinit & Hk & Hl & Hv) Hfirst Hlen Hsz Hal Hd.
  destruct (fresh_in_spec (ops w)) as [Hnn Hfresh].
  unfold encrypt_chunk. rewrite (neqb_false _ _ eq_refl), (gtb_false _ _ Hsz).
  rewrite (neqb_true _ _ Hfirst), Hinit. cbn [negb].
  unfold bind at 1. unfold ret at 1. rewrite (neqb_false _ _ eq_refl).
  rewrite (bind_some _ _ _ _ _ (init_encryption_ok sess k w Hf Hk Hl)).
  cbv beta iota. rewrite (neqb_false _ _ eq_refl). rewrite Hv.
  erewrite (encrypt_the_chunk_ok P params _ _ _ k v);
    cbn [enc_op set_enc_op set_total_bytes set_total_enc_time_us ops set_ops
         faults op_key op_chain op_pending op_mode];
    [|exact Hf|exact Hnn|apply lookup_insert_eq|reflexivity|reflexivity|reflexivity
     |exact Hlen|exact Hal|exact Hd].
  fold src out chain'.
  eexists _, _, _. split; [reflexivity|].
  split; [reflexivity|]. split; [reflexivity|]. split; [exact Hf|].
  split.
  - split; [exact Hnn|]. eexists. split; [apply lookup_insert_eq|].
    cbn. auto.
  - unfold keyed. cbn. auto.
Qed.

Lemma encrypt_chunk_generates_key params sess w :
  faults w = [] -> initialized sess = false ->
  value_a (prm2 params) <> 0 ->
  memref_size (prm0 params) <= CHUNK_SIZE ->
  let sess1 :=
    set_initialized true
      (set_iv (resize (Z.to_nat AES_IV_SIZE) x00
                 (drop (Z.to_nat AES_KEY_SIZE) (rng w)))
         (set_key_handle (fresh_in (keys w)) sess)) in
  let w1 :=
    set_rng (drop (Z.to_nat AES_IV_SIZE) (drop (Z.to_nat AES_KEY_SIZE) (rng w)))
      (set_keys (<[fresh_in (keys w) :=
                     Some (resize (Z.to_nat AES_KEY_SIZE) x00 (rng w))]>
                   (keys w)) w) in
  encrypt_chunk P chunk_param_types params sess w
  = encrypt_chunk P chunk_param_types params sess1 w1.
Proof.
  intros Hf Hinit Hfirst Hsz sess1 w1. unfold encrypt_chunk.
  rewrite (neqb_false _ _ eq_refl), (gtb_false _ _ Hsz).
  rewrite (neqb_true _ _ Hfirst), Hinit.
  change (initialized sess1) with true. cbn [negb].
  unfold bind at 1. unfold bind at 1.
  rewrite (init_crypto_key_ok sess w Hf). cbv beta iota.
  rewrite (neqb_false _ _ eq_refl). unfold ret at 1. cbv beta iota.
  rewrite (neqb_false _ _ eq_refl).
  symmetry. unfold bind at 1. unfold ret at 1. cbv beta iota.
  rewrite (neqb_false _ _ eq_refl). reflexivity.
Qed.

Lemma encrypt_fresh_step params sess w :
  let src := TEE_MemMove (memref_buffer (prm0 params)) (memref_size (prm0 params)) in
  let k := resize (Z.to_nat AES_KEY_SIZE) x00 (rng w) in
  let v := resize (Z.to_nat AES_IV_SIZE) x00
             (drop (Z.to_nat AES_KEY_SIZE) (rng w)) in
  let out := fst (cbc_blocks P TEE_MODE_ENCRYPT k v src) in
  let chain' := snd (cbc_blocks P TEE_MODE_ENCRYPT k v src) in
  faults w = [] -> initialized sess = false ->
  value_a (prm2 params) <> 0 ->
  Z.of_nat (length src) = memref_size (prm0 params) ->
  memref_size (prm0 params) <= CHUNK_SIZE ->
  memref_size (prm0 params) mod 16 = 0 ->
  memref_size (prm0 params) <= memref_size (prm1 params) ->
  exists params' sess' w',
    encrypt_chunk P chunk_param_types params sess w
    = Some (TEE_SUCCESS, params', sess', w')
    /\ memref_buffer (prm1 params')
       = TEE_MemMove_at (memref_buffer (prm1 params)) 0 out (Z.of_nat (length out))
    /\ memref_size (prm1 params') = Z.of_nat (length out)
    /\ faults w' = []
    /\ streaming TEE_MODE_ENCRYPT (enc_op sess') w' k chain'
    /\ keyed sess' w' k v.
Proof.
  intros src k v out chain' Hf Hinit Hfirst Hlen Hsz Hal Hd.
  rewrite (encrypt_chunk_generates_key params sess w Hf Hinit Hfirst Hsz).
  apply encrypt_keyed_step; try assumption.
  unfold keyed. cbn [initialized set_initialized keys set_rng set_keys key_handle
                     set_iv set_key_handle iv].
  split; [reflexivity|]. split; [apply lookup_insert_eq|].
  split; [unfold k; rewrite length_resize; vm_compute; discriminate|].
  unfold v. apply take_ge. rewrite length_resize. reflexivity.
Qed.


Lemma decrypt_continuation_step params sess w k chain :
  let src := TEE_MemMove (memref_buffer (prm0 params)) (memref_size (prm0 params)) in
  let out := fst (cbc_blocks P TEE_MODE_DECRYPT k chain src) in
  let chain' := snd (cbc_blocks P TEE_MODE_DECRYPT k chain src) in
  faults w = [] -> streaming TEE_MODE_DECRYPT (dec_op sess) w k chain ->
  value_a (prm2 params) = 0 ->
  Z.of_nat (length src) = memref_size (prm0 params) ->
  memref_size (prm0 params) <= CHUNK_SIZE ->
  memref_size (prm0 params) mod 16 = 0 ->
  memref_size (prm0 params) <= memref_size (prm1 params) ->
  exists params' sess' w',
    decrypt_chunk P chunk_param_types params sess w
    = Some (TEE_SUCCESS, params', sess', w')
    /\ memref_buffer (prm1 params')
       = TEE_MemMove_at (memref_buffer (prm1 params)) 0 out (Z.of_nat (length out))
    /\ memref_size (prm1 params') = Z.of_nat (length out)
    /\ faults w' = []
    /\ streaming TEE_MODE_DECRYPT (dec_op sess') w' k chain'.
Proof.
  intros src out chain' Hf (Hn & op & Ho & Hm & Hk & Hc & Hp) Hfirst Hlen Hsz Hal Hd.
  unfold decrypt_chunk.
  rewrite (neqb_false _ _ eq_refl), (gtb_false _ _ Hsz), (neqb_false _ _ Hfirst).
  rewrite (decrypt_the_chunk_ok P params sess w op k chain) by assumption.
  rewrite Hm. fold src out chain'.
  eexists _, _, _. split; [reflexivity|].
  split; [reflexivity|]. split; [reflexivity|]. split; [exact Hf|].
  split; [exact Hn|]. eexists. split; [apply lookup_insert_eq|].
  cbn. auto.
Qed.

Lemma decrypt_keyed_step params sess w k v :
  let src := TEE_MemMove (memref_buffer (prm0 params)) (memref_size (prm0 params)) in
  let out := fst (cbc_blocks P TEE_MODE_DECRYPT k v src) in
  let chain' := snd (cbc_blocks P TEE_MODE_DECRYPT k v src) in
  faults w = [] -> keyed sess w k v ->
  value_a (prm2 params) <> 0 ->
  Z.of_nat (length src) = memref_size (prm0 params) ->
  memref_size (prm0 params) <= CHUNK_SIZE ->
  memref_size (prm0 params) mod 16 = 0 ->
  memref_size (prm0 params) <= memref_size (prm1 params) ->
  exists params' sess' w',
    decrypt_chunk P chunk_param_types params sess w
    = Some (TEE_SUCCESS, params', sess', w')
    /\ memref_buffer (prm1 params')
       = TEE_MemMove_at (memref_buffer (prm1 params)) 0 out (Z.of_nat (length out))
    /\ memref_size (prm1 params') = Z.of_nat (length out)
    /\ faults w' = []
    /\ streaming TEE_MODE_DECRYPT (dec_op sess') w' k chain'.
Proof.
  intros src out chain' Hf (Hinit & Hk & Hl & Hv) Hfirst Hlen Hsz Hal Hd.
  destruct (fresh_in_spec (ops w)) as [Hnn Hfresh].
  unfold decrypt_chunk. rewrite (neqb_false _ _ eq_refl), (gtb_false _ _ Hsz).
  rewrite (neqb_true _ _ Hfirst), Hinit. cbn [negb].
  rewrite (bind_some _ _ _ _ _ (init_decryption_ok sess k w Hf Hk Hl)).
  cbv beta iota. rewrite (neqb_false _ _ eq_refl). rewrite Hv.
  erewrite (decrypt_the_chunk_ok P params _ _ _ k v);
    cbn [dec_op set_dec_op set_total_dec_time_us ops set_ops
         faults op_key op_chain op_pending op_mode];
    [|exact Hf|exact Hnn|apply lookup_insert_eq|reflexivity|reflexivity|reflexivity
     |exact Hlen|exact Hal|exact Hd].
  fold src out chain'.
  eexists _, _, _. split; [reflexivity|].
  split; [reflexivity|]. split; [reflexivity|]. split; [exact Hf|].
  split; [exact Hnn|]. eexists. split; [apply lookup_insert_eq|].
  cbn. auto.
Qed.

End Steps.

(** *** What the client sends *)

Lemma padded_props (chunk : list byte) :
  Z.of_nat (length (padded chunk)) mod AES_BLOCK_SIZE = 0
  /\ Z.of_nat (length chunk) <= Z.of_nat (length (padded chunk))
     < Z.of_nat (length chunk) + AES_BLOCK_SIZE
  /\ take (length chunk) (padded chunk) = chunk.
Proof.
  unfold padded, AES_BLOCK_SIZE.
  pose proof (Z.mod_pos_bound (Z.of_nat (length chunk)) 16 ltac:(lia)) as Hb.
  destruct (Z.of_nat (length chunk) mod 16 =? 0) eqn:E.
  - apply Z.eqb_eq in E. split; [exact E|]. split; [lia|]. apply firstn_all.
  - apply Z.eqb_neq in E. rewrite length_app, length_replicate.
    split; [|split; [lia|now rewrite take_app_length]].
    rewrite Nat2Z.inj_add, Z2Nat.id by lia.
    replace (Z.of_nat (length chunk) + (16 - Z.of_nat (length chunk) mod 16))
      with (Z.of_nat (length chunk) - Z.of_nat (length chunk) mod 16 + 1 * 16)
      by lia.
    rewrite Z.mod_add by lia. rewrite Zminus_mod, Z.mod_mod, Z.sub_diag by lia.
    reflexivity.
Qed.

Lemma padded_chunk_size (chunk : list byte) :
  Z.of_nat (length chunk) <= CHUNK_SIZE ->
  Z.of_nat (length (padded chunk)) <= CHUNK_SIZE.
Proof.
  intros Hle. destruct (padded_props chunk) as (Hal & Hb & _).
  unfold CHUNK_SIZE, AES_BLOCK_SIZE in *.
  pose proof (Z.div_mod (Z.of_nat (length (padded chunk))) 16 ltac:(lia)).
  pose proof (Z.div_mod (Z.of_nat (length chunk)) 16 ltac:(lia)).
  pose proof (Z.mod_pos_bound (Z.of_nat (length chunk)) 16 ltac:(lia)).
  lia.
Qed.

(** The plaintext buffer after [read] and, for a ragged chunk, [pad_data]. *)
Lemma sent_chunk size_bits (chunk pbuf : list byte) :
  let n := Z.of_nat (length chunk) in
  let buf := chunk ++ drop (length chunk) pbuf in
  n <= CHUNK_SIZE ->
  Z.of_nat (length pbuf) = CHUNK_SIZE + AES_BLOCK_SIZE ->
  CHUNK_SIZE + AES_BLOCK_SIZE < 2 ^ size_bits ->
  exists buf',
    (if negb (n mod AES_BLOCK_SIZE =? 0)
     then pad_data size_bits buf n (CHUNK_SIZE + AES_BLOCK_SIZE)
     else (buf, n))
    = (buf', Z.of_nat (length (padded chunk)))
    /\ length buf' = length pbuf
    /\ take (length (padded chunk)) buf' = padded chunk.
Proof.
  intros n buf Hle Hlen Hbits.
  assert (Hbuf : length buf = length pbuf).
  { unfold buf. rewrite length_app, length_drop.
    unfold CHUNK_SIZE, AES_BLOCK_SIZE in *. lia. }
  pose proof (Z.mod_pos_bound n 16 ltac:(lia)) as Hb.
  unfold padded. fold n. destruct (n mod AES_BLOCK_SIZE =? 0) eqn:E; cbn [negb].
  - exists buf. split; [reflexivity|]. split; [exact Hbuf|].
    unfold buf. now rewrite take_app_length.
  - apply Z.eqb_neq in E. unfold AES_BLOCK_SIZE in *.
    rewrite pad_data_ok;
      [|lia|unfold AES_BLOCK_SIZE, CHUNK_SIZE in *; lia
       |rewrite Hbuf; unfold AES_BLOCK_SIZE in *; lia
       |unfold AES_BLOCK_SIZE, CHUNK_SIZE in *; lia].
    unfold AES_BLOCK_SIZE.
    assert (Htk : take (Z.to_nat n) buf = chunk).
    { unfold buf, n. rewrite Nat2Z.id. now rewrite take_app_length. }
    rewrite Htk. eexists. split.
    { apply pair_equal_spec. split; [reflexivity|].
      rewrite length_app, length_replicate. unfold n in *. lia. }
    split.
    + rewrite !length_app, length_replicate, length_drop. unfold n in *.
      unfold CHUNK_SIZE in *. lia.
    + rewrite app_assoc. apply take_app_length.
Qed.

(** *** Encrypting a file *)

Section Files.
Variable P : platform.
Variable size_bits : Z.
Hypothesis Hbits : CHUNK_SIZE + AES_BLOCK_SIZE < 2 ^ size_bits.
Hypothesis Hinv : inverts P.

Lemma invoke_encrypt sess w fs hf params :
  TEEC_InvokeCommand P TA_SECURE_STORAGE_CMD_ENCRYPT_CHUNK chunk_types params
    (mkHost w sess fs hf)
  = match encrypt_chunk P chunk_param_types params sess w with
    | Some (res, params', sess', w') => Some ((res, params'), mkHost w' sess' fs hf)
    | None => None
    end.
Proof. reflexivity. Qed.

Lemma invoke_decrypt sess w fs hf params :
  TEEC_InvokeCommand P TA_SECURE_STORAGE_CMD_DECRYPT_CHUNK chunk_types params
    (mkHost w sess fs hf)
  = match decrypt_chunk P chunk_param_types params sess w with
    | Some (res, params', sess', w') => Some ((res, params'), mkHost w' sess' fs hf)
    | None => None
    end.
Proof. reflexivity. Qed.

Lemma chunk_positive (rest : list byte) :
  rest <> [] ->
  0 < Z.of_nat (length (take (Z.to_nat CHUNK_SIZE) rest)) <= CHUNK_SIZE.
Proof.
  intros Hne. rewrite length_take. unfold CHUNK_SIZE.
  destruct rest; [congruence|]. cbn [length]. lia.
Qed.

Lemma encrypted_length k chain (chunk : list byte) :
  length (fst (cbc_blocks P TEE_MODE_ENCRYPT k chain (padded chunk)))
  = length (padded chunk).
Proof.
  destruct (padded_props chunk) as (Hal & _).
  exact (proj1 (Hinv k chain (padded chunk) Hal)).
Qed.

Lemma encrypt_loop_iter fuel pin pout done rest cfile w sess fs pbuf cbuf total
    is_first k chain k0 v0 :
  let chunk := take (Z.to_nat CHUNK_SIZE) rest in
  let out := fst (cbc_blocks P TEE_MODE_ENCRYPT k chain (padded chunk)) in
  let chain' := snd (cbc_blocks P TEE_MODE_ENCRYPT k chain (padded chunk)) in
  rest <> [] -> pin <> pout ->
  fs !! pin = Some (done ++ rest) -> fs !! pout = Some cfile ->
  Z.of_nat (length pbuf) = CHUNK_SIZE + AES_BLOCK_SIZE ->
  Z.of_nat (length cbuf) = CHUNK_SIZE + AES_BLOCK_SIZE ->
  (forall params,
     value_a (prm2 params) = is_first ->
     TEE_MemMove (memref_buffer (prm0 params)) (memref_size (prm0 params))
     = padded chunk ->
     memref_size (prm0 params) = Z.of_nat (length (padded chunk)) ->
     memref_size (prm1 params) = CHUNK_SIZE + AES_BLOCK_SIZE ->
     exists params' sess' w',
       encrypt_chunk P chunk_param_types params sess w
       = Some (TEE_SUCCESS, params', sess', w')
       /\ memref_buffer (prm1 params')
          = TEE_MemMove_at (memref_buffer (prm1 params)) 0 out
              (Z.of_nat (length out))
       /\ memref_size (prm1 params') = Z.of_nat (length out)
       /\ faults w' = []
       /\ streaming TEE_MODE_ENCRYPT (enc_op sess') w' k chain'
       /\ keyed sess' w' k0 v0) ->
  exists sess' w' pbuf' cbuf' total',
    encrypt_loop P size_bits (S fuel) (mkFd pin (Z.of_nat (length done)))
      (mkFd pout (Z.of_nat (length cfile))) pbuf cbuf total is_first
      (mkHost w sess fs [])
    = encrypt_loop P size_bits fuel (mkFd pin (Z.of_nat (length (done ++ chunk))))
        (mkFd pout (Z.of_nat (length (cfile ++ out)))) pbuf' cbuf' total' 0
        (mkHost w' sess' (<[pout := cfile ++ out]> fs) [])
    /\ Z.of_nat (length pbuf') = CHUNK_SIZE + AES_BLOCK_SIZE
    /\ Z.of_nat (length cbuf') = CHUNK_SIZE + AES_BLOCK_SIZE
    /\ faults w' = []
    /\ streaming TEE_MODE_ENCRYPT (enc_op sess') w' k chain'
    /\ keyed sess' w' k0 v0.
Proof.
  intros chunk out chain' Hne Hpaths Hin Hout Hpb Hcb Hstep.
  pose proof (chunk_positive rest Hne) as Hchunk. fold chunk in Hchunk.
  destruct (padded_props chunk) as (Hal & Hpad & Htk).
  pose proof (padded_chunk_size chunk (proj2 Hchunk)) as Hpsz.
  pose proof (encrypted_length k chain chunk) as Holen. fold out in Holen.
  cbn [encrypt_loop].
  rewrite (bind_some _ _ _ _ _
             (read_calm pin (Z.of_nat (length done)) CHUNK_SIZE (done ++ rest)
                (mkHost w sess fs []) eq_refl Hin)).
  cbv beta iota zeta.
  rewrite Nat2Z.id, drop_app_length. fold chunk.
  rewrite (gtb_true _ 0) by lia.
  destruct (sent_chunk size_bits chunk pbuf (proj2 Hchunk) Hpb Hbits)
    as (buf' & Hsent & Hlen' & Htake).
  rewrite Hsent.
  assert (Hnz : (Z.of_nat (length (padded chunk)) =? 0) = false)
    by (apply Z.eqb_neq; lia).
  rewrite Hnz, andb_false_r.
  unfold bind at 1. rewrite invoke_encrypt.
  edestruct Hstep as (params' & sess' & w' & Hrun & Hb & Hs & Hf & Hst & Hkd);
    [| | | |rewrite Hrun];
    [reflexivity
    |cbn [prm0 memref_buffer memref_size]; unfold TEE_MemMove;
     rewrite Nat2Z.id; exact Htake
    |reflexivity|reflexivity|].
  cbv beta iota. change TEEC_SUCCESS with TEE_SUCCESS.
  rewrite (neqb_false _ _ eq_refl).
  cbn [prm1 memref_buffer memref_size] in Hb, Hs. rewrite Hb, Hs.
  rewrite (bind_some _ _ _ _ _
             (write_calm pout _ (Z.of_nat (length out)) cfile
                (mkHost w' sess' fs []) eq_refl Hout)).
  cbv beta iota zeta.
  assert (Hw : take (Z.to_nat (Z.of_nat (length out)))
                 (TEE_MemMove_at cbuf 0 out (Z.of_nat (length out))) = out).
  { unfold TEE_MemMove_at. rewrite Nat2Z.id. change (Z.to_nat 0) with 0%nat.
    rewrite take_0, firstn_all. cbn [app]. apply take_app_length. }
  rewrite Hw. rewrite (neqb_false _ _ eq_refl).
  eexists sess', w', buf', _, _. split.
  { rewrite !length_app, !Nat2Z.inj_add. reflexivity. }
  split; [lia|]. split.
  { unfold TEE_MemMove_at. rewrite Nat2Z.id. change (Z.to_nat 0) with 0%nat.
    rewrite take_0, firstn_all. cbn [app Nat.add].
    rewrite length_app, length_drop. lia. }
  auto.
Qed.

Lemma cipher_chunks_cons n k chain (rest : list byte) :
  rest <> [] ->
  cipher_chunks P (S n) k chain rest
  = fst (cbc_blocks P TEE_MODE_ENCRYPT k chain
           (padded (take (Z.to_nat CHUNK_SIZE) rest)))
    ++ cipher_chunks P n k
         (snd (cbc_blocks P TEE_MODE_ENCRYPT k chain
                 (padded (take (Z.to_nat CHUNK_SIZE) rest))))
         (drop (Z.to_nat CHUNK_SIZE) rest).
Proof.
  intros Hne. cbn [cipher_chunks]. destruct rest; [congruence|].
  destruct (cbc_blocks P TEE_MODE_ENCRYPT k chain _). reflexivity.
Qed.

Lemma cipher_chunks_nil n k chain : cipher_chunks P n k chain [] = [].
Proof. destruct n; reflexivity. Qed.

Lemma drop_chunk_shorter (rest : list byte) :
  rest <> [] ->
  (length (drop (Z.to_nat CHUNK_SIZE) rest) < length rest)%nat.
Proof.
  intros Hne. rewrite length_drop. destruct rest; [congruence|].
  cbn [length]. unfold CHUNK_SIZE. lia.
Qed.

(** The loop in the middle of a stream: the input stands after [done], the
    output file holds [cfile] and is written at its end. *)
Lemma encrypt_loop_rest fuel : forall pin pout done rest cfile w sess fs pbuf cbuf
    total k chain k0 v0,
  (length rest < fuel)%nat -> pin <> pout ->
  fs !! pin = Some (done ++ rest) -> fs !! pout = Some cfile ->
  Z.of_nat (length pbuf) = CHUNK_SIZE + AES_BLOCK_SIZE ->
  Z.of_nat (length cbuf) = CHUNK_SIZE + AES_BLOCK_SIZE ->
  faults w = [] -> streaming TEE_MODE_ENCRYPT (enc_op sess) w k chain ->
  keyed sess w k0 v0 ->
  exists sess' w',
    encrypt_loop P size_bits fuel (mkFd pin (Z.of_nat (length done)))
      (mkFd pout (Z.of_nat (length cfile))) pbuf cbuf total 0
      (mkHost w sess fs [])
    = Some (TEEC_SUCCESS,
            mkHost w' sess'
              (<[pout := cfile ++ cipher_chunks P fuel k chain rest]> fs) [])
    /\ faults w' = [] /\ keyed sess' w' k0 v0.
Proof.
  induction fuel as [|fuel IH];
    intros pin pout done rest cfile w sess fs pbuf cbuf total k chain k0 v0
           Hfuel Hpaths Hin Hout Hpb Hcb Hf Hst Hkd; [lia|].
  destruct (decide (rest = [])) as [->|Hne].
  - exists sess, w. split; [|auto].
    cbn [encrypt_loop cipher_chunks].
    rewrite (bind_some _ _ _ _ _
               (read_calm pin (Z.of_nat (length done)) CHUNK_SIZE (done ++ [])
                  (mkHost w sess fs []) eq_refl Hin)).
    cbv beta iota zeta.
    rewrite Nat2Z.id, drop_app_length, take_nil. cbn [length].
    rewrite Nat2Z.inj_0, (gtb_false 0 0) by lia.
    rewrite app_nil_r, insert_id by exact Hout. reflexivity.
  - edestruct (encrypt_loop_iter fuel pin pout done rest cfile w sess fs pbuf cbuf
                 total 0 k chain k0 v0 Hne Hpaths Hin Hout Hpb Hcb)
      as (sess1 & w1 & pbuf1 & cbuf1 & total1 & Hiter & Hpb1 & Hcb1 & Hf1 & Hst1 & Hkd1).
    { intros params Hfirst Hsrc Hsz0 Hsz1.
      destruct (padded_props (take (Z.to_nat CHUNK_SIZE) rest)) as (Hal & _).
      pose proof (padded_chunk_size _ (proj2 (chunk_positive rest Hne))) as Hpsz.
      destruct (encrypt_continuation_step P params sess w k chain)
        as (params' & sess' & w' & Hrun & Hb & Hs & Hf' & Hst' & Hkd');
        try assumption.
      - rewrite Hsrc. now rewrite Hsz0.
      - rewrite Hsz0. exact Hpsz.
      - rewrite Hsz0. exact Hal.
      - rewrite Hsz0, Hsz1. unfold AES_BLOCK_SIZE. lia.
      - rewrite Hsrc in *. exists params', sess', w'. auto 10. }
    rewrite Hiter.
    set (chunk := take (Z.to_nat CHUNK_SIZE) rest) in *.
    set (out := fst (cbc_blocks P TEE_MODE_ENCRYPT k chain (padded chunk))) in *.
    set (chain' := snd (cbc_blocks P TEE_MODE_ENCRYPT k chain (padded chunk))) in *.
    edestruct (IH pin pout (done ++ chunk) (drop (Z.to_nat CHUNK_SIZE) rest)
                 (cfile ++ out) w1 sess1 (<[pout := cfile ++ out]> fs) pbuf1 cbuf1
                 total1 k chain' k0 v0)
      as (sess2 & w2 & Hrest & Hf2 & Hkd2); [| | | | | |exact Hf1|exact Hst1|exact Hkd1|].
    + pose proof (drop_chunk_shorter rest Hne). lia.
    + exact Hpaths.
    + rewrite lookup_insert_ne by congruence.
      rewrite <- app_assoc. unfold chunk. rewrite take_drop. exact Hin.
    + apply lookup_insert_eq.
    + exact Hpb1.
    + exact Hcb1.
    + rewrite Hrest. exists sess2, w2. split; [|auto].
      rewrite insert_insert_eq, <- app_assoc.
      rewrite (cipher_chunks_cons fuel k chain rest Hne). reflexivity.
Qed.

Lemma encrypt_file_ok pin pout content w sess fs :
  let k := resize (Z.to_nat AES_KEY_SIZE) x00 (rng w) in
  let v := resize (Z.to_nat AES_IV_SIZE) x00
             (drop (Z.to_nat AES_KEY_SIZE) (rng w)) in
  pin <> pout -> fs !! pin = Some content ->
  faults w = [] -> initialized sess = false ->
  Z.of_nat (length content) < 2 ^ 64 ->
  exists sess' w',
    encrypt_file P size_bits pin pout (mkHost w sess fs [])
    = Some (TEEC_SUCCESS,
            mkHost w' sess'
              (<[pout := bytes_of_uint64 (Z.of_nat (length content))
                         ++ cipher_chunks P (S (length content)) k v content]> fs)
              [])
    /\ faults w' = []
    /\ (content <> [] -> keyed sess' w' k v).
Proof using Hbits Hinv.
  intros k v Hpaths Hin Hf Hinit Hmax.
  unfold encrypt_file.
  rewrite (bind_some _ _ _ _ _
             (stat_calm pin content (mkHost w sess fs []) eq_refl Hin)).
  cbv beta iota. rewrite (neqb_false _ _ eq_refl).
  rewrite (bind_some _ _ _ _ _ (malloc_calm _ (mkHost w sess fs []) eq_refl)).
  rewrite (bind_some _ _ _ _ _ (malloc_calm _ (mkHost w sess fs []) eq_refl)).
  cbn [negb orb].
  rewrite (bind_some _ _ _ _ _
             (open_rdonly_calm pin content (mkHost w sess fs []) eq_refl Hin)).
  rewrite (bind_some _ _ _ _ _ (open_trunc_calm pout (mkHost w sess fs []) eq_refl)).
  unfold set_files. cbn [tee session files hfaults].
  assert (Hw64 : wrap 64 (Z.of_nat (length content)) = Z.of_nat (length content))
    by (unfold wrap; apply Z.mod_small; lia).
  rewrite Hw64.
  set (header := bytes_of_uint64 (Z.of_nat (length content))).
  pose proof (write_calm pout header 8 []
                (mkHost w sess (<[pout := []]> fs) []) eq_refl
                (lookup_insert_eq _ _ _)) as Hwr.
  cbv zeta in Hwr.
  rewrite (take_ge header) in Hwr by (unfold header; rewrite length_bytes_of_uint64; lia).
  change (Z.of_nat (length (@nil byte))) with 0 in Hwr.
  change (Z.of_nat (length header)) with 8 in Hwr.
  rewrite (bind_some _ _ _ _ _ Hwr). cbv beta iota.
  rewrite (neqb_false _ _ eq_refl).
  unfold set_files. cbn [tee session files hfaults app].
  rewrite insert_insert_eq, Nat2Z.id.
  set (pbuf := replicate (Z.to_nat (CHUNK_SIZE + AES_BLOCK_SIZE)) x00).
  assert (Hpb : Z.of_nat (length pbuf) = CHUNK_SIZE + AES_BLOCK_SIZE)
    by (unfold pbuf; rewrite length_replicate; unfold CHUNK_SIZE, AES_BLOCK_SIZE; lia).
  change (mkFd pin 0) with (mkFd pin (Z.of_nat (length (@nil byte)))).
  change (mkFd pout (0 + 8)) with (mkFd pout (Z.of_nat (length header))).
  assert (Hin' : <[pout := header]> fs !! pin = Some content)
    by (rewrite lookup_insert_ne by congruence; exact Hin).
  destruct (decide (content = [])) as [Hnil|Hne].
  - exists sess, w. split; [|split; [exact Hf|congruence]].
    erewrite bind_some; cycle 1.
    { cbn [encrypt_loop].
      rewrite (bind_some _ _ _ _ _
                 (read_calm pin _ CHUNK_SIZE content
                    (mkHost w sess (<[pout := header]> fs) []) eq_refl Hin')).
      cbv beta iota zeta. rewrite Hnil. cbn [length].
      rewrite drop_nil, take_nil. cbn [length]. rewrite Nat2Z.inj_0.
      rewrite (gtb_false 0 0) by lia. reflexivity. }
    unfold bind, close, ret. rewrite Hnil. cbn [cipher_chunks].
    rewrite app_nil_r. reflexivity.
  - edestruct (encrypt_loop_iter (length content) pin pout [] content header w sess
                 (<[pout := header]> fs) pbuf pbuf 0 1 k v k v Hne Hpaths)
      as (sess1 & w1 & pbuf1 & cbuf1 & total1 & Hiter & Hpb1 & Hcb1 & Hf1 & Hst1 & Hkd1);
      [exact Hin'|apply lookup_insert_eq|exact Hpb|exact Hpb| |].
    { intros params Hfirst Hsrc Hsz0 Hsz1.
      destruct (padded_props (take (Z.to_nat CHUNK_SIZE) content)) as (Hal & _).
      pose proof (padded_chunk_size _ (proj2 (chunk_positive content Hne))) as Hpsz.
      destruct (encrypt_fresh_step P params sess w)
        as (params' & sess' & w' & Hrun & Hb & Hs & Hf' & Hst' & Hkd');
        try assumption.
      - rewrite Hfirst. discriminate.
      - rewrite Hsrc. now rewrite Hsz0.
      - rewrite Hsz0. exact Hpsz.
      - rewrite Hsz0. exact Hal.
      - rewrite Hsz0, Hsz1. unfold AES_BLOCK_SIZE. lia.
      - rewrite Hsrc in *. exists params', sess', w'. auto 10. }
    set (chunk := take (Z.to_nat CHUNK_SIZE) content) in *.
    set (out := fst (cbc_blocks P TEE_MODE_ENCRYPT k v (padded chunk))) in *.
    set (chain' := snd (cbc_blocks P TEE_MODE_ENCRYPT k v (padded chunk))) in *.
    edestruct (encrypt_loop_rest (length content) pin pout ([] ++ chunk)
                 (drop (Z.to_nat CHUNK_SIZE) content) (header ++ out) w1 sess1
                 (<[pout := header ++ out]> (<[pout := header]> fs)) pbuf1 cbuf1
                 total1 k chain' k v)
      as (sess2 & w2 & Hrest & Hf2 & Hkd2);
      [apply (drop_chunk_shorter content Hne)|exact Hpaths
      |rewrite !lookup_insert_ne by congruence; cbn [app]; unfold chunk;
       rewrite take_drop; exact Hin
      |apply lookup_insert_eq|exact Hpb1|exact Hcb1|exact Hf1|exact Hst1|exact Hkd1|].
    rewrite Hrest in Hiter. rewrite (bind_some _ _ _ _ _ Hiter).
    exists sess2, w2. split; [|auto].
    unfold bind, close, ret.
    rewrite !insert_insert_eq, <- app_assoc.
    rewrite (cipher_chunks_cons (length content) k v content Hne). reflexivity.
Qed.

(** *** Decrypting a file *)

Lemma decrypted_chunk k chain (chunk : list byte) :
  cbc_blocks P TEE_MODE_DECRYPT k chain
    (fst (cbc_blocks P TEE_MODE_ENCRYPT k chain (padded chunk)))
  = (padded chunk, snd (cbc_blocks P TEE_MODE_ENCRYPT k chain (padded chunk))).
Proof.
  destruct (padded_props chunk) as (Hal & _).
  exact (proj2 (Hinv k chain (padded chunk) Hal)).
Qed.

Lemma decrypted_fst k chain (chunk : list byte) :
  fst (cbc_blocks P TEE_MODE_DECRYPT k chain
         (fst (cbc_blocks P TEE_MODE_ENCRYPT k chain (padded chunk))))
  = padded chunk.
Proof. now rewrite decrypted_chunk. Qed.

Lemma decrypted_snd k chain (chunk : list byte) :
  snd (cbc_blocks P TEE_MODE_DECRYPT k chain
         (fst (cbc_blocks P TEE_MODE_ENCRYPT k chain (padded chunk))))
  = snd (cbc_blocks P TEE_MODE_ENCRYPT k chain (padded chunk)).
Proof. now rewrite decrypted_chunk. Qed.

Lemma padded_full_chunk (rest : list byte) :
  (Z.to_nat CHUNK_SIZE <= length rest)%nat ->
  padded (take (Z.to_nat CHUNK_SIZE) rest) = take (Z.to_nat CHUNK_SIZE) rest.
Proof.
  intros Hlen. unfold padded. rewrite length_take, Nat.min_l by exact Hlen.
  rewrite Z2Nat.id by (unfold CHUNK_SIZE; lia). reflexivity.
Qed.

(** The ciphertext one [read] of [decrypt_file] delivers is the ciphertext of
    one chunk. *)
Lemma read_cipher_chunk n k chain (rest : list byte) :
  rest <> [] ->
  take (Z.to_nat CHUNK_SIZE) (cipher_chunks P (S n) k chain rest)
  = fst (cbc_blocks P TEE_MODE_ENCRYPT k chain
           (padded (take (Z.to_nat CHUNK_SIZE) rest))).
Proof.
  intros Hne. rewrite (cipher_chunks_cons n k chain rest Hne).
  pose proof (encrypted_length k chain (take (Z.to_nat CHUNK_SIZE) rest)) as Hlen.
  destruct (Nat.le_gt_cases (Z.to_nat CHUNK_SIZE) (length rest)) as [Hfull|Hshort].
  - rewrite padded_full_chunk in * by exact Hfull.
    rewrite length_take, Nat.min_l in Hlen by exact Hfull.
    rewrite <- Hlen at 1. apply take_app_length.
  - rewrite (drop_ge rest) by lia. rewrite cipher_chunks_nil, app_nil_r.
    apply take_ge. rewrite Hlen.
    pose proof (padded_chunk_size (take (Z.to_nat CHUNK_SIZE) rest)
                  (proj2 (chunk_positive rest Hne))).
    lia.
Qed.

Lemma length_written (buf full : list byte) :
  (length full <= length buf)%nat ->
  length (TEE_MemMove_at buf 0 full (Z.of_nat (length full))) = length buf.
Proof.
  intros Hle. unfold TEE_MemMove_at. rewrite Nat2Z.id.
  change (Z.to_nat 0) with 0%nat. rewrite take_0, firstn_all. cbn [app Nat.add].
  rewrite length_app, length_drop. lia.
Qed.

Lemma take_written (buf full part : list byte) :
  take (length part) full = part -> (length part <= length full)%nat ->
  take (Z.to_nat (Z.of_nat (length part)))
    (TEE_MemMove_at buf 0 full (Z.of_nat (length full))) = part.
Proof.
  intros Htk Hle. unfold TEE_MemMove_at. rewrite !Nat2Z.id.
  change (Z.to_nat 0) with 0%nat. rewrite take_0, firstn_all. cbn [app].
  rewrite take_app_le by exact Hle. exact Htk.
Qed.

Lemma decrypt_loop_iter fuel n pin pout pre rest wdone w sess fs cbuf pbuf tdec
    is_first k chain :
  let chunk := take (Z.to_nat CHUNK_SIZE) rest in
  let out := fst (cbc_blocks P TEE_MODE_ENCRYPT k chain (padded chunk)) in
  let chain' := snd (cbc_blocks P TEE_MODE_ENCRYPT k chain (padded chunk)) in
  let original := Z.of_nat (length wdone) + Z.of_nat (length rest) in
  rest <> [] -> pin <> pout ->
  fs !! pin = Some (pre ++ cipher_chunks P (S n) k chain rest) ->
  fs !! pout = Some wdone ->
  Z.of_nat (length cbuf) = CHUNK_SIZE + AES_BLOCK_SIZE ->
  Z.of_nat (length pbuf) = CHUNK_SIZE + AES_BLOCK_SIZE ->
  original + CHUNK_SIZE + AES_BLOCK_SIZE < 2 ^ size_bits ->
  original < 2 ^ 64 ->
  (forall params,
     value_a (prm2 params) = is_first ->
     TEE_MemMove (memref_buffer (prm0 params)) (memref_size (prm0 params)) = out ->
     memref_size (prm0 params) = Z.of_nat (length out) ->
     memref_size (prm1 params) = CHUNK_SIZE + AES_BLOCK_SIZE ->
     exists params' sess' w',
       decrypt_chunk P chunk_param_types params sess w
       = Some (TEE_SUCCESS, params', sess', w')
       /\ memref_buffer (prm1 params')
          = TEE_MemMove_at (memref_buffer (prm1 params)) 0 (padded chunk)
              (Z.of_nat (length (padded chunk)))
       /\ memref_size (prm1 params') = Z.of_nat (length (padded chunk))
       /\ faults w' = []
       /\ streaming TEE_MODE_DECRYPT (dec_op sess') w' k chain') ->
  exists sess' w' cbuf' pbuf' tdec',
    decrypt_loop P size_bits (S fuel) (mkFd pin (Z.of_nat (length pre)))
      (mkFd pout (Z.of_nat (length wdone))) cbuf pbuf original tdec
      (Z.of_nat (length wdone)) is_first (mkHost w sess fs [])
    = (if Z.of_nat (length (wdone ++ chunk)) >=? original
       then Some (TEEC_SUCCESS, mkHost w' sess' (<[pout := wdone ++ chunk]> fs) [])
       else decrypt_loop P size_bits fuel (mkFd pin (Z.of_nat (length (pre ++ out))))
              (mkFd pout (Z.of_nat (length (wdone ++ chunk)))) cbuf' pbuf' original
              tdec' (Z.of_nat (length (wdone ++ chunk))) 0
              (mkHost w' sess' (<[pout := wdone ++ chunk]> fs) []))
    /\ Z.of_nat (length cbuf') = CHUNK_SIZE + AES_BLOCK_SIZE
    /\ Z.of_nat (length pbuf') = CHUNK_SIZE + AES_BLOCK_SIZE
    /\ faults w' = []
    /\ streaming TEE_MODE_DECRYPT (dec_op sess') w' k chain'.
Proof.
  intros chunk out chain' original Hne Hpaths Hin Hout Hcb Hpb Hmax Hmax64 Hstep.
  pose proof (chunk_positive rest Hne) as Hchunk. fold chunk in Hchunk.
  destruct (padded_props chunk) as (Hal & Hpad & Htk).
  pose proof (padded_chunk_size chunk (proj2 Hchunk)) as Hpsz.
  pose proof (encrypted_length k chain chunk) as Holen. fold out in Holen.
  assert (Hchunk_len : Z.of_nat (length chunk) <= Z.of_nat (length rest)).
  { unfold chunk. rewrite length_take. lia. }
  assert (Hpadded_len : Z.of_nat (length rest) < Z.of_nat (length (padded chunk))
                        \/ length (padded chunk) = length chunk).
  { destruct (Nat.le_gt_cases (Z.to_nat CHUNK_SIZE) (length rest)) as [Hfull|Hshort].
    - right. unfold chunk. now rewrite padded_full_chunk.
    - assert (Hcr : length chunk = length rest)
        by (unfold chunk; rewrite length_take; lia).
      destruct (decide (length (padded chunk) = length chunk)); [now right|].
      left. lia. }
  cbn [decrypt_loop].
  rewrite (bind_some _ _ _ _ _
             (read_calm pin (Z.of_nat (length pre)) CHUNK_SIZE _
                (mkHost w sess fs []) eq_refl Hin)).
  cbv beta iota zeta.
  rewrite Nat2Z.id, drop_app_length, (read_cipher_chunk n k chain rest Hne).
  fold chunk. fold out. rewrite Holen.
  rewrite (gtb_true _ 0) by lia.
  unfold bind at 1. rewrite invoke_decrypt.
  edestruct Hstep as (params' & sess' & w' & Hrun & Hb & Hs & Hf & Hst);
    [| | | |rewrite Hrun];
    [reflexivity
    |cbn [prm0 memref_buffer memref_size]; rewrite <- Holen; apply take_chunk_buffer
    |cbn [prm0 memref_size]; now rewrite Holen
    |reflexivity|].
  cbv beta iota. change TEEC_SUCCESS with TEE_SUCCESS.
  rewrite (neqb_false _ _ eq_refl).
  cbn [prm1 memref_buffer memref_size] in Hb, Hs. rewrite Hb, Hs.
  assert (Hto : (if wrap size_bits
                      (Z.of_nat (length wdone) + Z.of_nat (length (padded chunk)))
                    >? original
                 then wrap size_bits
                        (wrap 64 (original - Z.of_nat (length wdone)))
                 else Z.of_nat (length (padded chunk)))
                = Z.of_nat (length chunk)).
  { unfold wrap, original. unfold original in Hmax, Hmax64.
    unfold AES_BLOCK_SIZE, CHUNK_SIZE in Hmax, Hchunk, Hpad, Hpsz.
    rewrite (Z.mod_small (_ + _)) by lia.
    destruct (Z.of_nat (length wdone) + Z.of_nat (length (padded chunk))
              >? Z.of_nat (length wdone) + Z.of_nat (length rest)) eqn:E.
    - rewrite Z.gtb_ltb in E. apply Z.ltb_lt in E.
      replace (Z.of_nat (length wdone) + Z.of_nat (length rest)
               - Z.of_nat (length wdone)) with (Z.of_nat (length rest)) by lia.
      rewrite (Z.mod_small _ (2 ^ 64)) by lia. rewrite Z.mod_small by lia.
      assert (Hcr : length chunk = length rest); [|now rewrite Hcr].
      unfold chunk. rewrite length_take. unfold CHUNK_SIZE. lia.
    - rewrite Z.gtb_ltb in E. apply Z.ltb_ge in E. lia. }
  rewrite Hto.
  rewrite (bind_some _ _ _ _ _
             (write_calm pout _ (Z.of_nat (length chunk)) wdone
                (mkHost w' sess' fs []) eq_refl Hout)).
  cbv beta iota zeta.
  rewrite (take_written pbuf (padded chunk) chunk Htk) by lia.
  rewrite (neqb_false _ _ eq_refl).
  assert (Htw : wrap size_bits (Z.of_nat (length wdone) + Z.of_nat (length chunk))
                = Z.of_nat (length (wdone ++ chunk))).
  { rewrite length_app, Nat2Z.inj_add. unfold wrap. unfold original in Hmax.
    unfold AES_BLOCK_SIZE, CHUNK_SIZE in Hmax, Hchunk. apply Z.mod_small. lia. }
  rewrite Htw.
  eexists sess', w', _, _, _. split.
  { destruct (Z.of_nat (length (wdone ++ chunk)) >=? original); [reflexivity|].
    rewrite (length_app pre), (length_app wdone), !Nat2Z.inj_add, Holen.
    reflexivity. }
  split.
  { rewrite length_app, length_drop. lia. }
  split.
  { rewrite length_written by lia. exact Hpb. }
  auto.
Qed.

Lemma chunk_then_rest (rest : list byte) :
  Z.of_nat (length (take (Z.to_nat CHUNK_SIZE) rest))
  + Z.of_nat (length (drop (Z.to_nat CHUNK_SIZE) rest))
  = Z.of_nat (length rest).
Proof. rewrite <- Nat2Z.inj_add, <- length_app, take_drop. reflexivity. Qed.

(** The loop in the middle of a stream: the output holds [wdone], the
    plaintext [rest] is still to come. *)
Lemma decrypt_loop_rest n : forall fuel pin pout pre rest wdone w sess fs cbuf pbuf
    tdec k chain,
  (length rest <= n)%nat -> (length rest <= fuel)%nat -> rest <> [] ->
  pin <> pout ->
  fs !! pin = Some (pre ++ cipher_chunks P n k chain rest) ->
  fs !! pout = Some wdone ->
  Z.of_nat (length cbuf) = CHUNK_SIZE + AES_BLOCK_SIZE ->
  Z.of_nat (length pbuf) = CHUNK_SIZE + AES_BLOCK_SIZE ->
  Z.of_nat (length wdone) + Z.of_nat (length rest) + CHUNK_SIZE + AES_BLOCK_SIZE
  < 2 ^ size_bits ->
  Z.of_nat (length wdone) + Z.of_nat (length rest) < 2 ^ 64 ->
  faults w = [] -> streaming TEE_MODE_DECRYPT (dec_op sess) w k chain ->
  exists sess' w',
    decrypt_loop P size_bits fuel (mkFd pin (Z.of_nat (length pre)))
      (mkFd pout (Z.of_nat (length wdone))) cbuf pbuf
      (Z.of_nat (length wdone) + Z.of_nat (length rest)) tdec
      (Z.of_nat (length wdone)) 0 (mkHost w sess fs [])
    = Some (TEEC_SUCCESS, mkHost w' sess' (<[pout := wdone ++ rest]> fs) []).
Proof.
  induction n as [|n IH];
    intros fuel pin pout pre rest wdone w sess fs cbuf pbuf tdec k chain
           Hn Hfuel Hne Hpaths Hin Hout Hcb Hpb Hmax Hmax64 Hf Hst.
  { destruct rest; [congruence|cbn [length] in Hn; lia]. }
  destruct fuel as [|fuel].
  { destruct rest; [congruence|cbn [length] in Hfuel; lia]. }
  set (chunk := take (Z.to_nat CHUNK_SIZE) rest).
  set (out := fst (cbc_blocks P TEE_MODE_ENCRYPT k chain (padded chunk))).
  set (chain' := snd (cbc_blocks P TEE_MODE_ENCRYPT k chain (padded chunk))).
  edestruct (decrypt_loop_iter fuel n pin pout pre rest wdone w sess fs cbuf pbuf
               tdec 0 k chain Hne Hpaths Hin Hout Hcb Hpb Hmax Hmax64)
    as (sess1 & w1 & cbuf1 & pbuf1 & tdec1 & Hiter & Hcb1 & Hpb1 & Hf1 & Hst1).
  { intros params Hfirst Hsrc Hsz0 Hsz1. fold chunk out chain' in Hsrc, Hsz0 |- *.
    destruct (padded_props chunk) as (Hal & _).
    pose proof (padded_chunk_size chunk (proj2 (chunk_positive rest Hne))) as Hpsz.
    pose proof (encrypted_length k chain chunk) as Holen. fold out in Holen.
    destruct (decrypt_continuation_step P params sess w k chain)
      as (params' & sess' & w' & Hrun & Hb & Hs & Hf' & Hst');
      try assumption.
    - rewrite Hsrc. now rewrite Hsz0.
    - rewrite Hsz0, Holen. exact Hpsz.
    - rewrite Hsz0, Holen. exact Hal.
    - rewrite Hsz0, Hsz1, Holen. unfold AES_BLOCK_SIZE. lia.
    - rewrite Hsrc in Hb, Hs, Hst'. unfold out in Hb, Hs, Hst'.
      rewrite decrypted_fst in Hb, Hs. rewrite decrypted_snd in Hst'.
      exists params', sess', w'. auto 10. }
  fold chunk out chain' in Hiter, Hst1. rewrite Hiter.
  pose proof (chunk_then_rest rest) as Hsplit. fold chunk in Hsplit.
  destruct (Z.of_nat (length (wdone ++ chunk))
            >=? Z.of_nat (length wdone) + Z.of_nat (length rest)) eqn:E.
  - exists sess1, w1.
    rewrite Z.geb_leb in E. apply Z.leb_le in E.
    rewrite length_app, Nat2Z.inj_add in E.
    assert (Hcr : chunk = rest); [|now rewrite Hcr].
    unfold chunk. apply take_ge. unfold chunk in E. rewrite length_take in E. lia.
  - rewrite Z.geb_leb in E. apply Z.leb_gt in E.
    rewrite length_app, Nat2Z.inj_add in E.
    assert (Hmore : drop (Z.to_nat CHUNK_SIZE) rest <> []).
    { intros Hd. rewrite Hd in Hsplit. cbn [length] in Hsplit. lia. }
    pose proof (drop_chunk_shorter rest Hne) as Hshort.
    assert (Horig : Z.of_nat (length wdone) + Z.of_nat (length rest)
                    = Z.of_nat (length (wdone ++ chunk))
                      + Z.of_nat (length (drop (Z.to_nat CHUNK_SIZE) rest)))
      by (rewrite length_app, Nat2Z.inj_add; lia).
    rewrite Horig in *.
    edestruct (IH fuel pin pout (pre ++ out) (drop (Z.to_nat CHUNK_SIZE) rest)
                 (wdone ++ chunk) w1 sess1 (<[pout := wdone ++ chunk]> fs) cbuf1
                 pbuf1 tdec1 k chain')
      as (sess2 & w2 & Hrest);
      [lia|lia|exact Hmore|exact Hpaths| |apply lookup_insert_eq|exact Hcb1
      |exact Hpb1|exact Hmax|exact Hmax64|exact Hf1|exact Hst1|].
    + rewrite lookup_insert_ne by congruence. rewrite Hin.
      rewrite (cipher_chunks_cons n k chain rest Hne). fold chunk out chain'.
      now rewrite app_assoc.
    + rewrite Hrest. exists sess2, w2.
      rewrite insert_insert_eq, <- app_assoc. unfold chunk.
      now rewrite take_drop.
Qed.

Lemma cipher_chunks_length n : forall k chain (rest : list byte),
  (length rest <= n)%nat ->
  (length rest <= length (cipher_chunks P n k chain rest))%nat.
Proof.
  induction n as [|n IH]; intros k chain rest Hn.
  { destruct rest; cbn [length] in *; lia. }
  destruct (decide (rest = [])) as [->|Hne]; [cbn [length]; lia|].
  rewrite (cipher_chunks_cons n k chain rest Hne), length_app, encrypted_length.
  pose proof (drop_chunk_shorter rest Hne) as Hshort.
  pose proof (IH k (snd (cbc_blocks P TEE_MODE_ENCRYPT k chain
                           (padded (take (Z.to_nat CHUNK_SIZE) rest))))
                (drop (Z.to_nat CHUNK_SIZE) rest) ltac:(lia)) as Hrec.
  destruct (padded_props (take (Z.to_nat CHUNK_SIZE) rest)) as (_ & Hpad & _).
  pose proof (chunk_then_rest rest). lia.
Qed.

Lemma decrypt_file_ok pin pout content w sess fs k v :
  pin <> pout ->
  fs !! pin = Some (bytes_of_uint64 (Z.of_nat (length content))
                    ++ cipher_chunks P (S (length content)) k v content) ->
  faults w = [] -> (content <> [] -> keyed sess w k v) ->
  Z.of_nat (length content) + CHUNK_SIZE + AES_BLOCK_SIZE < 2 ^ size_bits ->
  Z.of_nat (length content) < 2 ^ 64 ->
  exists sess' w',
    decrypt_file P size_bits pin pout (mkHost w sess fs [])
    = Some (TEEC_SUCCESS, mkHost w' sess' (<[pout := content]> fs) []).
Proof using Hbits Hinv.
  intros Hpaths Hin Hf Hkd Hmax Hmax64.
  set (header := bytes_of_uint64 (Z.of_nat (length content))) in *.
  set (cipher := cipher_chunks P (S (length content)) k v content) in *.
  unfold decrypt_file.
  rewrite (bind_some _ _ _ _ _
             (stat_calm pin _ (mkHost w sess fs []) eq_refl Hin)).
  cbv beta iota. rewrite (neqb_false _ _ eq_refl).
  rewrite (bind_some _ _ _ _ _ (malloc_calm _ (mkHost w sess fs []) eq_refl)).
  rewrite (bind_some _ _ _ _ _ (malloc_calm _ (mkHost w sess fs []) eq_refl)).
  cbn [negb orb].
  rewrite (bind_some _ _ _ _ _
             (open_rdonly_calm pin _ (mkHost w sess fs []) eq_refl Hin)).
  rewrite (bind_some _ _ _ _ _ (open_trunc_calm pout (mkHost w sess fs []) eq_refl)).
  unfold set_files. cbn [tee session files hfaults].
  assert (Hin' : <[pout := []]> fs !! pin = Some (header ++ cipher))
    by (rewrite lookup_insert_ne by congruence; exact Hin).
  rewrite (bind_some _ _ _ _ _
             (read_calm pin 0 8 _ (mkHost w sess (<[pout := []]> fs) [])
                eq_refl Hin')).
  cbv beta iota zeta. change (Z.to_nat 0) with 0%nat. rewrite drop_0.
  assert (Hhd : take (Z.to_nat 8) (header ++ cipher) = header)
    by (apply take_app_length'; reflexivity).
  rewrite Hhd. change (Z.of_nat (length header)) with 8.
  rewrite (neqb_false _ _ eq_refl).
  change (uint64_of_bytes header)
    with (uint64_of_bytes (bytes_of_uint64 (Z.of_nat (length content)))).
  rewrite uint64_round_trip by lia.
  set (buf := replicate (Z.to_nat (CHUNK_SIZE + AES_BLOCK_SIZE)) x00).
  assert (Hbuf : Z.of_nat (length buf) = CHUNK_SIZE + AES_BLOCK_SIZE)
    by (unfold buf; rewrite length_replicate; unfold CHUNK_SIZE, AES_BLOCK_SIZE; lia).
  change (mkFd pin (0 + 8)) with (mkFd pin (Z.of_nat (length header))).
  destruct (decide (content = [])) as [Hnil|Hne].
  - exists sess, w.
    erewrite bind_some; cycle 1.
    { cbn [decrypt_loop].
      rewrite (bind_some _ _ _ _ _
                 (read_calm pin _ CHUNK_SIZE _
                    (mkHost w sess (<[pout := []]> fs) []) eq_refl Hin')).
      cbv beta iota zeta. rewrite Nat2Z.id, drop_app_length.
      unfold cipher. rewrite Hnil. cbn [cipher_chunks].
      rewrite take_nil. cbn [length]. rewrite Nat2Z.inj_0.
      rewrite (gtb_false 0 0) by lia. reflexivity. }
    unfold bind, close, ret. rewrite Hnil. reflexivity.
  - set (chunk := take (Z.to_nat CHUNK_SIZE) content).
    set (out := fst (cbc_blocks P TEE_MODE_ENCRYPT k v (padded chunk))).
    set (chain' := snd (cbc_blocks P TEE_MODE_ENCRYPT k v (padded chunk))).
    pose proof (decrypt_loop_iter (Z.to_nat (Z.of_nat (length (header ++ cipher))))
                  (length content) pin pout header content [] w sess
                  (<[pout := []]> fs) buf buf 0 1 k v Hne Hpaths Hin'
                  (lookup_insert_eq _ _ _) Hbuf Hbuf) as Hit.
    cbv zeta in Hit. fold chunk out chain' in Hit.
    rewrite !app_nil_l in Hit. change (length (@nil byte)) with 0%nat in Hit.
    change (Z.of_nat 0) with 0 in Hit. rewrite !Z.add_0_l in Hit.
    destruct (Hit Hmax Hmax64)
      as (sess1 & w1 & cbuf1 & pbuf1 & tdec1 & Hiter & Hcb1 & Hpb1 & Hf1 & Hst1);
      clear Hit.
    { intros params Hfirst Hsrc Hsz0 Hsz1.
      destruct (padded_props chunk) as (Hal & _).
      pose proof (padded_chunk_size chunk (proj2 (chunk_positive content Hne)))
        as Hpsz.
      pose proof (encrypted_length k v chunk) as Holen. fold out in Holen.
      destruct (decrypt_keyed_step P params sess w k v)
        as (params' & sess' & w' & Hrun & Hb & Hs & Hf' & Hst');
        try assumption.
      - exact (Hkd Hne).
      - rewrite Hfirst. discriminate.
      - rewrite Hsrc. now rewrite Hsz0.
      - rewrite Hsz0, Holen. exact Hpsz.
      - rewrite Hsz0, Holen. exact Hal.
      - rewrite Hsz0, Hsz1, Holen. unfold AES_BLOCK_SIZE. lia.
      - rewrite Hsrc in Hb, Hs, Hst'. unfold out in Hb, Hs, Hst'.
        rewrite decrypted_fst in Hb, Hs. rewrite decrypted_snd in Hst'.
        exists params', sess', w'. auto 10. }
    pose proof (chunk_then_rest content) as Hsplit. fold chunk in Hsplit.
    destruct (Z.of_nat (length chunk) >=? Z.of_nat (length content)) eqn:E.
    + exists sess1, w1. rewrite (bind_some _ _ _ _ _ Hiter).
      unfold bind, close, ret. rewrite insert_insert_eq.
      rewrite Z.geb_leb in E. apply Z.leb_le in E.
      assert (Hcr : chunk = content); [|now rewrite Hcr].
      unfold chunk. apply take_ge.
      unfold chunk in E. rewrite length_take in E. lia.
    + rewrite Z.geb_leb in E. apply Z.leb_gt in E.
      assert (Hmore : drop (Z.to_nat CHUNK_SIZE) content <> []).
      { intros Hd. rewrite Hd in Hsplit. cbn [length] in Hsplit. lia. }
      pose proof (drop_chunk_shorter content Hne) as Hshort.
      pose proof (cipher_chunks_length (S (length content)) k v content
                    ltac:(lia)) as Hclen. fold cipher in Hclen.
      edestruct (decrypt_loop_rest (length content)
                   (Z.to_nat (Z.of_nat (length (header ++ cipher)))) pin pout
                   (header ++ out) (drop (Z.to_nat CHUNK_SIZE) content) chunk w1
                   sess1 (<[pout := chunk]> (<[pout := []]> fs)) cbuf1 pbuf1 tdec1
                   k chain')
        as (sess2 & w2 & Hrest);
        [lia|rewrite Nat2Z.id, length_app; lia|exact Hmore|exact Hpaths|
        |apply lookup_insert_eq|exact Hcb1|exact Hpb1
        |rewrite Hsplit; exact Hmax|rewrite Hsplit; exact Hmax64
        |exact Hf1|exact Hst1|].
      * rewrite !lookup_insert_ne by congruence. rewrite Hin. unfold cipher.
        rewrite (cipher_chunks_cons (length content) k v content Hne).
        fold chunk out chain'. now rewrite app_assoc.
      * rewrite Hsplit in Hrest. rewrite Hrest in Hiter.
        exists sess2, w2. rewrite (bind_some _ _ _ _ _ Hiter).
        unfold bind, close, ret. rewrite !insert_insert_eq.
        unfold chunk. now rewrite take_drop.
Qed.

Lemma padded_length (chunk : list byte) :
  Z.of_nat (length (padded chunk)) = (Z.of_nat (length chunk) + 15) / 16 * 16.
Proof.
  unfold padded, AES_BLOCK_SIZE.
  destruct (Z.of_nat (length chunk) mod 16 =? 0) eqn:E.
  - apply Z.eqb_eq in E. Z.div_mod_to_equations. lia.
  - apply Z.eqb_neq in E. rewrite length_app, length_replicate, Nat2Z.inj_add.
    rewrite Z2Nat.id by (Z.div_mod_to_equations; lia).
    Z.div_mod_to_equations. lia.
Qed.

Lemma cipher_chunks_total n : forall k chain (rest : list byte),
  (length rest <= n)%nat ->
  Z.of_nat (length (cipher_chunks P n k chain rest))
  = (Z.of_nat (length rest) + 15) / 16 * 16.
Proof using Hinv size_bits.
  induction n as [|n IH]; intros k chain rest Hn.
  { destruct rest; [reflexivity|cbn [length] in Hn; lia]. }
  destruct (decide (rest = [])) as [->|Hne]; [reflexivity|].
  rewrite (cipher_chunks_cons n k chain rest Hne), length_app, encrypted_length.
  pose proof (drop_chunk_shorter rest Hne) as Hshort.
  rewrite Nat2Z.inj_add, IH by lia. rewrite padded_length.
  pose proof (chunk_then_rest rest) as Hsplit.
  destruct (Nat.le_gt_cases (Z.to_nat CHUNK_SIZE) (length rest)) as [Hfull|Hpart].
  - rewrite length_take, Nat.min_l in Hsplit |- * by exact Hfull.
    rewrite Z2Nat.id in Hsplit |- * by (unfold CHUNK_SIZE; lia).
    unfold CHUNK_SIZE in Hsplit |- *. Z.div_mod_to_equations. lia.
  - rewrite (drop_ge rest), (take_ge rest) by lia. cbn [length].
    change (Z.of_nat 0) with 0. change ((0 + 15) / 16 * 16) with 0. lia.
Qed.

End Files.

(** *** A read that fails *)

Section Script.
Context {W S : Type}.
Implicit Types (w : W) (s : S).

Lemma stat_next path content w s fs r :
  fs !! path = Some content ->
  stat path (mkHost w s fs (NoFault :: r))
  = Some ((0, Z.of_nat (length content)), mkHost w s fs r).
Proof.
  intros Hp. unfold stat, bind, next_hfault, get, ret.
  cbn [hfaults hd tl injected files tee session]. now rewrite Hp.
Qed.

Lemma malloc_next n w s fs r :
  malloc n (mkHost w s fs (NoFault :: r)) = Some (true, mkHost w s fs r).
Proof. reflexivity. Qed.

Lemma open_rdonly_next path content w s fs r :
  fs !! path = Some content ->
  open_rdonly path (mkHost w s fs (NoFault :: r))
  = Some (Some (mkFd path 0), mkHost w s fs r).
Proof.
  intros Hp. unfold open_rdonly, bind, next_hfault, get, ret.
  cbn [hfaults hd tl injected files tee session]. now rewrite Hp.
Qed.

Lemma open_trunc_next path w s fs r :
  open_trunc path (mkHost w s fs (NoFault :: r))
  = Some (Some (mkFd path 0), mkHost w s (<[path := []]> fs) r).
Proof. reflexivity. Qed.

Lemma write_start_next path buf count w s fs r :
  fs !! path = Some [] ->
  write (mkFd path 0) buf count (mkHost w s fs (NoFault :: r))
  = Some ((Z.of_nat (length (take (Z.to_nat count) buf)),
           mkFd path (0 + Z.of_nat (length (take (Z.to_nat count) buf)))),
          mkHost w s (<[path := take (Z.to_nat count) buf]> fs) r).
Proof.
  intros Hp. unfold write, bind, next_hfault, get, modify, ret, set_files.
  cbn [hfaults hd tl injected files tee session fd_path fd_off]. rewrite Hp.
  cbn [files tee session hfaults]. change (Z.to_nat 0) with 0%nat.
  rewrite drop_nil, app_nil_r. reflexivity.
Qed.

Lemma read_fails fd count w s fs e r :
  e <> TEE_SUCCESS ->
  read fd count (mkHost w s fs (Fail e :: r))
  = Some ((-1, [], fd), mkHost w s fs r).
Proof.
  intros He. apply Z.eqb_neq in He. unfold read, bind, next_hfault, ret.
  cbn [hfaults hd tl injected]. now rewrite He.
Qed.

End Script.

(** X23.  A read error ends the encryption like the end of the file.  When
    the first [read] of the input fails, [encrypt_file] returns
    [TEEC_SUCCESS] all the same: the output holds the size header and no
    ciphertext, and the TA has not been called. *)
Theorem encrypt_file_takes_read_error_for_end P size_bits pin pout content w sess
    fs e r :
  e <> TEE_SUCCESS -> pin <> pout -> fs !! pin = Some content ->
  encrypt_file P size_bits pin pout
    (mkHost w sess fs (replicate 6 NoFault ++ Fail e :: r))
  = Some (TEEC_SUCCESS,
          mkHost w sess
            (<[pout := bytes_of_uint64 (wrap 64 (Z.of_nat (length content)))]> fs)
            r).
Proof.
  intros He Hp Hin. cbn [replicate app]. unfold encrypt_file.
  rewrite (bind_some _ _ _ _ _ (stat_next pin content w sess fs _ Hin)).
  cbv beta iota. rewrite (neqb_false _ _ eq_refl).
  rewrite (bind_some _ _ _ _ _ (malloc_next _ w sess fs _)).
  rewrite (bind_some _ _ _ _ _ (malloc_next _ w sess fs _)).
  cbn [negb orb].
  rewrite (bind_some _ _ _ _ _ (open_rdonly_next pin content w sess fs _ Hin)).
  rewrite (bind_some _ _ _ _ _ (open_trunc_next pout w sess fs _)).
  rewrite (bind_some _ _ _ _ _
             (write_start_next pout _ 8 w sess _ _ (lookup_insert_eq _ _ _))).
  cbv beta iota.
  rewrite (take_ge (bytes_of_uint64 _)) by (rewrite length_bytes_of_uint64; lia).
  rewrite length_bytes_of_uint64. change (Z.of_nat 8) with 8.
  rewrite (neqb_false _ _ eq_refl), insert_insert_eq.
  erewrite bind_some; cycle 1.
  { cbn [encrypt_loop]. rewrite (bind_some _ _ _ _ _ (read_fails _ _ _ _ _ _ _ He)).
    cbv beta iota. rewrite (gtb_false (-1) 0) by lia. reflexivity. }
  reflexivity.
Qed.

Lemma encrypt_file_takes_read_error_for_end_witness :
  encrypt_file plain_platform 64 path_plain path_cipher
    (mkHost quiet_world fresh_session {[ path_plain := [x61; x62; x63] ]}
       (replicate 6 NoFault ++ Fail TEE_ERROR_GENERIC :: []))
  = Some (TEEC_SUCCESS,
          mkHost quiet_world fresh_session
            (<[path_cipher := bytes_of_uint64
                                (wrap 64 (Z.of_nat (length [x61; x62; x63])))]>
               {[ path_plain := [x61; x62; x63] ]})
            []).
Proof.
  apply (encrypt_file_takes_read_error_for_end plain_platform 64 path_plain
           path_cipher [x61; x62; x63] quiet_world fresh_session
           {[ path_plain := [x61; x62; x63] ]} TEE_ERROR_GENERIC []);
    [discriminate | discriminate | reflexivity].
Defined.

(** X24.  A file too short for the header.  On an input of fewer than eight
    bytes [decrypt_file] returns [TEEC_ERROR_GENERIC] without calling the TA;
    by then it has created the output file, or emptied the one that was
    there. *)
Theorem decrypt_file_needs_header P size_bits pin pout cfile w sess fs :
  pin <> pout -> fs !! pin = Some cfile -> (length cfile < 8)%nat ->
  decrypt_file P size_bits pin pout (mkHost w sess fs [])
  = Some (TEEC_ERROR_GENERIC, mkHost w sess (<[pout := []]> fs) []).
Proof.
  intros Hp Hin Hshort. unfold decrypt_file.
  rewrite (bind_some _ _ _ _ _
             (stat_calm pin _ (mkHost w sess fs []) eq_refl Hin)).
  cbv beta iota. rewrite (neqb_false _ _ eq_refl).
  rewrite (bind_some _ _ _ _ _ (malloc_calm _ (mkHost w sess fs []) eq_refl)).
  rewrite (bind_some _ _ _ _ _ (malloc_calm _ (mkHost w sess fs []) eq_refl)).
  cbn [negb orb].
  rewrite (bind_some _ _ _ _ _
             (open_rdonly_calm pin _ (mkHost w sess fs []) eq_refl Hin)).
  rewrite (bind_some _ _ _ _ _ (open_trunc_calm pout (mkHost w sess fs []) eq_refl)).
  unfold set_files. cbn [tee session files hfaults].
  assert (Hin' : <[pout := []]> fs !! pin = Some cfile)
    by (rewrite lookup_insert_ne by congruence; exact Hin).
  rewrite (bind_some _ _ _ _ _
             (read_calm pin 0 8 _ (mkHost w sess (<[pout := []]> fs) [])
                eq_refl Hin')).
  cbv beta iota zeta. change (Z.to_nat 0) with 0%nat. rewrite drop_0.
  rewrite take_ge by lia.
  rewrite (neqb_true (Z.of_nat (length cfile)) 8) by lia.
  reflexivity.
Qed.

Lemma decrypt_file_needs_header_witness :
  decrypt_file plain_platform 64 path_cipher path_out
    (mkHost quiet_world fresh_session
       (<[path_out := [x61]]> {[ path_cipher := [x03; x00; x00] ]}) [])
  = Some (TEEC_ERROR_GENERIC,
          mkHost quiet_world fresh_session
            (<[path_out := []]>
               (<[path_out := [x61]]> {[ path_cipher := [x03; x00; x00] ]})) []).
Proof.
  apply (decrypt_file_needs_header plain_platform 64 path_cipher path_out
           [x03; x00; x00] quiet_world fresh_session
           (<[path_out := [x61]]> {[ path_cipher := [x03; x00; x00] ]}));
    [discriminate | reflexivity | cbn; lia].
Defined.

(** X25.  The encrypted file.  In a calm world, on a session without a key,
    [encrypt_file] returns [TEEC_SUCCESS] and leaves the input untouched; the
    output starts with the length of the input as eight little-endian bytes,
    and the ciphertext after them is as long as the input rounded up to whole
    blocks: an input of whole blocks gets no padding block. *)
Theorem encrypted_file_layout P size_bits pin pout content w sess fs :
  inverts P ->
  pin <> pout -> fs !! pin = Some content ->
  faults w = [] -> initialized sess = false ->
  CHUNK_SIZE + AES_BLOCK_SIZE < 2 ^ size_bits ->
  Z.of_nat (length content) < 2 ^ 64 ->
  exists hw1 header cipher,
    encrypt_file P size_bits pin pout (mkHost w sess fs []) = Some (TEEC_SUCCESS, hw1)
    /\ files hw1 !! pin = Some content
    /\ files hw1 !! pout = Some (header ++ cipher)
    /\ length header = 8%nat
    /\ uint64_of_bytes header = Z.of_nat (length content)
    /\ Z.of_nat (length cipher) = (Z.of_nat (length content) + 15) / 16 * 16.
Proof.
  intros Hinv Hp Hin Hf Hinit Hbits Hmax64.
  destruct (encrypt_file_ok P size_bits Hbits Hinv pin pout content w sess fs
              Hp Hin Hf Hinit Hmax64)
    as (sess1 & w1 & Henc & _).
  eexists _, _, _. split; [exact Henc|]. cbn [files].
  split; [rewrite lookup_insert_ne by congruence; exact Hin|].
  split; [apply lookup_insert_eq|].
  split; [reflexivity|].
  split; [apply uint64_round_trip; lia|].
  apply (cipher_chunks_total P size_bits Hinv). lia.
Qed.

Lemma encrypted_file_layout_witness :
  exists hw1 header cipher,
    encrypt_file plain_platform 64 path_plain path_cipher
      (mkHost quiet_world fresh_session {[ path_plain := [x61; x62; x63] ]} [])
    = Some (TEEC_SUCCESS, hw1)
    /\ files hw1 !! path_plain = Some [x61; x62; x63]
    /\ files hw1 !! path_cipher = Some (header ++ cipher)
    /\ length header = 8%nat
    /\ uint64_of_bytes header = Z.of_nat (length [x61; x62; x63])
    /\ Z.of_nat (length cipher)
       = (Z.of_nat (length [x61; x62; x63]) + 15) / 16 * 16.
Proof.
  apply (encrypted_file_layout plain_platform 64 path_plain path_cipher
           [x61; x62; x63] quiet_world fresh_session
           {[ path_plain := [x61; x62; x63] ]});
    [intros k chain blocks _; split; reflexivity
    | discriminate | reflexivity | reflexivity | reflexivity
    | reflexivity | reflexivity].
Defined.

(** X26.  What [encrypt_file] does, [decrypt_file] undoes.  On a TEE whose
    cipher decrypts what it encrypts, in a calm world and on a session that has
    no key yet, [encrypt_file] followed by [decrypt_file] on its output, both
    on the one session, return [TEEC_SUCCESS], and the last file written holds
    exactly the bytes of the first: the comparison in [main] finds no
    difference.  This holds for every length of the file, the empty file and
    lengths that are not multiples of the block or the chunk size included. *)
Theorem decrypt_file_restores_plaintext P size_bits pin pmid pout content w sess fs :
  inverts P ->
  pin <> pmid -> pmid <> pout ->
  fs !! pin = Some content ->
  faults w = [] -> initialized sess = false ->
  Z.of_nat (length content) + CHUNK_SIZE + AES_BLOCK_SIZE < 2 ^ size_bits ->
  Z.of_nat (length content) < 2 ^ 64 ->
  exists hw1 hw2,
    encrypt_file P size_bits pin pmid (mkHost w sess fs []) = Some (TEEC_SUCCESS, hw1)
    /\ decrypt_file P size_bits pmid pout hw1 = Some (TEEC_SUCCESS, hw2)
    /\ files hw2 !! pout = Some content.
Proof.
  intros Hinv Hp1 Hp2 Hin Hf Hinit Hmax Hmax64.
  assert (Hbits : CHUNK_SIZE + AES_BLOCK_SIZE < 2 ^ size_bits) by lia.
  destruct (encrypt_file_ok P size_bits Hbits Hinv pin pmid content w sess fs
              Hp1 Hin Hf Hinit Hmax64)
    as (sess1 & w1 & Henc & Hf1 & Hkd1).
  destruct (decrypt_file_ok P size_bits Hbits Hinv pmid pout content w1 sess1
              (<[pmid := bytes_of_uint64 (Z.of_nat (length content))
                          ++ cipher_chunks P (S (length content))
                               (resize (Z.to_nat AES_KEY_SIZE) x00 (rng w))
                               (resize (Z.to_nat AES_IV_SIZE) x00
                                  (drop (Z.to_nat AES_KEY_SIZE) (rng w)))
                               content]> fs)
              _ _ Hp2 (lookup_insert_eq _ _ _) Hf1 Hkd1 Hmax Hmax64)
    as (sess2 & w2 & Hdec).
  eexists _, _. split; [exact Henc|]. split; [exact Hdec|].
  cbn [files]. apply lookup_insert_eq.
Qed.

Lemma decrypt_file_restores_plaintext_witness :
  exists hw1 hw2,
    encrypt_file plain_platform 64 path_plain path_cipher
      (mkHost quiet_world fresh_session {[ path_plain := [x61; x62; x63] ]} [])
    = Some (TEEC_SUCCESS, hw1)
    /\ decrypt_file plain_platform 64 path_cipher path_out hw1
       = Some (TEEC_SUCCESS, hw2)
    /\ files hw2 !! path_out = Some [x61; x62; x63].
Proof.
  apply (decrypt_file_restores_plaintext plain_platform 64 path_plain path_cipher
           path_out [x61; x62; x63] quiet_world fresh_session
           {[ path_plain := [x61; x62; x63] ]});
    [intros k chain blocks _; split; reflexivity
    | discriminate | discriminate | reflexivity | reflexivity | reflexivity
    | reflexivity | reflexivity].
Defined.

End CryptoHostSpec.
